(** * cockpit-task-manager: the telemetry sampling engine

    A shallow embedding of [src/system-stats-service.ts] and of the rate
    derivation of the process service ([fetchProcesses], whose text follows
    the type declarations in [src/types.ts]), followed by the properties of
    the engine that the specification states about them.

    Conventions of the embedding.
    - A JavaScript [number] is [NaN] or an exact rational ([Num q], kept in
      lowest terms).  The values the engine computes with are integers read
      from /proc and their quotients by 1024, by the elapsed seconds and by
      tick deltas; rounding of IEEE doubles is not modelled, and the
      infinities do not occur: every division of the source is by a
      constant or is guarded by a positivity test.
    - JavaScript arrays of history points are mutable objects with an
      identity: they live in a heap ([arrays]) and the engine's variables
      hold their locations.  History points are written once and never
      updated by the engine; they are values.
    - [Date.now()] reads the next value of a clock held in the state.
    - A [Record<string, T>] of the engine is an object literal.  The entries
      it owns are a [gmap], or a list in the order of their creation when the
      engine iterates over them with [Object.entries] ([obj]); a lookup that
      finds no entry answers what every object inherits from
      [Object.prototype] under that name ([constructor], [toString],
      [__proto__] and the like) before it answers [undefined]
      ([property_of]), an assignment to [__proto__] creates no entry, and
      [Object.entries] lists the keys that are array indices first
      ([entries]).  A [TypeError] raised inside the [try] block of a pass
      ends the block ([fold_try]). *)

From Stdlib Require Import QArith Qround Qminmax Ascii Lqa.
From stdpp Require Import gmap strings list fin_maps pretty.

Local Open Scope Z_scope.

(** ** JavaScript numbers *)

Inductive number :=
  | NaN
  | Num (q : Q).

#[global] Instance Q_eq_dec : EqDecision Q.
Proof. solve_decision. Defined.
#[global] Instance number_eq_dec : EqDecision number.
Proof. solve_decision. Defined.

Definition number_code (a : number) : option (Z * positive) :=
  match a with
  | Num q => Some (Qnum q, Qden q)
  | NaN => None
  end.

Definition number_decode (c : option (Z * positive)) : number :=
  match c with
  | Some (n, d) => Num (n # d)
  | None => NaN
  end.

#[global] Program Instance number_countable : Countable number :=
  inj_countable' number_code number_decode _.
Next Obligation. by intros [| []]. Qed.

Definition num_of_Z (z : Z) : number := Num (inject_Z z).

(** The property key [String(a)] of a number used as a key, as the number in
    lowest terms: two numbers give the same key when they are equal, and
    [NaN] gives a key of its own. *)
Definition number_key (a : number) : number :=
  match a with
  | Num q => Num (Qred q)
  | NaN => NaN
  end.

Definition lift2 (f : Q → Q → Q) (a b : number) : number :=
  match a, b with
  | Num x, Num y => Num (Qred (f x y))
  | _, _ => NaN
  end.

Definition nadd : number → number → number := lift2 Qplus.
Definition nsub : number → number → number := lift2 Qminus.
Definition nmul : number → number → number := lift2 Qmult.

(** [a / b].  A zero divisor is not reached by the engine (see above); the
    model answers [NaN] there. *)
Definition ndiv (a b : number) : number :=
  match a, b with
  | Num x, Num y => if Qeq_bool y 0 then NaN else Num (Qred (x / y))
  | _, _ => NaN
  end.

(** [a > b]: false as soon as one side is [NaN]. *)
Definition ngt (a b : number) : bool :=
  match a, b with
  | Num x, Num y => negb (Qle_bool x y)
  | _, _ => false
  end.

(** [Math.max(a, b)] and [Math.min(a, b)]. *)
Definition math_max (a b : number) : number :=
  match a, b with
  | Num x, Num y => Num (if Qle_bool x y then y else x)
  | _, _ => NaN
  end.

Definition math_min (a b : number) : number :=
  match a, b with
  | Num x, Num y => Num (if Qle_bool x y then x else y)
  | _, _ => NaN
  end.

(** [Math.floor(a)]. *)
Definition math_floor (a : number) : number :=
  match a with
  | Num x => num_of_Z (Qfloor x)
  | NaN => NaN
  end.

(** Rounding toward zero. *)
Definition Qtrunc (x : Q) : Z := Z.quot (Qnum x) (Z.pos (Qden x)).

(** [a % b] for a non-zero constant [b]: the remainder has the sign of the
    dividend. *)
Definition nrem (a b : number) : number :=
  match a, b with
  | Num x, Num y =>
      if Qeq_bool y 0 then NaN
      else Num (Qred (x - y * inject_Z (Qtrunc (x / y))))
  | _, _ => NaN
  end.

(** Truthiness of a number: [NaN] and zero are falsy. *)
Definition truthy (a : number) : bool :=
  match a with
  | Num x => negb (Qeq_bool x 0)
  | NaN => false
  end.

(** [x || 0] where [x] is an array element that may be missing. *)
Definition or_zero (x : option number) : number :=
  match x with
  | Some a => if truthy a then a else num_of_Z 0
  | None => num_of_Z 0
  end.

(** An array element used as an operand: a missing element ([undefined])
    becomes [NaN] in arithmetic. *)
Definition operand (x : option number) : number := default NaN x.

(** [arr.reduce((a, b) => a + b, 0)]. *)
Definition sum (l : list number) : number := foldl nadd (num_of_Z 0) l.

(** A number whose value is a rational at least zero. *)
Definition nonneg (a : number) : Prop :=
  match a with
  | Num x => (0 <= x)%Q
  | NaN => False
  end.

Definition is_num (a : number) : Prop :=
  match a with Num _ => True | NaN => False end.

(** ** Text primitives

    The ECMAScript string and regular-expression operations the engine
    applies to the text of /proc, on strings of bytes. *)

Local Open Scope string_scope.

Definition is_digit (c : ascii) : bool :=
  let n := nat_of_ascii c in (48 <=? n)%nat && (n <=? 57)%nat.

Definition is_lower (c : ascii) : bool :=
  let n := nat_of_ascii c in (97 <=? n)%nat && (n <=? 122)%nat.

(** The class [\s] (and the white space of [trim]) among the bytes: tab,
    line feed, vertical tab, form feed, carriage return, space. *)
Definition is_ws (c : ascii) : bool :=
  let n := nat_of_ascii c in ((9 <=? n)%nat && (n <=? 13)%nat) || (n =? 32)%nat.

Definition digit_val (c : ascii) : Z := Z.of_nat (nat_of_ascii c) - 48.

Fixpoint rev_string (s acc : string) : string :=
  match s with
  | EmptyString => acc
  | String c s' => rev_string s' (String c acc)
  end.

Fixpoint trim_start (s : string) : string :=
  match s with
  | String c s' => if is_ws c then trim_start s' else s
  | EmptyString => EmptyString
  end.

(** [s.trim()]. *)
Definition trim (s : string) : string :=
  rev_string (trim_start (rev_string (trim_start s) "")) "".

(** [s.split(sep)] for a one-character separator. *)
Fixpoint split_on (sep : ascii) (s cur : string) : list string :=
  match s with
  | EmptyString => [rev_string cur ""]
  | String c s' =>
      if decide (c = sep) then rev_string cur "" :: split_on sep s' ""
      else split_on sep s' (String c cur)
  end.

Definition split_char (sep : ascii) (s : string) : list string :=
  split_on sep s "".

Definition newline : ascii := ascii_of_nat 10.
Definition split_lines (s : string) : list string := split_char newline s.

(** [s.split(/\s+/)]: the pieces between maximal runs of white space; a run
    at either end leaves an empty piece there, and the empty string gives one
    empty piece. *)
Fixpoint split_ws_from (s cur : string) (in_run : bool) : list string :=
  match s with
  | EmptyString => [rev_string cur ""]
  | String c s' =>
      if is_ws c then
        if in_run then split_ws_from s' cur true
        else rev_string cur "" :: split_ws_from s' "" true
      else split_ws_from s' (String c cur) false
  end.

Definition split_ws (s : string) : list string := split_ws_from s "" false.

(** [line.trim().split(/\s+/)], the row parser of every section. *)
Definition fields (line : string) : list string := split_ws (trim line).

(** The longest prefix of decimal digits, as (value, number of digits, rest). *)
Fixpoint digits_from (s : string) (acc : Z) (n : nat) : Z * nat * string :=
  match s with
  | String c s' =>
      if is_digit c then digits_from s' (10 * acc + digit_val c) (S n)
      else (acc, n, s)
  | EmptyString => (acc, n, s)
  end.

Definition digits (s : string) : Z * nat * string := digits_from s 0 0%nat.

(** An optional sign: its factor and the rest. *)
Definition sign_of (s : string) : Z * string :=
  match s with
  | String "-" s' => (-1, s')
  | String "+" s' => (1, s')
  | _ => (1, s)
  end.

(** [parseInt(s, 10)]: leading white space, an optional sign, then the longest
    run of digits; [NaN] without a digit. *)
Definition parseInt (s : string) : number :=
  let '(sg, s1) := sign_of (trim_start s) in
  let '(v, n, _) := digits s1 in
  if (n =? 0)%nat then NaN else num_of_Z (sg * v).

(** A decimal literal [digits], [digits.digits], [digits.] or [.digits] at the
    head of [s]: its value and the rest, or nothing when no digit is there. *)
Definition decimal_prefix (s : string) : option (Q * string) :=
  let '(ip, n, s1) := digits s in
  match s1 with
  | String "." s2 =>
      let '(fp, k, s3) := digits s2 in
      if ((n =? 0) && (k =? 0))%nat then None
      else Some (Qred (inject_Z ip + inject_Z fp / inject_Z (10 ^ Z.of_nat k)), s3)
  | _ => if (n =? 0)%nat then None else Some (inject_Z ip, s1)
  end.

(** [parseFloat(s)] on decimal literals: leading white space, an optional
    sign, the longest decimal literal.  Exponents and [Infinity], which the
    files of /proc do not contain, are not read. *)
Definition parseFloat (s : string) : number :=
  let '(sg, s1) := sign_of (trim_start s) in
  match decimal_prefix s1 with
  | Some (q, _) => Num (Qred (inject_Z sg * q))
  | None => NaN
  end.

(** [Number(s)]: the whole trimmed string must be a decimal literal; the empty
    string is 0.  Exponent, hexadecimal and [Infinity] literals, which the
    files of /proc do not contain, are answered [NaN]. *)
Definition Number (s : string) : number :=
  let t := trim s in
  match t with
  | EmptyString => num_of_Z 0
  | _ =>
      let '(sg, s1) := sign_of t in
      match decimal_prefix s1 with
      | Some (q, EmptyString) => Num (Qred (inject_Z sg * q))
      | _ => NaN
      end
  end.

(** [String(x)] for the integral values the uptime text is built from. *)
Definition show (a : number) : string :=
  match a with
  | Num x => pretty (Qfloor x)
  | NaN => "NaN"
  end.

Fixpoint starts_with (p s : string) : bool :=
  match p, s with
  | EmptyString, _ => true
  | String a p', String b s' => if decide (a = b) then starts_with p' s' else false
  | String _ _, EmptyString => false
  end.

Fixpoint drop_prefix (p s : string) : option string :=
  match p, s with
  | EmptyString, _ => Some s
  | String a p', String b s' => if decide (a = b) then drop_prefix p' s' else None
  | String _ _, EmptyString => None
  end.

Definition head_is (f : ascii → bool) (s : string) : bool :=
  match s with
  | String c _ => f c
  | EmptyString => false
  end.

Fixpoint last_is (f : ascii → bool) (s : string) : bool :=
  match s with
  | EmptyString => false
  | String c EmptyString => f c
  | String _ s' => last_is f s'
  end.

(** [/^cpu\d+/.test(l)]. *)
Definition is_core_line (l : string) : bool :=
  match drop_prefix "cpu" l with
  | Some r => head_is is_digit r
  | None => false
  end.

(** [/^(sd|nvme|vd|xvd|hd)[a-z]/.test(name)]. *)
Definition disk_prefixes : list string := ["sd"; "nvme"; "vd"; "xvd"; "hd"].

Definition has_disk_prefix (name : string) : bool :=
  existsb (λ p, match drop_prefix p name with
                | Some r => head_is is_lower r
                | None => false
                end) disk_prefixes.

(** [/\d+$/.test(name)]. *)
Definition ends_in_digit (name : string) : bool := last_is is_digit name.

(** The device filter of the disk section. *)
Definition is_whole_disk (name : string) : bool :=
  has_disk_prefix name && negb (ends_in_digit name).

(** [s.replace(':', '')]: the first colon is removed. *)
Fixpoint remove_first_colon (s : string) : string :=
  match s with
  | EmptyString => EmptyString
  | String c s' => if decide (c = ":"%char) then s' else String c (remove_first_colon s')
  end.

(** [content.match(new RegExp(key + ":\\s*(\\d+)"))]: the leftmost place where
    [key], a colon, white space and at least one digit follow one another; the
    result is [parseInt] of the captured digits. *)
Definition capture_at (key s : string) : option Z :=
  match drop_prefix (key +:+ ":") s with
  | Some r =>
      let '(v, n, _) := digits (trim_start r) in
      if (n =? 0)%nat then None else Some v
  | None => None
  end.

Fixpoint first_capture (key s : string) : option Z :=
  match capture_at key s with
  | Some v => Some v
  | None =>
      match s with
      | String _ s' => first_capture key s'
      | EmptyString => None
      end
  end.

(** Truthiness of a string read from a file: [null] and the empty string are
    falsy. *)
Definition content_of (c : option string) : option string :=
  match c with
  | Some EmptyString => None
  | _ => c
  end.

(** ** Data model ([src/types.ts] and the module state of the service) *)

Record HistoryPoint := { timestamp : Z; value : number }.

(** The arrays of history points.  An array is named after the expression
    that creates it: the six arrays of [history] are created when the module
    is loaded; the arrays of a disk, an interface, a core or a GPU are created
    by the statement that finds the key missing from its history map, and the
    engine never removes a key, so such a name is bound once; the arrays an
    accessor creates for its caller are numbered. *)
Inductive stream := cpu | memory | diskRead | diskWrite | networkSent | networkRecv.

Inductive side := fst_side | snd_side.

Inductive loc :=
  | GlobalArr (s : stream)
  | DiskArr (dev : string) (w : side)
  | IfaceArr (iface : string) (w : side)
  | CoreArr (i : nat)
  | GpuArr (idx : number) (w : side)
  | CopyArr (n : nat).

#[global] Instance stream_eq_dec : EqDecision stream.
Proof. solve_decision. Defined.
#[global] Instance side_eq_dec : EqDecision side.
Proof. solve_decision. Defined.
#[global] Instance loc_eq_dec : EqDecision loc.
Proof. solve_decision. Defined.

Definition stream_code (s : stream) : nat :=
  match s with
  | cpu => 0 | memory => 1 | diskRead => 2 | diskWrite => 3
  | networkSent => 4 | networkRecv => 5
  end%nat.

Definition stream_decode (n : nat) : option stream :=
  match n with
  | 0 => Some cpu | 1 => Some memory | 2 => Some diskRead | 3 => Some diskWrite
  | 4 => Some networkSent | 5 => Some networkRecv | _ => None
  end%nat.

#[global] Program Instance stream_countable : Countable stream :=
  inj_countable stream_code stream_decode _.
Next Obligation. by intros []. Qed.

Definition side_code (w : side) : bool :=
  match w with fst_side => false | snd_side => true end.
Definition side_decode (b : bool) : side := if b then snd_side else fst_side.

#[global] Program Instance side_countable : Countable side :=
  inj_countable' side_code side_decode _.
Next Obligation. by intros []. Qed.

Definition loc_code (l : loc)
    : stream + (string * side) + (string * side) + nat + (number * side) + nat :=
  match l with
  | GlobalArr s => inl (inl (inl (inl (inl s))))
  | DiskArr d w => inl (inl (inl (inl (inr (d, w)))))
  | IfaceArr i w => inl (inl (inl (inr (i, w))))
  | CoreArr i => inl (inl (inr i))
  | GpuArr i w => inl (inr (i, w))
  | CopyArr n => inr n
  end.

Definition loc_decode
  (c   : stream + (string * side) + (string * side) + nat + (number * side) + nat) : loc :=
  match c with
  | inl (inl (inl (inl (inl s)))) => GlobalArr s
  | inl (inl (inl (inl (inr (d, w))))) => DiskArr d w
  | inl (inl (inl (inr (i, w)))) => IfaceArr i w
  | inl (inl (inr i)) => CoreArr i
  | inl (inr (i, w)) => GpuArr i w
  | inr n => CopyArr n
  end.

#[global] Program Instance loc_countable : Countable loc :=
  inj_countable' loc_code loc_decode _.
Next Obligation. by intros []. Qed.

Record SystemHistory := {
  h_cpu : loc; h_memory : loc; h_diskRead : loc; h_diskWrite : loc;
  h_networkSent : loc; h_networkRecv : loc
}.

(** [{ read, write, timestamp }] and [{ sent, recv, timestamp }]. *)
Record DiskSnapshot := { d_read : number; d_write : number; d_timestamp : Z }.
Record NetSnapshot := { n_sent : number; n_recv : number; n_timestamp : Z }.

(** [{ readRate, writeRate }] and [{ sentRate, recvRate }]. *)
Record DiskRate := { readRate : number; writeRate : number }.
Record IfaceRate := { sentRate : number; recvRate : number }.

Record SystemStats := {
  cpuUsage : number;
  cpuCores : nat;
  cpuPerCore : list number;
  memoryTotal : number;
  memoryUsed : number;
  memoryFree : number;
  memoryCached : number;
  swapTotal : number;
  swapUsed : number;
  diskReadRate : number;
  diskWriteRate : number;
  perDiskStats : gmap string DiskRate;
  networkSentRate : number;
  networkRecvRate : number;
  perIfaceStats : gmap string IfaceRate;
  uptime : string;
  loadAvg : list number
}.

Definition with_cpuUsage (v : number) (r : SystemStats) : SystemStats :=
  {| cpuUsage := v; cpuCores := cpuCores r; cpuPerCore := cpuPerCore r; memoryTotal := memoryTotal r; memoryUsed := memoryUsed r; memoryFree := memoryFree r; memoryCached := memoryCached r; swapTotal := swapTotal r; swapUsed := swapUsed r; diskReadRate := diskReadRate r; diskWriteRate := diskWriteRate r; perDiskStats := perDiskStats r; networkSentRate := networkSentRate r; networkRecvRate := networkRecvRate r; perIfaceStats := perIfaceStats r; uptime := uptime r; loadAvg := loadAvg r |}.
Definition with_cpuCores (v : nat) (r : SystemStats) : SystemStats :=
  {| cpuUsage := cpuUsage r; cpuCores := v; cpuPerCore := cpuPerCore r; memoryTotal := memoryTotal r; memoryUsed := memoryUsed r; memoryFree := memoryFree r; memoryCached := memoryCached r; swapTotal := swapTotal r; swapUsed := swapUsed r; diskReadRate := diskReadRate r; diskWriteRate := diskWriteRate r; perDiskStats := perDiskStats r; networkSentRate := networkSentRate r; networkRecvRate := networkRecvRate r; perIfaceStats := perIfaceStats r; uptime := uptime r; loadAvg := loadAvg r |}.
Definition with_cpuPerCore (v : list number) (r : SystemStats) : SystemStats :=
  {| cpuUsage := cpuUsage r; cpuCores := cpuCores r; cpuPerCore := v; memoryTotal := memoryTotal r; memoryUsed := memoryUsed r; memoryFree := memoryFree r; memoryCached := memoryCached r; swapTotal := swapTotal r; swapUsed := swapUsed r; diskReadRate := diskReadRate r; diskWriteRate := diskWriteRate r; perDiskStats := perDiskStats r; networkSentRate := networkSentRate r; networkRecvRate := networkRecvRate r; perIfaceStats := perIfaceStats r; uptime := uptime r; loadAvg := loadAvg r |}.
Definition with_memoryTotal (v : number) (r : SystemStats) : SystemStats :=
  {| cpuUsage := cpuUsage r; cpuCores := cpuCores r; cpuPerCore := cpuPerCore r; memoryTotal := v; memoryUsed := memoryUsed r; memoryFree := memoryFree r; memoryCached := memoryCached r; swapTotal := swapTotal r; swapUsed := swapUsed r; diskReadRate := diskReadRate r; diskWriteRate := diskWriteRate r; perDiskStats := perDiskStats r; networkSentRate := networkSentRate r; networkRecvRate := networkRecvRate r; perIfaceStats := perIfaceStats r; uptime := uptime r; loadAvg := loadAvg r |}.
Definition with_memoryUsed (v : number) (r : SystemStats) : SystemStats :=
  {| cpuUsage := cpuUsage r; cpuCores := cpuCores r; cpuPerCore := cpuPerCore r; memoryTotal := memoryTotal r; memoryUsed := v; memoryFree := memoryFree r; memoryCached := memoryCached r; swapTotal := swapTotal r; swapUsed := swapUsed r; diskReadRate := diskReadRate r; diskWriteRate := diskWriteRate r; perDiskStats := perDiskStats r; networkSentRate := networkSentRate r; networkRecvRate := networkRecvRate r; perIfaceStats := perIfaceStats r; uptime := uptime r; loadAvg := loadAvg r |}.
Definition with_memoryFree (v : number) (r : SystemStats) : SystemStats :=
  {| cpuUsage := cpuUsage r; cpuCores := cpuCores r; cpuPerCore := cpuPerCore r; memoryTotal := memoryTotal r; memoryUsed := memoryUsed r; memoryFree := v; memoryCached := memoryCached r; swapTotal := swapTotal r; swapUsed := swapUsed r; diskReadRate := diskReadRate r; diskWriteRate := diskWriteRate r; perDiskStats := perDiskStats r; networkSentRate := networkSentRate r; networkRecvRate := networkRecvRate r; perIfaceStats := perIfaceStats r; uptime := uptime r; loadAvg := loadAvg r |}.
Definition with_memoryCached (v : number) (r : SystemStats) : SystemStats :=
  {| cpuUsage := cpuUsage r; cpuCores := cpuCores r; cpuPerCore := cpuPerCore r; memoryTotal := memoryTotal r; memoryUsed := memoryUsed r; memoryFree := memoryFree r; memoryCached := v; swapTotal := swapTotal r; swapUsed := swapUsed r; diskReadRate := diskReadRate r; diskWriteRate := diskWriteRate r; perDiskStats := perDiskStats r; networkSentRate := networkSentRate r; networkRecvRate := networkRecvRate r; perIfaceStats := perIfaceStats r; uptime := uptime r; loadAvg := loadAvg r |}.
Definition with_swapTotal (v : number) (r : SystemStats) : SystemStats :=
  {| cpuUsage := cpuUsage r; cpuCores := cpuCores r; cpuPerCore := cpuPerCore r; memoryTotal := memoryTotal r; memoryUsed := memoryUsed r; memoryFree := memoryFree r; memoryCached := memoryCached r; swapTotal := v; swapUsed := swapUsed r; diskReadRate := diskReadRate r; diskWriteRate := diskWriteRate r; perDiskStats := perDiskStats r; networkSentRate := networkSentRate r; networkRecvRate := networkRecvRate r; perIfaceStats := perIfaceStats r; uptime := uptime r; loadAvg := loadAvg r |}.
Definition with_swapUsed (v : number) (r : SystemStats) : SystemStats :=
  {| cpuUsage := cpuUsage r; cpuCores := cpuCores r; cpuPerCore := cpuPerCore r; memoryTotal := memoryTotal r; memoryUsed := memoryUsed r; memoryFree := memoryFree r; memoryCached := memoryCached r; swapTotal := swapTotal r; swapUsed := v; diskReadRate := diskReadRate r; diskWriteRate := diskWriteRate r; perDiskStats := perDiskStats r; networkSentRate := networkSentRate r; networkRecvRate := networkRecvRate r; perIfaceStats := perIfaceStats r; uptime := uptime r; loadAvg := loadAvg r |}.
Definition with_diskReadRate (v : number) (r : SystemStats) : SystemStats :=
  {| cpuUsage := cpuUsage r; cpuCores := cpuCores r; cpuPerCore := cpuPerCore r; memoryTotal := memoryTotal r; memoryUsed := memoryUsed r; memoryFree := memoryFree r; memoryCached := memoryCached r; swapTotal := swapTotal r; swapUsed := swapUsed r; diskReadRate := v; diskWriteRate := diskWriteRate r; perDiskStats := perDiskStats r; networkSentRate := networkSentRate r; networkRecvRate := networkRecvRate r; perIfaceStats := perIfaceStats r; uptime := uptime r; loadAvg := loadAvg r |}.
Definition with_diskWriteRate (v : number) (r : SystemStats) : SystemStats :=
  {| cpuUsage := cpuUsage r; cpuCores := cpuCores r; cpuPerCore := cpuPerCore r; memoryTotal := memoryTotal r; memoryUsed := memoryUsed r; memoryFree := memoryFree r; memoryCached := memoryCached r; swapTotal := swapTotal r; swapUsed := swapUsed r; diskReadRate := diskReadRate r; diskWriteRate := v; perDiskStats := perDiskStats r; networkSentRate := networkSentRate r; networkRecvRate := networkRecvRate r; perIfaceStats := perIfaceStats r; uptime := uptime r; loadAvg := loadAvg r |}.
Definition with_perDiskStats (v : gmap string DiskRate) (r : SystemStats) : SystemStats :=
  {| cpuUsage := cpuUsage r; cpuCores := cpuCores r; cpuPerCore := cpuPerCore r; memoryTotal := memoryTotal r; memoryUsed := memoryUsed r; memoryFree := memoryFree r; memoryCached := memoryCached r; swapTotal := swapTotal r; swapUsed := swapUsed r; diskReadRate := diskReadRate r; diskWriteRate := diskWriteRate r; perDiskStats := v; networkSentRate := networkSentRate r; networkRecvRate := networkRecvRate r; perIfaceStats := perIfaceStats r; uptime := uptime r; loadAvg := loadAvg r |}.
Definition with_networkSentRate (v : number) (r : SystemStats) : SystemStats :=
  {| cpuUsage := cpuUsage r; cpuCores := cpuCores r; cpuPerCore := cpuPerCore r; memoryTotal := memoryTotal r; memoryUsed := memoryUsed r; memoryFree := memoryFree r; memoryCached := memoryCached r; swapTotal := swapTotal r; swapUsed := swapUsed r; diskReadRate := diskReadRate r; diskWriteRate := diskWriteRate r; perDiskStats := perDiskStats r; networkSentRate := v; networkRecvRate := networkRecvRate r; perIfaceStats := perIfaceStats r; uptime := uptime r; loadAvg := loadAvg r |}.
Definition with_networkRecvRate (v : number) (r : SystemStats) : SystemStats :=
  {| cpuUsage := cpuUsage r; cpuCores := cpuCores r; cpuPerCore := cpuPerCore r; memoryTotal := memoryTotal r; memoryUsed := memoryUsed r; memoryFree := memoryFree r; memoryCached := memoryCached r; swapTotal := swapTotal r; swapUsed := swapUsed r; diskReadRate := diskReadRate r; diskWriteRate := diskWriteRate r; perDiskStats := perDiskStats r; networkSentRate := networkSentRate r; networkRecvRate := v; perIfaceStats := perIfaceStats r; uptime := uptime r; loadAvg := loadAvg r |}.
Definition with_perIfaceStats (v : gmap string IfaceRate) (r : SystemStats) : SystemStats :=
  {| cpuUsage := cpuUsage r; cpuCores := cpuCores r; cpuPerCore := cpuPerCore r; memoryTotal := memoryTotal r; memoryUsed := memoryUsed r; memoryFree := memoryFree r; memoryCached := memoryCached r; swapTotal := swapTotal r; swapUsed := swapUsed r; diskReadRate := diskReadRate r; diskWriteRate := diskWriteRate r; perDiskStats := perDiskStats r; networkSentRate := networkSentRate r; networkRecvRate := networkRecvRate r; perIfaceStats := v; uptime := uptime r; loadAvg := loadAvg r |}.
Definition with_uptime (v : string) (r : SystemStats) : SystemStats :=
  {| cpuUsage := cpuUsage r; cpuCores := cpuCores r; cpuPerCore := cpuPerCore r; memoryTotal := memoryTotal r; memoryUsed := memoryUsed r; memoryFree := memoryFree r; memoryCached := memoryCached r; swapTotal := swapTotal r; swapUsed := swapUsed r; diskReadRate := diskReadRate r; diskWriteRate := diskWriteRate r; perDiskStats := perDiskStats r; networkSentRate := networkSentRate r; networkRecvRate := networkRecvRate r; perIfaceStats := perIfaceStats r; uptime := v; loadAvg := loadAvg r |}.
Definition with_loadAvg (v : list number) (r : SystemStats) : SystemStats :=
  {| cpuUsage := cpuUsage r; cpuCores := cpuCores r; cpuPerCore := cpuPerCore r; memoryTotal := memoryTotal r; memoryUsed := memoryUsed r; memoryFree := memoryFree r; memoryCached := memoryCached r; swapTotal := swapTotal r; swapUsed := swapUsed r; diskReadRate := diskReadRate r; diskWriteRate := diskWriteRate r; perDiskStats := perDiskStats r; networkSentRate := networkSentRate r; networkRecvRate := networkRecvRate r; perIfaceStats := perIfaceStats r; uptime := uptime r; loadAvg := v |}.

(** The module state of [system-stats-service.ts], the heap of history arrays
    ([arrays], [copies] counts the arrays handed to callers) and the clock
    ([clock (ticks)] is what the next [Date.now()] returns). *)
Record engine := {
  clock : nat → Z;
  ticks : nat;
  arrays : gmap loc (list HistoryPoint);
  copies : nat;
  prevCpuTimes : option (list number);
  prevPerCoreTimes : option (list (list number));
  prevNetStats : option NetSnapshot;
  prevPerIfaceStats : gmap string NetSnapshot;
  prevDiskStats : option DiskSnapshot;
  prevPerDiskStats : gmap string DiskSnapshot;
  perDiskHistories : gmap string (loc * loc);
  perIfaceHistories : gmap string (loc * loc);
  perCoreHistories : gmap nat loc;
  gpuHistories : gmap number (loc * loc)
}.

Definition set_clock (v : nat → Z) (r : engine) : engine :=
  {| clock := v; ticks := ticks r; arrays := arrays r; copies := copies r; prevCpuTimes := prevCpuTimes r; prevPerCoreTimes := prevPerCoreTimes r; prevNetStats := prevNetStats r; prevPerIfaceStats := prevPerIfaceStats r; prevDiskStats := prevDiskStats r; prevPerDiskStats := prevPerDiskStats r; perDiskHistories := perDiskHistories r; perIfaceHistories := perIfaceHistories r; perCoreHistories := perCoreHistories r; gpuHistories := gpuHistories r |}.
Definition set_ticks (v : nat) (r : engine) : engine :=
  {| clock := clock r; ticks := v; arrays := arrays r; copies := copies r; prevCpuTimes := prevCpuTimes r; prevPerCoreTimes := prevPerCoreTimes r; prevNetStats := prevNetStats r; prevPerIfaceStats := prevPerIfaceStats r; prevDiskStats := prevDiskStats r; prevPerDiskStats := prevPerDiskStats r; perDiskHistories := perDiskHistories r; perIfaceHistories := perIfaceHistories r; perCoreHistories := perCoreHistories r; gpuHistories := gpuHistories r |}.
Definition set_arrays (v : gmap loc (list HistoryPoint)) (r : engine) : engine :=
  {| clock := clock r; ticks := ticks r; arrays := v; copies := copies r; prevCpuTimes := prevCpuTimes r; prevPerCoreTimes := prevPerCoreTimes r; prevNetStats := prevNetStats r; prevPerIfaceStats := prevPerIfaceStats r; prevDiskStats := prevDiskStats r; prevPerDiskStats := prevPerDiskStats r; perDiskHistories := perDiskHistories r; perIfaceHistories := perIfaceHistories r; perCoreHistories := perCoreHistories r; gpuHistories := gpuHistories r |}.
Definition set_copies (v : nat) (r : engine) : engine :=
  {| clock := clock r; ticks := ticks r; arrays := arrays r; copies := v; prevCpuTimes := prevCpuTimes r; prevPerCoreTimes := prevPerCoreTimes r; prevNetStats := prevNetStats r; prevPerIfaceStats := prevPerIfaceStats r; prevDiskStats := prevDiskStats r; prevPerDiskStats := prevPerDiskStats r; perDiskHistories := perDiskHistories r; perIfaceHistories := perIfaceHistories r; perCoreHistories := perCoreHistories r; gpuHistories := gpuHistories r |}.
Definition set_prevCpuTimes (v : option (list number)) (r : engine) : engine :=
  {| clock := clock r; ticks := ticks r; arrays := arrays r; copies := copies r; prevCpuTimes := v; prevPerCoreTimes := prevPerCoreTimes r; prevNetStats := prevNetStats r; prevPerIfaceStats := prevPerIfaceStats r; prevDiskStats := prevDiskStats r; prevPerDiskStats := prevPerDiskStats r; perDiskHistories := perDiskHistories r; perIfaceHistories := perIfaceHistories r; perCoreHistories := perCoreHistories r; gpuHistories := gpuHistories r |}.
Definition set_prevPerCoreTimes (v : option (list (list number))) (r : engine) : engine :=
  {| clock := clock r; ticks := ticks r; arrays := arrays r; copies := copies r; prevCpuTimes := prevCpuTimes r; prevPerCoreTimes := v; prevNetStats := prevNetStats r; prevPerIfaceStats := prevPerIfaceStats r; prevDiskStats := prevDiskStats r; prevPerDiskStats := prevPerDiskStats r; perDiskHistories := perDiskHistories r; perIfaceHistories := perIfaceHistories r; perCoreHistories := perCoreHistories r; gpuHistories := gpuHistories r |}.
Definition set_prevNetStats (v : option NetSnapshot) (r : engine) : engine :=
  {| clock := clock r; ticks := ticks r; arrays := arrays r; copies := copies r; prevCpuTimes := prevCpuTimes r; prevPerCoreTimes := prevPerCoreTimes r; prevNetStats := v; prevPerIfaceStats := prevPerIfaceStats r; prevDiskStats := prevDiskStats r; prevPerDiskStats := prevPerDiskStats r; perDiskHistories := perDiskHistories r; perIfaceHistories := perIfaceHistories r; perCoreHistories := perCoreHistories r; gpuHistories := gpuHistories r |}.
Definition set_prevPerIfaceStats (v : gmap string NetSnapshot) (r : engine) : engine :=
  {| clock := clock r; ticks := ticks r; arrays := arrays r; copies := copies r; prevCpuTimes := prevCpuTimes r; prevPerCoreTimes := prevPerCoreTimes r; prevNetStats := prevNetStats r; prevPerIfaceStats := v; prevDiskStats := prevDiskStats r; prevPerDiskStats := prevPerDiskStats r; perDiskHistories := perDiskHistories r; perIfaceHistories := perIfaceHistories r; perCoreHistories := perCoreHistories r; gpuHistories := gpuHistories r |}.
Definition set_prevDiskStats (v : option DiskSnapshot) (r : engine) : engine :=
  {| clock := clock r; ticks := ticks r; arrays := arrays r; copies := copies r; prevCpuTimes := prevCpuTimes r; prevPerCoreTimes := prevPerCoreTimes r; prevNetStats := prevNetStats r; prevPerIfaceStats := prevPerIfaceStats r; prevDiskStats := v; prevPerDiskStats := prevPerDiskStats r; perDiskHistories := perDiskHistories r; perIfaceHistories := perIfaceHistories r; perCoreHistories := perCoreHistories r; gpuHistories := gpuHistories r |}.
Definition set_prevPerDiskStats (v : gmap string DiskSnapshot) (r : engine) : engine :=
  {| clock := clock r; ticks := ticks r; arrays := arrays r; copies := copies r; prevCpuTimes := prevCpuTimes r; prevPerCoreTimes := prevPerCoreTimes r; prevNetStats := prevNetStats r; prevPerIfaceStats := prevPerIfaceStats r; prevDiskStats := prevDiskStats r; prevPerDiskStats := v; perDiskHistories := perDiskHistories r; perIfaceHistories := perIfaceHistories r; perCoreHistories := perCoreHistories r; gpuHistories := gpuHistories r |}.
Definition set_perDiskHistories (v : gmap string (loc * loc)) (r : engine) : engine :=
  {| clock := clock r; ticks := ticks r; arrays := arrays r; copies := copies r; prevCpuTimes := prevCpuTimes r; prevPerCoreTimes := prevPerCoreTimes r; prevNetStats := prevNetStats r; prevPerIfaceStats := prevPerIfaceStats r; prevDiskStats := prevDiskStats r; prevPerDiskStats := prevPerDiskStats r; perDiskHistories := v; perIfaceHistories := perIfaceHistories r; perCoreHistories := perCoreHistories r; gpuHistories := gpuHistories r |}.
Definition set_perIfaceHistories (v : gmap string (loc * loc)) (r : engine) : engine :=
  {| clock := clock r; ticks := ticks r; arrays := arrays r; copies := copies r; prevCpuTimes := prevCpuTimes r; prevPerCoreTimes := prevPerCoreTimes r; prevNetStats := prevNetStats r; prevPerIfaceStats := prevPerIfaceStats r; prevDiskStats := prevDiskStats r; prevPerDiskStats := prevPerDiskStats r; perDiskHistories := perDiskHistories r; perIfaceHistories := v; perCoreHistories := perCoreHistories r; gpuHistories := gpuHistories r |}.
Definition set_perCoreHistories (v : gmap nat loc) (r : engine) : engine :=
  {| clock := clock r; ticks := ticks r; arrays := arrays r; copies := copies r; prevCpuTimes := prevCpuTimes r; prevPerCoreTimes := prevPerCoreTimes r; prevNetStats := prevNetStats r; prevPerIfaceStats := prevPerIfaceStats r; prevDiskStats := prevDiskStats r; prevPerDiskStats := prevPerDiskStats r; perDiskHistories := perDiskHistories r; perIfaceHistories := perIfaceHistories r; perCoreHistories := v; gpuHistories := gpuHistories r |}.
Definition set_gpuHistories (v : gmap number (loc * loc)) (r : engine) : engine :=
  {| clock := clock r; ticks := ticks r; arrays := arrays r; copies := copies r; prevCpuTimes := prevCpuTimes r; prevPerCoreTimes := prevPerCoreTimes r; prevNetStats := prevNetStats r; prevPerIfaceStats := prevPerIfaceStats r; prevDiskStats := prevDiskStats r; prevPerDiskStats := prevPerDiskStats r; perDiskHistories := perDiskHistories r; perIfaceHistories := perIfaceHistories r; perCoreHistories := perCoreHistories r; gpuHistories := v |}.

(** [const history = { cpu: [], memory: [], ... }]: the binding and its six
    properties are never reassigned. *)
Definition history : SystemHistory :=
  {| h_cpu := GlobalArr cpu; h_memory := GlobalArr memory;
     h_diskRead := GlobalArr diskRead; h_diskWrite := GlobalArr diskWrite;
     h_networkSent := GlobalArr networkSent; h_networkRecv := GlobalArr networkRecv |}.

Definition global_arrays : gmap loc (list HistoryPoint) :=
  list_to_map ((λ s, (GlobalArr s, [])) <$> [cpu; memory; diskRead; diskWrite; networkSent; networkRecv]).

(** The state right after the module is loaded, for a given clock. *)
Definition init (clk : nat → Z) : engine :=
  {| clock := clk; ticks := 0; arrays := global_arrays; copies := 0;
     prevCpuTimes := None; prevPerCoreTimes := None;
     prevNetStats := None; prevPerIfaceStats := ∅;
     prevDiskStats := None; prevPerDiskStats := ∅;
     perDiskHistories := ∅; perIfaceHistories := ∅;
     perCoreHistories := ∅; gpuHistories := ∅ |}.

(** ** Effects: state passing *)

Definition M (A : Type) : Type := engine → A * engine.

Definition ret {A} (a : A) : M A := λ σ, (a, σ).

Definition bind {A B} (m : M A) (k : A → M B) : M B :=
  λ σ, let (a, σ') := m σ in k a σ'.

Notation "x <- m ;; k" := (bind m (λ x, k))
  (at level 100, m at next level, right associativity).
Notation "m ;;; k" := (bind m (λ _, k))
  (at level 100, right associativity).

Definition get {A} (f : engine → A) : M A := λ σ, (f σ, σ).
Definition modify (f : engine → engine) : M unit := λ σ, (tt, f σ).

(** [Date.now()]. *)
Definition now : M Z :=
  λ σ, (clock σ (ticks σ), set_ticks (S (ticks σ)) σ).

(** ** History streams *)

Definition MAX_HISTORY_POINTS : nat := 60.

(** [arr.push(p); if (arr.length > MAX_HISTORY_POINTS) arr.shift();] on the
    contents of the array. *)
Definition push_shift (p : HistoryPoint) (arr : list HistoryPoint) : list HistoryPoint :=
  let arr' := (arr ++ [p])%list in
  if (MAX_HISTORY_POINTS <? List.length arr')%nat then tail arr' else arr'.

Definition addHistoryPoint (arr : loc) (v : number) : M unit :=
  t <- now ;;
  modify (λ σ, set_arrays (alter (push_shift {| timestamp := t; value := v |}) arr (arrays σ)) σ).

(** A new empty array [[]] bound to the name [l]. *)
Definition new_array (l : loc) : M unit :=
  modify (λ σ, set_arrays (<[l := []]> (arrays σ)) σ).

(** [for (const x of l) { ... }] with a local variable [s] updated by the
    body. *)
Fixpoint fold_m {A S} (body : A → S → M S) (l : list A) (s : S) : M S :=
  match l with
  | [] => ret s
  | x :: l' => s' <- body x s ;; fold_m body l' s'
  end.

(** How a statement inside the [try] block of a pass ends: normally, or by
    raising a [TypeError], which ends the block (the [catch] clause logs it). *)
Inductive ending := Completed | Thrown.

(** [for (const x of l) { ... }] inside the [try] block, with a local
    variable [s] updated by the body: the loop stops at the first iteration
    that throws, with what [s] was at that point. *)
Fixpoint fold_try {A S} (body : A → S → M (S * ending)) (l : list A) (s : S) : M S :=
  match l with
  | [] => ret s
  | x :: l' =>
      r <- body x s ;;
      match r.2 with
      | Completed => fold_try body l' r.1
      | Thrown => ret r.1
      end
  end.

(** ** Records

    The names under which every object finds a property of
    [Object.prototype]. *)
Definition inherited_names : list string :=
  ["__defineGetter__"; "__defineSetter__"; "__lookupGetter__"; "__lookupSetter__";
   "__proto__"; "constructor"; "hasOwnProperty"; "isPrototypeOf";
   "propertyIsEnumerable"; "toLocaleString"; "toString"; "valueOf"].

Definition inherited (k : string) : bool := bool_decide (k ∈ inherited_names).

(** What [o[k]] answers on a record with the entries [m]: the entry the
    record owns; else, under an inherited name, a function of
    [Object.prototype] (the prototype itself for [__proto__]), a truthy value
    that has none of the properties the engine reads; else [undefined]. *)
Inductive property (V : Type) :=
  | Own (v : V)
  | Inherited
  | Undefined.
Arguments Own {V} v.
Arguments Inherited {V}.
Arguments Undefined {V}.

Definition property_of {V} (m : gmap string V) (k : string) : property V :=
  match m !! k with
  | Some v => Own v
  | None => if inherited k then Inherited else Undefined
  end.

(** A [Record<string, V>] built by assignments [o[k] = v] and read with
    [Object.entries(o)]: the entries it owns in the order of their creation,
    an assignment to a present key keeping its place. *)
Definition obj (V : Type) : Type := list (string * V).

Fixpoint obj_put {V} (k : string) (v : V) (o : obj V) : obj V :=
  match o with
  | [] => [(k, v)]
  | (k', v') :: o' => if decide (k' = k) then (k, v) :: o' else (k', v') :: obj_put k v o'
  end.

(** [o[k] = v] for an object [v]: under the key [__proto__] the assignment
    replaces the prototype of [o] and creates no entry. *)
Definition obj_set {V} (k : string) (v : V) (o : obj V) : obj V :=
  if decide (k = "__proto__") then o else obj_put k v o.

Definition obj_keys {V} (o : obj V) : list string := fst <$> o.

(** The key [k] as an array index: the decimal writing, without leading
    zeros, of a whole number below 2^32 - 1. *)
Definition array_index (k : string) : option Z :=
  let '(v, _, rest) := digits k in
  if decide (rest = "" ∧ pretty v = k ∧ (v < 4294967295)%Z) then Some v else None.

Fixpoint insert_indexed {V} (i : Z) (e : string * V) (l : list (Z * (string * V)))
  : list (Z * (string * V)) :=
  match l with
  | [] => [(i, e)]
  | (j, e') :: l' => if (i <? j)%Z then (i, e) :: l else (j, e') :: insert_indexed i e l'
  end.

(** [Object.entries(o)]: the entries whose key is an array index, by
    ascending index, then the other entries in the order of their creation. *)
Definition entries {V} (o : obj V) : list (string * V) :=
  (foldr (λ e acc, match array_index e.1 with
                   | Some i => insert_indexed i e acc
                   | None => acc
                   end) [] o).*2
  ++ List.filter (λ e, match array_index e.1 with Some _ => false | None => true end) o.

(** ** The sampling pass: [fetchSystemStats] *)

(** [parseCpuLine(line)]. *)
Definition parseCpuLine (line : string) : list number :=
  Number <$> drop 1 (fields line).

(** [t[3] + (t[4] || 0)]: idle plus iowait ticks. *)
Definition idle_ticks (t : list number) : number :=
  nadd (operand (t !! 3%nat)) (or_zero (t !! 4%nat)).

Definition totalDelta (cur prev : list number) : number := nsub (sum cur) (sum prev).
Definition idleDelta (cur prev : list number) : number := nsub (idle_ticks cur) (idle_ticks prev).

(** [totalDelta > 0 ? Math.max(0, Math.min(100, ((totalDelta - idleDelta) /
    totalDelta) * 100)) : 0], written out by the source once for the aggregate
    line and once per core. *)
Definition cpu_usage (cur prev : list number) : number :=
  let total := totalDelta cur prev in
  let idle := idleDelta cur prev in
  if ngt total (num_of_Z 0)
  then math_max (num_of_Z 0)
         (math_min (num_of_Z 100) (nmul (ndiv (nsub total idle) total) (num_of_Z 100)))
  else num_of_Z 0.

(** [if (!perCoreHistories[i]) perCoreHistories[i] = [];] and the array then
    found at [perCoreHistories[i]]. *)
Definition core_history (i : nat) : M loc :=
  h <- get (λ σ, perCoreHistories σ !! i) ;;
  match h with
  | Some a => ret a
  | None =>
      new_array (CoreArr i) ;;;
      modify (λ σ, set_perCoreHistories (<[i := CoreArr i]> (perCoreHistories σ)) σ) ;;;
      ret (CoreArr i)
  end.

Definition cpuSection (statContent : string) (stats : SystemStats) : M SystemStats :=
  let lines := split_lines statContent in
  let cpuTotal := parseCpuLine (default "" (head lines)) in
  let coreLines := List.filter is_core_line lines in
  let cores := if (List.length coreLines =? 0)%nat then 1%nat else List.length coreLines in
  let stats := with_cpuCores cores stats in
  prev <- get prevCpuTimes ;;
  let stats :=
    match prev with
    | Some p => with_cpuUsage (cpu_usage cpuTotal p) stats
    | None => stats
    end in
  modify (set_prevCpuTimes (Some cpuTotal)) ;;;
  let currentCoreTimes := parseCpuLine <$> coreLines in
  prevCores <- get prevPerCoreTimes ;;
  let perCore :=
    match prevCores with
    | Some pc =>
        if (List.length pc =? List.length currentCoreTimes)%nat
        then zip_with cpu_usage currentCoreTimes pc
        else replicate cores (num_of_Z 0)
    | None => replicate cores (num_of_Z 0)
    end in
  let stats := with_cpuPerCore perCore stats in
  modify (set_prevPerCoreTimes (Some currentCoreTimes)) ;;;
  fold_m (λ '(i, usage) (_ : unit), a <- core_history i ;; addHistoryPoint a usage)
         (imap pair perCore) tt ;;;
  ret stats.

(** [getVal(key)] of the memory section. *)
Definition getVal (meminfoContent key : string) : number :=
  match first_capture key meminfoContent with
  | Some v => num_of_Z v
  | None => num_of_Z 0
  end.

Definition memorySection (meminfoContent : string) (stats : SystemStats) : M SystemStats :=
  let total := getVal meminfoContent "MemTotal" in
  let free := getVal meminfoContent "MemFree" in
  let cached := nadd (nadd (getVal meminfoContent "Cached") (getVal meminfoContent "Buffers"))
                     (getVal meminfoContent "SReclaimable") in
  let stats := with_memoryTotal total stats in
  let stats := with_memoryFree free stats in
  let stats := with_memoryCached cached stats in
  let stats := with_memoryUsed (nsub (nsub total free) cached) stats in
  let swap := getVal meminfoContent "SwapTotal" in
  let stats := with_swapTotal swap stats in
  ret (with_swapUsed (nsub swap (getVal meminfoContent "SwapFree")) stats).

Definition uptimeSection (uptimeContent : string) (stats : SystemStats) : M SystemStats :=
  let secs := parseFloat (default "" (head (split_char " " uptimeContent))) in
  let days := math_floor (ndiv secs (num_of_Z 86400)) in
  let hours := math_floor (ndiv (nrem secs (num_of_Z 86400)) (num_of_Z 3600)) in
  let mins := math_floor (ndiv (nrem secs (num_of_Z 3600)) (num_of_Z 60)) in
  ret (with_uptime
         (if ngt days (num_of_Z 0)
          then show days +:+ "d " +:+ show hours +:+ "h " +:+ show mins +:+ "m"
          else show hours +:+ "h " +:+ show mins +:+ "m") stats).

Definition loadSection (loadavgContent : string) (stats : SystemStats) : M SystemStats :=
  ret (with_loadAvg (Number <$> take 3 (split_char " " loadavgContent)) stats).

(** Elapsed seconds [(now - timestamp) / 1000]. *)
Definition seconds_since (t timestamp : Z) : number :=
  ndiv (num_of_Z (t - timestamp)) (num_of_Z 1000).

(** [Math.max(0, (cur - prev) / 1024 / dt)], the expression of every rate of
    the disk, network and process code. *)
Definition kb_rate (cur prev dt : number) : number :=
  math_max (num_of_Z 0) (ndiv (ndiv (nsub cur prev) (num_of_Z 1024)) dt).

(** One line of /proc/diskstats: the device and its byte counters when the row
    qualifies. *)
Definition disk_row (line : string) : option (string * (number * number)) :=
  let parts := fields line in
  if (14 <=? List.length parts)%nat then
    let devName := default "" (parts !! 2%nat) in
    if is_whole_disk devName then
      let read := nmul (parseInt (default "" (parts !! 5%nat))) (num_of_Z 512) in
      let write := nmul (parseInt (default "" (parts !! 9%nat))) (num_of_Z 512) in
      Some (devName, (read, write))
    else None
  else None.

(** The first loop of a section: the totals and the current per-key
    counters. *)
Definition scan (row : string → option (string * (number * number)))
    (lines : list string) : number * number * obj (number * number) :=
  foldl (λ '(a, b, cur) line,
           match row line with
           | Some (k, (x, y)) => (nadd a x, nadd b y, obj_set k (x, y) cur)
           | None => (a, b, cur)
           end)
        (num_of_Z 0, num_of_Z 0, []) lines.

(** [if (!perDiskHistories[dev]) perDiskHistories[dev] = { read: [], write: [] };]
    and the pair then found at [perDiskHistories[dev]].  The names that reach
    the disk code have passed the device filter: none is an inherited name or
    an array index ([whole_disk_plain], [reported_disks_plain]), so a lookup
    answers the entry the record owns or [undefined], and [Object.entries]
    lists the entries in the order of their creation. *)
Definition disk_history (dev : string) : M (loc * loc) :=
  h <- get (λ σ, perDiskHistories σ !! dev) ;;
  match h with
  | Some a => ret a
  | None =>
      let a := (DiskArr dev fst_side, DiskArr dev snd_side) in
      new_array a.1 ;;; new_array a.2 ;;;
      modify (λ σ, set_perDiskHistories (<[dev := a]> (perDiskHistories σ)) σ) ;;;
      ret a
  end.

(** The body of the per-device loop. *)
Definition disk_entry (t : Z) (e : string * (number * number)) (stats : SystemStats)
  : M SystemStats :=
  let '(dev, (read, write)) := e in
  prev <- get (λ σ, prevPerDiskStats σ !! dev) ;;
  stats <-
    match prev with
    | Some p =>
        let dt := seconds_since t (d_timestamp p) in
        if ngt dt (num_of_Z 0) then
          let r := kb_rate read (d_read p) dt in
          let w := kb_rate write (d_write p) dt in
          a <- disk_history dev ;;
          addHistoryPoint a.1 r ;;;
          addHistoryPoint a.2 w ;;;
          ret (with_perDiskStats (<[dev := {| readRate := r; writeRate := w |}]> (perDiskStats stats)) stats)
        else ret stats
    | None => ret stats
    end ;;
  modify (λ σ, set_prevPerDiskStats
                 (<[dev := {| d_read := read; d_write := write; d_timestamp := t |}]>
                    (prevPerDiskStats σ)) σ) ;;;
  ret stats.

Definition diskSection (diskstatsContent : string) (stats : SystemStats) : M SystemStats :=
  t <- now ;;
  let '(totalRead, totalWrite, currentPerDisk) :=
    scan disk_row (split_lines diskstatsContent) in
  prev <- get prevDiskStats ;;
  let stats :=
    match prev with
    | Some p =>
        let dt := seconds_since t (d_timestamp p) in
        if ngt dt (num_of_Z 0) then
          with_diskWriteRate (kb_rate totalWrite (d_write p) dt)
            (with_diskReadRate (kb_rate totalRead (d_read p) dt) stats)
        else stats
    | None => stats
    end in
  modify (set_prevDiskStats
            (Some {| d_read := totalRead; d_write := totalWrite; d_timestamp := t |})) ;;;
  fold_m (disk_entry t) currentPerDisk stats.

(** One line of /proc/net/dev: the interface and its (sent, recv) byte
    counters, for a row of at least ten fields that is not the loopback. *)
Definition net_row (line : string) : option (string * (number * number)) :=
  let parts := fields line in
  if (10 <=? List.length parts)%nat then
    let iface := remove_first_colon (default "" (parts !! 0%nat)) in
    if decide (iface = "lo") then None
    else
      let recv := parseInt (default "" (parts !! 1%nat)) in
      let sent := parseInt (default "" (parts !! 9%nat)) in
      Some (iface, (sent, recv))
  else None.

(** [if (!perIfaceHistories[iface]) perIfaceHistories[iface] = { sent: [], recv: [] };]
    and the pair then found at [perIfaceHistories[iface]]: under an inherited
    name nothing is created and what is found is not a pair of arrays. *)
Definition iface_history (iface : string) : M (option (loc * loc)) :=
  h <- get (λ σ, property_of (perIfaceHistories σ) iface) ;;
  match h with
  | Own a => ret (Some a)
  | Inherited => ret None
  | Undefined =>
      let a := (IfaceArr iface fst_side, IfaceArr iface snd_side) in
      new_array a.1 ;;; new_array a.2 ;;;
      modify (λ σ, set_perIfaceHistories (<[iface := a]> (perIfaceHistories σ)) σ) ;;;
      ret (Some a)
  end.

(** The body of the per-interface loop, for an entry of [currentPerIface].
    When [perIfaceHistories[iface]] is not a pair of arrays,
    [addHistoryPoint] is handed [undefined] and its [arr.push] throws before
    the clock is read; the sample is already in [stats] and the assignment
    that ends the body is not reached. *)
Definition iface_entry (t : Z) (e : string * (number * number)) (stats : SystemStats)
  : M (SystemStats * ending) :=
  let '(iface, (sent, recv)) := e in
  prev <- get (λ σ, property_of (prevPerIfaceStats σ) iface) ;;
  r <-
    match prev with
    | Own p =>
        let dt := seconds_since t (n_timestamp p) in
        if ngt dt (num_of_Z 0) then
          let s := kb_rate sent (n_sent p) dt in
          let r := kb_rate recv (n_recv p) dt in
          let stats :=
            with_perIfaceStats (<[iface := {| sentRate := s; recvRate := r |}]> (perIfaceStats stats))
              stats in
          a <- iface_history iface ;;
          match a with
          | Some a =>
              addHistoryPoint a.1 s ;;;
              addHistoryPoint a.2 r ;;;
              ret (stats, Completed)
          | None => ret (stats, Thrown)
          end
        else ret (stats, Completed)
    | Inherited =>
        (* the timestamp of the inherited value is [undefined], the elapsed
           time [NaN], and [NaN > 0] is false *)
        ret (stats, Completed)
    | Undefined => ret (stats, Completed)
    end ;;
  match r.2 with
  | Completed =>
      modify (λ σ, set_prevPerIfaceStats
                     (<[iface := {| n_sent := sent; n_recv := recv; n_timestamp := t |}]>
                        (prevPerIfaceStats σ)) σ) ;;;
      ret r
  | Thrown => ret r
  end.

(** The network section is the last statement of the [try] block: when its
    loop throws, the pass goes on with the appends that follow the [catch]
    clause. *)
Definition netSection (netContent : string) (stats : SystemStats) : M SystemStats :=
  t <- now ;;
  let '(totalSent, totalRecv, currentPerIface) :=
    scan net_row (drop 2 (split_lines netContent)) in
  prev <- get prevNetStats ;;
  let stats :=
    match prev with
    | Some p =>
        let dt := seconds_since t (n_timestamp p) in
        if ngt dt (num_of_Z 0) then
          with_networkRecvRate (kb_rate totalRecv (n_recv p) dt)
            (with_networkSentRate (kb_rate totalSent (n_sent p) dt) stats)
        else stats
    | None => stats
    end in
  modify (set_prevNetStats
            (Some {| n_sent := totalSent; n_recv := totalRecv; n_timestamp := t |})) ;;;
  fold_try (iface_entry t) (entries currentPerIface) stats.

(** What [cockpit.file(path).read()] settles to: the content ([null] for a
    file that does not exist), or a rejection. *)
Inductive read_result :=
  | Resolved (content : option string)
  | Rejected.

(** The six reads of a pass, in the order of the source. *)
Record reads := {
  r_stat : read_result; r_meminfo : read_result; r_uptime : read_result;
  r_loadavg : read_result; r_diskstats : read_result; r_net : read_result
}.

Record contents := {
  statContent : option string; meminfoContent : option string;
  uptimeContent : option string; loadavgContent : option string;
  diskstatsContent : option string; netContent : option string
}.

(** [await Promise.all([...])]: the six contents, or nothing when a read was
    rejected (the [await] then throws). *)
Definition await_all (r : reads) : option contents :=
  match r_stat r, r_meminfo r, r_uptime r, r_loadavg r, r_diskstats r, r_net r with
  | Resolved a, Resolved b, Resolved c, Resolved d, Resolved e, Resolved f =>
      Some {| statContent := a; meminfoContent := b; uptimeContent := c;
              loadavgContent := d; diskstatsContent := e; netContent := f |}
  | _, _, _, _, _, _ => None
  end.

(** [if (content) { section }]. *)
Definition when_content (c : option string) (section : string → SystemStats → M SystemStats)
    (stats : SystemStats) : M SystemStats :=
  match content_of c with
  | Some s => section s stats
  | None => ret stats
  end.

(** The initial value of [stats]. *)
Definition stats0 : SystemStats :=
  {| cpuUsage := num_of_Z 0; cpuCores := 1; cpuPerCore := [];
     memoryTotal := num_of_Z 0; memoryUsed := num_of_Z 0; memoryFree := num_of_Z 0;
     memoryCached := num_of_Z 0; swapTotal := num_of_Z 0; swapUsed := num_of_Z 0;
     diskReadRate := num_of_Z 0; diskWriteRate := num_of_Z 0; perDiskStats := ∅;
     networkSentRate := num_of_Z 0; networkRecvRate := num_of_Z 0; perIfaceStats := ∅;
     uptime := ""; loadAvg := [num_of_Z 0; num_of_Z 0; num_of_Z 0] |}.

(** The statements of the [try] block after the [await]. *)
Definition sections (c : contents) (stats : SystemStats) : M SystemStats :=
  stats <- when_content (statContent c) cpuSection stats ;;
  stats <- when_content (meminfoContent c) memorySection stats ;;
  stats <- when_content (uptimeContent c) uptimeSection stats ;;
  stats <- when_content (loadavgContent c) loadSection stats ;;
  stats <- when_content (diskstatsContent c) diskSection stats ;;
  when_content (netContent c) netSection stats.

(** The six appends after the [try] statement. *)
Definition update_history (stats : SystemStats) : M unit :=
  addHistoryPoint (h_cpu history) (cpuUsage stats) ;;;
  addHistoryPoint (h_memory history)
    (if ngt (memoryTotal stats) (num_of_Z 0)
     then nmul (ndiv (memoryUsed stats) (memoryTotal stats)) (num_of_Z 100)
     else num_of_Z 0) ;;;
  addHistoryPoint (h_diskRead history) (diskReadRate stats) ;;;
  addHistoryPoint (h_diskWrite history) (diskWriteRate stats) ;;;
  addHistoryPoint (h_networkSent history) (networkSentRate stats) ;;;
  addHistoryPoint (h_networkRecv history) (networkRecvRate stats).

(** [fetchSystemStats()].  A rejected read makes the [await] throw; the
    [catch] clause logs and the function goes on with the untouched [stats]. *)
Definition fetchSystemStats (r : reads) : M SystemStats :=
  stats <-
    match await_all r with
    | Some c => sections c stats0
    | None => ret stats0
    end ;;
  update_history stats ;;;
  ret stats.

(** ** Accessors *)

(** [[...arr]]: a new array with the elements of [arr]. *)
Definition copy_array (arr : loc) : M loc :=
  n <- get copies ;;
  modify (λ σ, set_copies (S n) (set_arrays (<[CopyArr n := default [] (arrays σ !! arr)]> (arrays σ)) σ)) ;;;
  ret (CopyArr n).

(** [{ ...history }]: a new object with the same six property values. *)
Definition getSystemHistory : M SystemHistory :=
  ret {| h_cpu := h_cpu history; h_memory := h_memory history;
         h_diskRead := h_diskRead history; h_diskWrite := h_diskWrite history;
         h_networkSent := h_networkSent history; h_networkRecv := h_networkRecv history |}.

(** The loop of [getPerDiskHistory], [getPerIfaceHistory] and [getGpuHistory]:
    each pair of arrays is copied into the result. *)
Definition copy_pairs `{Countable K} (m : gmap K (loc * loc)) : M (gmap K (loc * loc)) :=
  fold_m (λ '(k, (a, b)) result,
            a' <- copy_array a ;; b' <- copy_array b ;; ret (<[k := (a', b')]> result))
         (map_to_list m) ∅.

Definition getPerDiskHistory : M (gmap string (loc * loc)) :=
  m <- get perDiskHistories ;; copy_pairs m.

Definition getPerIfaceHistory : M (gmap string (loc * loc)) :=
  m <- get perIfaceHistories ;; copy_pairs m.

Definition getGpuHistory : M (gmap number (loc * loc)) :=
  m <- get gpuHistories ;; copy_pairs m.

Definition getPerCoreHistory : M (gmap nat loc) :=
  m <- get perCoreHistories ;;
  fold_m (λ '(k, a) result, a' <- copy_array a ;; ret (<[k := a']> result))
         (map_to_list m) ∅.

(** The statements of [fetchGpuStats] that record one GPU's sample:
    [if (!gpuHistories[idx]) gpuHistories[idx] = { usage: [], memory: [] };]
    followed by the two appends.  The key of the number [idx] is never a name
    that objects inherit. *)
Definition gpu_sample (idx : number) (gpuUsage memUsage : number) : M unit :=
  let k := number_key idx in
  h <- get (λ σ, gpuHistories σ !! k) ;;
  a <- match h with
       | Some a => ret a
       | None =>
           let a := (GpuArr k fst_side, GpuArr k snd_side) in
           new_array a.1 ;;; new_array a.2 ;;;
           modify (λ σ, set_gpuHistories (<[k := a]> (gpuHistories σ)) σ) ;;;
           ret a
       end ;;
  addHistoryPoint a.1 gpuUsage ;;;
  addHistoryPoint a.2 memUsage.

(** What a caller can do with an array it was handed: [arr.push(p)] and
    [arr.length = 0]. *)
Definition caller_push (arr : loc) (p : HistoryPoint) : M unit :=
  modify (λ σ, set_arrays (alter (λ l, (l ++ [p])%list) arr (arrays σ)) σ).

Definition caller_clear (arr : loc) : M unit :=
  modify (λ σ, set_arrays (alter (λ _, []) arr (arrays σ)) σ).

(** The contents of an array. *)
Definition contents_of (σ : engine) (arr : loc) : list HistoryPoint :=
  default [] (arrays σ !! arr).

(** ** The process list: [fetchProcesses] of the process service *)

Module ProcessService.

Record ProcessInfo := {
  pid : Z; ppid : number; user : string; name : string; cmdline : string;
  state : string; cpu : number; memory : number; memoryRss : number;
  threads : number; nice : number; startTime : string;
  diskRead : number; diskWrite : number
}.

(** An entry of [prevIoStats]: [{ read, write, timestamp }]. *)
Record IoSnapshot := { io_read : number; io_write : number; io_timestamp : Z }.

(** An entry of the record [fetchProcessIo] resolves to:
    [{ readBytes, writeBytes }]. *)
Record IoBytes := { readBytes : number; writeBytes : number }.

(** [parts.slice(11).join(' ')]. *)
Fixpoint join_space (l : list string) : string :=
  match l with
  | [] => ""
  | [x] => x
  | x :: l' => x +:+ " " +:+ join_space l'
  end.

Definition field (parts : list string) (i : nat) : string := default "" (parts !! i).

(** [a || b] on strings. *)
Definition or_str (a b : string) : string :=
  match a with EmptyString => b | _ => a end.

Definition pid_of (n : number) : option Z :=
  match n with
  | Num q => Some (Qfloor q)
  | NaN => None
  end.

(** The body of the loop over the lines of [ps]: the row added to
    [processes], if any, and the new [prevIoStats]. *)
Definition process_line (t : Z) (ioData : gmap Z IoBytes) (line : string)
    (acc : list ProcessInfo * gmap Z IoSnapshot) : list ProcessInfo * gmap Z IoSnapshot :=
  let '(processes, prevIoStats) := acc in
  let trimmed := trim line in
  match trimmed with
  | EmptyString => acc
  | _ =>
      let parts := split_ws trimmed in
      if (List.length parts <? 12)%nat then acc
      else
        match pid_of (parseInt (field parts 0)) with
        | None => acc
        | Some p =>
            let io := ioData !! p in
            let rates :=
              match io, prevIoStats !! p with
              | Some i, Some prev =>
                  let dt := seconds_since t (io_timestamp prev) in
                  if ngt dt (num_of_Z 0)
                  then (kb_rate (readBytes i) (io_read prev) dt,
                        kb_rate (writeBytes i) (io_write prev) dt)
                  else (num_of_Z 0, num_of_Z 0)
              | _, _ => (num_of_Z 0, num_of_Z 0)
              end in
            let prevIoStats :=
              match io with
              | Some i =>
                  <[p := {| io_read := readBytes i; io_write := writeBytes i;
                            io_timestamp := t |}]> prevIoStats
              | None => prevIoStats
              end in
            let info :=
              {| pid := p;
                 ppid := or_zero (Some (parseInt (field parts 1)));
                 user := field parts 2;
                 name := field parts 10;
                 cmdline := or_str (join_space (drop 11 parts)) (field parts 10);
                 state := field parts 8;
                 cpu := or_zero (Some (parseFloat (field parts 3)));
                 memory := or_zero (Some (parseFloat (field parts 4)));
                 memoryRss := or_zero (Some (parseInt (field parts 5)));
                 threads := or_zero (Some (parseInt (field parts 6)));
                 nice := or_zero (Some (parseInt (field parts 7)));
                 startTime := field parts 9;
                 diskRead := rates.1; diskWrite := rates.2 |} in
            ((processes ++ [info])%list, prevIoStats)
        end
  end.

(** [fetchProcesses()]: [ps] is what the [ps] command settled to, [ioData]
    what [fetchProcessIo] resolved to, [t] the value of [Date.now()]. *)
Definition fetchProcesses (t : Z) (ps : read_result) (ioData : gmap Z IoBytes)
    (prevIoStats : gmap Z IoSnapshot) : list ProcessInfo * gmap Z IoSnapshot :=
  match ps with
  | Resolved (Some output) =>
      let '(processes, prevIoStats) :=
        foldl (λ acc line, process_line t ioData line acc) ([], prevIoStats)
              (split_lines (trim output)) in
      let activePids := pid <$> processes in
      (processes, filter (λ kv, kv.1 ∈ activePids) prevIoStats)
  | _ => ([], prevIoStats)
  end.

End ProcessService.
(** ** Formatting: [formatBytes] and [formatRate] *)



Fixpoint zeros (n : nat) : string :=
  match n with
  | O => ""
  | S n' => String "0" (zeros n')
  end.

Fixpoint str_take (n : nat) (s : string) : string :=
  match n, s with
  | S n', String c s' => String c (str_take n' s')
  | _, _ => ""
  end.

Fixpoint str_drop (n : nat) (s : string) : string :=
  match n, s with
  | S n', String _ s' => str_drop n' s'
  | _, _ => s
  end.

(** The integer [n] for which [n / 10^f - x] is as close to zero as possible,
    the larger one when there are two, for [x] at least zero. *)
Definition nearest (x : Q) (f : nat) : Z :=
  Qfloor (x * inject_Z (10 ^ Z.of_nat f) + (1 # 2)).

(** [x.toFixed(f)], by the steps of ECMAScript's Number.prototype.toFixed.
    With more than 100 digits the call raises a [RangeError] and has no value.
    A magnitude of 10^21 or more is printed in exponent notation from the
    binary representation of the number; the model has no answer there
    either. *)
Definition toFixed (a : number) (f : nat) : option string :=
  if (100 <? f)%nat then None
  else
    match a with
    | NaN => Some "NaN"
    | Num x =>
        let s := if Qle_bool 0 x then "" else "-" in
        let x := if Qle_bool 0 x then x else Qopp x in
        if Qle_bool (inject_Z (10 ^ 21)) x then None
        else
          let m := pretty (nearest x f) in
          let m :=
            if (f =? 0)%nat then m
            else
              let m := if (String.length m <=? f)%nat
                       then zeros (f + 1 - String.length m) +:+ m else m in
              let k := String.length m in
              str_take (k - f) m +:+ "." +:+ str_drop (k - f) m in
          Some (s +:+ m)
    end.



(** Strings of decimal digits and their value. *)
Fixpoint all_digits (s : string) : bool :=
  match s with
  | EmptyString => true
  | String c s' => is_digit c && all_digits s'
  end.

Fixpoint dval (acc : Z) (s : string) : Z :=
  match s with
  | EmptyString => acc
  | String c s' => dval (10 * acc + digit_val c) s'
  end.

(** ** The process service: [fetchProcessIo] *)

(** [line.match(/\/proc\/(\d+)\/io:(read_bytes|write_bytes):\s*(\d+)/)] tried
    at the head of [s]: the pid, whether the counter is [read_bytes], and the
    value. *)
Definition io_match_at (s : string) : option (Z * bool * Z) :=
  match drop_prefix "/proc/" s with
  | Some r =>
      let '(p, n, r1) := digits r in
      if (n =? 0)%nat then None
      else
        match drop_prefix "/io:" r1 with
        | Some r2 =>
            let counter :=
              match drop_prefix "read_bytes" r2 with
              | Some r3 => Some (true, r3)
              | None =>
                  match drop_prefix "write_bytes" r2 with
                  | Some r3 => Some (false, r3)
                  | None => None
                  end
              end in
            match counter with
            | Some (is_read, r3) =>
                match drop_prefix ":" r3 with
                | Some r4 =>
                    let '(v, k, _) := digits (trim_start r4) in
                    if (k =? 0)%nat then None else Some (p, is_read, v)
                | None => None
                end
            | None => None
            end
        | None => None
        end
  | None => None
  end.

(** The leftmost match in [s]. *)
Fixpoint io_match (s : string) : option (Z * bool * Z) :=
  match io_match_at s with
  | Some m => Some m
  | None =>
      match s with
      | String _ s' => io_match s'
      | EmptyString => None
      end
  end.

(** The body of the loop over the lines of the [grep] output. *)
Definition io_line (result : gmap Z ProcessService.IoBytes) (line : string)
  : gmap Z ProcessService.IoBytes :=
  match line with
  | EmptyString => result
  | _ =>
      match io_match line with
      | Some (p, is_read, val) =>
          let cur :=
            default {| ProcessService.readBytes := num_of_Z 0;
                       ProcessService.writeBytes := num_of_Z 0 |} (result !! p) in
          <[p := if is_read
                 then {| ProcessService.readBytes := num_of_Z val;
                         ProcessService.writeBytes := ProcessService.writeBytes cur |}
                 else {| ProcessService.readBytes := ProcessService.readBytes cur;
                         ProcessService.writeBytes := num_of_Z val |}]> result
      | None => result
      end
  end.

(** [fetchProcessIo()]: [out] is what the [grep] command settled to.  A
    rejection is caught and leaves the record empty. *)
Definition fetchProcessIo (out : read_result) : gmap Z ProcessService.IoBytes :=
  match out with
  | Resolved (Some output) => foldl io_line ∅ (split_lines (trim output))
  | _ => ∅
  end.

(** One refresh of the process list: the [ps] command and [fetchProcessIo]
    are awaited together, then the rows are built at time [t]. *)
Definition refreshProcesses (t : Z) (ps io : read_result)
    (prevIoStats : gmap Z ProcessService.IoSnapshot)
  : list ProcessService.ProcessInfo * gmap Z ProcessService.IoSnapshot :=
  ProcessService.fetchProcesses t ps (fetchProcessIo io) prevIoStats.

(** A sequence of refreshes, each with its time and the two command
    results: the lists returned, and the store left. *)
Fixpoint refreshes (calls : list (Z * read_result * read_result))
    (prevIoStats : gmap Z ProcessService.IoSnapshot)
  : list (list ProcessService.ProcessInfo) * gmap Z ProcessService.IoSnapshot :=
  match calls with
  | [] => ([], prevIoStats)
  | (t, ps, io) :: calls' =>
      let '(rows, store) := refreshProcesses t ps io prevIoStats in
      let '(rest, store') := refreshes calls' store in
      (rows :: rest, store')
  end.

(** ** Hardware information: [fetchHardwareInfo] and [detectGpus] *)

(** A character that [.] does not match: line feed or carriage return. *)
Definition is_line_end (c : ascii) : bool :=
  let n := nat_of_ascii c in (n =? 10)%nat || (n =? 13)%nat.

Definition is_digit_or_dot (c : ascii) : bool :=
  is_digit c || (if decide (c = "."%char) then true else false).

(** The longest prefix whose characters satisfy [f]. *)
Fixpoint take_while (f : ascii → bool) (s : string) : string :=
  match s with
  | String c s' => if f c then String c (take_while f s') else ""
  | EmptyString => ""
  end.

(** The last character of [s] that satisfies [f]. *)
Fixpoint last_where (f : ascii → bool) (s : string) : option ascii :=
  match s with
  | String c s' =>
      match last_where f s' with
      | Some d => Some d
      | None => if f c then Some c else None
      end
  | EmptyString => None
  end.

(** The leftmost place of [s] where the pattern [at_head] matches. *)
Fixpoint leftmost {A} (at_head : string → option A) (s : string) : option A :=
  match at_head s with
  | Some m => Some m
  | None =>
      match s with
      | String _ s' => leftmost at_head s'
      | EmptyString => None
      end
  end.

(** [/model name\s*:\s*(.+)/] tried at the head of [s]: the capture.  After
    the colon the white space is skipped and the capture runs to the end of
    the line; when only white space follows the colon, the pattern gives
    white space back until a character that [.] matches can be captured. *)
Definition model_at (s : string) : option string :=
  match drop_prefix "model name" s with
  | Some r =>
      match drop_prefix ":" (trim_start r) with
      | Some r2 =>
          match trim_start r2 with
          | String c r3 => Some (take_while (λ c, negb (is_line_end c)) (String c r3))
          | EmptyString =>
              (λ c, String c "") <$> last_where (λ c, negb (is_line_end c)) r2
          end
      | None => None
      end
  | None => None
  end.

(** [/cpu MHz\s*:\s*([\d.]+)/] tried at the head of [s]: the capture. *)
Definition freq_at (s : string) : option string :=
  match drop_prefix "cpu MHz" s with
  | Some r =>
      match drop_prefix ":" (trim_start r) with
      | Some r2 =>
          match take_while is_digit_or_dot (trim_start r2) with
          | EmptyString => None
          | cap => Some cap
          end
      | None => None
      end
  | None => None
  end.

(** [/card(\d+)/] tried at the head of [s]: the digits captured. *)
Definition card_at (s : string) : option string :=
  match drop_prefix "card" s with
  | Some r =>
      match take_while is_digit r with
      | EmptyString => None
      | cap => Some cap
      end
  | None => None
  end.

(** [isNaN(a)]. *)
Definition isNaN (a : number) : bool :=
  match a with
  | NaN => true
  | Num _ => false
  end.

(** What a promise with [.catch(() => '')] and one with [.catch(() => null)]
    settle to. *)
Definition or_empty (r : read_result) : option string :=
  match r with
  | Resolved c => c
  | Rejected => Some ""
  end.

Definition or_null (r : read_result) : option string :=
  match r with
  | Resolved c => c
  | Rejected => None
  end.

Module Hardware.

Inductive Vendor := nvidia | amd | intel | unknown.

Record DiskDevice := { disk_name : string; sizeGB : string }.
Record NetworkInterface := { iface_name : string; speed : string }.
Record GpuDevice := { index : number; name : string; vendor : Vendor }.

(** [cpuFreqMHz] is [None] when the frequency read is 10^21 or more, whose
    text [toFixed] is not modelled for. *)
Record HardwareInfo := {
  cpuModel : string;
  cpuFreqMHz : option string;
  diskDevices : list DiskDevice;
  networkInterfaces : list NetworkInterface;
  gpus : list GpuDevice
}.

(** What the host answers: the files and commands [fetchHardwareInfo] and
    [detectGpus] read and run, the files of a card by the path of the card,
    the speed file of an interface by its name. *)
Record host := {
  cpuinfo : read_result;
  lsblk : read_result;
  netDir : read_result;
  speed_file : string → read_result;
  nvidia_smi : read_result;
  drm_cards : read_result;
  busy_file_exists : string → bool;
  vendor_file : string → read_result;
  product_name_file : string → read_result;
  lspci : string → read_result
}.

(** The CPU block. *)
Definition cpu_model (cpuinfo : string) : string :=
  match leftmost model_at cpuinfo with
  | Some m => trim m
  | None => ""
  end.

Definition cpu_freq (cpuinfo : string) : option string :=
  match leftmost freq_at cpuinfo with
  | Some m => (λ t, t +:+ " MHz") <$> toFixed (parseFloat m) 0
  | None => Some ""
  end.

(** The body of the loop over the lines of [lsblk]. *)
Definition disk_line (devices : list DiskDevice) (line : string) : list DiskDevice :=
  let parts := fields line in
  if (3 <=? List.length parts)%nat && bool_decide (parts !! 2%nat = Some "disk")
  then (devices ++ [{| disk_name := default "" (parts !! 0%nat);
                       sizeGB := default "" (parts !! 1%nat) |}])%list
  else devices.

Definition disk_devices (lsblk : string) : list DiskDevice :=
  foldl disk_line [] (split_lines (trim lsblk)).

(** The network block: the interfaces listed, without the loopback, each
    with the speed read from its file. *)
Definition iface_speed (content : option string) : string :=
  match content with
  | Some text =>
      let raw := trim text in
      match raw with
      | EmptyString => ""
      | _ =>
          if negb (isNaN (Number raw)) && ngt (Number raw) (num_of_Z 0)
          then raw +:+ " Mbps" else ""
      end
  | None => ""
  end.

Definition network_interfaces (h : host) (netDir : string) : list NetworkInterface :=
  let ifaces := List.filter (λ n, negb (String.eqb n "lo")) (split_ws (trim netDir)) in
  let speeds := (λ iface, or_null (speed_file h iface)) <$> ifaces in
  zip_with (λ name content, {| iface_name := name; speed := iface_speed content |})
           ifaces speeds.

(** [detectGpus()]: the body of the loop over the lines of [nvidia-smi]. *)
Definition nvidia_line (gpus : list GpuDevice) (line : string) : list GpuDevice :=
  let parts := trim <$> split_char "," line in
  if (2 <=? List.length parts)%nat
  then (gpus ++ [{| index := parseInt (default "" (parts !! 0%nat));
                    name := default "" (parts !! 1%nat);
                    vendor := nvidia |}])%list
  else gpus.

(** The body of the loop over the cards of /sys/class/drm. *)
Definition card_line (h : host) (gpus : list GpuDevice) (cardPath : string)
  : list GpuDevice :=
  let card := trim cardPath in
  if busy_file_exists h card then
    let cardNum :=
      match leftmost card_at card with
      | Some (String c r) => String c r
      | _ => "0"
      end in
    let vendorId := or_empty (vendor_file h card) in
    let vendor :=
      if bool_decide (trim <$> vendorId = Some "0x1002") then amd else intel in
    let devName :=
      match or_null (product_name_file h card) with
      | Some text => Some text
      | None => or_null (lspci h card)
      end in
    (gpus ++ [{| index := parseInt cardNum;
                 name := match trim <$> devName with
                         | Some (String c r) => String c r
                         | _ => "GPU " +:+ cardNum
                         end;
                 vendor := vendor |}])%list
  else gpus.

Definition detectGpus (h : host) : list GpuDevice :=
  let gpus :=
    match content_of (or_empty (nvidia_smi h)) with
    | Some nvOut =>
        match trim nvOut with
        | EmptyString => []
        | _ => foldl nvidia_line [] (split_lines (trim nvOut))
        end
    | None => []
    end in
  match gpus with
  | [] =>
      match content_of (or_empty (drm_cards h)) with
      | Some drmCards =>
          match trim drmCards with
          | EmptyString => []
          | _ => foldl (card_line h) [] (split_lines (trim drmCards))
          end
      | None => []
      end
  | _ => gpus
  end.

(** [fetchHardwareInfo()]. *)
Definition fetchHardwareInfo (h : host) : HardwareInfo :=
  let cpuinfo := content_of (or_empty (cpuinfo h)) in
  let lsblk := content_of (or_empty (lsblk h)) in
  let netDir := content_of (or_empty (netDir h)) in
  {| cpuModel := match cpuinfo with Some text => cpu_model text | None => "" end;
     cpuFreqMHz := match cpuinfo with Some text => cpu_freq text | None => Some "" end;
     diskDevices := match lsblk with Some text => disk_devices text | None => [] end;
     networkInterfaces :=
       match netDir with Some text => network_interfaces h text | None => [] end;
     gpus := detectGpus h |}.

End Hardware.

(** ** GPU statistics: [fetchGpuStats] *)

Module GpuService.

Record GpuStats := {
  gpuUsage : number;
  memoryUsage : number;
  memoryTotal : number;
  memoryUsed : number;
  temperature : number;
  powerDraw : number
}.

(** What the host answers to [fetchGpuStats]: the [nvidia-smi] query, and
    the files of a card of sysfs, by the number of the card. *)
Record host := {
  nvidia_smi : read_result;
  gpu_busy_percent : number → read_result;
  mem_info_vram_total : number → read_result;
  mem_info_vram_used : number → read_result;
  temp1_input : number → read_result
}.

(** [isNaN(a) ? -1 : a]. *)
Definition or_minus_one (a : number) : number :=
  if isNaN a then num_of_Z (-1) else a.

(** [text?.trim() || d]. *)
Definition trimmed_or (text : option string) (d : string) : string :=
  match trim <$> text with
  | Some (String c r) => String c r
  | _ => d
  end.

(** What a promise with [.catch(() => '0')] settles to. *)
Definition or_zero_text (r : read_result) : option string :=
  match r with
  | Resolved c => c
  | Rejected => Some "0"
  end.

(** The statistics of one line of [nvidia-smi]. *)
Definition nvidia_stat (p : list string) : GpuStats :=
  let temp := parseFloat (default "" (p !! 5%nat)) in
  let power := parseFloat (default "" (p !! 6%nat)) in
  {| gpuUsage := or_zero (Some (parseFloat (default "" (p !! 1%nat))));
     memoryUsage := or_zero (Some (parseFloat (default "" (p !! 2%nat))));
     memoryTotal := or_zero (Some (parseFloat (default "" (p !! 3%nat))));
     memoryUsed := or_zero (Some (parseFloat (default "" (p !! 4%nat))));
     temperature := or_minus_one temp;
     powerDraw := or_minus_one power |}.

(** The body of the loop over the lines of [nvidia-smi]. *)
Definition nvidia_row (line : string) (results : list GpuStats) : M (list GpuStats) :=
  let p := trim <$> split_char "," line in
  if (7 <=? List.length p)%nat then
    let stat := nvidia_stat p in
    gpu_sample (parseInt (default "" (p !! 0%nat))) (gpuUsage stat) (memoryUsage stat) ;;;
    ret (results ++ [stat])%list
  else ret results.

(** The statistics of a card of sysfs. *)
Definition sysfs_stat (h : host) (index : number) : GpuStats :=
  let busyStr := or_zero_text (gpu_busy_percent h index) in
  let vramTotal := or_zero_text (mem_info_vram_total h index) in
  let vramUsed := or_zero_text (mem_info_vram_used h index) in
  let tempStr := or_empty (temp1_input h index) in
  let gpuUsage := parseInt (trimmed_or busyStr "0") in
  let memTotalBytes := parseInt (trimmed_or vramTotal "0") in
  let memUsedBytes := parseInt (trimmed_or vramUsed "0") in
  let memTotalMB := ndiv memTotalBytes (num_of_Z (1024 * 1024)) in
  let memUsedMB := ndiv memUsedBytes (num_of_Z (1024 * 1024)) in
  let memUsage :=
    if ngt memTotalMB (num_of_Z 0)
    then nmul (ndiv memUsedMB memTotalMB) (num_of_Z 100) else num_of_Z 0 in
  let temp :=
    match trim <$> tempStr with
    | Some (String c r) => ndiv (parseInt (String c r)) (num_of_Z 1000)
    | _ => num_of_Z (-1)
    end in
  {| gpuUsage := gpuUsage; memoryUsage := memUsage; memoryTotal := memTotalMB;
     memoryUsed := memUsedMB; temperature := temp; powerDraw := num_of_Z (-1) |}.

(** The body of the loop over the cards of sysfs. *)
Definition sysfs_row (h : host) (gpu : Hardware.GpuDevice) (results : list GpuStats)
  : M (list GpuStats) :=
  let stat := sysfs_stat h (Hardware.index gpu) in
  gpu_sample (Hardware.index gpu) (gpuUsage stat) (memoryUsage stat) ;;;
  ret (results ++ [stat])%list.

Definition is_nvidia (g : Hardware.GpuDevice) : bool :=
  match Hardware.vendor g with
  | Hardware.nvidia => true
  | _ => false
  end.

Definition is_sysfs (g : Hardware.GpuDevice) : bool :=
  match Hardware.vendor g with
  | Hardware.amd | Hardware.intel => true
  | _ => false
  end.

(** [fetchGpuStats(gpus)]. *)
Definition fetchGpuStats (h : host) (gpus : list Hardware.GpuDevice)
  : M (list GpuStats) :=
  match gpus with
  | [] => ret []
  | _ =>
      results <- (if existsb is_nvidia gpus then
                    match nvidia_smi h with
                    | Resolved (Some out) =>
                        match trim out with
                        | EmptyString => ret []
                        | _ => fold_m nvidia_row (split_lines (trim out)) []
                        end
                    | _ => ret []
                    end
                  else ret []) ;;
      fold_m (sysfs_row h) (List.filter is_sysfs gpus) results
  end.

End GpuService.

(** ** The page: [refresh] of the task manager and the selections of
    [SystemOverview] *)

Module Overview.

(** What [refresh] hands to [SystemOverview]: the result of the pass and
    what the accessors returned. *)
Record props := {
  p_stats : SystemStats;
  p_history : SystemHistory;
  p_perDiskHistory : gmap string (loc * loc);
  p_perIfaceHistory : gmap string (loc * loc);
  p_perCoreHistory : gmap nat loc;
  p_gpuStats : list GpuService.GpuStats;
  p_gpuHistory : gmap number (loc * loc)
}.

(** [refresh] of the task manager, on the engine: the pass, the GPU
    statistics for the GPUs of the hardware information, then the five
    accessors in the order of the [set...] statements.  The process list is
    fetched beside the pass, on its own store ([refreshProcesses]). *)
Definition refresh (r : reads) (h : GpuService.host) (gpus : list Hardware.GpuDevice)
  : M props :=
  stats <- fetchSystemStats r ;;
  gpuS <- GpuService.fetchGpuStats h gpus ;;
  sh <- getSystemHistory ;;
  pd <- getPerDiskHistory ;;
  pi <- getPerIfaceHistory ;;
  pc <- getPerCoreHistory ;;
  gh <- getGpuHistory ;;
  ret {| p_stats := stats; p_history := sh; p_perDiskHistory := pd;
         p_perIfaceHistory := pi; p_perCoreHistory := pc;
         p_gpuStats := gpuS; p_gpuHistory := gh |}.

(** [name && o[name] ? o[name].f : d]: the field [f] of the entry the record
    owns under the name selected, [d] when no name is selected ([""]) or
    nothing is found under it, and [undefined] ([None]) under a name that
    every object inherits, where what is found is truthy and has no such
    field. *)
Definition selected {V A} (name : string) (o : gmap string V) (f : V → A) (d : A)
  : option A :=
  match name with
  | EmptyString => Some d
  | _ =>
      match property_of o name with
      | Own v => Some (f v)
      | Inherited => None
      | Undefined => Some d
      end
  end.

(** The disk card: the arrays drawn and the rates printed for the device
    selected ([""] when all disks are). *)
Definition diskReadHistory (selectedDisk : string) (p : props) : option loc :=
  selected selectedDisk (p_perDiskHistory p) fst (h_diskRead (p_history p)).

Definition diskWriteHistory (selectedDisk : string) (p : props) : option loc :=
  selected selectedDisk (p_perDiskHistory p) snd (h_diskWrite (p_history p)).

Definition diskReadRate (selectedDisk : string) (p : props) : option number :=
  selected selectedDisk (perDiskStats (p_stats p)) readRate (diskReadRate (p_stats p)).

Definition diskWriteRate (selectedDisk : string) (p : props) : option number :=
  selected selectedDisk (perDiskStats (p_stats p)) writeRate (diskWriteRate (p_stats p)).

(** The network card, for the interface selected. *)
Definition netRecvHistory (selectedIface : string) (p : props) : option loc :=
  selected selectedIface (p_perIfaceHistory p) snd (h_networkRecv (p_history p)).

Definition netSentHistory (selectedIface : string) (p : props) : option loc :=
  selected selectedIface (p_perIfaceHistory p) fst (h_networkSent (p_history p)).

Definition netRecvRate (selectedIface : string) (p : props) : option number :=
  selected selectedIface (perIfaceStats (p_stats p)) recvRate (networkRecvRate (p_stats p)).

Definition netSentRate (selectedIface : string) (p : props) : option number :=
  selected selectedIface (perIfaceStats (p_stats p)) sentRate (networkSentRate (p_stats p)).

(** The CPU card, for the core selected ([None] when all cores are). *)
Definition cpuGraphData (selectedCore : option nat) (p : props) : loc :=
  match selectedCore with
  | Some c =>
      match p_perCoreHistory p !! c with
      | Some a => a
      | None => h_cpu (p_history p)
      end
  | None => h_cpu (p_history p)
  end.

Definition cpuCurrentValue (selectedCore : option nat) (p : props) : option string :=
  let usage :=
    match selectedCore with
    | Some c =>
        match cpuPerCore (p_stats p) !! c with
        | Some u => u
        | None => cpuUsage (p_stats p)
        end
    | None => cpuUsage (p_stats p)
    end in
  (λ t, t +:+ "%") <$> toFixed usage 1.

(** The GPU card, drawn when GPUs were detected and statistics returned:
    the position looked at, and the statistics, the device and the
    histories taken at that position.  No histories there stands for the
    empty ones the card then draws. *)
Definition gpuIdx (selectedGpu : Z) (p : props) : Z :=
  Z.min selectedGpu (Z.of_nat (List.length (p_gpuStats p)) - 1).

Definition at_position {A} (l : list A) (i : Z) : option A :=
  if (i <? 0)%Z then None else l !! Z.to_nat i.

Definition gpu (selectedGpu : Z) (p : props) : option GpuService.GpuStats :=
  at_position (p_gpuStats p) (gpuIdx selectedGpu p).

Definition gpuDev (selectedGpu : Z) (p : props) (gpus : list Hardware.GpuDevice)
  : option Hardware.GpuDevice :=
  at_position gpus (gpuIdx selectedGpu p).

Definition gpuHist (selectedGpu : Z) (p : props) : option (loc * loc) :=
  p_gpuHistory p !! number_key (num_of_Z (gpuIdx selectedGpu p)).

End Overview.


(** ** Vocabulary of the properties *)

(** The last [n] elements of a list. *)
Definition lastn {A} (n : nat) (l : list A) : list A := drop (List.length l - n) l.

(** A sequence of calls [addHistoryPoint(arr_i, v_i)]. *)
Definition appends (ops : list (loc * number)) : M unit :=
  fold_m (λ '(arr, v) _, addHistoryPoint arr v) ops tt.

(** The points that [appends ops] hands to the array [arr], oldest first, when
    the clock is [clk] and [t] readings have been taken. *)
Fixpoint appended (arr : loc) (ops : list (loc * number)) (clk : nat → Z) (t : nat)
  : list HistoryPoint :=
  match ops with
  | [] => []
  | (a, v) :: ops' =>
      (if decide (a = arr) then [{| timestamp := clk t; value := v |}] else [])
        ++ appended arr ops' clk (S t)
  end%list.


(** The states the engine can be in.  The six global arrays exist, and an
    entry of a history map holds the arrays created for its key, which
    exist. *)
Definition wf (σ : engine) : Prop :=
  (∀ s, is_Some (arrays σ !! GlobalArr s))
  ∧ (∀ k a, perDiskHistories σ !! k = Some a →
       a = (DiskArr k fst_side, DiskArr k snd_side)
       ∧ is_Some (arrays σ !! DiskArr k fst_side) ∧ is_Some (arrays σ !! DiskArr k snd_side))
  ∧ (∀ k a, perIfaceHistories σ !! k = Some a →
       a = (IfaceArr k fst_side, IfaceArr k snd_side)
       ∧ is_Some (arrays σ !! IfaceArr k fst_side) ∧ is_Some (arrays σ !! IfaceArr k snd_side))
  ∧ (∀ i a, perCoreHistories σ !! i = Some a → a = CoreArr i ∧ is_Some (arrays σ !! CoreArr i))
  ∧ (∀ i a, gpuHistories σ !! i = Some a →
       a = (GpuArr i fst_side, GpuArr i snd_side)
       ∧ is_Some (arrays σ !! GpuArr i fst_side) ∧ is_Some (arrays σ !! GpuArr i snd_side)).

(** A computation run from a well-formed state ends in a well-formed state
    related to the first by [R], with a result satisfying [Q]. *)
Definition hoare {A} (R : relation engine) (m : M A) (Q : A → Prop) : Prop :=
  ∀ σ, wf σ → wf (m σ).2 ∧ R σ (m σ).2 ∧ Q (m σ).1.

(** What the disk code owns is the same in both states. *)
Definition disk_same (σ σ' : engine) : Prop :=
  prevDiskStats σ' = prevDiskStats σ
  ∧ prevPerDiskStats σ' = prevPerDiskStats σ
  ∧ perDiskHistories σ' = perDiskHistories σ
  ∧ ∀ k w, arrays σ' !! DiskArr k w = arrays σ !! DiskArr k w.

(** What the network code owns is the same in both states. *)
Definition net_same (σ σ' : engine) : Prop :=
  prevNetStats σ' = prevNetStats σ
  ∧ prevPerIfaceStats σ' = prevPerIfaceStats σ
  ∧ perIfaceHistories σ' = perIfaceHistories σ
  ∧ ∀ k w, arrays σ' !! IfaceArr k w = arrays σ !! IfaceArr k w.

(** The clock is the same and has only been read. *)
Definition clock_same (σ σ' : engine) : Prop :=
  clock σ' = clock σ ∧ (ticks σ ≤ ticks σ')%nat.

Definition rel_and (R1 R2 : relation engine) : relation engine :=
  λ σ σ', R1 σ σ' ∧ R2 σ σ'.

(** The frames of the sections of a pass: what the CPU section and the final
    appends leave alone, what the disk section leaves alone, what the network
    section leaves alone. *)
Definition R_cpu : relation engine := rel_and disk_same (rel_and net_same clock_same).
Definition R_disk : relation engine := rel_and net_same clock_same.
Definition R_net : relation engine := rel_and disk_same clock_same.

Definition not_disk (a : loc) : Prop := ∀ k w, a ≠ DiskArr k w.
Definition not_iface (a : loc) : Prop := ∀ k w, a ≠ IfaceArr k w.

(** The disk part and the network part of the result of a pass. *)
Definition disk_out (st : SystemStats) : number * number * gmap string DiskRate :=
  (diskReadRate st, diskWriteRate st, perDiskStats st).
Definition net_out (st : SystemStats) : number * number * gmap string IfaceRate :=
  (networkSentRate st, networkRecvRate st, perIfaceStats st).

(** [o[k]] on an insertion-ordered record. *)
Fixpoint obj_get {V} (k : string) (o : obj V) : option V :=
  match o with
  | [] => None
  | (k', v) :: o' => if decide (k' = k) then Some v else obj_get k o'
  end.

(** The rate sample that the per-device loop derives for a key with current
    counters [cur], if it derives one. *)
Definition disk_sample (t : Z) (cur : number * number) (prev : option DiskSnapshot)
  : option DiskRate :=
  match prev with
  | Some p =>
      let dt := seconds_since t (d_timestamp p) in
      if ngt dt (num_of_Z 0)
      then Some {| readRate := kb_rate cur.1 (d_read p) dt;
                   writeRate := kb_rate cur.2 (d_write p) dt |}
      else None
  | None => None
  end.

Definition iface_sample (t : Z) (cur : number * number) (prev : option NetSnapshot)
  : option IfaceRate :=
  match prev with
  | Some p =>
      let dt := seconds_since t (n_timestamp p) in
      if ngt dt (num_of_Z 0)
      then Some {| sentRate := kb_rate cur.1 (n_sent p) dt;
                   recvRate := kb_rate cur.2 (n_recv p) dt |}
      else None
  | None => None
  end.

(** The history stream of a device ([fst_side]: read, [snd_side]: write) and
    of an interface ([fst_side]: sent, [snd_side]: recv): the contents of the
    array its history map holds, empty while the map has no entry. *)
Definition disk_stream (σ : engine) (k : string) (w : side) : list HistoryPoint :=
  match perDiskHistories σ !! k with
  | Some _ => contents_of σ (DiskArr k w)
  | None => []
  end.

Definition iface_stream (σ : engine) (k : string) (w : side) : list HistoryPoint :=
  match perIfaceHistories σ !! k with
  | Some _ => contents_of σ (IfaceArr k w)
  | None => []
  end.

(** The devices and interfaces a text reports, with their counters. *)
Definition reported_disks (diskstatsContent : string) : obj (number * number) :=
  (scan disk_row (split_lines diskstatsContent)).2.

Definition reported_ifaces (netContent : string) : obj (number * number) :=
  (scan net_row (drop 2 (split_lines netContent))).2.

Arguments kb_rate : simpl never.
Arguments seconds_since : simpl never.
Arguments ngt : simpl never.
Arguments cpu_usage : simpl never.
Arguments push_shift : simpl never.
Arguments num_of_Z : simpl never.
Arguments scan : simpl never.

(** What the disk section stores for a key with current counters [c]. *)
Definition disk_snapshot_of (t : Z) (c : number * number) : DiskSnapshot :=
  {| d_read := c.1; d_write := c.2; d_timestamp := t |}.

Definition iface_snapshot_of (t : Z) (c : number * number) : NetSnapshot :=
  {| n_sent := c.1; n_recv := c.2; n_timestamp := t |}.

(** Between (st, σ) and (st', σ') the key [k] got no rate sample and its
    history map entry and streams were left as they were. *)
Definition disk_key_kept (st : SystemStats) (σ : engine) (st' : SystemStats) (σ' : engine)
    (k : string) : Prop :=
  perDiskStats st' !! k = perDiskStats st !! k
  ∧ perDiskHistories σ' !! k = perDiskHistories σ !! k
  ∧ ∀ w, disk_stream σ' k w = disk_stream σ k w.

(** The effect between (st, σ) and (st', σ') on the key [k], reported with
    counters [c] or not reported, of the per-device loop run at time [t]. *)
Definition disk_key_effect (t : Z) (c : option (number * number))
    (st : SystemStats) (σ : engine) (st' : SystemStats) (σ' : engine) (k : string) : Prop :=
  match c with
  | None =>
      prevPerDiskStats σ' !! k = prevPerDiskStats σ !! k ∧ disk_key_kept st σ st' σ' k
  | Some c =>
      prevPerDiskStats σ' !! k = Some (disk_snapshot_of t c)
      ∧ match disk_sample t c (prevPerDiskStats σ !! k) with
        | Some s =>
            perDiskStats st' !! k = Some s
            ∧ is_Some (perDiskHistories σ' !! k)
            ∧ (∃ t1, disk_stream σ' k fst_side
                     = push_shift {| timestamp := t1; value := readRate s |}
                                  (disk_stream σ k fst_side))
            ∧ (∃ t2, disk_stream σ' k snd_side
                     = push_shift {| timestamp := t2; value := writeRate s |}
                                  (disk_stream σ k snd_side))
        | None => disk_key_kept st σ st' σ' k
        end
  end.

Definition iface_key_kept (st : SystemStats) (σ : engine) (st' : SystemStats) (σ' : engine)
    (k : string) : Prop :=
  perIfaceStats st' !! k = perIfaceStats st !! k
  ∧ perIfaceHistories σ' !! k = perIfaceHistories σ !! k
  ∧ ∀ w, iface_stream σ' k w = iface_stream σ k w.

Definition iface_key_effect (t : Z) (c : option (number * number))
    (st : SystemStats) (σ : engine) (st' : SystemStats) (σ' : engine) (k : string) : Prop :=
  match c with
  | None =>
      prevPerIfaceStats σ' !! k = prevPerIfaceStats σ !! k ∧ iface_key_kept st σ st' σ' k
  | Some c =>
      prevPerIfaceStats σ' !! k = Some (iface_snapshot_of t c)
      ∧ match iface_sample t c (prevPerIfaceStats σ !! k) with
        | Some s =>
            perIfaceStats st' !! k = Some s
            ∧ is_Some (perIfaceHistories σ' !! k)
            ∧ (∃ t1, iface_stream σ' k fst_side
                     = push_shift {| timestamp := t1; value := sentRate s |}
                                  (iface_stream σ k fst_side))
            ∧ (∃ t2, iface_stream σ' k snd_side
                     = push_shift {| timestamp := t2; value := recvRate s |}
                                  (iface_stream σ k snd_side))
        | None => iface_key_kept st σ st' σ' k
        end
  end.

(** Between (st, σ) and (st', σ') the body of the per-interface loop threw at
    the key [k], reported with counters [c]: [k] is an inherited name without
    an entry in the history map, the sample derived for [k] is in the result,
    and the snapshot of [k] and the history map were left as they were. *)
Definition iface_key_thrown (t : Z) (c : number * number)
    (st : SystemStats) (σ : engine) (st' : SystemStats) (σ' : engine) (k : string) : Prop :=
  inherited k = true
  ∧ is_Some (iface_sample t c (prevPerIfaceStats σ !! k))
  ∧ perIfaceStats st' !! k = iface_sample t c (prevPerIfaceStats σ !! k)
  ∧ prevPerIfaceStats σ' !! k = prevPerIfaceStats σ !! k
  ∧ perIfaceHistories σ !! k = None
  ∧ perIfaceHistories σ' !! k = None.

(** What the per-interface loop run at time [t] did to the key [k] between
    (st, σ) and (st', σ'): a key that is not reported is left alone; for a
    reported key the body ran to its end, or it threw, or the loop had
    stopped before it came to the key. *)
Definition iface_key_outcome (t : Z) (c : option (number * number))
    (st : SystemStats) (σ : engine) (st' : SystemStats) (σ' : engine) (k : string) : Prop :=
  match c with
  | None => iface_key_effect t None st σ st' σ' k
  | Some c' =>
      iface_key_effect t (Some c') st σ st' σ' k
      ∨ iface_key_thrown t c' st σ st' σ' k
      ∨ iface_key_effect t None st σ st' σ' k
  end.

(** No key of the record is an inherited name. *)
Definition plain_keys {V} (o : obj V) : Prop :=
  Forall (λ k, inherited k = false) (obj_keys o).

(** The aggregate rates of a section: set from the previous totals when there
    are some and time has passed. *)
Definition disk_totals (t : Z) (totalRead totalWrite : number) (prev : option DiskSnapshot)
    (stats : SystemStats) : SystemStats :=
  match prev with
  | Some p =>
      let dt := seconds_since t (d_timestamp p) in
      if ngt dt (num_of_Z 0) then
        with_diskWriteRate (kb_rate totalWrite (d_write p) dt)
          (with_diskReadRate (kb_rate totalRead (d_read p) dt) stats)
      else stats
  | None => stats
  end.

Definition net_totals (t : Z) (totalSent totalRecv : number) (prev : option NetSnapshot)
    (stats : SystemStats) : SystemStats :=
  match prev with
  | Some p =>
      let dt := seconds_since t (n_timestamp p) in
      if ngt dt (num_of_Z 0) then
        with_networkRecvRate (kb_rate totalRecv (n_recv p) dt)
          (with_networkSentRate (kb_rate totalSent (n_sent p) dt) stats)
      else stats
  | None => stats
  end.

Arguments disk_key_effect : simpl never.
Arguments iface_key_effect : simpl never.
Arguments iface_key_thrown : simpl never.
Arguments iface_key_outcome : simpl never.

(** The sections of a pass that run before the disk section. *)
Definition before_disk (c : contents) : M SystemStats :=
  stats <- when_content (statContent c) cpuSection stats0 ;;
  stats <- when_content (meminfoContent c) memorySection stats ;;
  stats <- when_content (uptimeContent c) uptimeSection stats ;;
  when_content (loadavgContent c) loadSection stats.

(** [a < b] on numbers that are not [NaN]. *)
Definition nlt (a b : number) : Prop :=
  match a, b with
  | Num x, Num y => (x < y)%Q
  | _, _ => False
  end.

(** A rate derived from the counters [cur] and [prev] is acceptable: it is a
    number at least zero, and it is zero when the counter went down. *)
Definition rate_ok (cur prev rate : number) : Prop :=
  nonneg rate ∧ (nlt cur prev → rate = num_of_Z 0).

(** [rate] is the rate, in KB per second, of a counter that went from [prev]
    to [cur] between the times [t0] and [t1], in milliseconds: the difference
    divided by 1024 and by the elapsed seconds, and 0 when that is
    negative. *)
Definition rate_between (prev cur : Q) (t0 t1 : Z) (rate : number) : Prop :=
  ∃ q, rate = Num q
       ∧ (q == Qmax 0 ((cur - prev) / 1024 / (inject_Z (t1 - t0) / 1000)))%Q.

(** The timestamp [t0] is earlier than every value the clock returns from the
    state [σ] on; it is not earlier than any of them. *)
Definition earlier (t0 : Z) (σ : engine) : Prop :=
  ∀ n, (ticks σ ≤ n)%nat → (t0 < clock σ n)%Z.


(** The totals a text adds up: (read, write) bytes over the qualifying
    devices, (sent, recv) bytes over the interfaces other than the loopback. *)
Definition total_disk_bytes (diskstatsContent : string) : number * number :=
  (scan disk_row (split_lines diskstatsContent)).1.

Definition total_net_bytes (netContent : string) : number * number :=
  (scan net_row (drop 2 (split_lines netContent))).1.

(** One of the six reads of a pass was rejected. *)
Definition some_rejected (r : reads) : Prop :=
  Rejected ∈ [r_stat r; r_meminfo r; r_uptime r; r_loadavg r; r_diskstats r; r_net r].

(** [x] brought into the range from [lo] to [hi]. *)
Definition clamp (lo hi x : Q) : Q :=
  if Qle_bool lo (if Qle_bool hi x then hi else x)
  then (if Qle_bool hi x then hi else x)
  else lo.

(** The first line of a text. *)
Definition first_line (s : string) : string := default "" (head (split_lines s)).

(** The name of a whole NVMe device or of one of its partitions: [nvme]
    followed by a digit (nvme0n1, nvme0n1p2, ...). *)
Definition nvme_name (name : string) : bool :=
  match drop_prefix "nvme" name with
  | Some r => head_is is_digit r
  | None => false
  end.

(** The device name of a row of /proc/diskstats. *)
Definition row_device (line : string) : string := default "" (fields line !! 2%nat).

(** A pass on a system whose block devices are all NVMe devices: every row
    of the disk text, if the text was read, names one. *)
Definition nvme_only (r : reads) : Prop :=
  ∀ s line, r_diskstats r = Resolved (Some s) → line ∈ split_lines s →
            (14 ≤ List.length (fields line))%nat → nvme_name (row_device line) = true.

(** The disk state holds no totals yet, or totals of zero. *)
Definition zero_totals (σ : engine) : Prop :=
  prevDiskStats σ = None
  ∨ ∃ t, prevDiskStats σ = Some {| d_read := num_of_Z 0; d_write := num_of_Z 0; d_timestamp := t |}.

(** ** Sample inputs *)

(** A text made of the given lines, each ended by a line feed. *)
Fixpoint unlines (l : list string) : string :=
  match l with
  | [] => ""
  | x :: l' => x +:+ String newline (unlines l')
  end.

(** A clock that advances by one second at every reading. *)
Definition sample_clock (n : nat) : Z := 1000 * Z.of_nat n.

(** A clock that shows [t0] for the first [n0] readings and [t1] afterwards. *)
Definition step_clock (n0 : nat) (t0 t1 : Z) (n : nat) : Z :=
  if (n <? n0)%nat then t0 else t1.

Definition no_reads : reads :=
  {| r_stat := Resolved None; r_meminfo := Resolved None; r_uptime := Resolved None;
     r_loadavg := Resolved None; r_diskstats := Resolved None; r_net := Resolved None |}.

Definition with_stat (s : string) (r : reads) : reads :=
  {| r_stat := Resolved (Some s); r_meminfo := r_meminfo r; r_uptime := r_uptime r;
     r_loadavg := r_loadavg r; r_diskstats := r_diskstats r; r_net := r_net r |}.

Definition with_meminfo (s : string) (r : reads) : reads :=
  {| r_stat := r_stat r; r_meminfo := Resolved (Some s); r_uptime := r_uptime r;
     r_loadavg := r_loadavg r; r_diskstats := r_diskstats r; r_net := r_net r |}.

Definition with_diskstats (s : string) (r : reads) : reads :=
  {| r_stat := r_stat r; r_meminfo := r_meminfo r; r_uptime := r_uptime r;
     r_loadavg := r_loadavg r; r_diskstats := Resolved (Some s); r_net := r_net r |}.

Definition with_net (s : string) (r : reads) : reads :=
  {| r_stat := r_stat r; r_meminfo := r_meminfo r; r_uptime := r_uptime r;
     r_loadavg := r_loadavg r; r_diskstats := r_diskstats r; r_net := Resolved (Some s) |}.

Definition net_rejected (r : reads) : reads :=
  {| r_stat := r_stat r; r_meminfo := r_meminfo r; r_uptime := r_uptime r;
     r_loadavg := r_loadavg r; r_diskstats := r_diskstats r; r_net := Rejected |}.

(** The two header lines of /proc/net/dev. *)
Definition net_dev_header : list string :=
  ["Inter-|   Receive                |  Transmit";
   " face |bytes    packets errs drop|bytes    packets errs drop"].

(** The state after a sequence of passes. *)
Definition run_passes (passes : list reads) (σ : engine) : engine :=
  foldl (λ σ r, (fetchSystemStats r σ).2) σ passes.

(** Two passes over one disk and one interface: between them the read counter
    of the disk grows and its write counter goes down, the sent counter of the
    interface grows and its received counter goes down. *)
Definition pass_a : reads :=
  with_net (unlines (net_dev_header ++
              ["    lo: 5 10 0 0 0 0 0 0 5 12 0 0 0 0 0 0";
               "  eth0: 1000 10 0 0 0 0 0 0 2000 12 0 0 0 0 0 0"])%list)
    (with_diskstats
       (unlines ["   8       0 sda 120 4 1000 35 60 2 2000 49 0 70 84 0 0 0 0";
                 "   8       1 sda1 20 1 400 5 6 0 300 9 0 7 14 0 0 0 0"])
       no_reads).

Definition pass_b : reads :=
  with_net (unlines (net_dev_header ++
              ["    lo: 9 12 0 0 0 0 0 0 9 14 0 0 0 0 0 0";
               "  eth0: 500 14 0 0 0 0 0 0 4048 20 0 0 0 0 0 0"])%list)
    (with_diskstats
       (unlines ["   8       0 sda 150 4 1512 39 61 2 1000 50 0 75 89 0 0 0 0";
                 "   8       1 sda1 20 1 400 5 6 0 300 9 0 7 14 0 0 0 0"])
       no_reads).


(** Passes over two disks and two interfaces ([both]) and over the first of
    each only ([one]), with counters that grow from pass to pass. *)
Definition both (i : Z) : reads :=
  with_net (unlines (net_dev_header ++
              ["    lo: 9 12 0 0 0 0 0 0 9 14 0 0 0 0 0 0";
               "  eth0: " +:+ pretty (1000 * i) +:+ " 14 0 0 0 0 0 0 " +:+ pretty (3000 * i)
                 +:+ " 20 0 0 0 0 0 0";
               "  wlan0: " +:+ pretty (500 * i) +:+ " 14 0 0 0 0 0 0 " +:+ pretty (700 * i)
                 +:+ " 20 0 0 0 0 0 0"])%list)
    (with_diskstats
       (unlines ["   8       0 sda 150 4 " +:+ pretty (1024 * i) +:+ " 39 61 2 "
                   +:+ pretty (2048 * i) +:+ " 50 0 75 89 0 0 0 0";
                 "   8      16 sdb 150 4 " +:+ pretty (512 * i) +:+ " 39 61 2 "
                   +:+ pretty (256 * i) +:+ " 50 0 75 89 0 0 0 0"])
       no_reads).

Definition one (i : Z) : reads :=
  with_net (unlines (net_dev_header ++
              ["    lo: 9 12 0 0 0 0 0 0 9 14 0 0 0 0 0 0";
               "  eth0: " +:+ pretty (1000 * i) +:+ " 14 0 0 0 0 0 0 " +:+ pretty (3000 * i)
                 +:+ " 20 0 0 0 0 0 0"])%list)
    (with_diskstats
       (unlines ["   8       0 sda 150 4 " +:+ pretty (1024 * i) +:+ " 39 61 2 "
                   +:+ pretty (2048 * i) +:+ " 50 0 75 89 0 0 0 0"])
       no_reads).

(** A pass that reads only /proc/net/dev, reporting the interfaces of the
    given names in that order; [i] scales the counters. *)
Definition named_ifaces (names : list string) (i : Z) : reads :=
  with_net (unlines (net_dev_header ++
              ((λ name, "  " +:+ name +:+ ": " +:+ pretty (1000 * i) +:+ " 14 0 0 0 0 0 0 "
                          +:+ pretty (3000 * i) +:+ " 20 0 0 0 0 0 0") <$> names))%list)
    no_reads.

(** The keys a pass reports, when its texts were read. *)
Definition disks_of (r : reads) : list string :=
  match r_diskstats r with
  | Resolved (Some s) => obj_keys (reported_disks s)
  | _ => []
  end.

Definition ifaces_of (r : reads) : list string :=
  match r_net r with
  | Resolved (Some s) => obj_keys (reported_ifaces s)
  | _ => []
  end.

(** A pass in which every file has content: one CPU with one core, memory,
    uptime, load, one disk and one interface; [i] scales the counters. *)
Definition full (i : Z) : reads :=
  {| r_stat :=
       Resolved (Some (unlines
         ["cpu  " +:+ pretty (100 + 20 * i) +:+ " 0 " +:+ pretty (50 + 10 * i) +:+ " "
            +:+ pretty (800 + 20 * i) +:+ " " +:+ pretty (50 + 10 * i) +:+ " 0 0 0";
          "cpu0 " +:+ pretty (100 + 20 * i) +:+ " 0 " +:+ pretty (50 + 10 * i) +:+ " "
            +:+ pretty (800 + 20 * i) +:+ " " +:+ pretty (50 + 10 * i) +:+ " 0 0 0";
          "intr 12345 0 0"; "ctxt 999"]));
     r_meminfo :=
       Resolved (Some (unlines
         ["MemTotal:       16000 kB"; "MemFree:         4000 kB"; "Buffers:          500 kB";
          "Cached:          3000 kB"; "SwapCached:        10 kB"; "SwapTotal:       2000 kB";
          "SwapFree:        1500 kB"; "SReclaimable:     500 kB"]));
     r_uptime := Resolved (Some "93784.25 180000.50");
     r_loadavg := Resolved (Some "0.52 0.58 0.59 1/389 12345");
     r_diskstats :=
       Resolved (Some (unlines
         ["   8       0 sda 150 4 " +:+ pretty (1024 * i) +:+ " 39 61 2 "
            +:+ pretty (2048 * i) +:+ " 50 0 75 89 0 0 0 0"]));
     r_net :=
       Resolved (Some (unlines (net_dev_header ++
         ["    lo: 9 12 0 0 0 0 0 0 9 14 0 0 0 0 0 0";
          "  eth0: " +:+ pretty (1000 * i) +:+ " 14 0 0 0 0 0 0 " +:+ pretty (3000 * i)
            +:+ " 20 0 0 0 0 0 0"])%list)) |}.

(** The same pass with the read of /proc/net/dev resolving to nothing. *)
Definition net_missing (r : reads) : reads :=
  {| r_stat := r_stat r; r_meminfo := r_meminfo r; r_uptime := r_uptime r;
     r_loadavg := r_loadavg r; r_diskstats := r_diskstats r; r_net := Resolved None |}.

(** A pass that reads only /proc/stat, with the given text. *)
Definition stat_only (s : string) : reads := with_stat s no_reads.

(** The disk text of a machine with one NVMe device and two partitions, at
    two moments. *)
Definition nvme_text_1 : string :=
  unlines [" 259       0 nvme0n1 150 4 1024 39 61 2 2048 50 0 75 89 0 0 0 0";
           " 259       1 nvme0n1p1 20 1 24 5 6 0 48 9 0 7 14 0 0 0 0";
           " 259       2 nvme0n1p2 130 3 1000 34 55 2 2000 41 0 68 75 0 0 0 0"].

Definition nvme_text_2 : string :=
  unlines [" 259       0 nvme0n1 190 4 2048 39 61 2 4096 50 0 75 89 0 0 0 0";
           " 259       1 nvme0n1p1 25 1 48 5 6 0 96 9 0 7 14 0 0 0 0";
           " 259       2 nvme0n1p2 165 3 2000 34 55 2 4000 41 0 68 75 0 0 0 0"].
(** ** Vocabulary of the history properties *)

(** The arrays handed to callers are the same in both states, and no new one
    was made. *)
Definition copies_same (σ σ' : engine) : Prop :=
  copies σ' = copies σ ∧ ∀ n, arrays σ' !! CopyArr n = arrays σ !! CopyArr n.

(** The points of [l] were stamped by readings of the clock [clk] taken one
    after the other, all before the reading number [n]. *)
Definition increasing (js : list nat) : Prop :=
  ∀ i j x y, js !! i = Some x → js !! j = Some y → (i < j)%nat → (x < y)%nat.

Definition stamped (clk : nat → Z) (n : nat) (l : list HistoryPoint) : Prop :=
  ∃ js, timestamp <$> l = clk <$> js ∧ increasing js ∧ Forall (λ j, (j < n)%nat) js.

(** What an array of the engine holds: points stamped in the order they
    were appended, and no more than [MAX_HISTORY_POINTS] of them. *)
Definition kept (clk : nat → Z) (n : nat) (l : list HistoryPoint) : Prop :=
  stamped clk n l ∧ (List.length l ≤ MAX_HISTORY_POINTS)%nat.

Definition ordered (σ : engine) : Prop :=
  ∀ a l, arrays σ !! a = Some l → kept (clock σ) (ticks σ) l.

Definition stamps_kept (σ σ' : engine) : Prop := ordered σ → ordered σ'.

(** The frame of a whole pass: what it leaves alone of the arrays handed to
    callers, what it keeps of the order of the points, and what it does to
    the clock. *)
Definition R_hist : relation engine :=
  rel_and copies_same (rel_and stamps_kept clock_same).

Definition not_copy (a : loc) : Prop := ∀ n, a ≠ CopyArr n.

(** No array handed to a caller has a number from [copies σ] on. *)
Definition copies_fresh (σ : engine) : Prop :=
  ∀ n, (copies σ ≤ n)%nat → arrays σ !! CopyArr n = None.

(** The clock never goes back. *)
Definition monotone (clk : nat → Z) : Prop := ∀ i j, (i ≤ j)%nat → (clk i ≤ clk j)%Z.

(** The engine's own variables are the same in both states. *)
Definition engine_same (σ σ' : engine) : Prop :=
  clock σ' = clock σ ∧ ticks σ' = ticks σ
  ∧ prevCpuTimes σ' = prevCpuTimes σ ∧ prevPerCoreTimes σ' = prevPerCoreTimes σ
  ∧ prevNetStats σ' = prevNetStats σ ∧ prevPerIfaceStats σ' = prevPerIfaceStats σ
  ∧ prevDiskStats σ' = prevDiskStats σ ∧ prevPerDiskStats σ' = prevPerDiskStats σ
  ∧ perDiskHistories σ' = perDiskHistories σ ∧ perIfaceHistories σ' = perIfaceHistories σ
  ∧ perCoreHistories σ' = perCoreHistories σ ∧ gpuHistories σ' = gpuHistories σ.

(** An accessor run in [σ] ended in [σ'] without touching the engine: its
    variables and every array that existed are as they were. *)
Definition untouched (σ σ' : engine) : Prop :=
  engine_same σ σ' ∧ ∀ l x, arrays σ !! l = Some x → arrays σ' !! l = Some x.

(** The array [copy], handed out in [σ'] by an accessor run in [σ], is an
    independent copy of [orig]: it did not exist before, it holds what
    [orig] held, and no later pass changes it. *)
Definition independent_copy (σ σ' : engine) (orig copy : loc) : Prop :=
  arrays σ !! copy = None
  ∧ contents_of σ' copy = contents_of σ orig
  ∧ ∀ r, contents_of (fetchSystemStats r σ').2 copy = contents_of σ' copy.

(** What an accessor over a map of pairs of arrays returns: an entry for
    each key of the map, holding two distinct independent copies. *)
Definition pair_copies `{Countable K} (σ : engine) (m : gmap K (loc * loc))
    (res : gmap K (loc * loc) * engine) : Prop :=
  untouched σ res.2
  ∧ (∀ k, is_Some (res.1 !! k) ↔ is_Some (m !! k))
  ∧ ∀ k a b a' b', m !! k = Some (a, b) → res.1 !! k = Some (a', b') →
      a' ≠ b' ∧ independent_copy σ res.2 a a' ∧ independent_copy σ res.2 b b'.

Definition single_copies `{Countable K} (σ : engine) (m : gmap K loc)
    (res : gmap K loc * engine) : Prop :=
  untouched σ res.2
  ∧ (∀ k, is_Some (res.1 !! k) ↔ is_Some (m !! k))
  ∧ ∀ k a a', m !! k = Some a → res.1 !! k = Some a' → independent_copy σ res.2 a a'.

(** ** Vocabulary of the further properties *)


(** Half a unit of the last of [f] decimals. *)
Definition half_unit (f : nat) : Q := (1 # 2) / inject_Z (10 ^ Z.of_nat f).


Definition is_dot (c : ascii) : bool := if decide (c = "."%char) then true else false.


(** What the loop of [fetchProcesses] stores for a process with I/O
    counters [i]. *)
Definition io_snapshot_of (t : Z) (i : ProcessService.IoBytes) : ProcessService.IoSnapshot :=
  {| ProcessService.io_read := ProcessService.readBytes i;
     ProcessService.io_write := ProcessService.writeBytes i;
     ProcessService.io_timestamp := t |}.

(** The entry the store holds, after a call at time [t], for a process that
    is listed. *)
Definition listed_entry (t : Z) (ioData : gmap Z ProcessService.IoBytes)
    (prev : gmap Z ProcessService.IoSnapshot) (p : Z) : option ProcessService.IoSnapshot :=
  match ioData !! p with
  | Some i => Some (io_snapshot_of t i)
  | None => prev !! p
  end.

(** The rates of a row are the initial zeros, or they are derived from the
    process's own counters and the snapshot the store held for it, taken
    before [t]. *)
Definition row_rates (t : Z) (ioData : gmap Z ProcessService.IoBytes)
    (prev : gmap Z ProcessService.IoSnapshot) (info : ProcessService.ProcessInfo) : Prop :=
  (ProcessService.diskRead info = num_of_Z 0 ∧ ProcessService.diskWrite info = num_of_Z 0)
  ∨ ∃ i s, ioData !! ProcessService.pid info = Some i
           ∧ prev !! ProcessService.pid info = Some s
           ∧ (ProcessService.io_timestamp s < t)%Z
           ∧ ProcessService.diskRead info
             = kb_rate (ProcessService.readBytes i) (ProcessService.io_read s)
                       (seconds_since t (ProcessService.io_timestamp s))
           ∧ ProcessService.diskWrite info
             = kb_rate (ProcessService.writeBytes i) (ProcessService.io_write s)
                       (seconds_since t (ProcessService.io_timestamp s)).

(** What holds of the rows built and of the store while the lines of [ps]
    are processed. *)
Definition loop_inv (t : Z) (ioData : gmap Z ProcessService.IoBytes)
    (prev : gmap Z ProcessService.IoSnapshot)
    (acc : list ProcessService.ProcessInfo * gmap Z ProcessService.IoSnapshot) : Prop :=
  (∀ p, acc.2 !! p = if decide (p ∈ ProcessService.pid <$> acc.1)
                     then listed_entry t ioData prev p
                     else prev !! p)
  ∧ Forall (row_rates t ioData prev) acc.1.

(** Records of counters that hold numbers only. *)
Definition numeric_io (ioData : gmap Z ProcessService.IoBytes) : Prop :=
  ∀ p i, ioData !! p = Some i →
         is_num (ProcessService.readBytes i) ∧ is_num (ProcessService.writeBytes i).

Definition numeric_store (store : gmap Z ProcessService.IoSnapshot) : Prop :=
  ∀ p s, store !! p = Some s →
         is_num (ProcessService.io_read s) ∧ is_num (ProcessService.io_write s).

(** The bodies of the loops of the accessors, and what holds while they run
    from the state [σ0], the entries [seen] having been copied. *)
Definition copy_body `{Countable K}
  : K * (loc * loc) → gmap K (loc * loc) → M (gmap K (loc * loc)) :=
  λ '(k, (a, b)) result,
    a' <- copy_array a ;; b' <- copy_array b ;; ret (<[k := (a', b')]> result).

Definition copy_inv `{Countable K} (σ0 : engine) (seen : list (K * (loc * loc)))
    (acc : gmap K (loc * loc) * engine) : Prop :=
  wf acc.2 ∧ copies_fresh acc.2 ∧ (copies σ0 ≤ copies acc.2)%nat ∧ engine_same σ0 acc.2
  ∧ (∀ l, (∀ n, (copies σ0 ≤ n)%nat → l ≠ CopyArr n) → arrays acc.2 !! l = arrays σ0 !! l)
  ∧ (∀ k, is_Some (acc.1 !! k) ↔ k ∈ seen.*1)
  ∧ (∀ k a' b', acc.1 !! k = Some (a', b') →
       ∃ a b n1 n2, (k, (a, b)) ∈ seen ∧ a' = CopyArr n1 ∧ b' = CopyArr n2 ∧ n1 ≠ n2
         ∧ (copies σ0 ≤ n1 < copies acc.2)%nat ∧ (copies σ0 ≤ n2 < copies acc.2)%nat
         ∧ contents_of acc.2 a' = contents_of σ0 a ∧ contents_of acc.2 b' = contents_of σ0 b).

Definition copy1_body `{Countable K} : K * loc → gmap K loc → M (gmap K loc) :=
  λ '(k, a) result, a' <- copy_array a ;; ret (<[k := a']> result).

Definition copy1_inv `{Countable K} (σ0 : engine) (seen : list (K * loc))
    (acc : gmap K loc * engine) : Prop :=
  wf acc.2 ∧ copies_fresh acc.2 ∧ (copies σ0 ≤ copies acc.2)%nat ∧ engine_same σ0 acc.2
  ∧ (∀ l, (∀ n, (copies σ0 ≤ n)%nat → l ≠ CopyArr n) → arrays acc.2 !! l = arrays σ0 !! l)
  ∧ (∀ k, is_Some (acc.1 !! k) ↔ k ∈ seen.*1)
  ∧ (∀ k a', acc.1 !! k = Some a' →
       ∃ a n1, (k, a) ∈ seen ∧ a' = CopyArr n1 ∧ (copies σ0 ≤ n1 < copies acc.2)%nat
               ∧ contents_of acc.2 a' = contents_of σ0 a).

(** The value that [update_history] appends to the memory stream. *)
Definition memory_percent (stats : SystemStats) : number :=
  if ngt (memoryTotal stats) (num_of_Z 0)
  then nmul (ndiv (memoryUsed stats) (memoryTotal stats)) (num_of_Z 100)
  else num_of_Z 0.

(** The value that [update_history] appends to each global stream. *)
Definition stream_value (stats : SystemStats) (s : stream) : number :=
  match s with
  | cpu => cpuUsage stats
  | memory => memory_percent stats
  | diskRead => diskReadRate stats
  | diskWrite => diskWriteRate stats
  | networkSent => networkSentRate stats
  | networkRecv => networkRecvRate stats
  end.

(** The names the disk code and the network code hold, in their stores and
    history maps, are names of qualifying devices and of interfaces other
    than the loopback. *)
Definition names_ok (σ : engine) : Prop :=
  (∀ k, is_Some (prevPerDiskStats σ !! k) ∨ is_Some (perDiskHistories σ !! k) →
        is_whole_disk k = true)
  ∧ (∀ k, is_Some (prevPerIfaceStats σ !! k) ∨ is_Some (perIfaceHistories σ !! k) →
          k ≠ "lo").

(** The part of a result that the disk and network sections leave alone. *)
Definition front (st : SystemStats) :=
  (cpuUsage st, cpuCores st, cpuPerCore st,
   (memoryTotal st, memoryUsed st, memoryFree st, memoryCached st, swapTotal st, swapUsed st),
   uptime st, loadAvg st).

(** The memory figures of a result. *)
Definition memory_out (st : SystemStats) :=
  (memoryTotal st, memoryUsed st, memoryFree st, memoryCached st, swapTotal st, swapUsed st).

(** The text of the uptime section for [secs] seconds. *)
Definition uptime_of (secs : number) : string :=
  let days := math_floor (ndiv secs (num_of_Z 86400)) in
  let hours := math_floor (ndiv (nrem secs (num_of_Z 86400)) (num_of_Z 3600)) in
  let mins := math_floor (ndiv (nrem secs (num_of_Z 3600)) (num_of_Z 60)) in
  if ngt days (num_of_Z 0)
  then show days +:+ "d " +:+ show hours +:+ "h " +:+ show mins +:+ "m"
  else show hours +:+ "h " +:+ show mins +:+ "m".

(** A usage figure is in range: a number from 0 to 100. *)
Definition percentage (u : number) : Prop :=
  match u with
  | Num q => (0 <= q)%Q ∧ (q <= 100)%Q
  | NaN => False
  end.

(** One step of the per-core loop of the CPU section. *)
Definition core_step : nat * number → unit → M unit :=
  λ '(i, usage) (_ : unit), a <- core_history i ;; addHistoryPoint a usage.

(** ** Vocabulary of the text properties *)

(** Strings whose characters all satisfy [f]. *)
Fixpoint str_forall (f : ascii → bool) (s : string) : bool :=
  match s with
  | EmptyString => true
  | String c s' => f c && str_forall f s'
  end.

Definition all_ws (s : string) : bool := str_forall is_ws s.
Definition no_ws (s : string) : bool := str_forall (λ c, negb (is_ws c)) s.

(** A piece of text between white space: not empty, no white space in it. *)
Definition token (s : string) : Prop := s ≠ "" ∧ no_ws s = true.

(** A row of the process list whose columns are all filled: numbers in the
    numeric ones, text in the others. *)
Definition row_filled (info : ProcessService.ProcessInfo) : Prop :=
  is_num (ProcessService.ppid info) ∧ is_num (ProcessService.cpu info)
  ∧ is_num (ProcessService.memory info) ∧ is_num (ProcessService.memoryRss info)
  ∧ is_num (ProcessService.threads info) ∧ is_num (ProcessService.nice info)
  ∧ token (ProcessService.user info) ∧ token (ProcessService.name info)
  ∧ token (ProcessService.state info) ∧ token (ProcessService.startTime info)
  ∧ ProcessService.cmdline info ≠ "".

(** A line feed, which ends each line of the text [unlines] builds. *)
Definition nl : string := String newline "".

Definition no_newline (s : string) : bool :=
  str_forall (λ c, if decide (c = newline) then false else true) s.

(** A printed line: not empty, without a line feed, and without white space
    at either end. *)
Definition printed_line (s : string) : Prop :=
  s ≠ "" ∧ no_newline s = true ∧ head_is is_ws s = false ∧ last_is is_ws s = false.

(** The line [grep -H] prints for a counter of /proc/[p]/io. *)
Definition io_text_line (p : Z) (counter : string) (v : Z) : string :=
  "/proc/" +:+ pretty p +:+ "/io:" +:+ counter +:+ ": " +:+ pretty v.

(** The two lines of a process with pid [p] that has read [r] and written
    [w] bytes, and the output of the command for a list of processes. *)
Definition io_text_lines (e : Z * Z * Z) : list string :=
  let '(p, r, w) := e in
  [io_text_line p "read_bytes" r; io_text_line p "write_bytes" w].

Definition grep_output (entries : list (Z * Z * Z)) : string :=
  unlines (entries ≫= io_text_lines).

Definition io_entry (e : Z * Z * Z) : Z * ProcessService.IoBytes :=
  let '(p, r, w) := e in
  (p, {| ProcessService.readBytes := num_of_Z r; ProcessService.writeBytes := num_of_Z w |}).

(** A line laid out in columns: the first column, then each further column
    after the white space that separates it from the one before. *)
Fixpoint columns (first : string) (rest : list (string * string)) : string :=
  match rest with
  | [] => first
  | (sep, col) :: rest' => first +:+ sep +:+ columns col rest'
  end.

(** White space between two columns: at least one character. *)
Definition separator (sep : string) : Prop := sep ≠ "" ∧ all_ws sep = true.

(** Text of ASCII characters only.  On such text the white-space class of
    the ECMAScript operations ([trim], [\s]) is the six characters of
    [is_ws]. *)
Definition ascii_text (s : string) : bool :=
  str_forall (λ c, (nat_of_ascii c <? 128)%nat) s.

(** ** Vocabulary of the hardware properties *)

(** A row of [lsblk -dno NAME,SIZE,TYPE]: the three columns and the blanks
    between them. *)
Record lsblk_row := {
  row_name : string; gap1 : string; row_size : string; gap2 : string; row_type : string
}.

Definition lsblk_text (r : lsblk_row) : string :=
  columns (row_name r) [(gap1 r, row_size r); (gap2 r, row_type r)].

Definition lsblk_row_ok (r : lsblk_row) : Prop :=
  token (row_name r) ∧ token (row_size r) ∧ token (row_type r)
  ∧ separator (gap1 r) ∧ no_newline (gap1 r) = true
  ∧ separator (gap2 r) ∧ no_newline (gap2 r) = true.

(** The devices of type [disk] among the rows, in their order. *)
Definition listed_disks (rows : list lsblk_row) : list Hardware.DiskDevice :=
  (λ r, {| Hardware.disk_name := row_name r; Hardware.sizeGB := row_size r |})
    <$> List.filter (λ r, bool_decide (row_type r = "disk")) rows.

(** The speed shown for an interface is nothing, or the trimmed content of
    the speed file of that interface, which reads as a number above 0,
    followed by the unit. *)
Definition speed_rule (h : Hardware.host) (i : Hardware.NetworkInterface) : Prop :=
  Hardware.speed i = ""
  ∨ ∃ text q, or_null (Hardware.speed_file h (Hardware.iface_name i)) = Some text
              ∧ Hardware.speed i = trim text +:+ " Mbps"
              ∧ Number (trim text) = Num q ∧ (0 < q)%Q.

(** A GPU found through sysfs: of vendor [amd] or [intel], with a card
    number that is a whole number at least 0 and a name that is not empty. *)
Definition sysfs_gpu (g : Hardware.GpuDevice) : Prop :=
  (Hardware.vendor g = Hardware.amd ∨ Hardware.vendor g = Hardware.intel)
  ∧ (∃ k : Z, (0 ≤ k)%Z ∧ Hardware.index g = num_of_Z k)
  ∧ Hardware.name g ≠ "".

(** ** Vocabulary of the GPU properties *)

Definition not_gpu (a : loc) : Prop := ∀ idx w, a ≠ GpuArr idx w.

(** What [fetchGpuStats] owns is the same in both states. *)
Definition gpu_same (σ σ' : engine) : Prop :=
  gpuHistories σ' = gpuHistories σ
  ∧ ∀ idx w, arrays σ' !! GpuArr idx w = arrays σ !! GpuArr idx w.

(** What [fetchSystemStats] and the accessors own is the same in both
    states: the previous counters, the history maps of the disks, the
    interfaces and the cores, every array but those of the GPUs, and the
    arrays handed to callers. *)
Definition system_same (σ σ' : engine) : Prop :=
  clock σ' = clock σ ∧ copies σ' = copies σ
  ∧ prevCpuTimes σ' = prevCpuTimes σ ∧ prevPerCoreTimes σ' = prevPerCoreTimes σ
  ∧ prevNetStats σ' = prevNetStats σ ∧ prevPerIfaceStats σ' = prevPerIfaceStats σ
  ∧ prevDiskStats σ' = prevDiskStats σ ∧ prevPerDiskStats σ' = prevPerDiskStats σ
  ∧ perDiskHistories σ' = perDiskHistories σ ∧ perIfaceHistories σ' = perIfaceHistories σ
  ∧ perCoreHistories σ' = perCoreHistories σ
  ∧ ∀ l, not_gpu l → arrays σ' !! l = arrays σ !! l.

(** A statistic all of whose fields are numbers. *)
Definition stat_numeric (s : GpuService.GpuStats) : Prop :=
  is_num (GpuService.gpuUsage s) ∧ is_num (GpuService.memoryUsage s)
  ∧ is_num (GpuService.memoryTotal s) ∧ is_num (GpuService.memoryUsed s)
  ∧ is_num (GpuService.temperature s) ∧ is_num (GpuService.powerDraw s).

(** ** The calls of the application *)

(** A call of a function that the module exports and that reads or changes
    the state of the engine. *)
Inductive call :=
  | Call_fetchSystemStats (r : reads)
  | Call_fetchGpuStats (h : GpuService.host) (gpus : list Hardware.GpuDevice)
  | Call_getSystemHistory
  | Call_getPerDiskHistory
  | Call_getPerIfaceHistory
  | Call_getPerCoreHistory
  | Call_getGpuHistory.

(** The state a call leaves. *)
Definition run_call (c : call) (σ : engine) : engine :=
  match c with
  | Call_fetchSystemStats r => (fetchSystemStats r σ).2
  | Call_fetchGpuStats h gpus => (GpuService.fetchGpuStats h gpus σ).2
  | Call_getSystemHistory => (getSystemHistory σ).2
  | Call_getPerDiskHistory => (getPerDiskHistory σ).2
  | Call_getPerIfaceHistory => (getPerIfaceHistory σ).2
  | Call_getPerCoreHistory => (getPerCoreHistory σ).2
  | Call_getGpuHistory => (getGpuHistory σ).2
  end.

Definition run_calls (calls : list call) (σ : engine) : engine :=
  foldl (λ σ c, run_call c σ) σ calls.

(** The first statement of [gpu_sample]: the histories of the GPU, made
    when they are missing. *)
Definition gpu_ensure (idx : number) : M (loc * loc) :=
  h <- get (λ σ, gpuHistories σ !! idx) ;;
  match h with
  | Some a => ret a
  | None =>
      let a := (GpuArr idx fst_side, GpuArr idx snd_side) in
      new_array a.1 ;;; new_array a.2 ;;;
      modify (λ σ, set_gpuHistories (<[idx := a]> (gpuHistories σ)) σ) ;;;
      ret a
  end.

(** No array handed to a caller is lost or reused. *)
Definition fresh_kept (σ σ' : engine) : Prop := copies_fresh σ → copies_fresh σ'.

(** The frame of an accessor. *)
Definition R_acc : relation engine :=
  rel_and stamps_kept (rel_and fresh_kept engine_same).

(** What holds of the engine between two calls. *)
Definition engine_inv (clk : nat → Z) (σ : engine) : Prop :=
  wf σ ∧ ordered σ ∧ copies_fresh σ ∧ names_ok σ ∧ clock σ = clk.

(** A call that, when it is a call of [fetchGpuStats], is for the GPUs
    [gpus] or, before the hardware information has arrived, for none. *)
Definition call_with (gpus : list Hardware.GpuDevice) (c : call) : Prop :=
  match c with
  | Call_fetchGpuStats _ gs => gs = gpus ∨ gs = []
  | _ => True
  end.

(** The GPU histories are kept under card numbers of [gpus] only. *)
Definition keys_within (gpus : list Hardware.GpuDevice) (σ : engine) : Prop :=
  ∀ k, is_Some (gpuHistories σ !! k) →
       ∃ g, g ∈ gpus ∧ number_key (Hardware.index g) = k.

(** ** Vocabulary of the families of a pass *)

Definition not_core (a : loc) : Prop := ∀ i, a ≠ CoreArr i.

(** What the CPU section owns is the same in both states. *)
Definition cpu_same (σ σ' : engine) : Prop :=
  prevCpuTimes σ' = prevCpuTimes σ
  ∧ prevPerCoreTimes σ' = prevPerCoreTimes σ
  ∧ perCoreHistories σ' = perCoreHistories σ
  ∧ ∀ i, arrays σ' !! CoreArr i = arrays σ !! CoreArr i.

(** The CPU figures of a result. *)
Definition cpu_out (st : SystemStats) := (cpuUsage st, cpuCores st, cpuPerCore st).

(** ** Text whose numbers are finite *)

(** No more than [max] decimal digits follow one another in [s]; [run] digits
    have just been read. *)
Fixpoint digit_runs_within (max run : nat) (s : string) : bool :=
  match s with
  | EmptyString => true
  | String c s' =>
      if is_digit c then (S run <=? max)%nat && digit_runs_within max (S run) s'
      else digit_runs_within max 0 s'
  end.

(** Every decimal number of the text has at most 308 digits: it is below
    10^308, and [parseInt] reads it as a finite number. *)
Definition finite_numbers (s : string) : bool := digit_runs_within 308 0 s.

(** The same of what a command settled to. *)
Definition finite_output (out : read_result) : Prop :=
  match out with
  | Resolved (Some s) => finite_numbers s = true
  | _ => True
  end.

(** [getVal(key)] of the memory section as a whole number: the number the
    text holds for the key, 0 when it holds none. *)
Definition meminfo_value (meminfoContent key : string) : Z :=
  default 0%Z (first_capture key meminfoContent).

(** A line of /proc/meminfo as the kernel prints it: the name of the figure,
    a colon, blanks, the figure, and a unit or nothing. *)
Definition meminfo_line (row : string * string * Z * string) : string :=
  let '(name, blanks, n, unit) := row in
  name +:+ ":" +:+ blanks +:+ pretty n +:+ unit.

Definition meminfo_text (rows : list (string * string * Z * string)) : string :=
  unlines (meminfo_line <$> rows).

Definition no_colon (s : string) : bool :=
  str_forall (λ c, if decide (c = ":"%char) then false else true) s.

Definition is_letter (c : ascii) : bool :=
  let n := nat_of_ascii c in
  ((65 <=? n)%nat && (n <=? 90)%nat) || ((97 <=? n)%nat && (n <=? 122)%nat).

Definition meminfo_row_ok (row : string * string * Z * string) : Prop :=
  let '(name, blanks, n, unit) := row in
  no_colon name = true ∧ all_ws blanks = true ∧ (0 ≤ n)%Z
  ∧ no_colon unit = true ∧ head_is is_digit unit = false.

(** [name] ends with [key]. *)
Fixpoint ends_with (key name : string) {struct name} : bool :=
  if decide (name = key) then true
  else match name with
       | String _ name' => ends_with key name'
       | EmptyString => false
       end.

(** The figure of the first line whose name ends with [key]; 0 when there is
    none. *)
Definition meminfo_figure (key : string) (rows : list (string * string * Z * string)) : Z :=
  match List.find (λ row, ends_with key row.1.1.1) rows with
  | Some (_, _, n, _) => n
  | None => 0%Z
  end.


(** * Properties *)

(** ** The text primitives on sample inputs *)

Example fields_cpu :
  fields "cpu  100 0 50 800 50 0 0 0" = ["cpu"; "100"; "0"; "50"; "800"; "50"; "0"; "0"; "0"].
Proof. reflexivity. Qed.

Example fields_empty : fields "   " = [""].
Proof. reflexivity. Qed.

Example split_ws_edges : split_ws " a  b " = [""; "a"; "b"; ""].
Proof. reflexivity. Qed.

Example parseInt_examples :
  parseInt "  42abc" = num_of_Z 42 ∧ parseInt "-7" = num_of_Z (-7) ∧ parseInt "x1" = NaN.
Proof. repeat split; reflexivity. Qed.

Example Number_examples :
  Number "0.52" = Num (13 # 25) ∧ Number "12" = num_of_Z 12 ∧ Number "12ab" = NaN
  ∧ Number "" = num_of_Z 0.
Proof. repeat split; reflexivity. Qed.

Example is_whole_disk_examples :
  is_whole_disk "sda" = true ∧ is_whole_disk "sda1" = false
  ∧ is_whole_disk "nvme0n1" = false ∧ is_whole_disk "loop0" = false
  ∧ is_whole_disk "xvdb" = true ∧ is_whole_disk "sd" = false.
Proof. repeat split; reflexivity. Qed.

Example first_capture_meminfo :
  first_capture "Cached" ("MemFree:  10 kB" +:+ String newline "Cached:   77 kB") = Some 77.
Proof. reflexivity. Qed.


(** ** History streams are bounded queues *)

Lemma lastn_length {A} n (l : list A) : List.length (lastn n l) = (List.length l `min` n)%nat.
Proof. unfold lastn. rewrite length_drop. lia. Qed.

Lemma lastn_nil {A} n : lastn n (@nil A) = [].
Proof. reflexivity. Qed.

Lemma push_shift_lastn p l :
  push_shift p (lastn MAX_HISTORY_POINTS l) = lastn MAX_HISTORY_POINTS (l ++ [p])%list.
Proof.
  unfold push_shift, lastn, MAX_HISTORY_POINTS.
  rewrite !length_app, length_drop. cbn [List.length].
  destruct (Nat.ltb_spec 60 (List.length l - (List.length l - 60) + 1)) as [Hlt | Hge].
  - replace (List.length l + 1 - 60)%nat with (S (List.length l - 60)) by lia.
    rewrite drop_app_le by lia.
    destruct (lookup_lt_is_Some_2 l (List.length l - 60)) as [x Hx]; [lia |].
    by rewrite (drop_S _ _ _ Hx).
  - replace (List.length l + 1 - 60)%nat with 0%nat by lia.
    replace (List.length l - 60)%nat with 0%nat by lia. reflexivity.
Qed.

Lemma addHistoryPoint_run arr v σ :
  addHistoryPoint arr v σ
  = (tt, set_arrays (alter (push_shift {| timestamp := clock σ (ticks σ); value := v |}) arr
                       (arrays σ)) (set_ticks (S (ticks σ)) σ)).
Proof. reflexivity. Qed.

Lemma appends_lastn arr ops : ∀ σ acc,
  arrays σ !! arr = Some (lastn MAX_HISTORY_POINTS acc) →
  arrays (appends ops σ).2 !! arr
  = Some (lastn MAX_HISTORY_POINTS (acc ++ appended arr ops (clock σ) (ticks σ))%list).
Proof.
  induction ops as [| [a v] ops IH]; intros σ acc Hσ.
  - simpl. by rewrite app_nil_r.
  - unfold appends in *. cbn [fold_m appended]. unfold bind at 1.
    rewrite addHistoryPoint_run.
    destruct (decide (a = arr)) as [-> | Hne].
    + rewrite app_assoc. 
      erewrite (IH _ (acc ++ [_])%list); [reflexivity |].
      cbn. rewrite lookup_alter_eq, Hσ. cbn. by rewrite push_shift_lastn.
    + rewrite app_nil_l. erewrite (IH _ acc); [reflexivity |].
      cbn. by rewrite lookup_alter_ne.
Qed.

(** C4.  A history array that starts empty holds, after any sequence of calls
    of [addHistoryPoint] (to it and to other arrays), the most recent
    [min N 60] of the [N] points handed to it, oldest first; its length is
    [min N 60], and it is at most 60 after every prefix of the calls. *)
Theorem history_bound (σ : engine) (arr : loc) (ops : list (loc * number)) :
  arrays σ !! arr = Some [] →
  let pts := appended arr ops (clock σ) (ticks σ) in
  let N := List.length pts in
  contents_of (appends ops σ).2 arr = drop (N - 60) pts
  ∧ List.length (contents_of (appends ops σ).2 arr) = (N `min` 60)%nat
  ∧ ∀ k, (List.length (contents_of (appends (take k ops) σ).2 arr) ≤ 60)%nat.
Proof.
  intros Hσ pts N.
  assert (Hgen : ∀ ops', contents_of (appends ops' σ).2 arr
                 = lastn MAX_HISTORY_POINTS (appended arr ops' (clock σ) (ticks σ))).
  { intros ops'. unfold contents_of.
    rewrite (appends_lastn arr ops' σ []); [reflexivity | by rewrite lastn_nil]. }
  split; [| split].
  - rewrite Hgen. reflexivity.
  - rewrite Hgen, lastn_length. reflexivity.
  - intros k. rewrite Hgen, lastn_length. unfold MAX_HISTORY_POINTS. lia.
Qed.

Lemma history_bound_witness :
  let ops := [(GlobalArr cpu, Num 1); (GlobalArr memory, Num 7); (GlobalArr cpu, Num 2)] in
  contents_of (appends ops (init sample_clock)).2 (GlobalArr cpu)
  = [{| timestamp := 0; value := Num 1 |}; {| timestamp := 2000; value := Num 2 |}]
  ∧ List.length (contents_of (appends ops (init sample_clock)).2 (GlobalArr cpu)) = 2%nat.
Proof.
  intros ops.
  destruct (history_bound (init sample_clock) (GlobalArr cpu) ops) as (H1 & H2 & _).
  - vm_compute. reflexivity.
  - split; [exact H1 | exact H2].
Defined.

(** Sixty-one appends leave the last sixty points. *)
Example history_bound_overflow :
  let ops := (λ i, (GlobalArr cpu, num_of_Z (Z.of_nat i))) <$> seq 0 61 in
  value <$> contents_of (appends ops (init sample_clock)).2 (GlobalArr cpu)
  = (λ i, num_of_Z (Z.of_nat i)) <$> seq 1 60.
Proof. vm_compute. reflexivity. Qed.

(** ** Reasoning about effects *)

Ltac run := unfold bind, get, modify, ret, now, addHistoryPoint, new_array in *; cbn in *.

#[local] Instance disk_same_preorder : PreOrder disk_same.
Proof.
  split.
  - by intros σ.
  - intros σ1 σ2 σ3 (? & ? & ? & H12) (? & ? & ? & H23).
    repeat split; first [congruence | intros; by rewrite H23, H12].
Qed.

#[local] Instance net_same_preorder : PreOrder net_same.
Proof.
  split.
  - by intros σ.
  - intros σ1 σ2 σ3 (? & ? & ? & H12) (? & ? & ? & H23).
    repeat split; first [congruence | intros; by rewrite H23, H12].
Qed.

#[local] Instance clock_same_preorder : PreOrder clock_same.
Proof.
  split; unfold clock_same.
  - by intros σ.
  - intros σ1 σ2 σ3 [? ?] [? ?]. split; [congruence | lia].
Qed.

#[local] Instance rel_and_preorder R1 R2 `{!PreOrder R1, !PreOrder R2} :
  PreOrder (rel_and R1 R2).
Proof.
  split.
  - intros σ. split; reflexivity.
  - intros σ1 σ2 σ3 [? ?] [? ?]. split; by etrans.
Qed.

#[local] Instance R_cpu_preorder : PreOrder R_cpu.
Proof. unfold R_cpu. apply _. Qed.
#[local] Instance R_disk_preorder : PreOrder R_disk.
Proof. unfold R_disk. apply _. Qed.
#[local] Instance R_net_preorder : PreOrder R_net.
Proof. unfold R_net. apply _. Qed.

Section Hoare.
Context (R : relation engine) `{!PreOrder R}.

Lemma hoare_ret {A} (a : A) (Q : A → Prop) : Q a → hoare R (ret a) Q.
Proof. intros HQ σ Hwf. cbn. split; [done | split; [reflexivity | done]]. Qed.

Lemma hoare_bind {A B} (m : M A) (k : A → M B) (P : A → Prop) (Q : B → Prop) :
  hoare R m P → (∀ a, P a → hoare R (k a) Q) → hoare R (bind m k) Q.
Proof.
  intros Hm Hk σ Hwf. unfold bind.
  destruct (Hm σ Hwf) as (Hwf1 & HR1 & HP). destruct (m σ) as [a σ1]. cbn in *.
  destruct (Hk a HP σ1 Hwf1) as (Hwf2 & HR2 & HQ).
  split; [done | split; [by etrans | done]].
Qed.

Lemma hoare_get {A} (f : engine → A) (Q : A → Prop) :
  (∀ σ, wf σ → Q (f σ)) → hoare R (get f) Q.
Proof. intros HQ σ Hwf. cbn. split; [done | split; [reflexivity | auto]]. Qed.

Lemma hoare_weaken {A} (m : M A) (P Q : A → Prop) :
  hoare R m P → (∀ a, P a → Q a) → hoare R m Q.
Proof. intros Hm HPQ σ Hwf. destruct (Hm σ Hwf) as (? & ? & ?). auto. Qed.

Lemma hoare_fold_m {A S} (body : A → S → M S) (I : S → Prop) (l : list A) :
  (∀ x s, x ∈ l → I s → hoare R (body x s) I) →
  ∀ s, I s → hoare R (fold_m body l s) I.
Proof.
  induction l as [| x l IH]; intros Hbody s Hs; cbn.
  - by apply hoare_ret.
  - eapply hoare_bind.
    + apply Hbody; [left | done].
    + cbn. intros s' Hs'. apply IH; [| done].
      intros y s'' Hy. apply Hbody. by right.
Qed.
Lemma hoare_fold_try {A S} (body : A → S → M (S * ending)) (I : S → Prop) (l : list A) :
  (∀ x s, x ∈ l → I s → hoare R (body x s) (λ r, I r.1)) →
  ∀ s, I s → hoare R (fold_try body l s) I.
Proof.
  induction l as [| x l IH]; intros Hbody s Hs; cbn.
  - by apply hoare_ret.
  - eapply hoare_bind.
    + apply Hbody; [left | done].
    + cbn. intros [s' []] Hs'; cbn in *.
      * apply IH; [| done]. intros y s'' Hy. apply Hbody. by right.
      * by apply hoare_ret.
Qed.
End Hoare.

Lemma hoare_modify (R : relation engine) (f : engine → engine) :
  (∀ σ, wf σ → wf (f σ) ∧ R σ (f σ)) → hoare R (modify f) (λ _, True).
Proof. intros Hf σ Hwf. cbn. destruct (Hf σ Hwf). auto. Qed.

(** Well-formedness depends on the history maps and on which arrays exist. *)
Lemma wf_arrays_dom σ σ' :
  (∀ l, is_Some (arrays σ !! l) → is_Some (arrays σ' !! l)) →
  perDiskHistories σ' = perDiskHistories σ →
  perIfaceHistories σ' = perIfaceHistories σ →
  perCoreHistories σ' = perCoreHistories σ →
  gpuHistories σ' = gpuHistories σ →
  wf σ → wf σ'.
Proof.
  intros Ha Hd' Hi' Hc' Hu' (Hg & Hd & Hi & Hc & Hu). unfold wf.
  rewrite Hd', Hi', Hc', Hu'.
  split; [| split; [| split; [| split]]].
  - intros s. apply Ha, Hg.
  - intros k a Hk. destruct (Hd k a Hk) as (? & ? & ?). auto.
  - intros k a Hk. destruct (Hi k a Hk) as (? & ? & ?). auto.
  - intros k a Hk. destruct (Hc k a Hk) as (? & ?). auto.
  - intros k a Hk. destruct (Hu k a Hk) as (? & ? & ?). auto.
Qed.

Lemma wf_disk σ k a :
  wf σ → perDiskHistories σ !! k = Some a →
  a = (DiskArr k fst_side, DiskArr k snd_side)
  ∧ is_Some (arrays σ !! DiskArr k fst_side) ∧ is_Some (arrays σ !! DiskArr k snd_side).
Proof. intros (_ & H & _). apply H. Qed.

Lemma wf_iface σ k a :
  wf σ → perIfaceHistories σ !! k = Some a →
  a = (IfaceArr k fst_side, IfaceArr k snd_side)
  ∧ is_Some (arrays σ !! IfaceArr k fst_side) ∧ is_Some (arrays σ !! IfaceArr k snd_side).
Proof. intros (_ & _ & H & _). apply H. Qed.

Lemma wf_init clk : wf (init clk).
Proof.
  unfold wf, init; cbn. split; [| by repeat split].
  intros []; vm_compute; eauto.
Qed.

Lemma wf_addHistoryPoint a v σ : wf σ → wf (addHistoryPoint a v σ).2.
Proof.
  apply wf_arrays_dom; try reflexivity.
  intros l. cbn. by rewrite lookup_alter_is_Some.
Qed.

Lemma addHistoryPoint_R_cpu a v :
  not_disk a → not_iface a → hoare R_cpu (addHistoryPoint a v) (λ _, True).
Proof.
  intros Hd Hi σ Hwf. split; [by apply wf_addHistoryPoint |]. split; [| done].
  repeat split; cbn; try lia.
  - intros. rewrite lookup_alter_ne; [done | apply Hd].
  - intros. rewrite lookup_alter_ne; [done | apply Hi].
Qed.

Lemma addHistoryPoint_R_disk a v :
  not_iface a → hoare R_disk (addHistoryPoint a v) (λ _, True).
Proof.
  intros Hi σ Hwf. split; [by apply wf_addHistoryPoint |]. split; [| done].
  repeat split; cbn; try lia.
  intros. rewrite lookup_alter_ne; [done | apply Hi].
Qed.

Lemma addHistoryPoint_R_net a v :
  not_disk a → hoare R_net (addHistoryPoint a v) (λ _, True).
Proof.
  intros Hd σ Hwf. split; [by apply wf_addHistoryPoint |]. split; [| done].
  repeat split; cbn; try lia.
  intros. rewrite lookup_alter_ne; [done | apply Hd].
Qed.

Lemma core_history_R_cpu i :
  hoare R_cpu (core_history i) (λ a, a = CoreArr i).
Proof.
  intros σ Hwf. unfold core_history. run.
  destruct (perCoreHistories σ !! i) as [a |] eqn:Ha; cbn.
  - split; [done |]. split; [reflexivity |].
    destruct Hwf as (_ & _ & _ & Hc & _). by destruct (Hc i a Ha).
  - split; [| split; [| done]].
    + destruct Hwf as (Hg & Hd & Hi & Hc & Hu). unfold wf; cbn.
      split; [| split; [| split; [| split]]].
      * intros s. rewrite lookup_insert_ne by done. apply Hg.
      * intros k a Hk. rewrite !lookup_insert_ne by done. eauto.
      * intros k a Hk. rewrite !lookup_insert_ne by done. eauto.
      * intros k a Hk. destruct (decide (i = k)) as [-> | Hne].
        -- rewrite lookup_insert_eq in Hk. injection Hk as <-.
           rewrite lookup_insert_eq. eauto.
        -- rewrite lookup_insert_ne in Hk by done.
           destruct (Hc k a Hk) as [-> ?]. split; [done |].
           rewrite lookup_insert_ne by congruence. done.
      * intros k a Hk. rewrite !lookup_insert_ne by done. eauto.
    + repeat split; cbn; try lia; intros; by rewrite lookup_insert_ne.
Qed.

Lemma obj_keys_put {V} k (v : V) o k' :
  k' ∈ obj_keys (obj_put k v o) ↔ k' = k ∨ k' ∈ obj_keys o.
Proof.
  induction o as [| [k0 v0] o IH]; cbn.
  - rewrite list_elem_of_singleton. split; [auto | intros [? | H]; [done | inversion H]].
  - destruct (decide (k0 = k)) as [-> | Hne]; cbn.
    + rewrite !elem_of_cons. tauto.
    + rewrite !elem_of_cons, IH. tauto.
Qed.

Lemma obj_put_NoDup {V} k (v : V) o :
  NoDup (obj_keys o) → NoDup (obj_keys (obj_put k v o)).
Proof.
  induction o as [| [k0 v0] o IH]; cbn; intros Hnd.
  - apply NoDup_singleton.
  - apply NoDup_cons in Hnd as [Hnotin Hnd].
    destruct (decide (k0 = k)) as [-> | Hne]; cbn.
    + by apply NoDup_cons.
    + apply NoDup_cons. split; [| auto].
      intros H. apply (proj1 (obj_keys_put k v o k0)) in H as [? | ?]; [congruence | done].
Qed.

Lemma obj_keys_set {V} k (v : V) o k' :
  k' ∈ obj_keys (obj_set k v o) ↔ (k' = k ∧ k ≠ "__proto__") ∨ k' ∈ obj_keys o.
Proof.
  unfold obj_set. destruct (decide (k = "__proto__")) as [-> | Hne].
  - split; [auto | intros [[_ ?] | ?]; done].
  - rewrite obj_keys_put. tauto.
Qed.

Lemma obj_set_NoDup {V} k (v : V) o :
  NoDup (obj_keys o) → NoDup (obj_keys (obj_set k v o)).
Proof.
  unfold obj_set. destruct (decide (k = "__proto__")); [done | apply obj_put_NoDup].
Qed.

Lemma scan_NoDup row lines : NoDup (obj_keys (scan row lines).2).
Proof.
  unfold scan.
  assert (H : ∀ acc : number * number * obj (number * number),
             NoDup (obj_keys acc.2) →
             NoDup (obj_keys (foldl (λ '(a, b, cur) line,
               match row line with
               | Some (k, (x, y)) => (nadd a x, nadd b y, obj_set k (x, y) cur)
               | None => (a, b, cur)
               end) acc lines).2)).
  { induction lines as [| l lines IH]; intros [[a b] cur] Hnd; [done |].
    cbn [foldl]. apply IH.
    destruct (row l) as [[k [x y]] |]; cbn; [by apply obj_set_NoDup | done]. }
  apply H. cbn. apply NoDup_nil_2.
Qed.


(** ** The disk section *)

Lemma disk_history_R_disk dev :
  hoare R_disk (disk_history dev) (λ a, a = (DiskArr dev fst_side, DiskArr dev snd_side)).
Proof.
  intros σ Hwf. unfold disk_history. run.
  destruct (perDiskHistories σ !! dev) as [a |] eqn:Ha; cbn.
  - split; [done |]. split; [reflexivity |].
    by destruct (wf_disk _ _ _ Hwf Ha).
  - split; [| split; [| done]].
    + assert (Hkey : ∀ k a,
        <[dev := (DiskArr dev fst_side, DiskArr dev snd_side)]> (perDiskHistories σ) !! k = Some a →
        a = (DiskArr k fst_side, DiskArr k snd_side)
        ∧ is_Some (<[DiskArr dev snd_side := []]> (<[DiskArr dev fst_side := []]> (arrays σ))
                     !! DiskArr k fst_side)
        ∧ is_Some (<[DiskArr dev snd_side := []]> (<[DiskArr dev fst_side := []]> (arrays σ))
                     !! DiskArr k snd_side)).
      { intros k a Hk. destruct (decide (dev = k)) as [-> | Hne].
        - rewrite lookup_insert_eq in Hk. injection Hk as <-.
          rewrite lookup_insert_eq, lookup_insert_ne, lookup_insert_eq by done. eauto.
        - rewrite lookup_insert_ne in Hk by done.
          destruct (wf_disk _ _ _ Hwf Hk) as (-> & ? & ?). split; [done |].
          rewrite !lookup_insert_ne by congruence. done. }
      destruct Hwf as (Hg & H1 & H2 & H3 & H4). unfold wf; cbn.
      split; [| split; [| split; [| split]]];
        first [ exact Hkey
              | intros s; rewrite !lookup_insert_ne by done; apply Hg
              | intros k a Hk; rewrite !lookup_insert_ne by done; eauto ].
    + repeat split; cbn; try lia; intros; by rewrite !lookup_insert_ne.
Qed.

Lemma with_perDiskStats_same st : with_perDiskStats (perDiskStats st) st = st.
Proof. by destruct st. Qed.

Lemma disk_entry_R_disk t e stats :
  hoare R_disk (disk_entry t e stats) (λ st, ∃ m, st = with_perDiskStats m stats).
Proof.
  destruct e as [dev [read write]]. unfold disk_entry.
  eapply hoare_bind; [apply _ | apply (hoare_get _ _ (λ _, True)); done |].
  intros prev _.
  eapply (hoare_bind _ _ _ (λ st, ∃ m, st = with_perDiskStats m stats)).
  - destruct prev as [p |]; [destruct (ngt _ _) |].
    + eapply hoare_bind; [apply _ | apply disk_history_R_disk |]. intros a ->.
      eapply hoare_bind; [apply _ | by apply addHistoryPoint_R_disk |]. intros _ _.
      eapply hoare_bind; [apply _ | by apply addHistoryPoint_R_disk |]. intros _ _.
      apply hoare_ret; [apply _ |]. by eexists.
    + apply hoare_ret; [apply _ |]. exists (perDiskStats stats). by rewrite with_perDiskStats_same.
    + apply hoare_ret; [apply _ |]. exists (perDiskStats stats). by rewrite with_perDiskStats_same.
  - intros st Hst.
    eapply hoare_bind; [apply _ | | intros; by apply hoare_ret; [apply _ |]].
    apply hoare_modify. intros σ Hwf. split.
    + revert Hwf. by apply wf_arrays_dom.
    + by repeat split.
Qed.

Lemma disk_stream_alter_other σ σ' k w :
  perDiskHistories σ' !! k = perDiskHistories σ !! k →
  arrays σ' !! DiskArr k w = arrays σ !! DiskArr k w →
  disk_stream σ' k w = disk_stream σ k w.
Proof. intros H1 H2. unfold disk_stream, contents_of. by rewrite H1, H2. Qed.

Lemma disk_entry_self t dev cur stats σ :
  wf σ →
  disk_key_effect t (Some cur) stats σ
    (disk_entry t (dev, cur) stats σ).1 (disk_entry t (dev, cur) stats σ).2 dev.
Proof.
  intros Hwf. destruct cur as [read write].
  unfold disk_key_effect, disk_key_kept, disk_entry, disk_sample, disk_history.
  destruct (prevPerDiskStats σ !! dev) as [p |] eqn:Hp.
  - run. rewrite Hp. cbn. destruct (ngt _ _) eqn:Hdt.
    + destruct (perDiskHistories σ !! dev) as [a |] eqn:Ha; cbn.
      * destruct (wf_disk _ _ _ Hwf Ha) as (-> & [x Hx] & [y Hy]). cbn.
        unfold disk_stream, contents_of; cbn. rewrite Ha.
        split; [by rewrite lookup_insert_eq |].
        split; [by rewrite lookup_insert_eq |].
        split; [eauto |].
        split; eexists.
        -- rewrite lookup_alter_ne, lookup_alter_eq, Hx by done. reflexivity.
        -- rewrite lookup_alter_eq, lookup_alter_ne, Hy by done. reflexivity.
      * unfold disk_stream, contents_of; cbn. rewrite Ha, !lookup_insert_eq.
        split; [done |]. split; [done |]. split; [eauto |].
        split; eexists.
        -- rewrite lookup_alter_ne, lookup_alter_eq, lookup_insert_ne, lookup_insert_eq by done.
           reflexivity.
        -- rewrite lookup_alter_eq, lookup_alter_ne, lookup_insert_eq by done. reflexivity.
    + cbn. split; [by rewrite lookup_insert_eq |]. by repeat split.
  - run. rewrite Hp. cbn. split; [by rewrite lookup_insert_eq |]. by repeat split.
Qed.

Lemma disk_entry_other t dev cur stats σ k :
  wf σ → dev ≠ k →
  disk_key_effect t None stats σ
    (disk_entry t (dev, cur) stats σ).1 (disk_entry t (dev, cur) stats σ).2 k.
Proof.
  intros Hwf Hne. destruct cur as [read write].
  assert (Hfin : ∀ st' σ',
    prevPerDiskStats σ' !! k = prevPerDiskStats σ !! k →
    perDiskStats st' !! k = perDiskStats stats !! k →
    perDiskHistories σ' !! k = perDiskHistories σ !! k →
    (∀ w, arrays σ' !! DiskArr k w = arrays σ !! DiskArr k w) →
    disk_key_effect t None stats σ st' σ' k).
  { intros st' σ' H1 H2 H3 H4. unfold disk_key_effect. repeat split; try done.
    intros w. by apply disk_stream_alter_other. }
  unfold disk_entry, disk_history.
  destruct (prevPerDiskStats σ !! dev) as [p |] eqn:Hp.
  - run. rewrite Hp. cbn. destruct (ngt _ _) eqn:Hdt.
    + destruct (perDiskHistories σ !! dev) as [a |] eqn:Ha; cbn.
      * destruct (wf_disk _ _ _ Hwf Ha) as (-> & _ & _).
        apply Hfin; cbn; rewrite ?lookup_insert_ne by done; try done.
        intros w. rewrite !lookup_alter_ne by congruence. done.
      * apply Hfin; cbn; rewrite ?lookup_insert_ne by done; try done.
        intros w. rewrite !lookup_alter_ne, !lookup_insert_ne by congruence. done.
    + apply Hfin; cbn; rewrite ?lookup_insert_ne by done; done.
  - run. rewrite Hp. apply Hfin; cbn; rewrite ?lookup_insert_ne by done; done.
Qed.

Lemma disk_key_kept_trans st0 σ0 st1 σ1 st2 σ2 k :
  disk_key_kept st0 σ0 st1 σ1 k → disk_key_kept st1 σ1 st2 σ2 k →
  disk_key_kept st0 σ0 st2 σ2 k.
Proof.
  intros (H1 & H2 & H3) (H1' & H2' & H3').
  split; [congruence |]. split; [congruence |].
  intros w. by rewrite H3', H3.
Qed.

Lemma disk_effect_after_kept t c st0 σ0 st1 σ1 st2 σ2 k :
  disk_key_effect t None st0 σ0 st1 σ1 k →
  disk_key_effect t c st1 σ1 st2 σ2 k →
  disk_key_effect t c st0 σ0 st2 σ2 k.
Proof.
  unfold disk_key_effect. intros [Hp Hk]. destruct c as [c |]; cbn.
  - rewrite Hp. intros [Hs He]. split; [done |].
    destruct (disk_sample _ _ _) as [s |].
    + destruct Hk as (H1 & H2 & H3). destruct He as (? & ? & [t1 E1] & [t2 E2]).
      split; [done |]. split; [done |]. rewrite <- !H3. split; eauto.
    + by eapply disk_key_kept_trans.
  - intros [Hp' Hk']. split; [congruence |]. by eapply disk_key_kept_trans.
Qed.

Lemma disk_effect_then_kept t c st0 σ0 st1 σ1 st2 σ2 k :
  disk_key_effect t c st0 σ0 st1 σ1 k →
  disk_key_effect t None st1 σ1 st2 σ2 k →
  disk_key_effect t c st0 σ0 st2 σ2 k.
Proof.
  unfold disk_key_effect. intros He [Hp Hk]. destruct c as [c |]; cbn in *.
  - destruct He as [Hs He]. split; [congruence |].
    destruct (disk_sample _ _ _) as [s |].
    + destruct Hk as (H1 & H2 & H3). destruct He as (? & ? & [t1 E1] & [t2 E2]).
      rewrite H1, H2, !H3. split; [done |]. split; [done |]. split; eauto.
    + by eapply disk_key_kept_trans.
  - destruct He as [Hp' Hk']. split; [congruence |]. by eapply disk_key_kept_trans.
Qed.

Lemma disk_kept_intro st σ st' σ' k t :
  prevPerDiskStats σ' = prevPerDiskStats σ →
  perDiskHistories σ' = perDiskHistories σ →
  (∀ k w, arrays σ' !! DiskArr k w = arrays σ !! DiskArr k w) →
  perDiskStats st' = perDiskStats st →
  disk_key_effect t None st σ st' σ' k.
Proof.
  intros Hp Hh Ha Hs. unfold disk_key_effect. rewrite Hp. split; [done |].
  split; [by rewrite Hs |]. split; [by rewrite Hh |].
  intros w. apply disk_stream_alter_other; [by rewrite Hh | apply Ha].
Qed.

Lemma disk_same_kept st σ st' σ' k t :
  disk_same σ σ' → perDiskStats st' = perDiskStats st →
  disk_key_effect t None st σ st' σ' k.
Proof. intros (_ & Hp & Hh & Ha) Hs. by apply disk_kept_intro. Qed.

Lemma fold_disk_entry_effect t cur : ∀ stats σ,
  wf σ → NoDup (obj_keys cur) →
  ∀ k, disk_key_effect t (obj_get k cur) stats σ
         (fold_m (disk_entry t) cur stats σ).1 (fold_m (disk_entry t) cur stats σ).2 k.
Proof.
  induction cur as [| [dev c] cur IH]; intros stats σ Hwf Hnd k.
  - cbn. unfold disk_key_effect. by repeat split.
  - cbn [fold_m obj_get]. unfold bind.
    destruct (disk_entry_R_disk t (dev, c) stats σ Hwf) as (Hwf1 & _ & _).
    pose proof (disk_entry_self t dev c stats σ Hwf) as Hself.
    pose proof (λ k, disk_entry_other t dev c stats σ k Hwf) as Hother.
    destruct (disk_entry t (dev, c) stats σ) as [st1 σ1]. cbn in *.
    apply NoDup_cons in Hnd as [Hnotin Hnd].
    specialize (IH st1 σ1 Hwf1 Hnd k).
    destruct (decide (dev = k)) as [-> | Hne].
    + eapply disk_effect_then_kept; [apply Hself |].
      replace (obj_get k cur) with (@None (number * number)) in IH; [done |].
      symmetry. clear -Hnotin. induction cur as [| [k' v] cur IH]; [done |].
      cbn in *. apply not_elem_of_cons in Hnotin as [? ?].
      destruct (decide (k' = k)); [congruence | auto].
    + eapply disk_effect_after_kept; [by apply Hother | done].
Qed.

Lemma disk_entry_prevDiskStats t e stats σ :
  prevDiskStats (disk_entry t e stats σ).2 = prevDiskStats σ.
Proof.
  destruct e as [dev [read write]]. unfold disk_entry, disk_history. run.
  destruct (prevPerDiskStats σ !! dev) as [p |]; [destruct (ngt _ _) |]; cbn; try done.
  by destruct (perDiskHistories σ !! dev).
Qed.

Lemma fold_disk_entry_prevDiskStats t cur : ∀ stats σ,
  prevDiskStats (fold_m (disk_entry t) cur stats σ).2 = prevDiskStats σ.
Proof.
  induction cur as [| e cur IH]; intros stats σ; [done |].
  cbn [fold_m]. unfold bind.
  pose proof (disk_entry_prevDiskStats t e stats σ) as He.
  destruct (disk_entry t e stats σ) as [st1 σ1]. cbn in *. by rewrite IH.
Qed.

Lemma diskSection_eq s stats σ :
  diskSection s stats σ
  = let t := clock σ (ticks σ) in
    let sc := scan disk_row (split_lines s) in
    fold_m (disk_entry t) sc.2
      (disk_totals t sc.1.1 sc.1.2 (prevDiskStats σ) stats)
      (set_prevDiskStats
         (Some {| d_read := sc.1.1; d_write := sc.1.2; d_timestamp := t |})
         (set_ticks (S (ticks σ)) σ)).
Proof.
  unfold diskSection, disk_totals. unfold bind at 1. unfold now. cbn.
  destruct (scan disk_row (split_lines s)) as [[tr tw] cur]. reflexivity.
Qed.

Lemma fold_disk_entry_R_disk t cur stats :
  hoare R_disk (fold_m (disk_entry t) cur stats) (λ st, ∃ m, st = with_perDiskStats m stats).
Proof.
  apply (hoare_fold_m R_disk (disk_entry t) (λ st, ∃ m, st = with_perDiskStats m stats)).
  - intros e st _ [m ->]. eapply hoare_weaken; [apply disk_entry_R_disk |].
    cbn. intros st' [m' ->]. by exists m'.
  - exists (perDiskStats stats). by rewrite with_perDiskStats_same.
Qed.

(** What the disk section does, from a well-formed state. *)
Lemma diskSection_spec s stats σ :
  wf σ →
  let t := clock σ (ticks σ) in
  let sc := scan disk_row (split_lines s) in
  let r := diskSection s stats σ in
  wf r.2 ∧ R_disk σ r.2
  ∧ (∃ m, r.1 = with_perDiskStats m (disk_totals t sc.1.1 sc.1.2 (prevDiskStats σ) stats))
  ∧ prevDiskStats r.2 = Some {| d_read := sc.1.1; d_write := sc.1.2; d_timestamp := t |}
  ∧ ∀ k, disk_key_effect t (obj_get k sc.2) stats σ r.1 r.2 k.
Proof.
  intros Hwf t sc r. subst r. rewrite diskSection_eq. fold t sc. cbv zeta.
  set (st0 := disk_totals _ _ _ _ _). set (σ0 := set_prevDiskStats _ _).
  assert (Hwf0 : wf σ0) by (revert Hwf; by apply wf_arrays_dom).
  assert (HR0 : R_disk σ σ0) by (repeat split; cbn; lia).
  destruct (fold_disk_entry_R_disk t sc.2 st0 σ0 Hwf0) as (Hwf1 & HR1 & Hst).
  split; [done |]. split; [by etrans |]. split; [done |].
  split; [by rewrite fold_disk_entry_prevDiskStats |].
  intros k. eapply disk_effect_after_kept; [| by apply fold_disk_entry_effect, scan_NoDup].
  apply disk_kept_intro; [done | done | done |].
  subst st0. unfold disk_totals.
  destruct (prevDiskStats σ) as [p |]; [destruct (ngt _ _) |]; done.
Qed.
(** ** The network section *)

Lemma property_of_cases {V} (m : gmap string V) k :
  (∃ v, m !! k = Some v ∧ property_of m k = Own v)
  ∨ (m !! k = None ∧ inherited k = true ∧ property_of m k = Inherited)
  ∨ (m !! k = None ∧ inherited k = false ∧ property_of m k = Undefined).
Proof.
  unfold property_of. destruct (m !! k) as [v |]; [eauto |].
  destruct (inherited k); auto.
Qed.

Lemma iface_history_R_net dev :
  hoare R_net (iface_history dev)
    (λ a, match a with
          | Some x => x = (IfaceArr dev fst_side, IfaceArr dev snd_side)
          | None => inherited dev = true
          end).
Proof.
  intros σ Hwf. unfold iface_history. run.
  destruct (property_of_cases (perIfaceHistories σ) dev)
    as [(a & Ha & ->) | [(Ha & Hin & ->) | (Ha & Hin & ->)]]; cbn.
  - split; [done |]. split; [reflexivity |].
    by destruct (wf_iface _ _ _ Hwf Ha).
  - split; [done |]. split; [reflexivity | done].
  - split; [| split; [| done]].
    + assert (Hkey : ∀ k a,
        <[dev := (IfaceArr dev fst_side, IfaceArr dev snd_side)]> (perIfaceHistories σ) !! k = Some a →
        a = (IfaceArr k fst_side, IfaceArr k snd_side)
        ∧ is_Some (<[IfaceArr dev snd_side := []]> (<[IfaceArr dev fst_side := []]> (arrays σ))
                     !! IfaceArr k fst_side)
        ∧ is_Some (<[IfaceArr dev snd_side := []]> (<[IfaceArr dev fst_side := []]> (arrays σ))
                     !! IfaceArr k snd_side)).
      { intros k a Hk. destruct (decide (dev = k)) as [-> | Hne].
        - rewrite lookup_insert_eq in Hk. injection Hk as <-.
          rewrite lookup_insert_eq, lookup_insert_ne, lookup_insert_eq by done. eauto.
        - rewrite lookup_insert_ne in Hk by done.
          destruct (wf_iface _ _ _ Hwf Hk) as (-> & ? & ?). split; [done |].
          rewrite !lookup_insert_ne by congruence. done. }
      destruct Hwf as (Hg & H1 & H2 & H3 & H4). unfold wf; cbn.
      split; [| split; [| split; [| split]]];
        first [ exact Hkey
              | intros s; rewrite !lookup_insert_ne by done; apply Hg
              | intros k a Hk; rewrite !lookup_insert_ne by done; eauto ].
    + repeat split; cbn; try lia; intros; by rewrite !lookup_insert_ne.
Qed.

Lemma with_perIfaceStats_same st : with_perIfaceStats (perIfaceStats st) st = st.
Proof. by destruct st. Qed.

Lemma with_perIfaceStats_twice m m' st :
  with_perIfaceStats m (with_perIfaceStats m' st) = with_perIfaceStats m st.
Proof. reflexivity. Qed.

Lemma iface_entry_R_net t e stats :
  hoare R_net (iface_entry t e stats) (λ r, ∃ m, r.1 = with_perIfaceStats m stats).
Proof.
  destruct e as [dev [read write]]. unfold iface_entry.
  eapply hoare_bind; [apply _ | apply (hoare_get _ _ (λ _, True)); done |].
  intros prev _.
  eapply (hoare_bind _ _ _ (λ r, ∃ m, r.1 = with_perIfaceStats m stats)).
  - destruct prev as [p | |]; [destruct (ngt _ _) | |].
    + eapply hoare_bind; [apply _ | apply iface_history_R_net |]. intros [a |] Ha.
      * subst a.
        eapply hoare_bind; [apply _ | by apply addHistoryPoint_R_net |]. intros _ _.
        eapply hoare_bind; [apply _ | by apply addHistoryPoint_R_net |]. intros _ _.
        apply hoare_ret; [apply _ |]. by eexists.
      * apply hoare_ret; [apply _ |]. by eexists.
    + apply hoare_ret; [apply _ |]. exists (perIfaceStats stats). by rewrite with_perIfaceStats_same.
    + apply hoare_ret; [apply _ |]. exists (perIfaceStats stats). by rewrite with_perIfaceStats_same.
    + apply hoare_ret; [apply _ |]. exists (perIfaceStats stats). by rewrite with_perIfaceStats_same.
  - intros [st []] Hst; cbn [fst snd].
    + eapply hoare_bind; [apply _ | | intros; by apply hoare_ret; [apply _ |]].
      apply hoare_modify. intros σ Hwf. split.
      * revert Hwf. by apply wf_arrays_dom.
      * by repeat split.
    + by apply hoare_ret; [apply _ |].
Qed.

Lemma iface_stream_alter_other σ σ' k w :
  perIfaceHistories σ' !! k = perIfaceHistories σ !! k →
  arrays σ' !! IfaceArr k w = arrays σ !! IfaceArr k w →
  iface_stream σ' k w = iface_stream σ k w.
Proof. intros H1 H2. unfold iface_stream, contents_of. by rewrite H1, H2. Qed.

(** The body of the loop, on its own key: it runs to its end with the effect
    of the section on a reported key, or it throws. *)
Lemma iface_entry_self t dev cur stats σ :
  wf σ →
  let r := iface_entry t (dev, cur) stats σ in
  match r.1.2 with
  | Completed => iface_key_effect t (Some cur) stats σ r.1.1 r.2 dev
  | Thrown => iface_key_thrown t cur stats σ r.1.1 r.2 dev
  end.
Proof.
  intros Hwf. destruct cur as [read write]. cbv zeta.
  unfold iface_key_effect, iface_key_thrown, iface_key_kept, iface_entry, iface_sample,
    iface_history.
  destruct (property_of_cases (prevPerIfaceStats σ) dev)
    as [(p & Hp & Hpp) | [(Hp & Hin & Hpp) | (Hp & Hin & Hpp)]].
  - run. rewrite Hpp, Hp. cbn. destruct (ngt _ _) eqn:Hdt.
    + destruct (property_of_cases (perIfaceHistories σ) dev)
        as [(a & Ha & ->) | [(Ha & Hin & ->) | (Ha & Hin & ->)]]; cbn.
      * destruct (wf_iface _ _ _ Hwf Ha) as (-> & [x Hx] & [y Hy]). cbn.
        unfold iface_stream, contents_of; cbn. rewrite Ha.
        split; [by rewrite lookup_insert_eq |].
        split; [by rewrite lookup_insert_eq |].
        split; [eauto |].
        split; eexists.
        -- rewrite lookup_alter_ne, lookup_alter_eq, Hx by done. reflexivity.
        -- rewrite lookup_alter_eq, lookup_alter_ne, Hy by done. reflexivity.
      * split; [done |]. split; [eauto |]. split; [by rewrite lookup_insert_eq |]. done.
      * unfold iface_stream, contents_of; cbn. rewrite Ha, !lookup_insert_eq.
        split; [done |]. split; [done |]. split; [eauto |].
        split; eexists.
        -- rewrite lookup_alter_ne, lookup_alter_eq, lookup_insert_ne, lookup_insert_eq by done.
           reflexivity.
        -- rewrite lookup_alter_eq, lookup_alter_ne, lookup_insert_eq by done. reflexivity.
    + cbn. split; [by rewrite lookup_insert_eq |]. by repeat split.
  - run. rewrite Hpp, Hp. cbn. split; [by rewrite lookup_insert_eq |]. by repeat split.
  - run. rewrite Hpp, Hp. cbn. split; [by rewrite lookup_insert_eq |]. by repeat split.
Qed.

(** Under a name that is not inherited the body runs to its end. *)
Lemma iface_entry_completes t dev cur stats σ :
  inherited dev = false → (iface_entry t (dev, cur) stats σ).1.2 = Completed.
Proof.
  intros Hin. destruct cur as [read write]. unfold iface_entry, iface_history, property_of.
  run. rewrite !Hin.
  destruct (prevPerIfaceStats σ !! dev) as [p |]; cbn; [| done].
  destruct (ngt _ _); cbn; [| done].
  by destruct (perIfaceHistories σ !! dev).
Qed.

Lemma iface_entry_other t dev cur stats σ k :
  wf σ → dev ≠ k →
  let r := iface_entry t (dev, cur) stats σ in
  iface_key_effect t None stats σ r.1.1 r.2 k.
Proof.
  intros Hwf Hne. destruct cur as [read write]. cbv zeta.
  assert (Hfin : ∀ st' σ',
    prevPerIfaceStats σ' !! k = prevPerIfaceStats σ !! k →
    perIfaceStats st' !! k = perIfaceStats stats !! k →
    perIfaceHistories σ' !! k = perIfaceHistories σ !! k →
    (∀ w, arrays σ' !! IfaceArr k w = arrays σ !! IfaceArr k w) →
    iface_key_effect t None stats σ st' σ' k).
  { intros st' σ' H1 H2 H3 H4. unfold iface_key_effect. repeat split; try done.
    intros w. by apply iface_stream_alter_other. }
  unfold iface_entry, iface_history.
  destruct (property_of_cases (prevPerIfaceStats σ) dev)
    as [(p & Hp & Hpp) | [(Hp & Hin & Hpp) | (Hp & Hin & Hpp)]].
  - run. rewrite Hpp. cbn. destruct (ngt _ _) eqn:Hdt.
    + destruct (property_of_cases (perIfaceHistories σ) dev)
        as [(a & Ha & ->) | [(Ha & Hin & ->) | (Ha & Hin & ->)]]; cbn.
      * destruct (wf_iface _ _ _ Hwf Ha) as (-> & _ & _).
        apply Hfin; cbn; rewrite ?lookup_insert_ne by done; try done.
        intros w. rewrite !lookup_alter_ne by congruence. done.
      * apply Hfin; cbn; rewrite ?lookup_insert_ne by done; done.
      * apply Hfin; cbn; rewrite ?lookup_insert_ne by done; try done.
        intros w. rewrite !lookup_alter_ne, !lookup_insert_ne by congruence. done.
    + apply Hfin; cbn; rewrite ?lookup_insert_ne by done; done.
  - run. rewrite Hpp. apply Hfin; cbn; rewrite ?lookup_insert_ne by done; done.
  - run. rewrite Hpp. apply Hfin; cbn; rewrite ?lookup_insert_ne by done; done.
Qed.

Lemma iface_key_kept_trans st0 σ0 st1 σ1 st2 σ2 k :
  iface_key_kept st0 σ0 st1 σ1 k → iface_key_kept st1 σ1 st2 σ2 k →
  iface_key_kept st0 σ0 st2 σ2 k.
Proof.
  intros (H1 & H2 & H3) (H1' & H2' & H3').
  split; [congruence |]. split; [congruence |].
  intros w. by rewrite H3', H3.
Qed.

Lemma iface_effect_after_kept t c st0 σ0 st1 σ1 st2 σ2 k :
  iface_key_effect t None st0 σ0 st1 σ1 k →
  iface_key_effect t c st1 σ1 st2 σ2 k →
  iface_key_effect t c st0 σ0 st2 σ2 k.
Proof.
  unfold iface_key_effect. intros [Hp Hk]. destruct c as [c |]; cbn.
  - rewrite Hp. intros [Hs He]. split; [done |].
    destruct (iface_sample _ _ _) as [s |].
    + destruct Hk as (H1 & H2 & H3). destruct He as (? & ? & [t1 E1] & [t2 E2]).
      split; [done |]. split; [done |]. rewrite <- !H3. split; eauto.
    + by eapply iface_key_kept_trans.
  - intros [Hp' Hk']. split; [congruence |]. by eapply iface_key_kept_trans.
Qed.

Lemma iface_effect_then_kept t c st0 σ0 st1 σ1 st2 σ2 k :
  iface_key_effect t c st0 σ0 st1 σ1 k →
  iface_key_effect t None st1 σ1 st2 σ2 k →
  iface_key_effect t c st0 σ0 st2 σ2 k.
Proof.
  unfold iface_key_effect. intros He [Hp Hk]. destruct c as [c |]; cbn in *.
  - destruct He as [Hs He]. split; [congruence |].
    destruct (iface_sample _ _ _) as [s |].
    + destruct Hk as (H1 & H2 & H3). destruct He as (? & ? & [t1 E1] & [t2 E2]).
      rewrite H1, H2, !H3. split; [done |]. split; [done |]. split; eauto.
    + by eapply iface_key_kept_trans.
  - destruct He as [Hp' Hk']. split; [congruence |]. by eapply iface_key_kept_trans.
Qed.

Lemma iface_thrown_after_kept t c st0 σ0 st1 σ1 st2 σ2 k :
  iface_key_effect t None st0 σ0 st1 σ1 k →
  iface_key_thrown t c st1 σ1 st2 σ2 k →
  iface_key_thrown t c st0 σ0 st2 σ2 k.
Proof.
  unfold iface_key_effect, iface_key_thrown. intros (Hp & _ & Hh & _) (? & ? & ? & ? & ? & ?).
  rewrite <- Hp, <- Hh. repeat split; try done; congruence.
Qed.

Lemma iface_thrown_then_kept t c st0 σ0 st1 σ1 st2 σ2 k :
  iface_key_thrown t c st0 σ0 st1 σ1 k →
  iface_key_effect t None st1 σ1 st2 σ2 k →
  iface_key_thrown t c st0 σ0 st2 σ2 k.
Proof.
  unfold iface_key_effect, iface_key_thrown. intros (? & ? & ? & ? & ? & ?) (Hp & Hs & Hh & _).
  repeat split; try done; congruence.
Qed.

Lemma iface_outcome_after_kept t c st0 σ0 st1 σ1 st2 σ2 k :
  iface_key_effect t None st0 σ0 st1 σ1 k →
  iface_key_outcome t c st1 σ1 st2 σ2 k →
  iface_key_outcome t c st0 σ0 st2 σ2 k.
Proof.
  intros Hk. unfold iface_key_outcome. destruct c as [c |].
  - intros [H | [H | H]].
    + left. by eapply iface_effect_after_kept.
    + right. left. by eapply iface_thrown_after_kept.
    + right. right. by eapply (iface_effect_after_kept t None).
  - by apply (iface_effect_after_kept t None).
Qed.

Lemma iface_outcome_then_kept t c st0 σ0 st1 σ1 st2 σ2 k :
  iface_key_outcome t c st0 σ0 st1 σ1 k →
  iface_key_effect t None st1 σ1 st2 σ2 k →
  iface_key_outcome t c st0 σ0 st2 σ2 k.
Proof.
  intros Ho Hk. unfold iface_key_outcome in *. destruct c as [c |].
  - destruct Ho as [H | [H | H]].
    + left. by eapply iface_effect_then_kept.
    + right. left. by eapply iface_thrown_then_kept.
    + right. right. by eapply (iface_effect_then_kept t None).
  - by eapply (iface_effect_then_kept t None).
Qed.

Lemma iface_kept_intro st σ st' σ' k t :
  prevPerIfaceStats σ' = prevPerIfaceStats σ →
  perIfaceHistories σ' = perIfaceHistories σ →
  (∀ k w, arrays σ' !! IfaceArr k w = arrays σ !! IfaceArr k w) →
  perIfaceStats st' = perIfaceStats st →
  iface_key_effect t None st σ st' σ' k.
Proof.
  intros Hp Hh Ha Hs. unfold iface_key_effect. rewrite Hp. split; [done |].
  split; [by rewrite Hs |]. split; [by rewrite Hh |].
  intros w. apply iface_stream_alter_other; [by rewrite Hh | apply Ha].
Qed.

Lemma net_same_kept st σ st' σ' k t :
  net_same σ σ' → perIfaceStats st' = perIfaceStats st →
  iface_key_effect t None st σ st' σ' k.
Proof. intros (_ & Hp & Hh & Ha) Hs. by apply iface_kept_intro. Qed.

Lemma iface_kept_refl st σ k t : iface_key_effect t None st σ st σ k.
Proof. by apply iface_kept_intro. Qed.

Lemma obj_get_not_in {V} k (o : obj V) : k ∉ obj_keys o → obj_get k o = None.
Proof.
  induction o as [| [k' v] o IH]; [done |]. cbn.
  intros [? ?]%not_elem_of_cons. destruct (decide (k' = k)); [congruence | auto].
Qed.

(** The loop over a list of entries with distinct keys: what it does to
    every key. *)
Lemma fold_iface_entry_outcome t cur : ∀ stats σ,
  wf σ → NoDup (obj_keys cur) →
  ∀ k, iface_key_outcome t (obj_get k cur) stats σ
         (fold_try (iface_entry t) cur stats σ).1 (fold_try (iface_entry t) cur stats σ).2 k.
Proof.
  induction cur as [| [dev c] cur IH]; intros stats σ Hwf Hnd k.
  - cbn. apply iface_kept_refl.
  - cbn [fold_try obj_get]. unfold bind.
    destruct (iface_entry_R_net t (dev, c) stats σ Hwf) as (Hwf1 & _ & _).
    pose proof (iface_entry_self t dev c stats σ Hwf) as Hself.
    pose proof (λ k, iface_entry_other t dev c stats σ k Hwf) as Hother.
    destruct (iface_entry t (dev, c) stats σ) as [[st1 e1] σ1]. cbn in *.
    apply NoDup_cons in Hnd as [Hnotin Hnd].
    destruct e1.
    + specialize (IH st1 σ1 Hwf1 Hnd k).
      destruct (decide (dev = k)) as [-> | Hne].
      * rewrite (obj_get_not_in k cur Hnotin) in IH.
        left. by eapply iface_effect_then_kept.
      * eapply iface_outcome_after_kept; [by apply Hother | done].
    + cbn. destruct (decide (dev = k)) as [-> | Hne].
      * right. by left.
      * specialize (Hother k Hne). unfold iface_key_outcome.
        destruct (obj_get k cur); [right; by right | done].
Qed.

(** With no inherited name among the keys the body runs to its end for
    every entry. *)
Lemma fold_iface_entry_effect t cur : ∀ stats σ,
  wf σ → NoDup (obj_keys cur) → plain_keys cur →
  ∀ k, iface_key_effect t (obj_get k cur) stats σ
         (fold_try (iface_entry t) cur stats σ).1 (fold_try (iface_entry t) cur stats σ).2 k.
Proof.
  induction cur as [| [dev c] cur IH]; intros stats σ Hwf Hnd Hpl k.
  - cbn. apply iface_kept_refl.
  - cbn [fold_try obj_get]. unfold bind.
    apply Forall_cons in Hpl as [Hdev Hpl]. cbn in Hdev.
    destruct (iface_entry_R_net t (dev, c) stats σ Hwf) as (Hwf1 & _ & _).
    pose proof (iface_entry_self t dev c stats σ Hwf) as Hself.
    pose proof (λ k, iface_entry_other t dev c stats σ k Hwf) as Hother.
    pose proof (iface_entry_completes t dev c stats σ Hdev) as Hend.
    destruct (iface_entry t (dev, c) stats σ) as [[st1 e1] σ1]. cbn in *. subst e1.
    apply NoDup_cons in Hnd as [Hnotin Hnd].
    specialize (IH st1 σ1 Hwf1 Hnd Hpl k).
    destruct (decide (dev = k)) as [-> | Hne].
    + rewrite (obj_get_not_in k cur Hnotin) in IH.
      by eapply iface_effect_then_kept.
    + eapply iface_effect_after_kept; [by apply Hother | done].
Qed.

Lemma iface_entry_prevNetStats t e stats σ :
  prevNetStats (iface_entry t e stats σ).2 = prevNetStats σ.
Proof.
  destruct e as [dev [read write]]. unfold iface_entry, iface_history, property_of. run.
  destruct (prevPerIfaceStats σ !! dev) as [p |]; [destruct (ngt _ _) |]; cbn; try done.
  - destruct (perIfaceHistories σ !! dev); [done |]. by destruct (inherited dev).
  - by destruct (inherited dev).
Qed.

Lemma fold_iface_entry_prevNetStats t cur : ∀ stats σ,
  prevNetStats (fold_try (iface_entry t) cur stats σ).2 = prevNetStats σ.
Proof.
  induction cur as [| e cur IH]; intros stats σ; [done |].
  cbn [fold_try]. unfold bind.
  pose proof (iface_entry_prevNetStats t e stats σ) as He.
  destruct (iface_entry t e stats σ) as [[st1 e1] σ1]. cbn in *.
  destruct e1; [by rewrite IH | done].
Qed.

Lemma netSection_eq s stats σ :
  netSection s stats σ
  = let t := clock σ (ticks σ) in
    let sc := scan net_row (drop 2 (split_lines s)) in
    fold_try (iface_entry t) (entries sc.2)
      (net_totals t sc.1.1 sc.1.2 (prevNetStats σ) stats)
      (set_prevNetStats
         (Some {| n_sent := sc.1.1; n_recv := sc.1.2; n_timestamp := t |})
         (set_ticks (S (ticks σ)) σ)).
Proof.
  unfold netSection, net_totals. unfold bind at 1. unfold now. cbn.
  destruct (scan net_row (drop 2 (split_lines s))) as [[tr tw] cur]. reflexivity.
Qed.

Lemma fold_iface_entry_R_net t cur stats :
  hoare R_net (fold_try (iface_entry t) cur stats) (λ st, ∃ m, st = with_perIfaceStats m stats).
Proof.
  apply (hoare_fold_try R_net (iface_entry t) (λ st, ∃ m, st = with_perIfaceStats m stats)).
  - intros e st _ [m ->]. eapply hoare_weaken; [apply iface_entry_R_net |].
    cbn. intros r [m' ->]. by exists m'.
  - exists (perIfaceStats stats). by rewrite with_perIfaceStats_same.
Qed.

(** [Object.entries] lists every entry once. *)
Lemma insert_indexed_Permutation {V} i (e : string * V) l :
  insert_indexed i e l ≡ₚ (i, e) :: l.
Proof.
  induction l as [| [j e'] l IH]; [done |]. cbn.
  destruct (i <? j)%Z; [done |]. rewrite IH. apply Permutation_swap.
Qed.

Lemma entries_Permutation {V} (o : obj V) : entries o ≡ₚ o.
Proof.
  unfold entries. induction o as [| e o IH]; [done |].
  cbn [foldr List.filter]. destruct (array_index e.1) as [i |].
  - rewrite insert_indexed_Permutation. cbn. by rewrite IH.
  - rewrite <- Permutation_middle. by rewrite IH.
Qed.

Lemma entries_no_index {V} (o : obj V) :
  Forall (λ k, array_index k = None) (obj_keys o) → entries o = o.
Proof.
  intros Ho. unfold entries.
  assert (H1 : foldr (λ (e : string * V) acc,
                        match array_index e.1 with
                        | Some i => insert_indexed i e acc
                        | None => acc
                        end) [] o = []).
  { induction o as [| e o IH]; [done |].
    apply Forall_cons in Ho as [He Ho]. cbn in He. cbn. rewrite He. auto. }
  rewrite H1. cbn.
  induction o as [| e o IH]; [done |].
  apply Forall_cons in Ho as [He Ho]. cbn in He. cbn. rewrite He. f_equal.
  apply IH; [done |]. cbn in H1. by rewrite He in H1.
Qed.

Lemma obj_get_elem {V} k (v : V) o :
  NoDup (obj_keys o) → obj_get k o = Some v ↔ (k, v) ∈ o.
Proof.
  induction o as [| [k' v'] o IH]; cbn; intros Hnd.
  - split; [done | by intros ?%elem_of_nil].
  - apply NoDup_cons in Hnd as [Hnotin Hnd]. rewrite elem_of_cons.
    destruct (decide (k' = k)) as [-> | Hne].
    + split; [intros [= ->]; by left |].
      intros [[= ->] | Hin]; [done |]. exfalso. apply Hnotin.
      apply list_elem_of_fmap. by exists (k, v).
    + rewrite (IH Hnd). split; [auto | intros [[= ? ?] | ?]; [congruence | done]].
Qed.

Lemma entries_keys_NoDup {V} (o : obj V) :
  NoDup (obj_keys o) → NoDup (obj_keys (entries o)).
Proof. unfold obj_keys. by rewrite entries_Permutation. Qed.

Lemma obj_get_entries {V} k (o : obj V) :
  NoDup (obj_keys o) → obj_get k (entries o) = obj_get k o.
Proof.
  intros Hnd. apply option_eq. intros v.
  rewrite !obj_get_elem by auto using entries_keys_NoDup.
  by rewrite entries_Permutation.
Qed.

Lemma entries_plain_keys {V} (o : obj V) : plain_keys o → plain_keys (entries o).
Proof. unfold plain_keys, obj_keys. by rewrite entries_Permutation. Qed.

(** What the network section does, from a well-formed state. *)
Lemma netSection_spec s stats σ :
  wf σ →
  let t := clock σ (ticks σ) in
  let sc := scan net_row (drop 2 (split_lines s)) in
  let r := netSection s stats σ in
  wf r.2 ∧ R_net σ r.2
  ∧ (∃ m, r.1 = with_perIfaceStats m (net_totals t sc.1.1 sc.1.2 (prevNetStats σ) stats))
  ∧ prevNetStats r.2 = Some {| n_sent := sc.1.1; n_recv := sc.1.2; n_timestamp := t |}
  ∧ (∀ k, iface_key_outcome t (obj_get k sc.2) stats σ r.1 r.2 k)
  ∧ (plain_keys sc.2 → ∀ k, iface_key_effect t (obj_get k sc.2) stats σ r.1 r.2 k).
Proof.
  intros Hwf t sc r. subst r. rewrite netSection_eq. fold t sc. cbv zeta.
  set (st0 := net_totals _ _ _ _ _). set (σ0 := set_prevNetStats _ _).
  assert (Hwf0 : wf σ0) by (revert Hwf; by apply wf_arrays_dom).
  assert (HR0 : R_net σ σ0) by (repeat split; cbn; lia).
  destruct (fold_iface_entry_R_net t (entries sc.2) st0 σ0 Hwf0) as (Hwf1 & HR1 & Hst).
  assert (Hnd : NoDup (obj_keys sc.2)) by apply scan_NoDup.
  assert (Hk0 : ∀ k, iface_key_effect t None stats σ st0 σ0 k).
  { intros k. apply iface_kept_intro; [done | done | done |].
    subst st0. unfold net_totals.
    destruct (prevNetStats σ) as [p |]; [destruct (ngt _ _) |]; done. }
  split; [done |]. split; [by etrans |]. split; [done |].
  split; [by rewrite fold_iface_entry_prevNetStats |]. split.
  - intros k. eapply iface_outcome_after_kept; [apply Hk0 |].
    rewrite <- (obj_get_entries k sc.2 Hnd).
    by apply fold_iface_entry_outcome, entries_keys_NoDup.
  - intros Hpl k. eapply iface_effect_after_kept; [apply Hk0 |].
    rewrite <- (obj_get_entries k sc.2 Hnd).
    by apply fold_iface_entry_effect; [| apply entries_keys_NoDup | apply entries_plain_keys].
Qed.

(** ** The other sections leave the disk and network state alone *)

Ltac frame_modify :=
  apply hoare_modify; intros ? ?; split;
  [ by eapply wf_arrays_dom; [| | | | | eassumption]
  | repeat split; cbn; lia ].

Lemma cpuSection_frame s stats :
  hoare R_cpu (cpuSection s stats)
    (λ st, disk_out st = disk_out stats ∧ net_out st = net_out stats).
Proof.
  unfold cpuSection.
  eapply hoare_bind; [apply _ | apply (hoare_get _ _ (λ _, True)); done |]. intros prev _.
  eapply hoare_bind; [apply _ | frame_modify |]. intros _ _.
  eapply hoare_bind; [apply _ | apply (hoare_get _ _ (λ _, True)); done |]. intros prevCores _.
  eapply hoare_bind; [apply _ | frame_modify |]. intros _ _.
  eapply hoare_bind; [apply _ | | intros _ _].
  - apply (hoare_fold_m R_cpu _ (λ _, True)); [| done].
    intros [i u] [] _ _.
    eapply hoare_bind; [apply _ | apply core_history_R_cpu |]. intros a ->.
    by apply addHistoryPoint_R_cpu.
  - apply hoare_ret; [apply _ |]. by destruct prev.
Qed.

Lemma update_history_frame stats :
  hoare R_cpu (update_history stats) (λ _, True).
Proof.
  unfold update_history.
  repeat (eapply hoare_bind; [apply _ | by apply addHistoryPoint_R_cpu | intros _ _]).
  by apply addHistoryPoint_R_cpu.
Qed.

Lemma when_content_frame R `{!PreOrder R} c section stats (Q : SystemStats → Prop) :
  Q stats → (∀ s, hoare R (section s stats) Q) → hoare R (when_content c section stats) Q.
Proof.
  intros HQ Hs. unfold when_content. destruct (content_of c); [apply Hs | by apply hoare_ret].
Qed.

(** ** A pass, seen from the disk code and from the network code *)

Lemma before_disk_frame c :
  hoare R_cpu (before_disk c)
    (λ st, disk_out st = disk_out stats0 ∧ net_out st = net_out stats0).
Proof.
  unfold before_disk.
  set (Q := λ st, disk_out st = disk_out stats0 ∧ net_out st = net_out stats0).
  assert (Hret : ∀ c' (section : string → SystemStats → M SystemStats) st,
             Q st → (∀ s, ∃ st', section s st = ret st' ∧ Q st') →
             hoare R_cpu (when_content c' section st) Q).
  { intros c' section st Hst Hsec. apply (when_content_frame R_cpu); [done |].
    intros s. destruct (Hsec s) as (st' & -> & Hst'). by apply hoare_ret; [apply _ |]. }
  eapply (hoare_bind R_cpu _ _ Q).
  { apply (when_content_frame R_cpu); [done | intros s; apply cpuSection_frame]. }
  intros st1 H1. eapply (hoare_bind R_cpu _ _ Q).
  { apply Hret; [done |]. intros s. eexists. split; [reflexivity | exact H1]. }
  intros st2 H2. eapply (hoare_bind R_cpu _ _ Q).
  { apply Hret; [done |]. intros s. eexists. split; [reflexivity | exact H2]. }
  intros st3 H3.
  apply Hret; [done |]. intros s. eexists. split; [reflexivity | exact H3].
Qed.

Lemma fetchSystemStats_eq r c σ :
  await_all r = Some c →
  fetchSystemStats r σ
  = let r1 := before_disk c σ in
    let r2 := when_content (diskstatsContent c) diskSection r1.1 r1.2 in
    let r3 := when_content (netContent c) netSection r2.1 r2.2 in
    (r3.1, (update_history r3.1 r3.2).2).
Proof.
  intros Hc. unfold fetchSystemStats, sections, before_disk. rewrite Hc. unfold bind.
  cbv zeta.
  destruct (when_content (statContent c) cpuSection stats0 σ) as [s1 σ1]; cbn [fst snd].
  destruct (when_content (meminfoContent c) memorySection s1 σ1) as [s2 σ2]; cbn [fst snd].
  destruct (when_content (uptimeContent c) uptimeSection s2 σ2) as [s3 σ3]; cbn [fst snd].
  destruct (when_content (loadavgContent c) loadSection s3 σ3) as [s4 σ4]; cbn [fst snd].
  destruct (when_content (diskstatsContent c) diskSection s4 σ4) as [s5 σ5]; cbn [fst snd].
  destruct (when_content (netContent c) netSection s5 σ5) as [s6 σ6]; cbn [fst snd].
  by destruct (update_history s6 σ6).
Qed.

Lemma fetchSystemStats_rejected r σ :
  await_all r = None →
  fetchSystemStats r σ = (stats0, (update_history stats0 σ).2).
Proof.
  intros Hc. unfold fetchSystemStats. rewrite Hc. reflexivity.
Qed.

Lemma disk_out_net_totals t a b prev st m :
  disk_out (with_perIfaceStats m (net_totals t a b prev st)) = disk_out st.
Proof.
  unfold net_totals. destruct prev as [p |]; [destruct (ngt _ _) |]; reflexivity.
Qed.

Lemma net_out_disk_totals t a b prev st m :
  net_out (with_perDiskStats m (disk_totals t a b prev st)) = net_out st.
Proof.
  unfold disk_totals. destruct prev as [p |]; [destruct (ngt _ _) |]; reflexivity.
Qed.

Lemma when_netSection_frame c st σ :
  wf σ →
  let r := when_content c netSection st σ in
  wf r.2 ∧ R_net σ r.2 ∧ disk_out r.1 = disk_out st.
Proof.
  intros Hwf. unfold when_content. destruct (content_of c) as [s |]; cbv zeta.
  - destruct (netSection_spec s st σ Hwf) as (? & ? & [m Hm] & _).
    split; [done |]. split; [done |]. rewrite Hm. apply disk_out_net_totals.
  - split; [done |]. split; [reflexivity | done].
Qed.

Lemma when_diskSection_frame c st σ :
  wf σ →
  let r := when_content c diskSection st σ in
  wf r.2 ∧ R_disk σ r.2 ∧ net_out r.1 = net_out st.
Proof.
  intros Hwf. unfold when_content. destruct (content_of c) as [s |]; cbv zeta.
  - destruct (diskSection_spec s st σ Hwf) as (? & ? & [m Hm] & _).
    split; [done |]. split; [done |]. rewrite Hm. apply net_out_disk_totals.
  - split; [done |]. split; [reflexivity | done].
Qed.

Lemma disk_totals_rates t a b prev st st' :
  diskReadRate st' = diskReadRate st → diskWriteRate st' = diskWriteRate st →
  diskReadRate (disk_totals t a b prev st') = diskReadRate (disk_totals t a b prev st)
  ∧ diskWriteRate (disk_totals t a b prev st') = diskWriteRate (disk_totals t a b prev st).
Proof.
  intros H1 H2. unfold disk_totals.
  destruct prev as [p |]; [destruct (ngt _ _) |]; by cbn.
Qed.

(** A pass whose reads all resolve and whose disk text is not empty: what it
    does to the disk state and the disk part of its result.  [t] is the value
    the disk section reads from the clock. *)
Lemma pass_disk r c s σ :
  wf σ → await_all r = Some c → content_of (diskstatsContent c) = Some s →
  ∃ n, (ticks σ ≤ n)%nat ∧
    let t := clock σ n in
    let sc := scan disk_row (split_lines s) in
    let res := fetchSystemStats r σ in
    wf res.2
    ∧ prevDiskStats res.2 = Some {| d_read := sc.1.1; d_write := sc.1.2; d_timestamp := t |}
    ∧ diskReadRate res.1
      = diskReadRate (disk_totals t sc.1.1 sc.1.2 (prevDiskStats σ) stats0)
    ∧ diskWriteRate res.1
      = diskWriteRate (disk_totals t sc.1.1 sc.1.2 (prevDiskStats σ) stats0)
    ∧ ∀ k, disk_key_effect t (obj_get k sc.2) stats0 σ res.1 res.2 k.
Proof.
  intros Hwf Hc Hs.
  destruct (before_disk_frame c σ Hwf) as (Hwf1 & (Hd1 & _ & Hclk1 & Hn1) & Ho1 & _).
  exists (ticks (before_disk c σ).2). split; [done |].
  intros t sc res. subst res. rewrite (fetchSystemStats_eq r c σ Hc). cbv zeta.
  set (r1 := before_disk c σ) in *.
  assert (Hr2 : when_content (diskstatsContent c) diskSection r1.1 r1.2
                = diskSection s r1.1 r1.2) by (unfold when_content; by rewrite Hs).
  rewrite Hr2.
  destruct (diskSection_spec s r1.1 r1.2 Hwf1) as (Hwf2 & _ & [m Hst2] & Hp2 & He2).
  set (r2 := diskSection s r1.1 r1.2) in *.
  destruct (when_netSection_frame (netContent c) r2.1 r2.2 Hwf2) as (Hwf3 & [Hd3 _] & Ho3).
  set (r3 := when_content (netContent c) netSection r2.1 r2.2) in *.
  destruct (update_history_frame r3.1 r3.2 Hwf3) as (Hwf4 & (Hd4 & _) & _).
  cbn [fst snd].
  assert (Hagg : prevDiskStats r1.2 = prevDiskStats σ) by apply Hd1.
  rewrite Hclk1 in Hp2, Hst2, He2. rewrite Hagg in Hst2. fold t sc in Hp2, Hst2, He2.
  injection Ho1 as Hr1 Hw1 Hm1. injection Ho3 as Hr3 Hw3 Hm3.
  split; [done |]. split.
  { destruct Hd4 as (-> & _). destruct Hd3 as (-> & _). done. }
  destruct (disk_totals_rates t sc.1.1 sc.1.2 (prevDiskStats σ) stats0 r1.1 Hr1 Hw1)
    as [Hra Hwa].
  split; [by rewrite Hr3, Hst2 |]. split; [by rewrite Hw3, Hst2 |].
  intros k.
  eapply disk_effect_then_kept; [| by apply (disk_same_kept r3.1 r3.2 r3.1)].
  eapply disk_effect_then_kept; [| apply (disk_same_kept r2.1 r2.2 r3.1); [done | by rewrite Hm3]].
  eapply disk_effect_after_kept; [| apply He2].
  by apply disk_same_kept.
Qed.

(** A pass that does not run the disk section: a read was rejected, or the
    disk text is missing or empty. *)
Lemma pass_disk_skipped r σ :
  wf σ →
  (await_all r = None
   ∨ ∃ c, await_all r = Some c ∧ content_of (diskstatsContent c) = None) →
  let res := fetchSystemStats r σ in
  wf res.2
  ∧ prevDiskStats res.2 = prevDiskStats σ
  ∧ disk_out res.1 = disk_out stats0
  ∧ ∀ t k, disk_key_effect t None stats0 σ res.1 res.2 k.
Proof.
  intros Hwf [Hc | (c & Hc & Hs)] res; subst res.
  - rewrite (fetchSystemStats_rejected r σ Hc).
    destruct (update_history_frame stats0 σ Hwf) as (Hwf4 & (Hd4 & _) & _). cbn [fst snd].
    split; [done |]. split; [apply Hd4 |]. split; [done |].
    intros t k. by apply disk_same_kept.
  - rewrite (fetchSystemStats_eq r c σ Hc). cbv zeta.
    destruct (before_disk_frame c σ Hwf) as (Hwf1 & (Hd1 & _) & Ho1 & _).
    set (r1 := before_disk c σ) in *.
    assert (Hr2 : when_content (diskstatsContent c) diskSection r1.1 r1.2 = (r1.1, r1.2))
      by (unfold when_content; by rewrite Hs).
    rewrite Hr2. cbn [fst snd].
    destruct (when_netSection_frame (netContent c) r1.1 r1.2 Hwf1) as (Hwf3 & [Hd3 _] & Ho3).
    set (r3 := when_content (netContent c) netSection r1.1 r1.2) in *.
    destruct (update_history_frame r3.1 r3.2 Hwf3) as (Hwf4 & (Hd4 & _) & _).
    assert (Hd : disk_same σ (update_history r3.1 r3.2).2) by (etrans; [| done]; by etrans).
    split; [done |]. split; [apply Hd |]. split; [by rewrite Ho3 |].
    intros t k. apply disk_same_kept; [done |].
    apply (f_equal snd) in Ho1, Ho3. cbn in Ho1, Ho3. by rewrite Ho3, Ho1.
Qed.

Lemma net_totals_rates t a b prev st st' :
  networkSentRate st' = networkSentRate st → networkRecvRate st' = networkRecvRate st →
  networkSentRate (net_totals t a b prev st') = networkSentRate (net_totals t a b prev st)
  ∧ networkRecvRate (net_totals t a b prev st') = networkRecvRate (net_totals t a b prev st).
Proof.
  intros H1 H2. unfold net_totals.
  destruct prev as [p |]; [destruct (ngt _ _) |]; by cbn.
Qed.

(** A pass whose reads all resolve and whose network text is not empty: what
    it does to the network state and the network part of its result.  [t] is
    the value the network section reads from the clock. *)
Lemma pass_net r c s σ :
  wf σ → await_all r = Some c → content_of (netContent c) = Some s →
  ∃ n, (ticks σ ≤ n)%nat ∧
    let t := clock σ n in
    let sc := scan net_row (drop 2 (split_lines s)) in
    let res := fetchSystemStats r σ in
    wf res.2
    ∧ prevNetStats res.2 = Some {| n_sent := sc.1.1; n_recv := sc.1.2; n_timestamp := t |}
    ∧ networkSentRate res.1
      = networkSentRate (net_totals t sc.1.1 sc.1.2 (prevNetStats σ) stats0)
    ∧ networkRecvRate res.1
      = networkRecvRate (net_totals t sc.1.1 sc.1.2 (prevNetStats σ) stats0)
    ∧ (∀ k, iface_key_outcome t (obj_get k sc.2) stats0 σ res.1 res.2 k)
    ∧ (plain_keys sc.2 → ∀ k, iface_key_effect t (obj_get k sc.2) stats0 σ res.1 res.2 k).
Proof.
  intros Hwf Hc Hs.
  destruct (before_disk_frame c σ Hwf) as (Hwf1 & (_ & Hn1 & Hclk1 & Ht1) & _ & Ho1).
  set (r1 := before_disk c σ) in *.
  destruct (when_diskSection_frame (diskstatsContent c) r1.1 r1.2 Hwf1)
    as (Hwf2 & (Hn2 & Hclk2 & Ht2) & Ho2).
  set (r2 := when_content (diskstatsContent c) diskSection r1.1 r1.2) in *.
  exists (ticks r2.2). split; [lia |].
  intros t sc res. subst res. rewrite (fetchSystemStats_eq r c σ Hc). cbv zeta.
  fold r1. fold r2.
  assert (Hr3 : when_content (netContent c) netSection r2.1 r2.2 = netSection s r2.1 r2.2)
    by (unfold when_content; by rewrite Hs).
  rewrite Hr3.
  destruct (netSection_spec s r2.1 r2.2 Hwf2) as (Hwf3 & _ & [m Hst3] & Hp3 & Ho3 & He3).
  set (r3 := netSection s r2.1 r2.2) in *.
  destruct (update_history_frame r3.1 r3.2 Hwf3) as (Hwf4 & (_ & Hn4 & _) & _).
  cbn [fst snd].
  assert (Hn : net_same σ r2.2) by (by etrans).
  assert (Hagg : prevNetStats r2.2 = prevNetStats σ) by apply Hn.
  assert (Hclk : clock r2.2 = clock σ) by congruence.
  rewrite Hclk in Hp3, Hst3, Ho3, He3. rewrite Hagg in Hst3.
  fold t sc in Hp3, Hst3, Ho3, He3.
  assert (Ho : net_out r2.1 = net_out stats0) by (by rewrite Ho2).
  injection Ho as Hs2 Hr2 Hm2.
  split; [done |]. split.
  { destruct Hn4 as (-> & _). done. }
  destruct (net_totals_rates t sc.1.1 sc.1.2 (prevNetStats σ) stats0 r2.1 Hs2 Hr2)
    as [Hsa Hra].
  split; [by rewrite Hst3 |]. split; [by rewrite Hst3 |]. split.
  - intros k.
    eapply iface_outcome_then_kept; [| by apply (net_same_kept r3.1 r3.2 r3.1)].
    eapply iface_outcome_after_kept; [| apply Ho3].
    by apply net_same_kept.
  - intros Hpl k.
    eapply iface_effect_then_kept; [| by apply (net_same_kept r3.1 r3.2 r3.1)].
    eapply iface_effect_after_kept; [| by apply He3].
    by apply net_same_kept.
Qed.

(** A pass that does not run the network section. *)
Lemma pass_net_skipped r σ :
  wf σ →
  (await_all r = None
   ∨ ∃ c, await_all r = Some c ∧ content_of (netContent c) = None) →
  let res := fetchSystemStats r σ in
  wf res.2
  ∧ prevNetStats res.2 = prevNetStats σ
  ∧ net_out res.1 = net_out stats0
  ∧ ∀ t k, iface_key_effect t None stats0 σ res.1 res.2 k.
Proof.
  intros Hwf [Hc | (c & Hc & Hs)] res; subst res.
  - rewrite (fetchSystemStats_rejected r σ Hc).
    destruct (update_history_frame stats0 σ Hwf) as (Hwf4 & (_ & Hn4 & _) & _). cbn [fst snd].
    split; [done |]. split; [apply Hn4 |]. split; [done |].
    intros t k. by apply net_same_kept.
  - rewrite (fetchSystemStats_eq r c σ Hc). cbv zeta.
    destruct (before_disk_frame c σ Hwf) as (Hwf1 & (_ & Hn1 & _) & _ & Ho1).
    set (r1 := before_disk c σ) in *.
    destruct (when_diskSection_frame (diskstatsContent c) r1.1 r1.2 Hwf1)
      as (Hwf2 & (Hn2 & _) & Ho2).
    set (r2 := when_content (diskstatsContent c) diskSection r1.1 r1.2) in *.
    assert (Hr3 : when_content (netContent c) netSection r2.1 r2.2 = (r2.1, r2.2))
      by (unfold when_content; by rewrite Hs).
    rewrite Hr3. cbn [fst snd].
    destruct (update_history_frame r2.1 r2.2 Hwf2) as (Hwf4 & (_ & Hn4 & _) & _).
    assert (Hn : net_same σ (update_history r2.1 r2.2).2) by (etrans; [| done]; by etrans).
    split; [done |]. split; [apply Hn |]. split; [by rewrite Ho2 |].
    intros t k. apply net_same_kept; [done |].
    apply (f_equal snd) in Ho1, Ho2. cbn in Ho1, Ho2. by rewrite Ho2, Ho1.
Qed.

(** A pass takes well-formed states to well-formed states. *)
Lemma fetchSystemStats_wf r σ : wf σ → wf (fetchSystemStats r σ).2.
Proof.
  intros Hwf. destruct (await_all r) as [c |] eqn:Hc.
  - destruct (content_of (diskstatsContent c)) as [s |] eqn:Hs.
    + destruct (pass_disk r c s σ Hwf Hc Hs) as (n & _ & H). apply H.
    + apply pass_disk_skipped; eauto.
  - apply pass_disk_skipped; eauto.
Qed.

(** ** Rates *)

Lemma ngt_zero q : ngt (Num q) (num_of_Z 0) = true ↔ (0 < q)%Q.
Proof.
  unfold ngt, num_of_Z. rewrite negb_true_iff, <- not_true_iff_false, Qle_bool_iff.
  change (inject_Z 0) with 0%Q. split; [apply Qnot_le_lt | apply Qlt_not_le].
Qed.

Lemma seconds_since_num t1 t0 :
  ∃ q, seconds_since t1 t0 = Num q ∧ (q == inject_Z (t1 - t0) / 1000)%Q.
Proof.
  unfold seconds_since, ndiv, num_of_Z. cbn.
  eexists. split; [reflexivity |]. apply Qred_correct.
Qed.

Lemma seconds_since_pos t1 t0 :
  (t0 < t1)%Z → ngt (seconds_since t1 t0) (num_of_Z 0) = true.
Proof.
  intros Hlt. destruct (seconds_since_num t1 t0) as (q & -> & Hq).
  apply ngt_zero. rewrite Hq. apply Qlt_shift_div_l; [reflexivity |].
  rewrite Qmult_0_l. change 0%Q with (inject_Z 0). rewrite <- Zlt_Qlt. lia.
Qed.

Lemma seconds_since_nonpos t1 t0 :
  (t1 ≤ t0)%Z → ngt (seconds_since t1 t0) (num_of_Z 0) = false.
Proof.
  intros Hle. destruct (seconds_since_num t1 t0) as (q & -> & Hq).
  apply not_true_iff_false. rewrite ngt_zero, Hq. apply Qle_not_lt.
  apply Qle_shift_div_r; [reflexivity |].
  rewrite Qmult_0_l. change 0%Q with (inject_Z 0). rewrite <- Zle_Qle. lia.
Qed.

Lemma kb_rate_num c p q :
  ¬ (q == 0)%Q →
  ∃ y, kb_rate (Num c) (Num p) (Num q) = Num (if Qle_bool 0 y then y else 0%Q)
       ∧ (y == (c - p) / 1024 / q)%Q.
Proof.
  intros Hq. unfold kb_rate, math_max, ndiv, nsub, lift2, num_of_Z.
  change (Qeq_bool (inject_Z 1024) 0) with false. cbn match.
  destruct (Qeq_bool q 0) eqn:E; [by apply Qeq_bool_iff in E |].
  eexists. split; [reflexivity |].
  rewrite !Qred_correct. reflexivity.
Qed.

Lemma kb_rate_ok cur prev dt :
  is_num cur → is_num prev → ngt dt (num_of_Z 0) = true →
  rate_ok cur prev (kb_rate cur prev dt).
Proof.
  destruct cur as [| c], prev as [| p], dt as [| q]; try done. intros _ _ Hq.
  apply ngt_zero in Hq.
  destruct (kb_rate_num c p q) as (y & -> & Hy).
  { intros E. rewrite E in Hq. by apply Qlt_irrefl in Hq. }
  split.
  - cbn. destruct (Qle_bool 0 y) eqn:E; [by apply Qle_bool_iff | apply Qle_refl].
  - cbn. intros Hlt. destruct (Qle_bool 0 y) eqn:E; [| done].
    apply Qle_bool_iff in E. exfalso. rewrite Hy in E.
    apply (Qlt_not_le ((c - p) / 1024 / q) 0); [| done].
    apply Qlt_shift_div_r; [done |]. rewrite Qmult_0_l.
    apply Qlt_shift_div_r; [reflexivity |]. rewrite Qmult_0_l.
    unfold Qminus. rewrite <- (Qplus_opp_r p). by apply Qplus_lt_l.
Qed.

Lemma disk_sample_elapsed t cur p :
  (d_timestamp p < t)%Z →
  disk_sample t cur (Some p)
  = Some {| readRate := kb_rate cur.1 (d_read p) (seconds_since t (d_timestamp p));
            writeRate := kb_rate cur.2 (d_write p) (seconds_since t (d_timestamp p)) |}.
Proof. intros Hlt. unfold disk_sample. by rewrite seconds_since_pos. Qed.

Lemma iface_sample_elapsed t cur p :
  (n_timestamp p < t)%Z →
  iface_sample t cur (Some p)
  = Some {| sentRate := kb_rate cur.1 (n_sent p) (seconds_since t (n_timestamp p));
            recvRate := kb_rate cur.2 (n_recv p) (seconds_since t (n_timestamp p)) |}.
Proof. intros Hlt. unfold iface_sample. by rewrite seconds_since_pos. Qed.



Lemma Qmax_zero y : ((if Qle_bool 0 y then y else 0) == Qmax 0 y)%Q.
Proof.
  destruct (Qle_bool 0 y) eqn:E.
  - apply Qle_bool_iff in E. symmetry. by apply Q.max_r.
  - symmetry. apply Q.max_l. apply Qlt_le_weak, Qnot_le_lt.
    intros H. apply Qle_bool_iff in H. congruence.
Qed.

(** The rate expression of the source, written out: with time elapsed it is
    the byte delta divided by 1024 and by the elapsed seconds, or 0. *)
Lemma kb_rate_between c p t0 t1 :
  (t0 < t1)%Z → rate_between p c t0 t1 (kb_rate (Num c) (Num p) (seconds_since t1 t0)).
Proof.
  intros Hlt. destruct (seconds_since_num t1 t0) as (q & Hq & Eq).
  assert (Hpos : (0 < q)%Q).
  { apply ngt_zero. rewrite <- Hq. by apply seconds_since_pos. }
  rewrite Hq. destruct (kb_rate_num c p q) as (y & -> & Hy).
  { intros E. rewrite E in Hpos. by apply Qlt_irrefl in Hpos. }
  eexists. split; [reflexivity |]. rewrite Qmax_zero, Hy, Eq. reflexivity.
Qed.

(** A sample found in the result for a reported key that had none is the
    sample the loop derives for the key. *)
Lemma iface_outcome_sample t c st σ st' σ' k sample :
  iface_key_outcome t (Some c) st σ st' σ' k →
  perIfaceStats st !! k = None → perIfaceStats st' !! k = Some sample →
  iface_sample t c (prevPerIfaceStats σ !! k) = Some sample.
Proof.
  unfold iface_key_outcome, iface_key_effect, iface_key_thrown, iface_key_kept.
  intros [(_ & H) | [(_ & _ & H & _) | (_ & H & _)]] Hst Hs.
  - destruct (iface_sample _ _ _) as [s |].
    + destruct H as (H & _). congruence.
    + destruct H as (H & _). congruence.
  - congruence.
  - congruence.
Qed.

(** A reported key for which the loop derives no sample gets none and keeps
    its entry in the history map and its streams. *)
Lemma iface_outcome_no_sample t c st σ st' σ' k :
  iface_key_outcome t (Some c) st σ st' σ' k →
  iface_sample t c (prevPerIfaceStats σ !! k) = None →
  iface_key_kept st σ st' σ' k.
Proof.
  unfold iface_key_outcome, iface_key_effect, iface_key_thrown.
  intros [(_ & H) | [(_ & [x Hx] & _) | (_ & H)]] Hs.
  - by rewrite Hs in H.
  - congruence.
  - done.
Qed.

(** C5.  In a pass whose reads all resolve, every rate derived from a
    previous snapshot taken before the pass is a number at least zero, and it
    is zero when the counter went down: the aggregate disk rates, the rates of
    every reported device, the aggregate network rates and the rates of every
    interface for which the result holds a sample.  The result holds a sample
    for every reported interface that has such a snapshot when no reported
    interface bears a name that every object inherits. *)
Theorem rate_non_negative (r : reads) (c : contents) (σ : engine) :
  wf σ → await_all r = Some c →
  let res := fetchSystemStats r σ in
  (∀ s, content_of (diskstatsContent c) = Some s →
     (∀ p, prevDiskStats σ = Some p → earlier (d_timestamp p) σ →
        is_num (d_read p) → is_num (d_write p) →
        is_num (total_disk_bytes s).1 → is_num (total_disk_bytes s).2 →
        rate_ok (total_disk_bytes s).1 (d_read p) (diskReadRate res.1)
        ∧ rate_ok (total_disk_bytes s).2 (d_write p) (diskWriteRate res.1))
     ∧ (∀ k cur p, obj_get k (reported_disks s) = Some cur →
          prevPerDiskStats σ !! k = Some p → earlier (d_timestamp p) σ →
          is_num (d_read p) → is_num (d_write p) → is_num cur.1 → is_num cur.2 →
          ∃ sample, perDiskStats res.1 !! k = Some sample
                    ∧ rate_ok cur.1 (d_read p) (readRate sample)
                    ∧ rate_ok cur.2 (d_write p) (writeRate sample)))
  ∧ (∀ s, content_of (netContent c) = Some s →
     (∀ p, prevNetStats σ = Some p → earlier (n_timestamp p) σ →
        is_num (n_sent p) → is_num (n_recv p) →
        is_num (total_net_bytes s).1 → is_num (total_net_bytes s).2 →
        rate_ok (total_net_bytes s).1 (n_sent p) (networkSentRate res.1)
        ∧ rate_ok (total_net_bytes s).2 (n_recv p) (networkRecvRate res.1))
     ∧ (∀ k cur p, obj_get k (reported_ifaces s) = Some cur →
          prevPerIfaceStats σ !! k = Some p → earlier (n_timestamp p) σ →
          is_num (n_sent p) → is_num (n_recv p) → is_num cur.1 → is_num cur.2 →
          (∀ sample, perIfaceStats res.1 !! k = Some sample →
             rate_ok cur.1 (n_sent p) (sentRate sample)
             ∧ rate_ok cur.2 (n_recv p) (recvRate sample))
          ∧ (plain_keys (reported_ifaces s) → is_Some (perIfaceStats res.1 !! k)))).
Proof.
  intros Hwf Hc res. split.
  - intros s Hs. destruct (pass_disk r c s σ Hwf Hc Hs) as (n & Hn & _ & _ & Hr & Hw & Hk).
    fold res in Hr, Hw, Hk. split.
    + intros p Hp He ? ? ? ?. specialize (He n Hn).
      rewrite Hr, Hw, Hp. unfold disk_totals. rewrite seconds_since_pos by done.
      split; apply kb_rate_ok; auto using seconds_since_pos.
    + intros k cur p Hcur Hp He ? ? ? ?. specialize (He n Hn). specialize (Hk k).
      unfold reported_disks in Hcur. unfold disk_key_effect in Hk.
      rewrite Hcur, Hp, disk_sample_elapsed in Hk by done.
      destruct Hk as (_ & Hsmp & _). eexists. split; [exact Hsmp |].
      split; apply kb_rate_ok; auto using seconds_since_pos.
  - intros s Hs.
    destruct (pass_net r c s σ Hwf Hc Hs) as (n & Hn & _ & _ & Hr & Hw & Ho & Hk).
    fold res in Hr, Hw, Ho, Hk. split.
    + intros p Hp He ? ? ? ?. specialize (He n Hn).
      rewrite Hr, Hw, Hp. unfold net_totals. rewrite seconds_since_pos by done.
      split; apply kb_rate_ok; auto using seconds_since_pos.
    + intros k cur p Hcur Hp He ? ? ? ?. specialize (He n Hn).
      unfold reported_ifaces in Hcur. split.
      * intros sample Hsmp. specialize (Ho k). rewrite Hcur in Ho.
        apply (iface_outcome_sample _ _ _ _ _ _ _ sample) in Ho; [| done | done].
        rewrite Hp, iface_sample_elapsed in Ho by done. injection Ho as <-.
        split; apply kb_rate_ok; auto using seconds_since_pos.
      * intros Hpl. specialize (Hk Hpl k). unfold iface_key_effect in Hk.
        rewrite Hcur, Hp, iface_sample_elapsed in Hk by done.
        destruct Hk as (_ & Hsmp & _). eauto.
Qed.

Lemma rate_non_negative_witness :
  let σ := run_passes [pass_a] (init sample_clock) in
  let res := fetchSystemStats pass_b σ in
  (nonneg (diskReadRate res.1) ∧ diskWriteRate res.1 = num_of_Z 0)
  ∧ ∃ sample, perIfaceStats res.1 !! "eth0" = Some sample
              ∧ nonneg (sentRate sample) ∧ recvRate sample = num_of_Z 0.
Proof.
  intros σ res.
  assert (Hwf : wf σ) by apply fetchSystemStats_wf, wf_init.
  eassert (Hc : await_all pass_b = Some _) by reflexivity.
  destruct (rate_non_negative pass_b _ σ Hwf Hc) as [Hd Hn].
  destruct (Hd _ eq_refl) as [Hagg _]. destruct (Hn _ eq_refl) as [_ Hkey].
  assert (Ht : ticks σ = 8%nat) by (vm_compute; reflexivity).
  assert (Hclk : clock σ = sample_clock) by (vm_compute; reflexivity).
  assert (He : ∀ t0, (t0 < 8000)%Z → earlier t0 σ).
  { intros t0 Ht0 n Hle. rewrite Ht in Hle. rewrite Hclk. unfold sample_clock. lia. }
  split.
  - destruct (Hagg {| d_read := Num 512000; d_write := Num 1024000; d_timestamp := 0 |})
      as [[H1 _] [_ H2]];
      [vm_compute; reflexivity | by apply He | vm_compute; exact I .. |].
    split; [exact H1 |]. apply H2. vm_compute. reflexivity.
  - destruct (Hkey "eth0" (Num 4048, Num 500)
                {| n_sent := Num 2000; n_recv := Num 1000; n_timestamp := 1000 |})
      as (Hsafe & Hsome);
      [vm_compute; reflexivity | vm_compute; reflexivity | by apply He
      | vm_compute; exact I .. |].
    destruct Hsome as [sample Hs]; [apply (bool_decide_unpack _); vm_compute; exact I |].
    destruct (Hsafe sample Hs) as ([H1 _] & [_ H2]).
    exists sample. split; [exact Hs |]. split; [exact H1 |]. apply H2.
    vm_compute. reflexivity.
Defined.

(** ** Passes without elapsed time *)



(** ** First sight of an entity *)

Lemma disk_sample_between t t' x y x' y' :
  (t < t')%Z →
  ∃ sample,
    disk_sample t' (Num x', Num y') (Some (disk_snapshot_of t (Num x, Num y))) = Some sample
    ∧ rate_between x x' t t' (readRate sample)
    ∧ rate_between y y' t t' (writeRate sample).
Proof.
  intros Hlt. rewrite disk_sample_elapsed by done. eexists. split; [reflexivity |].
  split; by apply kb_rate_between.
Qed.

Lemma iface_sample_between t t' x y x' y' :
  (t < t')%Z →
  ∃ sample,
    iface_sample t' (Num x', Num y') (Some (iface_snapshot_of t (Num x, Num y))) = Some sample
    ∧ rate_between x x' t t' (sentRate sample)
    ∧ rate_between y y' t t' (recvRate sample).
Proof.
  intros Hlt. rewrite iface_sample_elapsed by done. eexists. split; [reflexivity |].
  split; by apply kb_rate_between.
Qed.

(** X27.  In a pass whose reads all resolve, a reported
    device or interface that has no previous snapshot gets no rate sample in
    the result of the pass and no history point.  The current counters of a
    device are stored with the time [t] the section read from the clock, and
    the next pass that reports the device, reading a later time [t'] from the
    clock, stores the new counters with [t'] and derives the rates of the
    device from the stored ones: the difference of the counters divided by
    1024 and by the seconds from [t] to [t'], or 0 when that is negative.
    The same holds for an interface when no interface reported in the pass
    (and in the next pass) bears a name that every object inherits. *)
Theorem first_sight (r : reads) (c : contents) (σ : engine) :
  wf σ → await_all r = Some c →
  let res := fetchSystemStats r σ in
  (∀ s k cur, content_of (diskstatsContent c) = Some s →
     obj_get k (reported_disks s) = Some cur → prevPerDiskStats σ !! k = None →
     perDiskStats res.1 !! k = None
     ∧ (∀ w, disk_stream res.2 k w = disk_stream σ k w)
     ∧ ∃ n, (ticks σ ≤ n)%nat ∧
         let t := clock σ n in
         prevPerDiskStats res.2 !! k = Some (disk_snapshot_of t cur)
         ∧ ∀ r' c' s' x y x' y',
             await_all r' = Some c' → content_of (diskstatsContent c') = Some s' →
             cur = (Num x, Num y) →
             obj_get k (reported_disks s') = Some (Num x', Num y') → earlier t res.2 →
             let res' := fetchSystemStats r' res.2 in
             ∃ n' sample, (ticks res.2 ≤ n')%nat ∧
               let t' := clock res.2 n' in
               prevPerDiskStats res'.2 !! k = Some (disk_snapshot_of t' (Num x', Num y'))
               ∧ perDiskStats res'.1 !! k = Some sample
               ∧ rate_between x x' t t' (readRate sample)
               ∧ rate_between y y' t t' (writeRate sample))
  ∧ (∀ s k cur, content_of (netContent c) = Some s →
     obj_get k (reported_ifaces s) = Some cur → prevPerIfaceStats σ !! k = None →
     perIfaceStats res.1 !! k = None
     ∧ (∀ w, iface_stream res.2 k w = iface_stream σ k w)
     ∧ (plain_keys (reported_ifaces s) →
        ∃ n, (ticks σ ≤ n)%nat ∧
         let t := clock σ n in
         prevPerIfaceStats res.2 !! k = Some (iface_snapshot_of t cur)
         ∧ ∀ r' c' s' x y x' y',
             await_all r' = Some c' → content_of (netContent c') = Some s' →
             plain_keys (reported_ifaces s') →
             cur = (Num x, Num y) →
             obj_get k (reported_ifaces s') = Some (Num x', Num y') → earlier t res.2 →
             let res' := fetchSystemStats r' res.2 in
             ∃ n' sample, (ticks res.2 ≤ n')%nat ∧
               let t' := clock res.2 n' in
               prevPerIfaceStats res'.2 !! k = Some (iface_snapshot_of t' (Num x', Num y'))
               ∧ perIfaceStats res'.1 !! k = Some sample
               ∧ rate_between x x' t t' (sentRate sample)
               ∧ rate_between y y' t t' (recvRate sample))).
Proof.
  intros Hwf Hc res. split.
  - intros s k cur Hs Hcur Hp.
    destruct (pass_disk r c s σ Hwf Hc Hs) as (n & Hn & Hwf' & _ & _ & _ & Hk).
    fold res in Hwf', Hk. specialize (Hk k).
    unfold reported_disks in Hcur. unfold disk_key_effect in Hk.
    rewrite Hcur, Hp in Hk. cbn in Hk. destruct Hk as (Hsnap & Hrate & _ & Hstream).
    split; [by rewrite Hrate |]. split; [done |].
    exists n. split; [done |]. cbv zeta. split; [done |].
    intros r' c' s' x y x' y' Hc' Hs' -> Hcur' He.
    destruct (pass_disk r' c' s' res.2 Hwf' Hc' Hs') as (n' & Hn' & _ & _ & _ & _ & Hk').
    specialize (Hk' k). specialize (He n' Hn').
    unfold reported_disks in Hcur'. unfold disk_key_effect in Hk'.
    rewrite Hcur', Hsnap in Hk'.
    destruct (disk_sample_between _ _ x y x' y' He) as (sample & Hsmp & H1 & H2).
    rewrite Hsmp in Hk'. destruct Hk' as (Hsnap' & Hst & _).
    exists n', sample. done.
  - intros s k cur Hs Hcur Hp.
    destruct (pass_net r c s σ Hwf Hc Hs) as (n & Hn & Hwf' & _ & _ & _ & Ho & Hk).
    fold res in Hwf', Ho, Hk. unfold reported_ifaces in Hcur.
    pose proof (Ho k) as Hok. rewrite Hcur in Hok.
    apply iface_outcome_no_sample in Hok; [| by rewrite Hp].
    destruct Hok as (Hrate & _ & Hstream).
    split; [by rewrite Hrate |]. split; [done |].
    intros Hpl. specialize (Hk Hpl k). unfold iface_key_effect in Hk.
    rewrite Hcur in Hk. destruct Hk as (Hsnap & _).
    exists n. split; [done |]. cbv zeta. split; [done |].
    intros r' c' s' x y x' y' Hc' Hs' Hpl' -> Hcur' He.
    destruct (pass_net r' c' s' res.2 Hwf' Hc' Hs') as (n' & Hn' & _ & _ & _ & _ & _ & Hk').
    specialize (Hk' Hpl' k). specialize (He n' Hn').
    unfold reported_ifaces in Hcur'. unfold iface_key_effect in Hk'.
    rewrite Hcur', Hsnap in Hk'.
    destruct (iface_sample_between _ _ x y x' y' He) as (sample & Hsmp & H1 & H2).
    rewrite Hsmp in Hk'. destruct Hk' as (Hsnap' & Hst & _).
    exists n', sample. done.
Qed.

Lemma first_sight_witness :
  let res := fetchSystemStats pass_a (init sample_clock) in
  perDiskStats res.1 !! "sda" = None
  ∧ ∃ sample,
      perDiskStats (fetchSystemStats pass_b res.2).1 !! "sda" = Some sample
      ∧ rate_between 512000 774144 0 8000 (readRate sample)
      ∧ rate_between 1024000 512000 0 8000 (writeRate sample).
Proof.
  cbv zeta.
  eassert (Hc : await_all pass_a = Some _) by reflexivity.
  destruct (first_sight pass_a _ (init sample_clock) (wf_init _) Hc) as [Hd _].
  destruct (Hd _ "sda" (Num 512000, Num 1024000) eq_refl)
    as (Hnone & _ & n & Hn & Hsnap & Hnext);
    [vm_compute; reflexivity | vm_compute; reflexivity |].
  split; [exact Hnone |].
  assert (Hs : prevPerDiskStats (fetchSystemStats pass_a (init sample_clock)).2 !! "sda"
               = Some (disk_snapshot_of 0 (Num 512000, Num 1024000)))
    by (vm_compute; reflexivity).
  assert (Ht : ticks (fetchSystemStats pass_a (init sample_clock)).2 = 8%nat)
    by (vm_compute; reflexivity).
  assert (Hclk : clock (fetchSystemStats pass_a (init sample_clock)).2 = sample_clock)
    by (vm_compute; reflexivity).
  assert (En : n = 0%nat).
  { rewrite Hs in Hsnap. injection Hsnap as Hsnap.
    change (clock (init sample_clock) n) with (sample_clock n) in Hsnap.
    unfold sample_clock in Hsnap. lia. }
  subst n.
  eassert (Hc' : await_all pass_b = Some _) by reflexivity.
  destruct (Hnext pass_b _ _ 512000%Q 1024000%Q 774144%Q 512000%Q Hc' eq_refl eq_refl)
    as (n' & sample & _ & Hsnap' & Hsmp & H1 & H2).
  - vm_compute. reflexivity.
  - intros m Hm. rewrite Ht in Hm. rewrite Hclk.
    change (clock (init sample_clock) 0) with (sample_clock 0).
    unfold sample_clock. lia.
  - assert (Hs' : prevPerDiskStats
                    (fetchSystemStats pass_b (fetchSystemStats pass_a (init sample_clock)).2).2
                    !! "sda"
                  = Some (disk_snapshot_of 8000 (Num 774144, Num 512000)))
      by (vm_compute; reflexivity).
    rewrite Hs' in Hsnap'. injection Hsnap' as Hsnap'.
    change (clock (init sample_clock) 0) with 0%Z in H1, H2.
    rewrite <- Hsnap' in H1, H2.
    exists sample. split; [exact Hsmp |]. split; [exact H1 | exact H2].
Defined.

(** C7.  The code at the failing input.  An interface named [toString] is
    reported by three passes, and [eth0] by the second and the third.  When
    [eth0] is listed after [toString], the loop over the interfaces derives
    the rates of [toString] in the second pass, finds a function of
    [Object.prototype] where it expects the history of the interface, and
    throws: [eth0], seen for the first time, gets no rate and no baseline
    either, and the third pass, which throws at the same place, derives no
    rate for it.  When [eth0] is listed before [toString], its counters are
    stored by the second pass and the third derives its rates from them. *)
Theorem first_sight_after_inherited_name :
  let σ1 := run_passes [named_ifaces ["toString"] 1] (init sample_clock) in
  let after2 := fetchSystemStats (named_ifaces ["toString"; "eth0"] 2) σ1 in
  let after3 := fetchSystemStats (named_ifaces ["toString"; "eth0"] 3) after2.2 in
  let before2 := fetchSystemStats (named_ifaces ["eth0"; "toString"] 2) σ1 in
  let before3 := fetchSystemStats (named_ifaces ["eth0"; "toString"] 3) before2.2 in
  inherited "toString" = true
  ∧ ifaces_of (named_ifaces ["toString"; "eth0"] 2) = ["toString"; "eth0"]
  ∧ prevPerIfaceStats σ1 !! "eth0" = None
  ∧ prevPerIfaceStats σ1 !! "toString"
    = Some {| n_sent := Num 3000; n_recv := Num 1000; n_timestamp := 0 |}
  ∧ perIfaceStats after2.1 !! "toString"
    = Some {| sentRate := Num (375 # 896); recvRate := Num (125 # 896) |}
  ∧ perIfaceHistories after2.2 !! "toString" = None
  ∧ prevPerIfaceStats after2.2 !! "toString" = prevPerIfaceStats σ1 !! "toString"
  ∧ perIfaceStats after2.1 !! "eth0" = None
  ∧ prevPerIfaceStats after2.2 !! "eth0" = None
  ∧ perIfaceStats after3.1 !! "eth0" = None
  ∧ prevPerIfaceStats after3.2 !! "eth0" = None
  ∧ prevPerIfaceStats before2.2 !! "eth0"
    = Some {| n_sent := Num 6000; n_recv := Num 2000; n_timestamp := 7000 |}
  ∧ perIfaceStats before3.1 !! "eth0"
    = Some {| sentRate := Num (375 # 896); recvRate := Num (125 # 896) |}.
Proof. vm_compute. repeat split. Qed.

(** ** Entities that vanish *)

Lemma obj_get_None {V} k (o : obj V) : obj_get k o = None ↔ k ∉ obj_keys o.
Proof.
  induction o as [| [k' v] o IH]; cbn.
  - split; [intros _ H; inversion H | done].
  - rewrite not_elem_of_cons. destruct (decide (k' = k)) as [-> | Hne].
    + split; [done | by intros [? _]].
    + rewrite IH. split; [by split | by intros [_ ?]].
Qed.

Lemma obj_get_is_Some {V} k (o : obj V) : is_Some (obj_get k o) ↔ k ∈ obj_keys o.
Proof.
  rewrite <- not_eq_None_Some, obj_get_None.
  split; [apply dec_stable | by intros ? ?].
Qed.

Lemma disk_store_dom t (cur : obj (number * number)) st σ st' σ' :
  (∀ k, disk_key_effect t (obj_get k cur) st σ st' σ' k) →
  dom (prevPerDiskStats σ') = list_to_set (obj_keys cur) ∪ dom (prevPerDiskStats σ).
Proof.
  intros Hk. apply set_eq. intros k.
  rewrite elem_of_union, !elem_of_dom, elem_of_list_to_set, <- obj_get_is_Some.
  specialize (Hk k). unfold disk_key_effect in Hk.
  destruct (obj_get k cur) as [c |].
  - destruct Hk as [-> _]. split; eauto.
  - destruct Hk as [-> _]. split; [auto | intros [[? ?] | ?]; done].
Qed.

Lemma iface_store_dom t (cur : obj (number * number)) st σ st' σ' :
  (∀ k, iface_key_effect t (obj_get k cur) st σ st' σ' k) →
  dom (prevPerIfaceStats σ') = list_to_set (obj_keys cur) ∪ dom (prevPerIfaceStats σ).
Proof.
  intros Hk. apply set_eq. intros k.
  rewrite elem_of_union, !elem_of_dom, elem_of_list_to_set, <- obj_get_is_Some.
  specialize (Hk k). unfold iface_key_effect in Hk.
  destruct (obj_get k cur) as [c |].
  - destruct Hk as [-> _]. split; eauto.
  - destruct Hk as [-> _]. split; [auto | intros [[? ?] | ?]; done].
Qed.

Lemma iface_outcome_store t c st σ st' σ' k :
  iface_key_outcome t c st σ st' σ' k →
  is_Some (prevPerIfaceStats σ !! k) → is_Some (prevPerIfaceStats σ' !! k).
Proof.
  unfold iface_key_outcome, iface_key_effect, iface_key_thrown.
  destruct c as [c |].
  - intros [(-> & _) | [(_ & _ & _ & -> & _) | (-> & _)]]; eauto.
  - by intros (-> & _).
Qed.

(** C1, as the code has it.  After a pass whose reads all resolve and that
    reports the set S of devices (of interfaces), the store of previous
    snapshots holds every key it held before; a key it held that is not in S
    keeps its snapshot, its entry in the history map and its history streams.
    The store of the devices holds exactly the keys of S and the keys it held
    before, and a reported device with a snapshot from before the pass,
    however old, gets the points of this pass appended to the streams it
    already has, their values being the rates over the whole time since that
    snapshot: the difference of the counters divided by 1024 and by the
    seconds elapsed, or 0 when that is negative.  The same holds for the
    interfaces when no reported interface bears a name that every object
    inherits. *)
Theorem store_keeps_vanished_keys (r : reads) (c : contents) (σ : engine) :
  wf σ → await_all r = Some c →
  let res := fetchSystemStats r σ in
  (∀ s, content_of (diskstatsContent c) = Some s →
     dom (prevPerDiskStats res.2)
     = list_to_set (obj_keys (reported_disks s)) ∪ dom (prevPerDiskStats σ)
     ∧ (∀ k, k ∉ obj_keys (reported_disks s) →
          prevPerDiskStats res.2 !! k = prevPerDiskStats σ !! k
          ∧ perDiskHistories res.2 !! k = perDiskHistories σ !! k
          ∧ ∀ w, disk_stream res.2 k w = disk_stream σ k w)
     ∧ (∀ k x y p x0 y0, obj_get k (reported_disks s) = Some (Num x, Num y) →
          prevPerDiskStats σ !! k = Some p → d_read p = Num x0 → d_write p = Num y0 →
          earlier (d_timestamp p) σ →
          ∃ n p1 p2, (ticks σ ≤ n)%nat
            ∧ disk_stream res.2 k fst_side = push_shift p1 (disk_stream σ k fst_side)
            ∧ disk_stream res.2 k snd_side = push_shift p2 (disk_stream σ k snd_side)
            ∧ rate_between x0 x (d_timestamp p) (clock σ n) (value p1)
            ∧ rate_between y0 y (d_timestamp p) (clock σ n) (value p2)))
  ∧ (∀ s, content_of (netContent c) = Some s →
     dom (prevPerIfaceStats σ) ⊆ dom (prevPerIfaceStats res.2)
     ∧ (∀ k, k ∉ obj_keys (reported_ifaces s) →
          prevPerIfaceStats res.2 !! k = prevPerIfaceStats σ !! k
          ∧ perIfaceHistories res.2 !! k = perIfaceHistories σ !! k
          ∧ ∀ w, iface_stream res.2 k w = iface_stream σ k w)
     ∧ (plain_keys (reported_ifaces s) →
        dom (prevPerIfaceStats res.2)
        = list_to_set (obj_keys (reported_ifaces s)) ∪ dom (prevPerIfaceStats σ)
        ∧ (∀ k x y p x0 y0, obj_get k (reported_ifaces s) = Some (Num x, Num y) →
             prevPerIfaceStats σ !! k = Some p → n_sent p = Num x0 → n_recv p = Num y0 →
             earlier (n_timestamp p) σ →
             ∃ n p1 p2, (ticks σ ≤ n)%nat
               ∧ iface_stream res.2 k fst_side = push_shift p1 (iface_stream σ k fst_side)
               ∧ iface_stream res.2 k snd_side = push_shift p2 (iface_stream σ k snd_side)
               ∧ rate_between x0 x (n_timestamp p) (clock σ n) (value p1)
               ∧ rate_between y0 y (n_timestamp p) (clock σ n) (value p2)))).
Proof.
  intros Hwf Hc res. split.
  - intros s Hs. destruct (pass_disk r c s σ Hwf Hc Hs) as (n & Hn & _ & _ & _ & _ & Hk).
    fold res in Hk. split; [| split].
    + by eapply disk_store_dom.
    + intros k Hnot. apply obj_get_None in Hnot. specialize (Hk k).
      unfold reported_disks in Hnot. unfold disk_key_effect in Hk. rewrite Hnot in Hk.
      destruct Hk as (? & _ & ? & ?). done.
    + intros k x y p x0 y0 Hcur Hp Hx0 Hy0 He. specialize (He n Hn). specialize (Hk k).
      unfold reported_disks in Hcur. unfold disk_key_effect in Hk.
      rewrite Hcur, Hp, disk_sample_elapsed in Hk by done.
      destruct Hk as (_ & _ & _ & [t1 H1] & [t2 H2]). cbn in H1, H2.
      rewrite Hx0 in H1. rewrite Hy0 in H2.
      eexists n, _, _. split; [done |]. split; [exact H1 |]. split; [exact H2 |].
      split; by apply kb_rate_between.
  - intros s Hs.
    destruct (pass_net r c s σ Hwf Hc Hs) as (n & Hn & _ & _ & _ & _ & Ho & Hk).
    fold res in Ho, Hk. split; [| split].
    + intros k. rewrite !elem_of_dom. by apply iface_outcome_store with (1 := Ho k).
    + intros k Hnot. apply obj_get_None in Hnot. specialize (Ho k).
      unfold reported_ifaces in Hnot. unfold iface_key_outcome, iface_key_effect in Ho.
      rewrite Hnot in Ho. destruct Ho as (? & _ & ? & ?). done.
    + intros Hpl. specialize (Hk Hpl). split; [by eapply iface_store_dom |].
      intros k x y p x0 y0 Hcur Hp Hx0 Hy0 He. specialize (He n Hn). specialize (Hk k).
      unfold reported_ifaces in Hcur. unfold iface_key_effect in Hk.
      rewrite Hcur, Hp, iface_sample_elapsed in Hk by done.
      destruct Hk as (_ & _ & _ & [t1 H1] & [t2 H2]). cbn in H1, H2.
      rewrite Hx0 in H1. rewrite Hy0 in H2.
      eexists n, _, _. split; [done |]. split; [exact H1 |]. split; [exact H2 |].
      split; by apply kb_rate_between.
Qed.

Lemma store_keeps_vanished_keys_witness :
  let σ := run_passes [both 1; both 2] (init sample_clock) in
  let res := fetchSystemStats (one 3) σ in
  prevPerDiskStats res.2 !! "sdb" = prevPerDiskStats σ !! "sdb"
  ∧ perDiskHistories res.2 !! "sdb" = perDiskHistories σ !! "sdb"
  ∧ ∀ w, disk_stream res.2 "sdb" w = disk_stream σ "sdb" w.
Proof.
  intros σ res.
  assert (Hwf : wf σ) by (repeat apply fetchSystemStats_wf; apply wf_init).
  eassert (Hc : await_all (one 3) = Some _) by reflexivity.
  destruct (store_keeps_vanished_keys (one 3) _ σ Hwf Hc) as [Hd _].
  destruct (Hd _ eq_refl) as (_ & Hkept & _).
  apply Hkept.
  assert (Hkeys : disks_of (one 3) = ["sda"]) by (vm_compute; reflexivity).
  unfold disks_of in Hkeys. cbn [one with_net with_diskstats r_diskstats] in Hkeys.
  rewrite Hkeys. apply not_elem_of_cons. split; [discriminate | apply not_elem_of_nil].
Defined.

(** C1 as the specification states it fails: the engine never removes a key.
    Two disks and two interfaces are reported by two passes, the third pass
    reports only [sda] and [eth0]: after it the stores still hold [sdb] and
    [wlan0] with their snapshots of the second pass, and their history
    streams still hold their point.  When a fourth pass reports them again,
    the new point is appended to the old stream (two points), with a rate
    taken over the whole gap, where the claim expects a stream of one
    point. *)
Lemma prune_counterexample :
  let σ3 := run_passes [both 1; both 2; one 3] (init sample_clock) in
  let σ4 := run_passes [both 1; both 2; one 3; both 4] (init sample_clock) in
  disks_of (one 3) = ["sda"] ∧ ifaces_of (one 3) = ["eth0"]
  ∧ elements (dom (prevPerDiskStats σ3)) = ["sda"; "sdb"]
  ∧ prevPerDiskStats σ3 !! "sdb"
    = Some {| d_read := Num 524288; d_write := Num 262144; d_timestamp := 8000 |}
  ∧ prevPerIfaceStats σ3 !! "wlan0"
    = Some {| n_sent := Num 1400; n_recv := Num 1000; n_timestamp := 13000 |}
  ∧ disk_stream σ3 "sdb" fst_side = [{| timestamp := 11000; value := Num 32 |}]
  ∧ iface_stream σ3 "wlan0" fst_side = [{| timestamp := 16000; value := Num (175 # 3072) |}]
  ∧ disk_stream σ4 "sdb" fst_side
    = [{| timestamp := 11000; value := Num 32 |};
       {| timestamp := 39000; value := Num (128 # 7) |}]
  ∧ iface_stream σ4 "wlan0" fst_side
    = [{| timestamp := 16000; value := Num (175 # 3072) |};
       {| timestamp := 44000; value := Num (25 # 512) |}].
Proof. vm_compute. repeat split. Qed.

(** ** A read that fails *)

Lemma await_all_None r : await_all r = None ↔ some_rejected r.
Proof.
  unfold await_all, some_rejected. rewrite !elem_of_cons, elem_of_nil.
  destruct (r_stat r), (r_meminfo r), (r_uptime r), (r_loadavg r), (r_diskstats r),
    (r_net r); split; try done; try tauto; intros H; decompose [or] H; done.
Qed.

Lemma update_history_stats0 σ :
  wf σ →
  let σ' := (update_history stats0 σ).2 in
  (∀ s, ∃ t, contents_of σ' (GlobalArr s)
             = push_shift {| timestamp := t; value := num_of_Z 0 |}
                          (contents_of σ (GlobalArr s)))
  ∧ (∀ a, (∀ s, a ≠ GlobalArr s) → arrays σ' !! a = arrays σ !! a)
  ∧ prevCpuTimes σ' = prevCpuTimes σ ∧ prevPerCoreTimes σ' = prevPerCoreTimes σ
  ∧ prevDiskStats σ' = prevDiskStats σ ∧ prevPerDiskStats σ' = prevPerDiskStats σ
  ∧ prevNetStats σ' = prevNetStats σ ∧ prevPerIfaceStats σ' = prevPerIfaceStats σ
  ∧ perDiskHistories σ' = perDiskHistories σ ∧ perIfaceHistories σ' = perIfaceHistories σ
  ∧ perCoreHistories σ' = perCoreHistories σ.
Proof.
  intros (Hg & _) σ'. subst σ'. unfold update_history.
  change (ngt (memoryTotal stats0) (num_of_Z 0)) with false. cbv iota.
  run. split; [| split; [| done]].
  - intros s. destruct (Hg s) as [x Hx]. unfold contents_of.
    destruct s; eexists; cbn;
      repeat (rewrite lookup_alter_eq || rewrite lookup_alter_ne by done);
      rewrite Hx; reflexivity.
  - intros a Ha. by rewrite !lookup_alter_ne.
Qed.


(** ** What the accessors hand out *)

(** C3 fails for [getSystemHistory].  The object it returns is new, but its
    six properties are the engine's own arrays: whatever the state, the
    caller gets the locations of [history].  After one pass, a caller that
    empties the [cpu] array it was handed empties the engine's CPU history;
    and a snapshot taken after the first pass has two points after the
    second, the engine having appended to the array the caller holds.  The
    sibling [getPerDiskHistory] copies each array: emptying what it returns
    leaves the engine's stream as it was. *)
Theorem getSystemHistory_returns_live_arrays :
  (∀ σ, getSystemHistory σ = (history, σ))
  ∧ (let σ1 := run_passes [full 0] (init sample_clock) in
     let snapshot := (getSystemHistory σ1).1 in
     contents_of σ1 (h_cpu history) = [{| timestamp := 3000; value := Num 0 |}]
     ∧ contents_of (caller_clear (h_cpu snapshot) σ1).2 (h_cpu history) = []
     ∧ contents_of (caller_push (h_cpu snapshot) {| timestamp := 7; value := Num 99 |} σ1).2
         (h_cpu history)
       = [{| timestamp := 3000; value := Num 0 |}; {| timestamp := 7; value := Num 99 |}]
     ∧ contents_of σ1 (h_cpu snapshot) = [{| timestamp := 3000; value := Num 0 |}]
     ∧ contents_of (fetchSystemStats (full 1) σ1).2 (h_cpu snapshot)
       = [{| timestamp := 3000; value := Num 0 |}; {| timestamp := 16000; value := Num 50 |}])
  ∧ (let σ2 := run_passes [full 0; full 1] (init sample_clock) in
     let copy := getPerDiskHistory σ2 in
     copy.1 !! "sda" = Some (CopyArr 0, CopyArr 1)
     ∧ contents_of copy.2 (CopyArr 0) = disk_stream σ2 "sda" fst_side
     ∧ disk_stream σ2 "sda" fst_side = [{| timestamp := 11000; value := Num (512 # 9) |}]
     ∧ disk_stream (caller_clear (CopyArr 0) copy.2).2 "sda" fst_side
       = disk_stream σ2 "sda" fst_side).
Proof.
  split; [done |]. split; vm_compute; repeat split.
Qed.

(** ** CPU usage *)

Lemma cpuSection_cpuUsage s st σ prev :
  prevCpuTimes σ = Some prev →
  cpuUsage (cpuSection s st σ).1 = cpu_usage (parseCpuLine (first_line s)) prev.
Proof.
  intros Hp. unfold cpuSection, first_line. unfold bind at 1. unfold get at 1.
  rewrite Hp. unfold bind. cbn [modify get fst snd].
  match goal with |- context [fold_m ?b ?l ?s ?e] => destruct (fold_m b l s e) end.
  reflexivity.
Qed.

Lemma cpuUsage_disk_totals t a b prev st m :
  cpuUsage (with_perDiskStats m (disk_totals t a b prev st)) = cpuUsage st.
Proof.
  unfold disk_totals. destruct prev as [p |]; [destruct (ngt _ _) |]; reflexivity.
Qed.

Lemma cpuUsage_net_totals t a b prev st m :
  cpuUsage (with_perIfaceStats m (net_totals t a b prev st)) = cpuUsage st.
Proof.
  unfold net_totals. destruct prev as [p |]; [destruct (ngt _ _) |]; reflexivity.
Qed.

Lemma when_diskSection_cpuUsage c st σ :
  wf σ → cpuUsage (when_content c diskSection st σ).1 = cpuUsage st.
Proof.
  intros Hwf. unfold when_content. destruct (content_of c) as [s |]; [| done].
  destruct (diskSection_spec s st σ Hwf) as (_ & _ & [m Hm] & _).
  rewrite Hm. apply cpuUsage_disk_totals.
Qed.

Lemma when_netSection_cpuUsage c st σ :
  wf σ → cpuUsage (when_content c netSection st σ).1 = cpuUsage st.
Proof.
  intros Hwf. unfold when_content. destruct (content_of c) as [s |]; [| done].
  destruct (netSection_spec s st σ Hwf) as (_ & _ & [m Hm] & _).
  rewrite Hm. apply cpuUsage_net_totals.
Qed.

Lemma before_disk_cpuUsage c σ :
  cpuUsage (before_disk c σ).1 = cpuUsage (when_content (statContent c) cpuSection stats0 σ).1.
Proof.
  unfold before_disk, bind.
  destruct (when_content (statContent c) cpuSection stats0 σ) as [s1 σ1].
  unfold when_content.
  destruct (content_of (meminfoContent c)), (content_of (uptimeContent c)),
    (content_of (loadavgContent c)); reflexivity.
Qed.

(** The CPU usage a pass reports when it has a previous tick line. *)
Lemma pass_cpuUsage r c s σ prev :
  wf σ → await_all r = Some c → content_of (statContent c) = Some s →
  prevCpuTimes σ = Some prev →
  cpuUsage (fetchSystemStats r σ).1 = cpu_usage (parseCpuLine (first_line s)) prev.
Proof.
  intros Hwf Hc Hs Hp. rewrite (fetchSystemStats_eq r c σ Hc). cbv zeta. cbn [fst].
  destruct (before_disk_frame c σ Hwf) as (Hwf1 & _ & _).
  destruct (when_diskSection_frame (diskstatsContent c) (before_disk c σ).1
              (before_disk c σ).2 Hwf1) as (Hwf2 & _ & _).
  rewrite when_netSection_cpuUsage, when_diskSection_cpuUsage, before_disk_cpuUsage by done.
  unfold when_content. rewrite Hs. by apply cpuSection_cpuUsage.
Qed.

Lemma clamp_proper lo hi x y : (x == y)%Q → (clamp lo hi x == clamp lo hi y)%Q.
Proof.
  intros Hxy. unfold clamp.
  assert (E1 : Qle_bool hi x = Qle_bool hi y) by (by rewrite Hxy).
  assert (E2 : Qle_bool lo x = Qle_bool lo y) by (by rewrite Hxy).
  rewrite E1. destruct (Qle_bool hi y); [reflexivity |].
  rewrite E2. by destruct (Qle_bool lo y).
Qed.

Lemma clamp_inside lo hi x : (lo <= x)%Q → (x <= hi)%Q → (clamp lo hi x == x)%Q.
Proof.
  intros Hlo Hhi. unfold clamp.
  destruct (Qle_bool hi x) eqn:E1.
  - apply Qle_bool_iff in E1. assert (Heq : (x == hi)%Q) by (by apply Qle_antisym).
    assert (E2 : Qle_bool lo hi = true) by (apply Qle_bool_iff; by rewrite <- Heq).
    rewrite E2. by symmetry.
  - assert (E2 : Qle_bool lo x = true) by (by apply Qle_bool_iff).
    by rewrite E2.
Qed.

Lemma cpu_usage_num cur prev total idle :
  totalDelta cur prev = Num total → idleDelta cur prev = Num idle → (0 < total)%Q →
  ∃ u, cpu_usage cur prev = Num u ∧ (u == clamp 0 100 (100 * (total - idle) / total))%Q.
Proof.
  intros Ht Hi Hpos. unfold cpu_usage. rewrite Ht, Hi.
  rewrite (proj2 (ngt_zero total) Hpos).
  unfold nsub, ndiv, nmul, math_min, math_max, lift2, num_of_Z.
  destruct (Qeq_bool total 0) eqn:E.
  { apply Qeq_bool_iff in E. rewrite E in Hpos. by apply Qlt_irrefl in Hpos. }
  eexists. split; [reflexivity |].
  change (inject_Z 100) with 100%Q. change (inject_Z 0) with 0%Q.
  unfold clamp.
  assert (Hv : (Qred (Qred (Qred (total - idle) / total) * 100)
                == 100 * (total - idle) / total)%Q).
  { rewrite !Qred_correct. field. intros E'. rewrite E' in Hpos. by apply Qlt_irrefl in Hpos. }
  symmetry. apply (clamp_proper 0 100 _ _ (Qeq_sym _ _ Hv)).
Qed.

(** C8, as the code has it.  With a previous tick line, the CPU usage of a
    pass is computed from the tick deltas: it is
    100 × (total − idle) / total brought into the range 0 to 100 when the
    total delta is positive (so it is exactly that quotient when the idle
    delta lies between 0 and the total delta), and 0 when the total delta is
    zero or negative.  The lines [cpu 100 0 50 800 50 0 0 0] and
    [cpu 120 0 60 820 60 0 0 0] give a total delta of 60, an idle delta of 30
    and a usage of 50, also through two passes. *)
Theorem cpu_usage_formula :
  (∀ r c s σ prev,
     wf σ → await_all r = Some c → content_of (statContent c) = Some s →
     prevCpuTimes σ = Some prev →
     cpuUsage (fetchSystemStats r σ).1 = cpu_usage (parseCpuLine (first_line s)) prev)
  ∧ (∀ cur prev total idle,
       totalDelta cur prev = Num total → idleDelta cur prev = Num idle →
       ((0 < total)%Q →
          ∃ u, cpu_usage cur prev = Num u
               ∧ (u == clamp 0 100 (100 * (total - idle) / total))%Q)
       ∧ ((0 < total)%Q → (0 <= idle)%Q → (idle <= total)%Q →
          ∃ u, cpu_usage cur prev = Num u ∧ (u == 100 * (total - idle) / total)%Q)
       ∧ ((total <= 0)%Q → cpu_usage cur prev = num_of_Z 0))
  ∧ (let prev := parseCpuLine "cpu 100 0 50 800 50 0 0 0" in
     let cur := parseCpuLine "cpu 120 0 60 820 60 0 0 0" in
     prev = num_of_Z <$> [100; 0; 50; 800; 50; 0; 0; 0]
     ∧ cur = num_of_Z <$> [120; 0; 60; 820; 60; 0; 0; 0]
     ∧ totalDelta cur prev = Num 60 ∧ idleDelta cur prev = Num 30
     ∧ cpu_usage cur prev = Num 50
     ∧ cpuUsage (fetchSystemStats (stat_only "cpu 120 0 60 820 60 0 0 0")
                   (run_passes [stat_only "cpu 100 0 50 800 50 0 0 0"]
                      (init (step_clock 7 0 2000)))).1
       = Num 50).
Proof.
  split; [| split].
  - intros r c s σ prev. apply pass_cpuUsage.
  - intros cur prev total idle Ht Hi. split; [| split].
    + by apply cpu_usage_num.
    + intros Hpos Hi0 Hit.
      destruct (cpu_usage_num cur prev total idle Ht Hi Hpos) as (u & Hu & Hq).
      exists u. split; [done |]. rewrite Hq. apply clamp_inside.
      * apply Qle_shift_div_l; [done |]. rewrite Qmult_0_l.
        apply Qmult_le_0_compat; [done |].
        unfold Qminus. rewrite <- (Qplus_opp_r idle). by apply Qplus_le_l.
      * apply Qle_shift_div_r; [done |]. apply Qmult_le_l; [done |].
        rewrite <- (Qplus_0_r total) at 2. unfold Qminus. apply Qplus_le_r.
        apply (Qopp_le_compat 0 idle) in Hi0. exact Hi0.
    + intros Hle. unfold cpu_usage. rewrite Ht.
      destruct (ngt (Num total) (num_of_Z 0)) eqn:E; [| done].
      apply ngt_zero in E. by apply Qlt_not_le in E.
  - vm_compute. repeat split.
Qed.

Lemma cpu_usage_formula_witness :
  let prev := parseCpuLine "cpu 100 0 50 800 50 0 0 0" in
  let cur := parseCpuLine "cpu 120 0 60 820 60 0 0 0" in
  ∃ u, cpu_usage cur prev = Num u ∧ (u == 100 * (60 - 30) / 60)%Q.
Proof.
  intros prev cur.
  destruct cpu_usage_formula as (_ & H & _).
  destruct (H cur prev 60%Q 30%Q) as (_ & Hin & _);
    [vm_compute; reflexivity | vm_compute; reflexivity |].
  apply Hin; [reflexivity | discriminate | discriminate].
Defined.

(** C8 as the specification states it fails when a tick counter goes down
    while the total goes up (the kernel can lower iowait): from
    [cpu 100 0 50 800 50 0 0 0] to [cpu 200 0 50 790 50 0 0 0] the total delta
    is 90 and the idle delta is -10, the quotient of the claim is
    100 × 100 / 90, about 111.1, and the code reports 100. *)
Lemma cpu_usage_counterexample :
  let prev := parseCpuLine "cpu 100 0 50 800 50 0 0 0" in
  let cur := parseCpuLine "cpu 200 0 50 790 50 0 0 0" in
  totalDelta cur prev = Num 90 ∧ idleDelta cur prev = Num (-10)
  ∧ Qred (100 * (90 - (-10)) / 90) = (1000 # 9)%Q
  ∧ cpu_usage cur prev = Num 100
  ∧ cpu_usage cur prev ≠ Num (1000 # 9)
  ∧ cpuUsage (fetchSystemStats (stat_only "cpu 200 0 50 790 50 0 0 0")
                (run_passes [stat_only "cpu 100 0 50 800 50 0 0 0"]
                   (init sample_clock))).1
    = Num 100.
Proof. vm_compute. repeat split; discriminate. Qed.

(** ** The device filter *)

Lemma drop_prefix_Some p s r : drop_prefix p s = Some r → s = p +:+ r.
Proof.
  revert s. induction p as [| a p IH]; intros s H; cbn in *.
  - by injection H as ->.
  - destruct s as [| b s]; [done |]. destruct (decide (a = b)) as [-> | ?]; [| done].
    by rewrite (IH s H).
Qed.

Lemma drop_prefix_app p r : drop_prefix p (p +:+ r) = Some r.
Proof.
  induction p as [| a p IH]; [done |].
  change (String a p +:+ r) with (String a (p +:+ r)). cbn [drop_prefix].
  by destruct (decide (a = a)).
Qed.

Lemma digit_not_lower ch : is_digit ch = true → is_lower ch = false.
Proof.
  unfold is_digit, is_lower. cbv zeta. rewrite andb_true_iff, andb_false_iff.
  rewrite !Nat.leb_le, !Nat.leb_gt. lia.
Qed.

(** The first test of the filter, spelled out. *)
Lemma has_disk_prefix_spec name :
  has_disk_prefix name = true
  ↔ ∃ p ch rest, p ∈ disk_prefixes ∧ name = p +:+ String ch rest ∧ is_lower ch = true.
Proof.
  unfold has_disk_prefix. rewrite existsb_exists. split.
  - intros (p & Hp & H). destruct (drop_prefix p name) as [r |] eqn:E; [| done].
    destruct r as [| ch rest]; [done |]. cbn in H.
    exists p, ch, rest. split; [by apply list_elem_of_In |].
    split; [by apply drop_prefix_Some | done].
  - intros (p & ch & rest & Hp & -> & Hch). exists p.
    split; [by apply list_elem_of_In |]. by rewrite drop_prefix_app.
Qed.

Lemma nvme_not_whole name : nvme_name name = true → is_whole_disk name = false.
Proof.
  unfold nvme_name. destruct (drop_prefix "nvme" name) as [r |] eqn:E; [| done].
  apply drop_prefix_Some in E as ->. destruct r as [| d r]; [done |]. cbn [head_is].
  intros Hd. apply digit_not_lower in Hd.
  unfold is_whole_disk. apply andb_false_iff. left.
  apply not_true_iff_false. intros H.
  apply has_disk_prefix_spec in H as (p & ch & rest & Hp & Heq & Hch).
  unfold disk_prefixes in Hp.
  repeat (apply elem_of_cons in Hp as [-> | Hp]); try by inversion Hp.
  all: try discriminate Heq.
  injection Heq as -> _. congruence.
Qed.

Lemma nvme_row_rejected line :
  ((14 ≤ List.length (fields line))%nat → nvme_name (row_device line) = true) →
  disk_row line = None.
Proof.
  intros H. unfold disk_row. destruct (14 <=? List.length (fields line))%nat eqn:E; [| done].
  apply Nat.leb_le in E. specialize (H E). unfold row_device in H.
  by rewrite (nvme_not_whole _ H).
Qed.

Lemma scan_none row lines :
  (∀ line, line ∈ lines → row line = None) →
  scan row lines = (num_of_Z 0, num_of_Z 0, []).
Proof.
  unfold scan. generalize (num_of_Z 0) at 1 3. generalize (num_of_Z 0).
  generalize (@nil (string * (number * number))).
  induction lines as [| l lines IH]; intros cur a b H; [done |].
  cbn [foldl]. cbv beta iota. rewrite (H l) by left.
  apply IH. intros line Hin. apply H. by right.
Qed.

Lemma kb_rate_zero dt :
  ngt dt (num_of_Z 0) = true → kb_rate (num_of_Z 0) (num_of_Z 0) dt = num_of_Z 0.
Proof.
  destruct dt as [| q]; [done |]. intros Hq. apply ngt_zero in Hq.
  unfold kb_rate, math_max, ndiv, nsub, lift2, num_of_Z.
  change (Qeq_bool (inject_Z 1024) 0) with false. cbv iota.
  destruct (Qeq_bool q 0) eqn:E.
  { apply Qeq_bool_iff in E. rewrite E in Hq. by apply Qlt_irrefl in Hq. }
  assert (Hz : Qred (Qred (Qred (inject_Z 0 - inject_Z 0) / inject_Z 1024) / q) = 0%Q).
  { change 0%Q with (Qred 0). apply Qred_complete. rewrite !Qred_correct.
    change (Qred 0) with 0%Q. field. intros E'. rewrite E' in Hq. by apply Qlt_irrefl in Hq. }
  rewrite Hz. reflexivity.
Qed.

Lemma await_all_diskstats r c :
  await_all r = Some c → r_diskstats r = Resolved (diskstatsContent c).
Proof.
  unfold await_all.
  destruct (r_stat r), (r_meminfo r), (r_uptime r), (r_loadavg r), (r_diskstats r),
    (r_net r); try done. by intros [= <-].
Qed.

Lemma content_of_Some o s : content_of o = Some s → o = Some s.
Proof. destruct o as [[| a s'] |]; cbn; congruence. Qed.

Lemma nvme_only_pass r σ :
  wf σ → zero_totals σ → nvme_only r →
  let res := fetchSystemStats r σ in
  wf res.2 ∧ zero_totals res.2
  ∧ diskReadRate res.1 = num_of_Z 0 ∧ diskWriteRate res.1 = num_of_Z 0
  ∧ perDiskStats res.1 = ∅.
Proof.
  intros Hwf Hz Hnv res.
  assert (Hskip : (await_all r = None
                   ∨ ∃ c, await_all r = Some c ∧ content_of (diskstatsContent c) = None) →
                  wf res.2 ∧ zero_totals res.2
                  ∧ diskReadRate res.1 = num_of_Z 0 ∧ diskWriteRate res.1 = num_of_Z 0
                  ∧ perDiskStats res.1 = ∅).
  { intros H. destruct (pass_disk_skipped r σ Hwf H) as (Hwf' & Hp & Ho & _).
    fold res in Hwf', Hp, Ho. injection Ho as -> -> ->.
    split; [done |]. split; [| done]. unfold zero_totals. by rewrite Hp. }
  destruct (await_all r) as [c |] eqn:Hc; [| auto].
  destruct (content_of (diskstatsContent c)) as [s |] eqn:Hs; [| eauto].
  assert (Hscan : scan disk_row (split_lines s) = (num_of_Z 0, num_of_Z 0, [])).
  { apply scan_none. intros line Hin. apply nvme_row_rejected. intros Hlen.
    apply (Hnv s line); [| done | done].
    rewrite (await_all_diskstats r c Hc). by rewrite (content_of_Some _ _ Hs). }
  destruct (pass_disk r c s σ Hwf Hc Hs) as (n & _ & Hwf' & Hp & Hr & Hw & Hk).
  fold res in Hwf', Hp, Hr, Hw, Hk. rewrite Hscan in Hp, Hr, Hw, Hk. cbn [fst snd] in *.
  split; [done |]. split; [right; eauto |].
  assert (Hrates : ∀ prev,
            (prev = None ∨ ∃ t, prev = Some {| d_read := num_of_Z 0; d_write := num_of_Z 0;
                                               d_timestamp := t |}) →
            diskReadRate (disk_totals (clock σ n) (num_of_Z 0) (num_of_Z 0) prev stats0)
              = num_of_Z 0
            ∧ diskWriteRate (disk_totals (clock σ n) (num_of_Z 0) (num_of_Z 0) prev stats0)
              = num_of_Z 0).
  { intros prev [-> | [t ->]]; [done |]. unfold disk_totals. cbn [d_timestamp d_read d_write].
    destruct (ngt _ _) eqn:E; [| done]. cbn. by rewrite !kb_rate_zero. }
  destruct (Hrates _ Hz) as [Hr0 Hw0].
  split; [by rewrite Hr |]. split; [by rewrite Hw |].
  apply map_eq. intros k. specialize (Hk k). unfold disk_key_effect in Hk. cbn in Hk.
  destruct Hk as (_ & -> & _). done.
Qed.

Lemma nvme_only_run passes : ∀ σ,
  wf σ → zero_totals σ → Forall nvme_only passes →
  wf (run_passes passes σ) ∧ zero_totals (run_passes passes σ).
Proof.
  unfold run_passes. induction passes as [| r passes IH]; intros σ Hwf Hz Hall; [done |].
  apply Forall_cons in Hall as [Hr Hall]. cbn [foldl].
  destruct (nvme_only_pass r σ Hwf Hz Hr) as (? & ? & _). by apply IH.
Qed.

(** C10.  A row of the disk text is counted only if it has at least fourteen
    fields and its device name, the third field, starts with one of sd, nvme,
    vd, xvd, hd followed by a lowercase letter, and does not end in a digit.
    So every name that ends in a digit is left out, and so is every name that
    is [nvme] followed by a digit, such as nvme0n1; and on a machine whose
    disk text names only such devices every pass, from the start, reports
    disk rates of 0 and no per-disk sample. *)
Theorem disk_filter_excludes_nvme :
  (∀ line dev c, disk_row line = Some (dev, c) →
     dev = row_device line ∧ (14 ≤ List.length (fields line))%nat
     ∧ ends_in_digit dev = false
     ∧ ∃ p ch rest, p ∈ disk_prefixes ∧ dev = p +:+ String ch rest ∧ is_lower ch = true)
  ∧ (∀ name, ends_in_digit name = true → is_whole_disk name = false)
  ∧ (∀ name, nvme_name name = true → is_whole_disk name = false)
  ∧ (nvme_name "nvme0n1" = true ∧ ends_in_digit "nvme0n1" = true
     ∧ is_whole_disk "nvme0n1" = false)
  ∧ (∀ clk passes r, Forall nvme_only passes → nvme_only r →
       let res := fetchSystemStats r (run_passes passes (init clk)) in
       diskReadRate res.1 = num_of_Z 0 ∧ diskWriteRate res.1 = num_of_Z 0
       ∧ perDiskStats res.1 = ∅).
Proof.
  split; [| split; [| split; [| split]]].
  - intros line dev c. unfold disk_row, row_device.
    destruct (14 <=? List.length (fields line))%nat eqn:E; [| done].
    destruct (is_whole_disk _) eqn:Ew; [| done]. intros [= <- <-].
    apply Nat.leb_le in E. unfold is_whole_disk in Ew.
    apply andb_true_iff in Ew as [Hp Hd]. apply negb_true_iff in Hd.
    split; [done |]. split; [done |]. split; [done |]. by apply has_disk_prefix_spec.
  - intros name H. unfold is_whole_disk. rewrite H. apply andb_false_r.
  - apply nvme_not_whole.
  - by vm_compute.
  - intros clk passes r Hall Hr res.
    destruct (nvme_only_run passes (init clk)) as [Hwf Hz];
      [apply wf_init | by left | done |].
    by destruct (nvme_only_pass r _ Hwf Hz Hr) as (_ & _ & ? & ? & ?).
Qed.

Lemma nvme_text_1_nvme_only : nvme_only (with_diskstats nvme_text_1 no_reads).
Proof.
  intros s line Hs Hin Hlen. cbn [with_diskstats r_diskstats] in Hs. injection Hs as <-.
  assert (E : split_lines nvme_text_1
              = [" 259       0 nvme0n1 150 4 1024 39 61 2 2048 50 0 75 89 0 0 0 0";
                 " 259       1 nvme0n1p1 20 1 24 5 6 0 48 9 0 7 14 0 0 0 0";
                 " 259       2 nvme0n1p2 130 3 1000 34 55 2 2000 41 0 68 75 0 0 0 0";
                 ""])
    by (vm_compute; reflexivity).
  rewrite E in Hin.
  repeat (apply elem_of_cons in Hin as [-> | Hin]); try (vm_compute; reflexivity).
  - vm_compute in Hlen. lia.
  - inversion Hin.
Defined.

Lemma nvme_text_2_nvme_only : nvme_only (with_diskstats nvme_text_2 no_reads).
Proof.
  intros s line Hs Hin Hlen. cbn [with_diskstats r_diskstats] in Hs. injection Hs as <-.
  assert (E : split_lines nvme_text_2
              = [" 259       0 nvme0n1 190 4 2048 39 61 2 4096 50 0 75 89 0 0 0 0";
                 " 259       1 nvme0n1p1 25 1 48 5 6 0 96 9 0 7 14 0 0 0 0";
                 " 259       2 nvme0n1p2 165 3 2000 34 55 2 4000 41 0 68 75 0 0 0 0";
                 ""])
    by (vm_compute; reflexivity).
  rewrite E in Hin.
  repeat (apply elem_of_cons in Hin as [-> | Hin]); try (vm_compute; reflexivity).
  - vm_compute in Hlen. lia.
  - inversion Hin.
Defined.

Lemma disk_filter_excludes_nvme_witness :
  let res := fetchSystemStats (with_diskstats nvme_text_2 no_reads)
               (run_passes [with_diskstats nvme_text_1 no_reads] (init sample_clock)) in
  diskReadRate res.1 = num_of_Z 0 ∧ diskWriteRate res.1 = num_of_Z 0
  ∧ perDiskStats res.1 = ∅.
Proof.
  destruct disk_filter_excludes_nvme as (_ & _ & _ & _ & H).
  apply (H sample_clock [with_diskstats nvme_text_1 no_reads]
           (with_diskstats nvme_text_2 no_reads)).
  - apply Forall_cons. split; [exact nvme_text_1_nvme_only | apply Forall_nil_2].
  - exact nvme_text_2_nvme_only.
Defined.

(** ** The process list *)

(** The first time a process is listed with I/O counters, its rates stay at
    their initial 0 and its counters are stored with the time of the call. *)
Lemma process_first_sight t ioData line processes prevIoStats p i :
  trim line ≠ "" → (12 ≤ List.length (split_ws (trim line)))%nat →
  ProcessService.pid_of (parseInt (ProcessService.field (split_ws (trim line)) 0)) = Some p →
  ioData !! p = Some i → prevIoStats !! p = None →
  ∃ info,
    ProcessService.process_line t ioData line (processes, prevIoStats)
    = ((processes ++ [info])%list,
       <[p := {| ProcessService.io_read := ProcessService.readBytes i;
                 ProcessService.io_write := ProcessService.writeBytes i;
                 ProcessService.io_timestamp := t |}]> prevIoStats)
    ∧ ProcessService.pid info = p
    ∧ ProcessService.diskRead info = num_of_Z 0
    ∧ ProcessService.diskWrite info = num_of_Z 0.
Proof.
  intros Hne Hlen Hpid Hio Hprev. unfold ProcessService.process_line.
  destruct (trim line) as [| a rest] eqn:E; [done |].
  destruct (Nat.ltb_spec (List.length (split_ws (String a rest))) 12) as [? | _]; [lia |].
  rewrite Hpid, Hio, Hprev. eexists. split; [reflexivity |]. done.
Qed.

(** Unlike the disk and network code, the process code removes the entries
    of the processes that are no longer listed. *)
Lemma fetchProcesses_prunes t output ioData prevIoStats p :
  let res := ProcessService.fetchProcesses t (Resolved (Some output)) ioData prevIoStats in
  is_Some (res.2 !! p) → p ∈ ProcessService.pid <$> res.1.
Proof.
  unfold ProcessService.fetchProcesses.
  destruct (foldl _ _ _) as [processes store]. cbn.
  intros [x Hx]. apply map_lookup_filter_Some in Hx as [_ Hin]. exact Hin.
Qed.
(** ** Strings of digits *)

Lemma is_digit_pretty_N_char d : is_digit (pretty_N_char d) = true.
Proof. unfold pretty_N_char. by repeat case_match. Qed.

Lemma digit_val_pretty_N_char d : (d < 10)%N → digit_val (pretty_N_char d) = Z.of_N d.
Proof.
  intros Hd.
  assert (d = 0 ∨ d = 1 ∨ d = 2 ∨ d = 3 ∨ d = 4 ∨ d = 5 ∨ d = 6 ∨ d = 7 ∨ d = 8 ∨ d = 9)%N
    as H by lia.
  repeat (destruct H as [-> | H]; [reflexivity |]). by subst.
Qed.

Lemma str_app_cons x (a b : string) : String x a +:+ b = String x (a +:+ b).
Proof. reflexivity. Qed.

Lemma str_app_nil_l (b : string) : "" +:+ b = b.
Proof. reflexivity. Qed.

Lemma str_app_assoc (a b c : string) : (a +:+ b) +:+ c = a +:+ (b +:+ c).
Proof. induction a as [| x a IH]; [done | by rewrite !str_app_cons, IH]. Qed.

Lemma str_app_nil_r (a : string) : a +:+ "" = a.
Proof. induction a as [| x a IH]; [done | by rewrite str_app_cons, IH]. Qed.


Lemma all_digits_app a b : all_digits (a +:+ b) = all_digits a && all_digits b.
Proof.
  induction a as [| x a IH]; [done |].
  rewrite str_app_cons. cbn. by rewrite IH, andb_assoc.
Qed.

Lemma dval_app acc a b : dval acc (a +:+ b) = dval (dval acc a) b.
Proof.
  revert acc. induction a as [| x a IH]; intros acc; [done |].
  rewrite str_app_cons. cbn. by rewrite IH.
Qed.


Lemma digit_val_range c : is_digit c = true → (0 ≤ digit_val c ≤ 9)%Z.
Proof.
  unfold is_digit, digit_val. intros H.
  apply andb_true_iff in H as [H1 H2].
  apply Nat.leb_le in H1, H2. lia.
Qed.

Lemma dval_nonneg s acc : all_digits s = true → (0 ≤ acc)%Z → (0 ≤ dval acc s)%Z.
Proof.
  revert acc. induction s as [| x s IH]; intros acc Hs Hacc; cbn in *; [done |].
  apply andb_true_iff in Hs as [Hx Hs]. apply IH; [done |].
  pose proof (digit_val_range x Hx). lia.
Qed.

(** [pretty_N_go x s] puts the digits of [x] in front of [s]. *)
Lemma pretty_N_go_digits x : ∀ s,
  ∃ ds, pretty_N_go x s = ds +:+ s ∧ all_digits ds = true ∧ dval 0 ds = Z.of_N x
        ∧ ((0 < x)%N → ds ≠ "").
Proof.
  induction (N.lt_wf_0 x) as [x _ IH]. intros s.
  destruct (decide (x = 0%N)) as [-> | Hx].
  - exists "". rewrite pretty_N_go_0.
    split; [done |]. split; [done |]. split; [done | lia].
  - rewrite pretty_N_go_step by lia.
    destruct (IH (x `div` 10)%N) with (s := String (pretty_N_char (x `mod` 10)) s)
      as (ds & Heq & Hall & Hval & _).
    { apply N.div_lt; lia. }
    exists (ds +:+ String (pretty_N_char (x `mod` 10)) "").
    rewrite Heq, str_app_assoc. split; [done |]. split; [| split].
    + rewrite all_digits_app, Hall. cbn. by rewrite is_digit_pretty_N_char.
    + rewrite dval_app, Hval. cbn [dval].
      rewrite digit_val_pretty_N_char by (apply N.mod_lt; lia).
      rewrite (N.div_mod x 10) at 3 by lia. lia.
    + intros _. by destruct ds.
Qed.

Lemma pretty_Z_digits n :
  (0 ≤ n)%Z → all_digits (pretty n) = true ∧ dval 0 (pretty n) = n ∧ pretty n ≠ "".
Proof.
  intros Hn. destruct n as [| p | p]; [done | | lia].
  unfold pretty, pretty_Z, pretty, pretty_positive, pretty, pretty_N.
  destruct (decide (N.pos p = 0%N)) as [? | _]; [done |].
  destruct (pretty_N_go_digits (N.pos p) "") as (ds & -> & Hall & Hval & Hne).
  rewrite str_app_nil_r. split; [done |]. split; [by rewrite Hval |]. apply Hne. lia.
Qed.

Lemma digits_from_app a r acc k :
  all_digits a = true → head_is is_digit r = false →
  digits_from (a +:+ r) acc k = (dval acc a, (k + String.length a)%nat, r).
Proof.
  revert acc k. induction a as [| x a IH]; intros acc k Ha Hr.
  - rewrite str_app_nil_l. cbn. rewrite Nat.add_0_r.
    destruct r as [| c r]; cbn in *; [done | by rewrite Hr].
  - rewrite str_app_cons. cbn in *.
    apply andb_true_iff in Ha as [Hx Ha]. rewrite Hx, IH by done.
    f_equal. f_equal. lia.
Qed.

Lemma digits_all a :
  all_digits a = true → digits a = (dval 0 a, String.length a, "").
Proof.
  intros Ha. unfold digits.
  rewrite <- (str_app_nil_r a) at 1. by rewrite digits_from_app.
Qed.

Lemma trim_start_head s : head_is is_ws s = false → trim_start s = s.
Proof. destruct s as [| c s]; cbn; [done | by intros ->]. Qed.

Lemma decimal_prefix_int s ip n s1 :
  digits s = (ip, n, s1) → head_is is_dot s1 = false →
  decimal_prefix s = if (n =? 0)%nat then None else Some (inject_Z ip, s1).
Proof.
  intros Hd Hdot. unfold decimal_prefix. rewrite Hd.
  destruct s1 as [| c s1]; [done |].
  cbn in Hdot. unfold is_dot in Hdot. destruct (decide (c = "."%char)) as [| Hne]; [done |].
  destruct c as [[] [] [] [] [] [] [] []]; try done.
Qed.








Lemma head_is_digit_all s : all_digits s = true → s ≠ "" → head_is is_digit s = true.
Proof. destruct s as [| c s]; cbn; [done |]. intros H _. by apply andb_true_iff in H as [? _]. Qed.

Lemma digit_not_ws c : is_digit c = true → is_ws c = false.
Proof.
  unfold is_digit, is_ws. intros H. apply andb_true_iff in H as [H1 H2].
  apply Nat.leb_le in H1, H2.
  apply orb_false_iff. split.
  - apply andb_false_iff. right. apply Nat.leb_gt. lia.
  - apply Nat.eqb_neq. lia.
Qed.

Lemma sign_of_digit s : head_is is_digit s = true → sign_of s = (1, s).
Proof.
  destruct s as [| c s]; [done |]. cbn. intros Hc.
  destruct c as [[] [] [] [] [] [] [] []]; try done.
Qed.














Lemma half_unit_0 : (half_unit 0 == 1 # 2)%Q.
Proof. reflexivity. Qed.

Lemma half_unit_1 : (half_unit 1 == 1 # 20)%Q.
Proof. reflexivity. Qed.

(** The text after the number printed: it starts with a space. *)
Lemma unit_head u : head_is is_digit (String " " u) = false ∧ head_is is_dot (String " " u) = false.
Proof. done. Qed.







Section process_service_5.
Import ProcessService.

(** A row of the loop either leaves the accumulator alone or adds one row. *)
Lemma process_line_cases t ioData line processes store :
  process_line t ioData line (processes, store) = (processes, store)
  ∨ ∃ info,
      process_line t ioData line (processes, store)
      = ((processes ++ [info])%list,
         match ioData !! pid info with
         | Some i => <[pid info := io_snapshot_of t i]> store
         | None => store
         end)
      ∧ ((diskRead info = num_of_Z 0 ∧ diskWrite info = num_of_Z 0)
         ∨ ∃ i s, ioData !! pid info = Some i ∧ store !! pid info = Some s
                  ∧ ngt (seconds_since t (io_timestamp s)) (num_of_Z 0) = true
                  ∧ diskRead info
                    = kb_rate (readBytes i) (io_read s) (seconds_since t (io_timestamp s))
                  ∧ diskWrite info
                    = kb_rate (writeBytes i) (io_write s) (seconds_since t (io_timestamp s))).
Proof.
  unfold process_line.
  destruct (trim line) as [| a rest] eqn:E; [by left |].
  destruct (Nat.ltb_spec (List.length (split_ws (String a rest))) 12) as [? | _]; [by left |].
  destruct (pid_of _) as [p |]; [| by left].
  right.
  match goal with |- context [(processes ++ [?x])%list] => exists x end.
  cbn [pid diskRead diskWrite]. split.
  { unfold io_snapshot_of. by destruct (ioData !! p). }
  destruct (ioData !! p) as [i |] eqn:Hi; [| by left].
  destruct (store !! p) as [s |] eqn:Hs; [| by left].
  destruct (ngt (seconds_since t (io_timestamp s)) (num_of_Z 0)) eqn:Hdt; [| by left].
  right. exists i, s. done.
Qed.

Lemma process_line_inv t ioData prev line acc :
  loop_inv t ioData prev acc → loop_inv t ioData prev (process_line t ioData line acc).
Proof.
  destruct acc as [processes store]. intros [Hstore Hrows]. cbn in Hstore, Hrows.
  destruct (process_line_cases t ioData line processes store) as [-> | (info & -> & Hr)];
    [by split |].
  split; cbn [fst snd].
  - intros p.
    assert (Hmem : p ∈ pid <$> (processes ++ [info])%list ↔ p ∈ pid <$> processes ∨ p = pid info).
    { rewrite fmap_app, elem_of_app. cbn [fmap list_fmap]. by rewrite list_elem_of_singleton. }
    destruct (decide (p = pid info)) as [-> | Hne].
    + rewrite decide_True by (apply Hmem; auto). unfold listed_entry.
      destruct (ioData !! pid info) as [i |] eqn:Hi; [by rewrite lookup_insert_eq |].
      rewrite Hstore. unfold listed_entry. rewrite Hi. by destruct (decide _).
    + assert (Hsame : match ioData !! pid info with
                      | Some i => <[pid info := io_snapshot_of t i]> store
                      | None => store
                      end !! p = store !! p).
      { destruct (ioData !! pid info); [by rewrite lookup_insert_ne | done]. }
      rewrite Hsame, Hstore.
      destruct (decide (p ∈ pid <$> processes)) as [Hin | Hnin].
      * by rewrite decide_True by (apply Hmem; auto).
      * rewrite decide_False; [done |]. rewrite Hmem. intros [? | ?]; done.
  - apply Forall_app. split; [done |]. apply Forall_singleton.
    destruct Hr as [Hz | (i & s & Hi & Hs & Hdt & Hr & Hw)]; [by left |].
    right. exists i, s.
    assert (Hold : prev !! pid info = Some s ∧ (io_timestamp s < t)%Z).
    { assert (Hlt : (io_timestamp s < t)%Z).
      { destruct (Z.lt_ge_cases (io_timestamp s) t) as [? | Hge]; [done |].
        apply Z.ge_le_iff in Hge. 
        rewrite seconds_since_nonpos in Hdt by lia. done. }
      split; [| done].
      rewrite Hstore in Hs. destruct (decide _); [| done].
      unfold listed_entry in Hs. rewrite Hi in Hs. injection Hs as <-. cbn in Hlt. lia. }
    destruct Hold. done.
Qed.

Lemma fold_process_line_inv t ioData prev lines : ∀ acc,
  loop_inv t ioData prev acc →
  loop_inv t ioData prev (foldl (λ acc line, process_line t ioData line acc) acc lines).
Proof.
  induction lines as [| l lines IH]; intros acc Hacc; [done |].
  cbn [foldl]. apply IH. by apply process_line_inv.
Qed.

Lemma fetchProcesses_inv t output ioData prev :
  ∃ store,
    loop_inv t ioData prev ((fetchProcesses t (Resolved (Some output)) ioData prev).1, store)
    ∧ (fetchProcesses t (Resolved (Some output)) ioData prev).2
      = filter (λ kv, kv.1 ∈ pid <$> (fetchProcesses t (Resolved (Some output)) ioData prev).1)
               store.
Proof.
  unfold fetchProcesses.
  pose proof (fold_process_line_inv t ioData prev (split_lines (trim output)) ([], prev)) as H.
  destruct (foldl _ _ _) as [processes store]. exists store. split; [| done].
  apply H. split; [| by apply Forall_nil]. intros p. cbn. rewrite decide_False; [done |].
  apply not_elem_of_nil.
Qed.

(** X3.  After a call of [fetchProcesses] whose [ps] command succeeded, the
    store of previous I/O counters holds an entry exactly for the listed
    processes that have one to hold: for a listed process with counters in
    this call, these counters, stamped with the time of the call; for a
    listed process without counters now, the entry it had before; nothing
    for a process that is not listed.  When the command fails, the list is
    empty and the store is left as it was. *)
Theorem fetchProcesses_store (t : Z) (output : string) (ioData : gmap Z IoBytes)
    (prev : gmap Z IoSnapshot) :
  (∀ p, (fetchProcesses t (Resolved (Some output)) ioData prev).2 !! p
        = if decide (p ∈ pid <$> (fetchProcesses t (Resolved (Some output)) ioData prev).1)
          then match ioData !! p with
               | Some i => Some {| io_read := readBytes i; io_write := writeBytes i;
                                   io_timestamp := t |}
               | None => prev !! p
               end
          else None)
  ∧ fetchProcesses t Rejected ioData prev = ([], prev).
Proof.
  split; [| reflexivity]. intros p.
  destruct (fetchProcesses_inv t output ioData prev) as (store & [Hstore _] & ->).
  cbn [fst snd] in Hstore.
  rewrite map_lookup_filter. rewrite Hstore.
  destruct (decide (p ∈ _)) as [Hin | Hnin].
  - unfold listed_entry, io_snapshot_of.
    destruct (ioData !! p) as [i |]; cbn.
    + by rewrite option_guard_True.
    + destruct (prev !! p); cbn; [by rewrite option_guard_True | done].
  - destruct (prev !! p); cbn; [by rewrite option_guard_False | done].
Qed.

(** X4.  Every row that [fetchProcesses] returns carries disk rates that are
    either the initial zeros or derived, by the rate expression, from the
    counters read for that process in this call and the snapshot stored for
    the same process by an earlier call, taken strictly before this one.  A
    process seen for the first time, one without counters, and one whose
    snapshot is not older than the call all report 0. *)
Theorem fetchProcesses_rates (t : Z) (output : string) (ioData : gmap Z IoBytes)
    (prev : gmap Z IoSnapshot) :
  Forall (λ info,
            (diskRead info = num_of_Z 0 ∧ diskWrite info = num_of_Z 0)
            ∨ ∃ i s, ioData !! pid info = Some i ∧ prev !! pid info = Some s
                     ∧ (io_timestamp s < t)%Z
                     ∧ diskRead info
                       = kb_rate (readBytes i) (io_read s) (seconds_since t (io_timestamp s))
                     ∧ diskWrite info
                       = kb_rate (writeBytes i) (io_write s)
                                 (seconds_since t (io_timestamp s)))
         (fetchProcesses t (Resolved (Some output)) ioData prev).1.
Proof.
  destruct (fetchProcesses_inv t output ioData prev) as (store & [_ Hrows] & _).
  exact Hrows.
Qed.

End process_service_5.

Section process_service_6.
Import ProcessService.

Lemma io_line_numeric result line : numeric_io result → numeric_io (io_line result line).
Proof.
  intros Hres. unfold io_line. destruct line as [| c line]; [done |].
  destruct (io_match _) as [[[p is_read] val] |]; [| done].
  intros p' i. destruct (decide (p' = p)) as [-> | Hne].
  - rewrite lookup_insert_eq. intros [= <-].
    destruct (result !! p) as [cur |] eqn:Hcur; cbn.
    + destruct (Hres _ _ Hcur). by destruct is_read.
    + by destruct is_read.
  - rewrite lookup_insert_ne by done. apply Hres.
Qed.

Lemma fetchProcessIo_numeric out : numeric_io (fetchProcessIo out).
Proof.
  assert (H : ∀ lines result, numeric_io result → numeric_io (foldl io_line result lines)).
  { induction lines as [| l lines IH]; intros result Hres; [done |].
    cbn [foldl]. by apply IH, io_line_numeric. }
  unfold fetchProcessIo. destruct out as [[output |] |]; try by intros ? ?.
  apply H. by intros ? ?.
Qed.

Lemma fetchProcesses_numeric t ps ioData prev :
  numeric_io ioData → numeric_store prev →
  numeric_store (fetchProcesses t ps ioData prev).2
  ∧ Forall (λ info, nonneg (diskRead info) ∧ nonneg (diskWrite info))
           (fetchProcesses t ps ioData prev).1.
Proof.
  intros Hio Hprev. destruct ps as [[output |] |]; try (split; [done | by apply Forall_nil]).
  destruct (fetchProcesses_inv t output ioData prev) as (store & [Hstore Hrows] & ->).
  cbn [fst snd] in *. split.
  - intros p s Hs. apply map_lookup_filter_Some in Hs as [Hs _].
    rewrite Hstore in Hs. destruct (decide _); [| by apply (Hprev p)].
    unfold listed_entry in Hs. destruct (ioData !! p) as [i |] eqn:Hi; [| by apply (Hprev p)].
    injection Hs as <-. by apply (Hio p).
  - eapply Forall_impl; [exact Hrows |]. intros info [[-> ->] | (i & s & Hi & Hs & Hlt & -> & ->)].
    + split; cbn; apply Qle_refl.
    + destruct (Hio _ _ Hi), (Hprev _ _ Hs).
      split; apply kb_rate_ok; auto using seconds_since_pos.
Qed.

Lemma refreshes_numeric calls : ∀ prev,
  numeric_store prev →
  Forall (Forall (λ info, nonneg (diskRead info) ∧ nonneg (diskWrite info)))
         (refreshes calls prev).1.
Proof.
  induction calls as [| [[t ps] io] calls IH]; intros prev Hprev; [by apply Forall_nil |].
  cbn [refreshes]. unfold refreshProcesses.
  destruct (fetchProcesses_numeric t ps (fetchProcessIo io) prev) as [Hstore Hrows];
    [apply fetchProcessIo_numeric | done |].
  destruct (fetchProcesses _ _ _ _) as [rows store]. cbn [fst snd] in *.
  specialize (IH store Hstore). destruct (refreshes calls store) as [rest store'].
  cbn. by apply Forall_cons.
Qed.

(** X5.  However the [ps] and [grep] commands answer or fail, call after
    call, as long as no number that [grep] prints has more than 308 digits
    (so that every counter is read as a finite number), every disk read and
    write rate in every list that the process service returns is a number at
    least zero: never negative, never NaN. *)
Theorem process_rates_non_negative (calls : list (Z * read_result * read_result)) :
  Forall (λ call, finite_output call.2) calls →
  Forall (Forall (λ info, nonneg (diskRead info) ∧ nonneg (diskWrite info)))
         (refreshes calls ∅).1.
Proof. intros _. apply refreshes_numeric. by intros ? ?. Qed.

Lemma process_rates_non_negative_witness :
  let listing := "    1     0 root      0.0  0.1 11872     1   0 Ss   Jan01 /sbin/init init" in
  let calls := [(1000%Z, Resolved (Some listing), Resolved (Some (grep_output [(1, 4096, 0)])));
                (3000%Z, Resolved (Some listing), Resolved (Some (grep_output [(1, 2048, 8192)])));
                (4000%Z, Resolved (Some listing), Rejected)] in
  map (map diskRead) (refreshes calls ∅).1 = [[Num 0]; [Num 0]; [Num 0]]
  ∧ map (map diskWrite) (refreshes calls ∅).1 = [[Num 0]; [Num 4]; [Num 0]]
  ∧ Forall (Forall (λ info, nonneg (diskRead info) ∧ nonneg (diskWrite info)))
           (refreshes calls ∅).1.
Proof.
  intros listing calls. split; [vm_compute; reflexivity |]. split; [vm_compute; reflexivity |].
  apply process_rates_non_negative.
  repeat apply Forall_cons_2; [| | | done]; cbn [snd finite_output]; try done;
    vm_compute; reflexivity.
Defined.

End process_service_6.

(** ** The order of the points and the arrays handed out *)

#[local] Instance copies_same_preorder : PreOrder copies_same.
Proof.
  split.
  - by intros σ.
  - intros σ1 σ2 σ3 [? H12] [? H23]. split; [congruence | intros; by rewrite H23, H12].
Qed.

#[local] Instance stamps_kept_preorder : PreOrder stamps_kept.
Proof. split; unfold stamps_kept; [by intros σ | intros σ1 σ2 σ3; auto]. Qed.

#[local] Instance R_hist_preorder : PreOrder R_hist.
Proof. unfold R_hist. apply _. Qed.

Lemma hoare_change {A} (R R' : relation engine) (m : M A) (Q : A → Prop) :
  hoare R m Q → (∀ σ, wf σ → R' σ (m σ).2) → hoare R' m Q.
Proof. intros Hm HR σ Hwf. destruct (Hm σ Hwf) as (? & _ & ?). auto. Qed.

Lemma stamped_nil clk n : stamped clk n [].
Proof.
  exists []. split; [done |]. split; [| by apply Forall_nil].
  intros i j x y Hi. by rewrite lookup_nil in Hi.
Qed.

Lemma stamped_mono clk n n' l : (n ≤ n')%nat → stamped clk n l → stamped clk n' l.
Proof.
  intros Hle (js & Hts & Hinc & Hlt). exists js. split; [done |]. split; [done |].
  eapply Forall_impl; [exact Hlt |]. cbn. lia.
Qed.

Lemma increasing_tail js : increasing js → increasing (tail js).
Proof.
  destruct js as [| j js]; [done |]. cbn. intros H i k x y Hi Hk Hik.
  apply (H (S i) (S k) x y); [done | done | lia].
Qed.

Lemma stamped_tail clk n l : stamped clk n l → stamped clk n (tail l).
Proof.
  intros (js & Hts & Hinc & Hlt). exists (tail js). split; [| split].
  - destruct l as [| p l], js as [| j js]; try done. cbn in *. congruence.
  - by apply increasing_tail.
  - destruct js; [done |]. cbn. by apply Forall_cons in Hlt as [_ ?].
Qed.

Lemma stamped_push clk n l v :
  stamped clk n l → stamped clk (S n) (l ++ [{| timestamp := clk n; value := v |}])%list.
Proof.
  intros (js & Hts & Hinc & Hlt). exists (js ++ [n])%list. split; [| split].
  - rewrite !fmap_app, Hts. done.
  - intros i j x y Hi Hj Hij.
    assert (Hjs : ∀ k z, js !! k = Some z → (z < n)%nat).
    { intros k z Hk. rewrite Forall_forall in Hlt. apply Hlt.
      by apply list_elem_of_lookup_2 in Hk. }
    destruct (decide (j < List.length js)%nat) as [Hjl | Hjl].
    + rewrite lookup_app_l in Hi, Hj by lia. by apply (Hinc i j).
    + rewrite lookup_app_r in Hj by lia.
      destruct (j - List.length js)%nat as [| ?] eqn:E; [| done]. injection Hj as <-.
      destruct (decide (i < List.length js)%nat) as [Hil | Hil].
      * rewrite lookup_app_l in Hi by lia. by apply (Hjs i).
      * apply lookup_lt_Some in Hi. rewrite length_app in Hi. cbn in Hi. lia.
  - apply Forall_app. split.
    + eapply Forall_impl; [exact Hlt |]. cbn. lia.
    + apply Forall_singleton. lia.
Qed.

Lemma stamped_push_shift clk n l v :
  stamped clk n l → stamped clk (S n) (push_shift {| timestamp := clk n; value := v |} l).
Proof.
  intros H. unfold push_shift. destruct (_ <? _)%nat.
  - by apply stamped_tail, stamped_push.
  - by apply stamped_push.
Qed.

Lemma kept_nil clk n : kept clk n [].
Proof. split; [apply stamped_nil | cbn; lia]. Qed.

Lemma kept_mono clk n n' l : (n ≤ n')%nat → kept clk n l → kept clk n' l.
Proof. intros Hle [Hs Hl]. split; [by eapply stamped_mono | done]. Qed.

Lemma kept_push_shift clk n l v :
  kept clk n l → kept clk (S n) (push_shift {| timestamp := clk n; value := v |} l).
Proof.
  intros [Hs Hl]. split; [by apply stamped_push_shift |].
  unfold push_shift.
  destruct (Nat.ltb_spec MAX_HISTORY_POINTS
              (List.length (l ++ [{| timestamp := clk n; value := v |}]))) as [H | H].
  - destruct l as [| p l]; [cbn; lia |]. cbn [app tail]. rewrite length_app. cbn in *. lia.
  - done.
Qed.

Lemma addHistoryPoint_hist a v :
  not_copy a → hoare R_hist (addHistoryPoint a v) (λ _, True).
Proof.
  intros Ha σ Hwf. split; [by apply wf_addHistoryPoint |]. split; [| done].
  split; [| split].
  - split; [done |]. intros n. cbn. rewrite lookup_alter_ne; [done | apply Ha].
  - intros Hord b l. cbn. intros Hb.
    destruct (decide (b = a)) as [-> | Hne].
    + rewrite lookup_alter_eq in Hb.
      destruct (arrays σ !! a) as [l0 |] eqn:Hl0; [| done]. cbn in Hb. injection Hb as <-.
      apply kept_push_shift. by apply (Hord a).
    + rewrite lookup_alter_ne in Hb by done.
      eapply kept_mono; [| by apply (Hord b)]. lia.
  - split; cbn; [done | lia].
Qed.

(** A step that changes neither the arrays nor the clock. *)
Lemma R_hist_same σ σ' :
  arrays σ' = arrays σ → copies σ' = copies σ → clock σ' = clock σ → ticks σ' = ticks σ →
  R_hist σ σ'.
Proof.
  intros Ha Hc Hk Ht. split; [| split].
  - split; [done | by rewrite Ha].
  - intros Hord b l. rewrite Ha, Hk, Ht. apply Hord.
  - split; [done | lia].
Qed.

(** Steps that make new, empty engine arrays. *)
Lemma R_hist_new σ σ' :
  (∀ a l, arrays σ' !! a = Some l → arrays σ !! a = Some l ∨ (l = [] ∧ not_copy a)) →
  (∀ n, arrays σ' !! CopyArr n = arrays σ !! CopyArr n) →
  copies σ' = copies σ → clock σ' = clock σ → ticks σ' = ticks σ →
  R_hist σ σ'.
Proof.
  intros Ha Hn Hc Hk Ht. split; [| split].
  - done.
  - intros Hord b l Hb. rewrite Hk, Ht.
    destruct (Ha b l Hb) as [? | [-> _]]; [by apply (Hord b) | apply kept_nil].
  - split; [done | lia].
Qed.

Lemma core_history_hist i : hoare R_hist (core_history i) (λ a, not_copy a).
Proof.
  eapply hoare_change.
  - eapply hoare_weaken; [apply core_history_R_cpu |]. intros a -> n. done.
  - intros σ Hwf. unfold core_history. run.
    destruct (perCoreHistories σ !! i) as [a |]; cbn; [reflexivity |].
    apply R_hist_new; try done; cbn.
    + intros a l. destruct (decide (a = CoreArr i)) as [-> | Hne].
      * rewrite lookup_insert_eq. intros [= <-]. right. split; [done | by intros n].
      * rewrite lookup_insert_ne by done. auto.
    + intros n. by rewrite lookup_insert_ne.
Qed.

Lemma disk_history_hist dev :
  hoare R_hist (disk_history dev) (λ a, not_copy a.1 ∧ not_copy a.2).
Proof.
  eapply hoare_change.
  - eapply hoare_weaken; [apply disk_history_R_disk |]. intros a ->. by split; intros n.
  - intros σ Hwf. unfold disk_history. run.
    destruct (perDiskHistories σ !! dev) as [a |]; cbn; [reflexivity |].
    apply R_hist_new; try done; cbn.
    + intros a l. destruct (decide (a = DiskArr dev snd_side)) as [-> | Hne].
      * rewrite lookup_insert_eq. intros [= <-]. right. split; [done | by intros n].
      * rewrite lookup_insert_ne by done.
        destruct (decide (a = DiskArr dev fst_side)) as [-> | Hne'].
        -- rewrite lookup_insert_eq. intros [= <-]. right. split; [done | by intros n].
        -- rewrite lookup_insert_ne by done. auto.
    + intros n. by rewrite !lookup_insert_ne.
Qed.

Lemma iface_history_hist dev :
  hoare R_hist (iface_history dev)
    (λ a, match a with Some x => not_copy x.1 ∧ not_copy x.2 | None => True end).
Proof.
  eapply hoare_change.
  - eapply hoare_weaken; [apply iface_history_R_net |].
    intros [a |]; [| done]. intros ->. by split; intros n.
  - intros σ Hwf. unfold iface_history, property_of. run.
    destruct (perIfaceHistories σ !! dev) as [a |]; cbn; [reflexivity |].
    destruct (inherited dev); cbn; [reflexivity |].
    apply R_hist_new; try done; cbn.
    + intros a l. destruct (decide (a = IfaceArr dev snd_side)) as [-> | Hne].
      * rewrite lookup_insert_eq. intros [= <-]. right. split; [done | by intros n].
      * rewrite lookup_insert_ne by done.
        destruct (decide (a = IfaceArr dev fst_side)) as [-> | Hne'].
        -- rewrite lookup_insert_eq. intros [= <-]. right. split; [done | by intros n].
        -- rewrite lookup_insert_ne by done. auto.
    + intros n. by rewrite !lookup_insert_ne.
Qed.

Ltac hist_modify :=
  apply hoare_modify; intros ? ?; split;
  [ by eapply wf_arrays_dom; [| | | | | eassumption]
  | by apply R_hist_same ].

Ltac hist_get := apply (hoare_get _ _ (λ _, True)); done.

Lemma disk_entry_hist t e stats : hoare R_hist (disk_entry t e stats) (λ _, True).
Proof.
  destruct e as [dev [read write]]. unfold disk_entry.
  eapply hoare_bind; [apply _ | hist_get |]. intros prev _.
  eapply (hoare_bind _ _ _ (λ _, True)).
  - destruct prev as [p |]; [destruct (ngt _ _) |]; try by apply hoare_ret; [apply _ |].
    eapply hoare_bind; [apply _ | apply disk_history_hist |]. intros a [Ha1 Ha2].
    eapply hoare_bind; [apply _ | by apply addHistoryPoint_hist |]. intros _ _.
    eapply hoare_bind; [apply _ | by apply addHistoryPoint_hist |]. intros _ _.
    by apply hoare_ret; [apply _ |].
  - intros st _.
    eapply hoare_bind; [apply _ | hist_modify | intros; by apply hoare_ret; [apply _ |]].
Qed.

Lemma iface_entry_hist t e stats : hoare R_hist (iface_entry t e stats) (λ _, True).
Proof.
  destruct e as [dev [read write]]. unfold iface_entry.
  eapply hoare_bind; [apply _ | hist_get |]. intros prev _.
  eapply (hoare_bind _ _ _ (λ _, True)).
  - destruct prev as [p | |]; [destruct (ngt _ _) | |]; try by apply hoare_ret; [apply _ |].
    eapply hoare_bind; [apply _ | apply iface_history_hist |].
    intros [a |] Ha; [| by apply hoare_ret; [apply _ |]]. destruct Ha as [Ha1 Ha2].
    eapply hoare_bind; [apply _ | by apply addHistoryPoint_hist |]. intros _ _.
    eapply hoare_bind; [apply _ | by apply addHistoryPoint_hist |]. intros _ _.
    by apply hoare_ret; [apply _ |].
  - intros [st []] _; cbn [snd]; [| by apply hoare_ret; [apply _ |]].
    eapply hoare_bind; [apply _ | hist_modify | intros; by apply hoare_ret; [apply _ |]].
Qed.

Lemma now_hist : hoare R_hist now (λ _, True).
Proof.
  intros σ Hwf. split; [| split; [| done]].
  - revert Hwf. by apply wf_arrays_dom.
  - split; [| split].
    + done.
    + intros Hord b l Hb. cbn in *. eapply kept_mono; [| by apply (Hord b)]. lia.
    + split; cbn; [done | lia].
Qed.

Lemma diskSection_hist s stats : hoare R_hist (diskSection s stats) (λ _, True).
Proof.
  unfold diskSection.
  eapply hoare_bind; [apply _ | apply now_hist |]. intros t _.
  destruct (scan disk_row (split_lines s)) as [[totalRead totalWrite] cur].
  eapply hoare_bind; [apply _ | hist_get |]. intros prev _.
  eapply hoare_bind; [apply _ | hist_modify |]. intros _ _.
  apply (hoare_fold_m R_hist _ (λ _, True)); [| done].
  intros e st _ _. apply disk_entry_hist.
Qed.

Lemma netSection_hist s stats : hoare R_hist (netSection s stats) (λ _, True).
Proof.
  unfold netSection.
  eapply hoare_bind; [apply _ | apply now_hist |]. intros t _.
  destruct (scan net_row (drop 2 (split_lines s))) as [[totalSent totalRecv] cur].
  eapply hoare_bind; [apply _ | hist_get |]. intros prev _.
  eapply hoare_bind; [apply _ | hist_modify |]. intros _ _.
  apply (hoare_fold_try R_hist _ (λ _, True)); [| done].
  intros e st _ _. eapply hoare_weaken; [apply iface_entry_hist | done].
Qed.

Lemma cpuSection_hist s stats : hoare R_hist (cpuSection s stats) (λ _, True).
Proof.
  unfold cpuSection.
  eapply hoare_bind; [apply _ | hist_get |]. intros prev _.
  eapply hoare_bind; [apply _ | hist_modify |]. intros _ _.
  eapply hoare_bind; [apply _ | hist_get |]. intros prevCores _.
  eapply hoare_bind; [apply _ | hist_modify |]. intros _ _.
  eapply hoare_bind; [apply _ | | intros _ _; by apply hoare_ret; [apply _ |]].
  apply (hoare_fold_m R_hist _ (λ _, True)); [| done].
  intros [i u] [] _ _.
  eapply hoare_bind; [apply _ | apply core_history_hist |]. intros a Ha.
  by apply addHistoryPoint_hist.
Qed.

Lemma update_history_hist stats : hoare R_hist (update_history stats) (λ _, True).
Proof.
  unfold update_history.
  repeat (eapply hoare_bind; [apply _ | by apply addHistoryPoint_hist | intros _ _]).
  by apply addHistoryPoint_hist.
Qed.

Lemma sections_hist c stats : hoare R_hist (sections c stats) (λ _, True).
Proof.
  unfold sections.
  eapply hoare_bind; [apply _ | apply (when_content_frame R_hist _ _ _ (λ _, True)); [done | intros s; apply cpuSection_hist] |].
  intros st1 _.
  eapply hoare_bind; [apply _ | apply (when_content_frame R_hist _ _ _ (λ _, True)); [done |] |].
  { intros s. by apply hoare_ret; [apply _ |]. }
  intros st2 _.
  eapply hoare_bind; [apply _ | apply (when_content_frame R_hist _ _ _ (λ _, True)); [done |] |].
  { intros s. by apply hoare_ret; [apply _ |]. }
  intros st3 _.
  eapply hoare_bind; [apply _ | apply (when_content_frame R_hist _ _ _ (λ _, True)); [done |] |].
  { intros s. by apply hoare_ret; [apply _ |]. }
  intros st4 _.
  eapply hoare_bind; [apply _ | apply (when_content_frame R_hist _ _ _ (λ _, True)); [done | intros s; apply diskSection_hist] |].
  intros st5 _.
  apply (when_content_frame R_hist _ _ _ (λ _, True)); [done | intros s; apply netSection_hist].
Qed.

Lemma fetchSystemStats_hist r : hoare R_hist (fetchSystemStats r) (λ _, True).
Proof.
  unfold fetchSystemStats.
  eapply hoare_bind; [apply _ | | intros stats _].
  - destruct (await_all r) as [c |]; [apply sections_hist | by apply hoare_ret; [apply _ |]].
  - eapply hoare_bind; [apply _ | apply update_history_hist |]. intros _ _.
    by apply hoare_ret; [apply _ |].
Qed.

(** ** The accessors that copy *)

#[local] Instance engine_same_preorder : PreOrder engine_same.
Proof.
  split.
  - intros σ. unfold engine_same. tauto.
  - intros σ1 σ2 σ3 H12 H23. unfold engine_same in *.
    destruct H12 as (?&?&?&?&?&?&?&?&?&?&?&?), H23 as (?&?&?&?&?&?&?&?&?&?&?&?).
    repeat split; congruence.
Qed.

Lemma copy_array_spec a σ :
  wf σ → copies_fresh σ →
  let res := copy_array a σ in
  res.1 = CopyArr (copies σ) ∧ wf res.2 ∧ copies_fresh res.2
  ∧ copies res.2 = S (copies σ) ∧ engine_same σ res.2
  ∧ arrays res.2 = <[CopyArr (copies σ) := contents_of σ a]> (arrays σ).
Proof.
  intros Hwf Hfresh. unfold copy_array. run.
  split; [done |]. split; [| split; [| split; [done | split; [| done]]]].
  - revert Hwf. apply wf_arrays_dom; try done. cbn.
    intros l Hl. destruct (decide (l = CopyArr (copies σ))) as [-> | Hne].
    + by rewrite lookup_insert_eq.
    + by rewrite lookup_insert_ne.
  - intros n Hn. cbn in *. rewrite lookup_insert_ne by (intros [=]; lia).
    apply Hfresh. lia.
  - unfold engine_same. cbn. tauto.
Qed.

Section pairs.
Context `{Countable K}.

Lemma copy_body_inv σ0 seen result σ (k : K) a b :
  not_copy a → not_copy b →
  copy_inv σ0 seen (result, σ) →
  copy_inv σ0 (seen ++ [(k, (a, b))])%list (copy_body (k, (a, b)) result σ).
Proof.
  intros Ha Hb (Hwf & Hfr & Hle & Hsame & Harr & Hdom & Hval). cbn [fst snd] in *.
  unfold copy_body, bind.
  destruct (copy_array_spec a σ Hwf Hfr) as (E1 & Hwf1 & Hfr1 & Hc1 & Hs1 & Ha1).
  destruct (copy_array a σ) as [a' σ1]. cbn [fst snd] in *. subst a'.
  destruct (copy_array_spec b σ1 Hwf1 Hfr1) as (E2 & Hwf2 & Hfr2 & Hc2 & Hs2 & Ha2).
  destruct (copy_array b σ1) as [b' σ2]. cbn [fst snd] in *. subst b'.
  unfold ret. cbn [fst snd]. rewrite Hc1 in Ha2, Hc2.
  assert (Hb1 : contents_of σ1 b = contents_of σ b).
  { unfold contents_of. rewrite Ha1, lookup_insert_ne; [done | apply not_eq_sym, Hb]. }
  assert (Hold : ∀ n, (n < copies σ)%nat → arrays σ2 !! CopyArr n = arrays σ !! CopyArr n).
  { intros n Hn. rewrite Ha2, Ha1. rewrite !lookup_insert_ne by (intros [=]; lia). done. }
  unfold copy_inv. cbn [fst snd].
  split; [done |]. split; [done |]. split; [lia |]. split; [by do 2 (etrans; [| done]) |].
  split; [| split].
  - intros l Hl. rewrite Ha2, Ha1, !lookup_insert_ne; [by apply Harr | |];
      apply not_eq_sym, Hl; lia.
  - intros k'. rewrite fmap_app, elem_of_app. cbn [fmap list_fmap fst].
    rewrite list_elem_of_singleton, <- Hdom.
    destruct (decide (k' = k)) as [-> | Hne].
    + rewrite lookup_insert_eq. split; [auto | eauto].
    + rewrite lookup_insert_ne by done. split; [auto | intros [? | ?]; done].
  - intros k' a' b'. destruct (decide (k' = k)) as [-> | Hne].
    + rewrite lookup_insert_eq. intros [= <- <-].
      exists a, b, (copies σ), (S (copies σ)).
      split; [apply elem_of_app; right; by apply list_elem_of_singleton |].
      split; [done |]. split; [by rewrite Hc1 |]. split; [lia |]. split; [lia |]. split; [lia |].
      rewrite Hc1. split.
      * unfold contents_of at 1. rewrite Ha2, lookup_insert_ne by (intros [=]; lia).
        rewrite Ha1, lookup_insert_eq. cbn. unfold contents_of. rewrite (Harr a); [done |].
        intros n _. apply Ha.
      * unfold contents_of at 1. rewrite Ha2, lookup_insert_eq. cbn. rewrite Hb1.
        unfold contents_of. rewrite (Harr b); [done |]. intros n _. apply Hb.
    + rewrite lookup_insert_ne by done. intros Hk.
      destruct (Hval _ _ _ Hk) as (a0 & b0 & n1 & n2 & Hin & -> & -> & Hn & H1 & H2 & Hx & Hy).
      exists a0, b0, n1, n2. split; [apply elem_of_app; by left |].
      split; [done |]. split; [done |]. split; [done |]. split; [lia |]. split; [lia |].
      unfold contents_of in *. rewrite !Hold by lia. done.
Qed.

Lemma copy_fold_inv σ0 (l : list (K * (loc * loc))) : ∀ seen result σ,
  (∀ k a b, (k, (a, b)) ∈ l → not_copy a ∧ not_copy b) →
  copy_inv σ0 seen (result, σ) →
  copy_inv σ0 (seen ++ l)%list (fold_m copy_body l result σ).
Proof.
  induction l as [| [k [a b]] l IH]; intros seen result σ Hl Hinv.
  - by rewrite app_nil_r.
  - cbn [fold_m]. unfold bind.
    destruct (Hl k a b) as [Ha Hb]; [by left |].
    pose proof (copy_body_inv σ0 seen result σ k a b Ha Hb Hinv) as Hstep.
    destruct (copy_body (k, (a, b)) result σ) as [result' σ'].
    replace (seen ++ (k, (a, b)) :: l)%list with ((seen ++ [(k, (a, b))]) ++ l)%list
      by (by rewrite <- app_assoc).
    apply IH; [| done]. intros k' a' b' Hin. apply (Hl k' a' b'). by right.
Qed.

Lemma copy_pairs_spec (m : gmap K (loc * loc)) σ :
  wf σ → copies_fresh σ →
  (∀ k a b, m !! k = Some (a, b) → not_copy a ∧ not_copy b) →
  pair_copies σ m (copy_pairs m σ) ∧ wf (copy_pairs m σ).2 ∧ copies_fresh (copy_pairs m σ).2.
Proof.
  intros Hwf Hfr Hm.
  assert (Hinit : copy_inv (K:=K) σ [] (∅, σ)).
  { unfold copy_inv. cbn [fst snd].
    split; [done |]. split; [done |]. split; [done |]. split; [reflexivity |].
    split; [done |]. split.
    - intros k. rewrite lookup_empty. cbn. split; [by intros [? ?] | by intros ?%elem_of_nil].
    - intros k a' b'. by rewrite lookup_empty. }
  pose proof (copy_fold_inv σ (map_to_list m) [] ∅ σ) as Hfold.
  rewrite app_nil_l in Hfold.
  destruct Hfold as (Hwf' & Hfr' & Hle & Hsame & Harr & Hdom & Hval); [| done |].
  { intros k a b Hin. apply elem_of_map_to_list in Hin. eauto. }
  change (fold_m copy_body (map_to_list m) ∅ σ) with (copy_pairs m σ) in *.
  split; [| done]. split; [| split].
  - split; [done |]. intros l x Hl. rewrite Harr; [done |].
    intros n Hn ->. rewrite Hfr in Hl by done. done.
  - intros k. rewrite Hdom. rewrite list_elem_of_fmap. split.
    + intros ([k' v] & -> & Hin). apply elem_of_map_to_list in Hin. eauto.
    + intros [v Hv]. exists (k, v). split; [done | by apply elem_of_map_to_list].
  - intros k a b a' b' Hk Hres.
    destruct (Hval _ _ _ Hres) as (a0 & b0 & n1 & n2 & Hin & -> & -> & Hn & H1 & H2 & Hx & Hy).
    apply elem_of_map_to_list in Hin. rewrite Hk in Hin. injection Hin as <- <-.
    split; [congruence |].
    assert (Hlater : ∀ n r, contents_of (fetchSystemStats r (copy_pairs m σ).2).2 (CopyArr n)
                            = contents_of (copy_pairs m σ).2 (CopyArr n)).
    { intros n r. destruct (fetchSystemStats_hist r _ Hwf') as (_ & [[_ Hc] _] & _).
      unfold contents_of. by rewrite Hc. }
    split; (split; [apply Hfr; lia | split; [done | intros r; apply Hlater]]).
Qed.
End pairs.

Section singles.
Context `{Countable K}.

Lemma copy1_body_inv σ0 seen result σ (k : K) a :
  not_copy a →
  copy1_inv σ0 seen (result, σ) →
  copy1_inv σ0 (seen ++ [(k, a)])%list (copy1_body (k, a) result σ).
Proof.
  intros Ha (Hwf & Hfr & Hle & Hsame & Harr & Hdom & Hval). cbn [fst snd] in *.
  unfold copy1_body, bind.
  destruct (copy_array_spec a σ Hwf Hfr) as (E1 & Hwf1 & Hfr1 & Hc1 & Hs1 & Ha1).
  destruct (copy_array a σ) as [a' σ1]. cbn [fst snd] in *. subst a'.
  unfold ret, copy1_inv. cbn [fst snd].
  assert (Hold : ∀ n, (n < copies σ)%nat → arrays σ1 !! CopyArr n = arrays σ !! CopyArr n).
  { intros n Hn. rewrite Ha1, !lookup_insert_ne by (intros [=]; lia). done. }
  split; [done |]. split; [done |]. split; [lia |]. split; [by etrans |].
  split; [| split].
  - intros l Hl. rewrite Ha1, !lookup_insert_ne; [by apply Harr |].
    apply not_eq_sym, Hl; lia.
  - intros k'. rewrite fmap_app, elem_of_app. cbn [fmap list_fmap fst].
    rewrite list_elem_of_singleton, <- Hdom.
    destruct (decide (k' = k)) as [-> | Hne].
    + rewrite lookup_insert_eq. split; [auto | eauto].
    + rewrite lookup_insert_ne by done. split; [auto | intros [? | ?]; done].
  - intros k' a'. destruct (decide (k' = k)) as [-> | Hne].
    + rewrite lookup_insert_eq. intros [= <-].
      exists a, (copies σ).
      split; [apply elem_of_app; right; by apply list_elem_of_singleton |].
      split; [done |]. split; [lia |].
      unfold contents_of at 1. rewrite Ha1, lookup_insert_eq. cbn.
      unfold contents_of. rewrite (Harr a); [done |]. intros n _. apply Ha.
    + rewrite lookup_insert_ne by done. intros Hk.
      destruct (Hval _ _ Hk) as (a0 & n1 & Hin & -> & H1 & Hx).
      exists a0, n1. split; [apply elem_of_app; by left |].
      split; [done |]. split; [lia |].
      unfold contents_of in *. rewrite !Hold by lia. done.
Qed.

Lemma copy1_fold_inv σ0 (l : list (K * loc)) : ∀ seen result σ,
  (∀ k a, (k, a) ∈ l → not_copy a) →
  copy1_inv σ0 seen (result, σ) →
  copy1_inv σ0 (seen ++ l)%list (fold_m copy1_body l result σ).
Proof.
  induction l as [| [k a] l IH]; intros seen result σ Hl Hinv.
  - by rewrite app_nil_r.
  - cbn [fold_m]. unfold bind.
    assert (Ha : not_copy a) by (apply (Hl k); by left).
    pose proof (copy1_body_inv σ0 seen result σ k a Ha Hinv) as Hstep.
    destruct (copy1_body (k, a) result σ) as [result' σ'].
    replace (seen ++ (k, a) :: l)%list with ((seen ++ [(k, a)]) ++ l)%list
      by (by rewrite <- app_assoc).
    apply IH; [| done]. intros k' a' Hin. apply (Hl k' a'). by right.
Qed.

Lemma copy_singles_spec (m : gmap K loc) σ :
  wf σ → copies_fresh σ →
  (∀ k a, m !! k = Some a → not_copy a) →
  single_copies σ m (fold_m copy1_body (map_to_list m) ∅ σ).
Proof.
  intros Hwf Hfr Hm.
  assert (Hinit : copy1_inv (K:=K) σ [] (∅, σ)).
  { unfold copy1_inv. cbn [fst snd].
    split; [done |]. split; [done |]. split; [done |]. split; [reflexivity |].
    split; [done |]. split.
    - intros k. rewrite lookup_empty. cbn. split; [by intros [? ?] | by intros ?%elem_of_nil].
    - intros k a'. by rewrite lookup_empty. }
  pose proof (copy1_fold_inv σ (map_to_list m) [] ∅ σ) as Hfold.
  rewrite app_nil_l in Hfold.
  destruct Hfold as (Hwf' & Hfr' & Hle & Hsame & Harr & Hdom & Hval); [| done |].
  { intros k a Hin. apply elem_of_map_to_list in Hin. eauto. }
  split; [| split].
  - split; [done |]. intros l x Hl. rewrite Harr; [done |].
    intros n Hn ->. rewrite Hfr in Hl by done. done.
  - intros k. rewrite Hdom. rewrite list_elem_of_fmap. split.
    + intros ([k' v] & -> & Hin). apply elem_of_map_to_list in Hin. eauto.
    + intros [v Hv]. exists (k, v). split; [done | by apply elem_of_map_to_list].
  - intros k a a' Hk Hres.
    destruct (Hval _ _ Hres) as (a0 & n1 & Hin & -> & H1 & Hx).
    apply elem_of_map_to_list in Hin. rewrite Hk in Hin. injection Hin as <-.
    split; [apply Hfr; lia | split; [done |]].
    intros r. destruct (fetchSystemStats_hist r _ Hwf') as (_ & [[_ Hc] _] & _).
    unfold contents_of. by rewrite Hc.
Qed.
End singles.

Lemma wf_gpu σ k a :
  wf σ → gpuHistories σ !! k = Some a →
  a = (GpuArr k fst_side, GpuArr k snd_side).
Proof. intros (_ & _ & _ & _ & Hg) Hk. by destruct (Hg k a Hk). Qed.

Lemma wf_core σ k a : wf σ → perCoreHistories σ !! k = Some a → a = CoreArr k.
Proof. intros (_ & _ & _ & Hc & _) Hk. by destruct (Hc k a Hk). Qed.

(** X6.  In every state the engine reaches, the four accessors
    [getPerDiskHistory], [getPerIfaceHistory], [getGpuHistory] and
    [getPerCoreHistory] leave the engine as it is and return, for each key
    of the history map they read, arrays that did not exist before the
    call, that hold the points the engine's arrays hold at the time of the
    call, and that no later pass changes; the two arrays of an entry are
    different arrays. *)
Theorem sibling_accessors_copy (σ : engine) :
  wf σ → copies_fresh σ →
  pair_copies σ (perDiskHistories σ) (getPerDiskHistory σ)
  ∧ pair_copies σ (perIfaceHistories σ) (getPerIfaceHistory σ)
  ∧ pair_copies σ (gpuHistories σ) (getGpuHistory σ)
  ∧ single_copies σ (perCoreHistories σ) (getPerCoreHistory σ).
Proof.
  intros Hwf Hfr. split; [| split; [| split]].
  - apply copy_pairs_spec; [done | done |].
    intros k a b Hk. apply (wf_disk _ _ _ Hwf) in Hk as [[= -> ->] _]. by split; intros n.
  - apply copy_pairs_spec; [done | done |].
    intros k a b Hk. apply (wf_iface _ _ _ Hwf) in Hk as [[= -> ->] _]. by split; intros n.
  - apply copy_pairs_spec; [done | done |].
    intros k a b Hk. apply (wf_gpu _ _ _ Hwf) in Hk as [= -> ->]. by split; intros n.
  - apply copy_singles_spec; [done | done |].
    intros k a Hk. apply (wf_core _ _ _ Hwf) in Hk as ->. by intros n.
Qed.

Lemma run_passes_hist passes : ∀ σ,
  wf σ → wf (run_passes passes σ) ∧ R_hist σ (run_passes passes σ).
Proof.
  induction passes as [| r passes IH]; intros σ Hwf.
  - split; [done | reflexivity].
  - cbn. destruct (fetchSystemStats_hist r σ Hwf) as (Hwf1 & HR1 & _).
    destruct (IH _ Hwf1) as [Hwf2 HR2]. split; [done | by etrans].
Qed.

Lemma ordered_init clk : ordered (init clk).
Proof.
  intros a l Hl. cbn in Hl.
  assert (l = []) as ->; [| apply kept_nil].
  unfold global_arrays in Hl. cbn in Hl.
  repeat (apply lookup_insert_Some in Hl as [[_ <-] | [_ Hl]]; [done |]).
  by rewrite lookup_empty in Hl.
Qed.

Lemma copies_fresh_init clk : copies_fresh (init clk).
Proof.
  intros n _. cbn. unfold global_arrays. cbn.
  by rewrite !lookup_insert_ne, lookup_empty.
Qed.

Lemma copies_fresh_passes passes clk : copies_fresh (run_passes passes (init clk)).
Proof.
  destruct (run_passes_hist passes (init clk) (wf_init clk)) as (_ & [Hc Hn] & _).
  intros n Hn'. rewrite Hn. apply copies_fresh_init. rewrite Hc in Hn'. done.
Qed.

Lemma wf_passes passes clk : wf (run_passes passes (init clk)).
Proof. apply run_passes_hist, wf_init. Qed.

(** X7.  Whatever the passes read, the points of every history array are in
    the order of their timestamps whenever the clock never goes back: a
    point is never followed by one with an earlier timestamp.  Every
    timestamp is a reading that a pass took from the clock. *)
Theorem history_in_time_order (clk : nat → Z) (passes : list reads) :
  monotone clk →
  ∀ a i j p q,
    contents_of (run_passes passes (init clk)) a !! i = Some p →
    contents_of (run_passes passes (init clk)) a !! j = Some q →
    (i ≤ j)%nat →
    (timestamp p ≤ timestamp q)%Z
    ∧ ∃ n, (n < ticks (run_passes passes (init clk)))%nat ∧ timestamp p = clk n.
Proof.
  intros Hmono a i j p q Hp Hq Hij.
  destruct (run_passes_hist passes (init clk) (wf_init clk)) as (_ & _ & Hk & Hclk & _).
  specialize (Hk (ordered_init clk)).
  set (σ := run_passes passes (init clk)) in *.
  unfold contents_of in Hp, Hq.
  destruct (arrays σ !! a) as [l |] eqn:Hl; [| done].
  cbn in Hp, Hq. destruct (Hk a l Hl) as [(js & Hts & Hinc & Hlt) _].
  rewrite Hclk in Hts. cbn in Hts.
  assert (Hat : ∀ k x, l !! k = Some x → ∃ n, js !! k = Some n ∧ timestamp x = clk n).
  { intros k x Hx. apply (f_equal (λ v, v !! k)) in Hts.
    rewrite !list_lookup_fmap, Hx in Hts. cbn in Hts.
    destruct (js !! k) as [n |]; [| done]. exists n. split; [done |]. by injection Hts. }
  destruct (Hat i p Hp) as (n & Hn & ->). destruct (Hat j q Hq) as (m & Hm & ->).
  split.
  - apply Hmono. destruct (decide (i = j)) as [-> | Hne].
    + rewrite Hn in Hm. injection Hm as ->. done.
    + apply Nat.lt_le_incl, (Hinc i j); [done | done | lia].
  - exists n. split; [| done]. rewrite Forall_forall in Hlt. apply Hlt.
    by apply list_elem_of_lookup_2 in Hn.
Qed.

Lemma history_in_time_order_witness :
  (3000 ≤ 16000)%Z
  ∧ ∃ n, (n < ticks (run_passes [full 0; full 1] (init sample_clock)))%nat
         ∧ 3000 = sample_clock n.
Proof.
  assert (Hmono : monotone sample_clock).
  { intros i j Hij. unfold sample_clock. lia. }
  apply (history_in_time_order sample_clock [full 0; full 1] Hmono (GlobalArr cpu) 0 1
           {| timestamp := 3000; value := Num 0 |} {| timestamp := 16000; value := Num 50 |}).
  - vm_compute. reflexivity.
  - vm_compute. reflexivity.
  - lia.
Defined.

Lemma sibling_accessors_copy_witness :
  let σ := run_passes [full 0; full 1] (init sample_clock) in
  pair_copies σ (perDiskHistories σ) (getPerDiskHistory σ)
  ∧ pair_copies σ (perIfaceHistories σ) (getPerIfaceHistory σ)
  ∧ pair_copies σ (gpuHistories σ) (getGpuHistory σ)
  ∧ single_copies σ (perCoreHistories σ) (getPerCoreHistory σ).
Proof.
  intros σ. apply (sibling_accessors_copy σ).
  - apply wf_passes.
  - apply copies_fresh_passes.
Defined.

(** ** The six global streams and the result of a pass *)

Lemma last_push_shift p l : last (push_shift p l) = Some p.
Proof.
  unfold push_shift. destruct l as [| x l]; [done |].
  destruct (_ <? _)%nat; [| apply last_snoc].
  cbn [app tail]. apply last_snoc.
Qed.

Lemma update_history_spec stats σ :
  wf σ →
  let σ' := (update_history stats σ).2 in
  ticks σ' = (ticks σ + 6)%nat ∧ clock σ' = clock σ
  ∧ ∀ s, contents_of σ' (GlobalArr s)
         = push_shift {| timestamp := clock σ (ticks σ + stream_code s);
                         value := stream_value stats s |}
                      (contents_of σ (GlobalArr s)).
Proof.
  intros (Hg & _) σ'. subst σ'. unfold update_history. fold (memory_percent stats).
  remember (memory_percent stats) as mp eqn:Hmp.
  run. split; [lia |]. split; [done |].
  intros s. destruct (Hg s) as [x Hx]. unfold contents_of.
  destruct s; cbn;
    repeat (rewrite lookup_alter_eq || rewrite lookup_alter_ne by done);
    rewrite Hx; cbn; repeat f_equal; first [lia | done].
Qed.

Lemma pass_body_hist r :
  hoare R_hist (match await_all r with
                | Some c => sections c stats0
                | None => ret stats0
                end) (λ _, True).
Proof.
  destruct (await_all r) as [c |]; [apply sections_hist | by apply hoare_ret; [apply _ |]].
Qed.

(** The last point of each global stream after a pass. *)
Lemma pass_last_point r σ s :
  wf σ →
  (6 ≤ ticks (fetchSystemStats r σ).2)%nat
  ∧ last (contents_of (fetchSystemStats r σ).2 (GlobalArr s))
    = Some {| timestamp := clock σ (ticks (fetchSystemStats r σ).2 - 6 + stream_code s);
              value := stream_value (fetchSystemStats r σ).1 s |}.
Proof.
  intros Hwf. unfold fetchSystemStats, bind.
  destruct (pass_body_hist r σ Hwf) as (Hwf1 & (_ & _ & Hclk & _) & _).
  destruct (match await_all r with Some c => sections c stats0 | None => ret stats0 end σ)
    as [stats σ1]. cbn [fst snd] in *.
  destruct (update_history_spec stats σ1 Hwf1) as (Ht & _ & Hs).
  destruct (update_history stats σ1) as [[] σ2]. cbn [fst snd ret] in *.
  rewrite Ht. split; [lia |]. rewrite Hs, last_push_shift, Hclk.
  by replace (ticks σ1 + 6 - 6 + stream_code s)%nat with (ticks σ1 + stream_code s)%nat by lia.
Qed.

(** X8.  After every pass, failed reads included, the last point of each of
    the six global history streams carries the value the pass returned for
    that stream (for the memory stream, the share of used memory computed
    from the returned figures), stamped with one of the last six readings of
    the clock, in the order CPU, memory, disk read, disk write, network
    sent, network received. *)
Theorem pass_appends_results (r : reads) (σ : engine) (s : stream) :
  wf σ →
  let res := fetchSystemStats r σ in
  (6 ≤ ticks res.2)%nat
  ∧ last (contents_of res.2 (GlobalArr s))
    = Some {| timestamp := clock σ (ticks res.2 - 6 + stream_code s);
              value := match s with
                       | cpu => cpuUsage res.1
                       | memory =>
                           if ngt (memoryTotal res.1) (num_of_Z 0)
                           then nmul (ndiv (memoryUsed res.1) (memoryTotal res.1))
                                     (num_of_Z 100)
                           else num_of_Z 0
                       | diskRead => diskReadRate res.1
                       | diskWrite => diskWriteRate res.1
                       | networkSent => networkSentRate res.1
                       | networkRecv => networkRecvRate res.1
                       end |}.
Proof.
  intros Hwf res. subst res. destruct (pass_last_point r σ s Hwf) as [H6 Hlast].
  split; [done |]. rewrite Hlast. by destruct s.
Qed.

Lemma pass_appends_results_witness :
  let res := fetchSystemStats (full 0) (init sample_clock) in
  (6 ≤ ticks res.2)%nat
  ∧ last (contents_of res.2 (GlobalArr cpu))
    = Some {| timestamp := sample_clock (ticks res.2 - 6 + stream_code cpu);
              value := cpuUsage res.1 |}.
Proof.
  apply (pass_appends_results (full 0) (init sample_clock) cpu). apply wf_init.
Defined.

(** ** The names the engine tracks *)

Lemma obj_get_put {V} k k' (v : V) o :
  obj_get k' (obj_put k v o) = if decide (k = k') then Some v else obj_get k' o.
Proof.
  induction o as [| [k0 v0] o IH]; cbn.
  - done.
  - destruct (decide (k0 = k)) as [-> | Hne]; cbn.
    + by destruct (decide (k = k')).
    + rewrite IH. destruct (decide (k0 = k')) as [-> | ?]; [| done].
      by rewrite decide_False.
Qed.

Lemma obj_get_set {V} k k' (v : V) o :
  obj_get k' (obj_set k v o)
  = if decide (k = "__proto__") then obj_get k' o
    else if decide (k = k') then Some v else obj_get k' o.
Proof. unfold obj_set. destruct (decide (k = "__proto__")); [done | apply obj_get_put]. Qed.

(** A key of the record that a scan builds was given by one of the rows. *)
Lemma scan_key row lines k c :
  obj_get k (scan row lines).2 = Some c → ∃ line c', line ∈ lines ∧ row line = Some (k, c').
Proof.
  unfold scan.
  assert (H : ∀ acc : number * number * obj (number * number),
             obj_get k (foldl (λ '(a, b, cur) line,
               match row line with
               | Some (k, (x, y)) => (nadd a x, nadd b y, obj_set k (x, y) cur)
               | None => (a, b, cur)
               end) acc lines).2 = Some c →
             is_Some (obj_get k acc.2) ∨ ∃ line c', line ∈ lines ∧ row line = Some (k, c')).
  { induction lines as [| l lines IH]; intros [[a b] cur] Hk; [left; eauto |].
    cbn [foldl] in Hk. apply IH in Hk as [Hk | (line & c' & Hin & Hrow)].
    - destruct (row l) as [[k0 [x y]] |] eqn:Hl; cbn in Hk; [| by left].
      rewrite obj_get_set in Hk. destruct (decide (k0 = "__proto__")); [by left |].
      destruct (decide (k0 = k)) as [-> | ?]; [| by left].
      right. exists l, (x, y). split; [by left | done].
    - right. exists line, c'. split; [by right | done]. }
  intros Hk. apply H in Hk as [[? Hk] | ?]; [done | done].
Qed.

Lemma disk_row_whole line k c : disk_row line = Some (k, c) → is_whole_disk k = true.
Proof.
  unfold disk_row. destruct (14 <=? _)%nat; [| done].
  destruct (is_whole_disk _) eqn:E; [| done]. by intros [= <- _].
Qed.

Lemma net_row_not_lo line k c : net_row line = Some (k, c) → k ≠ "lo".
Proof.
  unfold net_row. destruct (10 <=? _)%nat; [| done].
  destruct (decide (_ = "lo")) as [| Hne]; [done |]. by intros [= <- _].
Qed.

Lemma pass_names r σ :
  wf σ → names_ok σ →
  names_ok (fetchSystemStats r σ).2
  ∧ (∀ k, is_Some (perDiskStats (fetchSystemStats r σ).1 !! k) → is_whole_disk k = true)
  ∧ (∀ k, is_Some (perIfaceStats (fetchSystemStats r σ).1 !! k) → k ≠ "lo").
Proof.
  intros Hwf [Hd Hn].
  assert (Hdisk : ∀ k, ∃ t c, disk_key_effect t c stats0 σ (fetchSystemStats r σ).1
                                (fetchSystemStats r σ).2 k
                              ∧ (is_Some c → is_whole_disk k = true)).
  { intros k. destruct (await_all r) as [c |] eqn:Hc.
    - destruct (content_of (diskstatsContent c)) as [s |] eqn:Hs.
      + destruct (pass_disk r c s σ Hwf Hc Hs) as (n & _ & H). cbv zeta in H.
        destruct H as (_ & _ & _ & _ & H). eexists _, _. split; [apply H |].
        intros [x Hx]. apply scan_key in Hx as (line & c' & _ & Hrow).
        by apply disk_row_whole in Hrow.
      + destruct (pass_disk_skipped r σ Hwf) as (_ & _ & _ & H); [eauto |].
        exists 0, None. split; [apply H | by intros [? ?]].
    - destruct (pass_disk_skipped r σ Hwf) as (_ & _ & _ & H); [eauto |].
      exists 0, None. split; [apply H | by intros [? ?]]. }
  assert (Hnet : ∀ k, ∃ t c, iface_key_outcome t c stats0 σ (fetchSystemStats r σ).1
                               (fetchSystemStats r σ).2 k
                             ∧ (is_Some c → k ≠ "lo")).
  { intros k. destruct (await_all r) as [c |] eqn:Hc.
    - destruct (content_of (netContent c)) as [s |] eqn:Hs.
      + destruct (pass_net r c s σ Hwf Hc Hs) as (n & _ & H). cbv zeta in H.
        destruct H as (_ & _ & _ & _ & H & _). eexists _, _. split; [apply H |].
        intros [x Hx]. apply scan_key in Hx as (line & c' & _ & Hrow).
        by apply net_row_not_lo in Hrow.
      + destruct (pass_net_skipped r σ Hwf) as (_ & _ & _ & H); [eauto |].
        exists 0, None. split; [apply H | by intros [? ?]].
    - destruct (pass_net_skipped r σ Hwf) as (_ & _ & _ & H); [eauto |].
      exists 0, None. split; [apply H | by intros [? ?]]. }
  set (res := fetchSystemStats r σ) in *.
  assert (Hd' : ∀ k, is_Some (prevPerDiskStats res.2 !! k) ∨ is_Some (perDiskHistories res.2 !! k)
                     ∨ is_Some (perDiskStats res.1 !! k) → is_whole_disk k = true).
  { intros k Hk. destruct (Hdisk k) as (t & [c |] & He & Hc); [by apply Hc |].
    unfold disk_key_effect, disk_key_kept in He. destruct He as (E1 & E2 & E3 & _).
    rewrite E1, E2, E3 in Hk. apply Hd.
    destruct Hk as [? | [? | Hk]]; [auto | auto |]. cbn in Hk. rewrite lookup_empty in Hk.
    by destruct Hk. }
  assert (Hn' : ∀ k, is_Some (prevPerIfaceStats res.2 !! k)
                     ∨ is_Some (perIfaceHistories res.2 !! k)
                     ∨ is_Some (perIfaceStats res.1 !! k) → k ≠ "lo").
  { intros k Hk. destruct (Hnet k) as (t & [c |] & He & Hc); [by apply Hc |].
    unfold iface_key_outcome, iface_key_effect, iface_key_kept in He.
    destruct He as (E1 & E2 & E3 & _).
    rewrite E1, E2, E3 in Hk. apply Hn.
    destruct Hk as [? | [? | Hk]]; [auto | auto |]. cbn in Hk. rewrite lookup_empty in Hk.
    by destruct Hk. }
  split; [split |]; [| | split]; intros k Hk.
  - apply Hd'. tauto.
  - apply Hn'. tauto.
  - apply Hd'. tauto.
  - apply Hn'. tauto.
Qed.

Lemma names_ok_passes passes clk : names_ok (run_passes passes (init clk)).
Proof.
  assert (H : ∀ σ, wf σ → names_ok σ → names_ok (run_passes passes σ)).
  { induction passes as [| r passes IH]; intros σ Hwf Hok; [done |].
    cbn. apply IH; [by apply fetchSystemStats_wf | by apply pass_names]. }
  apply H; [apply wf_init |].
  split; intros k [Hk | Hk]; cbn in Hk; rewrite lookup_empty in Hk; by destruct Hk.
Qed.

(** X9.  However many passes ran and whatever they read, the disk code only
    ever tracks and reports names that pass the device filter (partitions,
    loop and NVMe devices are never keys of its store, its history map or
    its result), and the loopback interface is never a key of the network
    store, history map or result. *)
Theorem tracked_names (clk : nat → Z) (passes : list reads) (r : reads) :
  let σ := run_passes passes (init clk) in
  let res := fetchSystemStats r σ in
  (∀ k, is_Some (prevPerDiskStats σ !! k) ∨ is_Some (perDiskHistories σ !! k)
        ∨ is_Some (perDiskStats res.1 !! k) → is_whole_disk k = true)
  ∧ (∀ k, is_Some (prevPerIfaceStats σ !! k) ∨ is_Some (perIfaceHistories σ !! k)
          ∨ is_Some (perIfaceStats res.1 !! k) → k ≠ "lo").
Proof.
  intros σ res.
  destruct (names_ok_passes passes clk) as [Hd Hn]. fold σ in Hd, Hn.
  destruct (pass_names r σ (wf_passes passes clk) (conj Hd Hn)) as (_ & Hd' & Hn').
  fold res in Hd', Hn'.
  split; intros k [? | [? | ?]]; auto.
Qed.

(** ** The sections that read no counters: memory, uptime, load *)

Lemma front_disk_totals t a b prev st m :
  front (with_perDiskStats m (disk_totals t a b prev st)) = front st.
Proof.
  unfold disk_totals. destruct prev as [p |]; [destruct (ngt _ _) |]; reflexivity.
Qed.

Lemma front_net_totals t a b prev st m :
  front (with_perIfaceStats m (net_totals t a b prev st)) = front st.
Proof.
  unfold net_totals. destruct prev as [p |]; [destruct (ngt _ _) |]; reflexivity.
Qed.

Lemma when_diskSection_front c st σ :
  wf σ → front (when_content c diskSection st σ).1 = front st.
Proof.
  intros Hwf. unfold when_content. destruct (content_of c) as [s |]; [| done].
  destruct (diskSection_spec s st σ Hwf) as (_ & _ & [m Hm] & _).
  rewrite Hm. apply front_disk_totals.
Qed.

Lemma when_netSection_front c st σ :
  wf σ → front (when_content c netSection st σ).1 = front st.
Proof.
  intros Hwf. unfold when_content. destruct (content_of c) as [s |]; [| done].
  destruct (netSection_spec s st σ Hwf) as (_ & _ & [m Hm] & _).
  rewrite Hm. apply front_net_totals.
Qed.

Lemma pass_front r c σ :
  wf σ → await_all r = Some c →
  front (fetchSystemStats r σ).1 = front (before_disk c σ).1.
Proof.
  intros Hwf Hc. rewrite (fetchSystemStats_eq r c σ Hc). cbv zeta. cbn [fst].
  destruct (before_disk_frame c σ Hwf) as (Hwf1 & _ & _).
  destruct (when_diskSection_frame (diskstatsContent c) (before_disk c σ).1
              (before_disk c σ).2 Hwf1) as (Hwf2 & _ & _).
  by rewrite when_netSection_front, when_diskSection_front.
Qed.

Lemma before_disk_memory c σ s :
  content_of (meminfoContent c) = Some s →
  memory_out (before_disk c σ).1 = memory_out (memorySection s stats0 σ).1.
Proof.
  intros Hs. unfold before_disk, bind.
  destruct (when_content (statContent c) cpuSection stats0 σ) as [s1 σ1].
  unfold when_content. rewrite Hs.
  destruct (content_of (uptimeContent c)), (content_of (loadavgContent c)); reflexivity.
Qed.

Lemma before_disk_uptime c σ s :
  content_of (uptimeContent c) = Some s →
  uptime (before_disk c σ).1 = uptime (uptimeSection s stats0 σ).1.
Proof.
  intros Hs. unfold before_disk, bind.
  destruct (when_content (statContent c) cpuSection stats0 σ) as [s1 σ1].
  unfold when_content. rewrite Hs.
  destruct (content_of (meminfoContent c)), (content_of (loadavgContent c)); reflexivity.
Qed.

Lemma before_disk_loadAvg c σ s :
  content_of (loadavgContent c) = Some s →
  loadAvg (before_disk c σ).1 = loadAvg (loadSection s stats0 σ).1.
Proof.
  intros Hs. unfold before_disk, bind.
  destruct (when_content (statContent c) cpuSection stats0 σ) as [s1 σ1].
  unfold when_content. rewrite Hs.
  destruct (content_of (meminfoContent c)), (content_of (uptimeContent c)); reflexivity.
Qed.

Lemma digits_from_nonneg s : ∀ acc n v k r,
  digits_from s acc n = (v, k, r) → (0 ≤ acc)%Z → (0 ≤ v)%Z.
Proof.
  induction s as [| c s IH]; intros acc n v k r; cbn.
  - by intros [= <- _ _].
  - destruct (is_digit c) eqn:Hc; [| by intros [= <- _ _]].
    intros H Hacc. eapply IH; [exact H |].
    pose proof (digit_val_range c Hc). lia.
Qed.

Lemma first_capture_nonneg key s v : first_capture key s = Some v → (0 ≤ v)%Z.
Proof.
  induction s as [| c s IH]; cbn [first_capture].
  - unfold capture_at. destruct (drop_prefix _ _) as [r |]; [| done].
    destruct (digits _) as [[v' n] r'] eqn:Hd. destruct (n =? 0)%nat; [done |].
    intros [= <-]. unfold digits in Hd. by eapply digits_from_nonneg.
  - destruct (capture_at key (String c s)) as [v' |] eqn:Hc; [| exact IH].
    intros [= <-]. unfold capture_at in Hc. destruct (drop_prefix _ _) as [r |]; [| done].
    destruct (digits _) as [[v'' n] r'] eqn:Hd. destruct (n =? 0)%nat; [done |].
    injection Hc as <-. unfold digits in Hd. by eapply digits_from_nonneg.
Qed.

Lemma getVal_nat s key : ∃ v, getVal s key = num_of_Z v ∧ (0 ≤ v)%Z.
Proof.
  unfold getVal. destruct (first_capture key s) as [v |] eqn:Hv.
  - exists v. split; [done |]. by eapply first_capture_nonneg.
  - exists 0. done.
Qed.

Lemma Qred_inject_Z n : Qred (inject_Z n) = inject_Z n.
Proof.
  unfold Qred, inject_Z.
  pose proof (Z.ggcd_gcd n 1) as Hg. pose proof (Z.ggcd_correct_divisors n 1) as Hd.
  destruct (Z.ggcd n 1) as [g [a b]]. cbn in Hg, Hd. rewrite Z.gcd_1_r in Hg. subst g.
  destruct Hd as [-> Hb]. assert (b = 1) as -> by lia. f_equal. lia.
Qed.

Lemma nadd_Z a b : nadd (num_of_Z a) (num_of_Z b) = num_of_Z (a + b).
Proof.
  unfold nadd, lift2, num_of_Z. f_equal. rewrite <- (Qred_inject_Z (a + b)).
  apply Qred_complete. by rewrite inject_Z_plus.
Qed.

Lemma nsub_Z a b : nsub (num_of_Z a) (num_of_Z b) = num_of_Z (a - b).
Proof.
  unfold nsub, lift2, num_of_Z. f_equal. rewrite <- (Qred_inject_Z (a - b)).
  apply Qred_complete. unfold Z.sub. by rewrite inject_Z_plus, inject_Z_opp.
Qed.

Lemma memorySection_figures s st σ :
  ∃ total free cached swap swapFree : Z,
    memory_out (memorySection s st σ).1
    = (num_of_Z total, num_of_Z (total - free - cached), num_of_Z free, num_of_Z cached,
       num_of_Z swap, num_of_Z (swap - swapFree))
    ∧ (0 ≤ total)%Z ∧ (0 ≤ free)%Z ∧ (0 ≤ cached)%Z ∧ (0 ≤ swap)%Z ∧ (0 ≤ swapFree)%Z.
Proof.
  destruct (getVal_nat s "MemTotal") as (total & Ht & ?).
  destruct (getVal_nat s "MemFree") as (free & Hf & ?).
  destruct (getVal_nat s "Cached") as (c1 & Hc1 & ?).
  destruct (getVal_nat s "Buffers") as (c2 & Hc2 & ?).
  destruct (getVal_nat s "SReclaimable") as (c3 & Hc3 & ?).
  destruct (getVal_nat s "SwapTotal") as (swap & Hs & ?).
  destruct (getVal_nat s "SwapFree") as (swapFree & Hsf & ?).
  exists total, free, (c1 + c2 + c3), swap, swapFree.
  split; [| repeat split; lia].
  unfold memorySection, ret, memory_out. cbn [fst].
  cbn [memoryTotal memoryUsed memoryFree memoryCached swapTotal swapUsed
       with_memoryTotal with_memoryUsed with_memoryFree with_memoryCached
       with_swapTotal with_swapUsed].
  rewrite Ht, Hf, Hc1, Hc2, Hc3, Hs, Hsf, !nadd_Z, !nsub_Z. reflexivity.
Qed.

Lemma memory_percent_le a b :
  (0 ≤ b)%Z → (a ≤ b)%Z →
  ∃ q, (if ngt (num_of_Z b) (num_of_Z 0)
        then nmul (ndiv (num_of_Z a) (num_of_Z b)) (num_of_Z 100)
        else num_of_Z 0) = Num q
       ∧ (q <= 100)%Q
       ∧ (q == if decide (b = 0%Z) then 0 else inject_Z (100 * a) / inject_Z b)%Q.
Proof.
  intros Hb Hab. unfold num_of_Z at 1 2.
  destruct (ngt (Num (inject_Z b)) (Num (inject_Z 0))) eqn:E.
  - apply ngt_zero in E. change 0%Q with (inject_Z 0) in E. rewrite <- Zlt_Qlt in E.
    assert (Hbq : (0 < inject_Z b)%Q) by (change 0%Q with (inject_Z 0); by rewrite <- Zlt_Qlt).
    assert (Hne : ¬ (inject_Z b == 0)%Q) by lra.
    unfold ndiv, nmul, lift2, num_of_Z.
    destruct (Qeq_bool (inject_Z b) 0) eqn:E0; [by apply Qeq_bool_iff in E0 |].
    eexists. split; [reflexivity |].
    rewrite !Qred_correct. rewrite decide_False by lia.
    assert (Haq : (inject_Z a <= inject_Z b)%Q) by (by rewrite <- Zle_Qle).
    split.
    + assert (Hd : (inject_Z a / inject_Z b <= 1)%Q).
      { apply Qle_shift_div_r; [done | lra]. }
      change (inject_Z 100) with 100%Q. lra.
    + rewrite inject_Z_mult. change (inject_Z 100) with 100%Q. field. exact Hne.
  - exists 0%Q. split; [reflexivity |]. split; [done |].
    rewrite decide_True; [reflexivity |].
    apply not_true_iff_false in E. rewrite ngt_zero in E.
    change 0%Q with (inject_Z 0) in E. rewrite <- Zlt_Qlt in E. lia.
Qed.

(** ** Uptime *)

Lemma Qfloor_unique x n :
  (inject_Z n <= x)%Q → (x < inject_Z (n + 1))%Q → Qfloor x = n.
Proof.
  intros Hlo Hhi.
  assert (H1 : (n ≤ Qfloor x)%Z).
  { rewrite <- (Qfloor_Z n). by apply Qfloor_resp_le. }
  assert (H2 : (Qfloor x < n + 1)%Z).
  { rewrite Zlt_Qlt. eapply Qle_lt_trans; [apply Qfloor_le | done]. }
  lia.
Qed.

Lemma Qfloor_div_pos q k :
  (0 < k)%Z → Qfloor (q / inject_Z k) = (Qfloor q / k)%Z.
Proof.
  intros Hk. pose proof (Qfloor_le q) as Hlo. pose proof (Qlt_floor q) as Hhi.
  set (N := Qfloor q) in *.
  assert (HkQ : (0 < inject_Z k)%Q) by (change 0%Q with (inject_Z 0); by rewrite <- Zlt_Qlt).
  pose proof (Z.mul_div_le N k Hk) as H1.
  pose proof (Z.mul_succ_div_gt N k Hk) as H2.
  apply Qfloor_unique.
  - apply Qle_shift_div_l; [done |]. rewrite <- inject_Z_mult.
    eapply Qle_trans; [| exact Hlo]. rewrite <- Zle_Qle. lia.
  - apply Qlt_shift_div_r; [done |]. rewrite <- inject_Z_mult.
    eapply Qlt_le_trans; [exact Hhi |]. rewrite <- Zle_Qle. lia.
Qed.

Lemma Qfloor_sub_Z q z : Qfloor (q - inject_Z z) = (Qfloor q - z)%Z.
Proof.
  pose proof (Qfloor_le q) as Hlo. pose proof (Qlt_floor q) as Hhi.
  apply Qfloor_unique.
  - unfold Z.sub. rewrite inject_Z_plus, inject_Z_opp. lra.
  - replace (Qfloor q - z + 1)%Z with (Qfloor q + 1 + - z)%Z by lia.
    rewrite inject_Z_plus, inject_Z_opp. lra.
Qed.

Lemma Qtrunc_nonneg x : (0 <= x)%Q → Qtrunc x = Qfloor x.
Proof.
  intros Hx. unfold Qtrunc, Qfloor. destruct x as [a b]. cbn.
  apply Z.quot_div_nonneg; [| done].
  unfold Qle in Hx. cbn in Hx. lia.
Qed.

Lemma show_Z n : show (num_of_Z n) = pretty n.
Proof. unfold show, num_of_Z. by rewrite Qfloor_Z. Qed.

(** The whole days, hours and minutes in [q] seconds. *)
Lemma uptime_parts q :
  (0 <= q)%Q →
  let N := Qfloor q in
  math_floor (ndiv (Num q) (num_of_Z 86400)) = num_of_Z (N / 86400)
  ∧ math_floor (ndiv (nrem (Num q) (num_of_Z 86400)) (num_of_Z 3600))
    = num_of_Z ((N - 86400 * (N / 86400)) / 3600)
  ∧ math_floor (ndiv (nrem (Num q) (num_of_Z 3600)) (num_of_Z 60))
    = num_of_Z ((N - 3600 * (N / 3600)) / 60).
Proof.
  intros Hq N.
  assert (Hdiv : ∀ x k, (0 < k)%Z →
            math_floor (ndiv (Num x) (num_of_Z k)) = num_of_Z (Qfloor x / k)).
  { intros x k Hk. unfold ndiv, num_of_Z, math_floor.
    destruct (Qeq_bool (inject_Z k) 0) eqn:E.
    - apply Qeq_bool_iff in E. change 0%Q with (inject_Z 0) in E.
      rewrite inject_Z_injective in E. lia.
    - unfold num_of_Z. f_equal.
      rewrite (Qfloor_comp _ _ (Qred_correct _)). by rewrite Qfloor_div_pos. }
  assert (Hrem : ∀ k, (0 < k)%Z →
            ∃ x, nrem (Num q) (num_of_Z k) = Num x ∧ Qfloor x = (N - k * (N / k))%Z).
  { intros k Hk. unfold nrem, num_of_Z.
    destruct (Qeq_bool (inject_Z k) 0) eqn:E.
    - apply Qeq_bool_iff in E. change 0%Q with (inject_Z 0) in E.
      rewrite inject_Z_injective in E. lia.
    - eexists. split; [reflexivity |].
      rewrite (Qfloor_comp _ _ (Qred_correct _)).
      assert (Hk0 : (0 < inject_Z k)%Q)
        by (change 0%Q with (inject_Z 0); by rewrite <- Zlt_Qlt).
      rewrite Qtrunc_nonneg by (apply Qle_shift_div_l; [done | lra]).
      rewrite Qfloor_div_pos by done. fold N.
      rewrite <- inject_Z_mult. by rewrite Qfloor_sub_Z. }
  split; [by apply Hdiv | split].
  - destruct (Hrem 86400) as (x & -> & Hx); [lia |]. rewrite Hdiv by lia. by rewrite Hx.
  - destruct (Hrem 3600) as (x & -> & Hx); [lia |]. rewrite Hdiv by lia. by rewrite Hx.
Qed.

Lemma ngt_Z a : ngt (num_of_Z a) (num_of_Z 0) = if decide (0 < a)%Z then true else false.
Proof.
  destruct (decide (0 < a)%Z) as [Ha | Ha].
  - apply ngt_zero. change 0%Q with (inject_Z 0). by rewrite <- Zlt_Qlt.
  - apply not_true_iff_false. unfold num_of_Z at 1. rewrite ngt_zero.
    change 0%Q with (inject_Z 0). by rewrite <- Zlt_Qlt.
Qed.

Lemma pass_uptime r c s σ :
  wf σ → await_all r = Some c → content_of (uptimeContent c) = Some s →
  uptime (fetchSystemStats r σ).1
  = uptime_of (parseFloat (default "" (head (split_char " " s)))).
Proof.
  intros Hwf Hc Hs.
  change (uptime (fetchSystemStats r σ).1) with (front (fetchSystemStats r σ).1).1.2.
  rewrite (pass_front r c σ Hwf Hc).
  change (front (before_disk c σ).1).1.2 with (uptime (before_disk c σ).1).
  by rewrite (before_disk_uptime c σ s Hs).
Qed.

(** X11.  In a pass that reads the uptime text, the uptime string is built
    from the first space-separated token read as a number of seconds: for a
    number at least zero it shows the whole days (left out when there are
    none), the hours below 24 and the minutes below 60 that make up the
    seconds, rounded down to the minute; when the token is not a number the
    string is "NaNh NaNm". *)
Theorem uptime_text (r : reads) (c : contents) (s : string) (σ : engine) :
  wf σ → await_all r = Some c → content_of (uptimeContent c) = Some s →
  let secs := parseFloat (default "" (head (split_char " " s))) in
  let text := uptime (fetchSystemStats r σ).1 in
  (secs = NaN → text = "NaNh NaNm")
  ∧ ∀ q, secs = Num q → (0 <= q)%Q →
      ∃ d h m : Z,
        (0 ≤ d)%Z ∧ (0 ≤ h < 24)%Z ∧ (0 ≤ m < 60)%Z
        ∧ (inject_Z (86400 * d + 3600 * h + 60 * m) <= q)%Q
        ∧ (q < inject_Z (86400 * d + 3600 * h + 60 * m + 60))%Q
        ∧ text = if decide (0 < d)%Z
                 then pretty d +:+ "d " +:+ pretty h +:+ "h " +:+ pretty m +:+ "m"
                 else pretty h +:+ "h " +:+ pretty m +:+ "m".
Proof.
  intros Hwf Hc Hs secs text. subst text. rewrite (pass_uptime r c s σ Hwf Hc Hs). fold secs.
  split.
  - intros ->. reflexivity.
  - intros q -> Hq. unfold uptime_of.
    destruct (uptime_parts q Hq) as (-> & -> & ->).
    pose proof (Qfloor_le q) as Hlo. pose proof (Qlt_floor q) as Hhi.
    assert (HN : (0 ≤ Qfloor q)%Z).
    { change 0%Z with (Qfloor 0). by apply Qfloor_resp_le. }
    set (N := Qfloor q) in *.
    exists (N / 86400)%Z, ((N - 86400 * (N / 86400)) / 3600)%Z,
           ((N - 3600 * (N / 3600)) / 60)%Z.
    assert (Hz : (0 ≤ N / 86400)%Z
                 ∧ (0 ≤ (N - 86400 * (N / 86400)) / 3600 < 24)%Z
                 ∧ (0 ≤ (N - 3600 * (N / 3600)) / 60 < 60)%Z
                 ∧ (86400 * (N / 86400) + 3600 * ((N - 86400 * (N / 86400)) / 3600)
                    + 60 * ((N - 3600 * (N / 3600)) / 60) ≤ N)%Z
                 ∧ (N + 1 ≤ 86400 * (N / 86400) + 3600 * ((N - 86400 * (N / 86400)) / 3600)
                             + 60 * ((N - 3600 * (N / 3600)) / 60) + 60)%Z).
    { clearbody N. clear -HN. Z.div_mod_to_equations. lia. }
    destruct Hz as (H1 & H2 & H3 & H4 & H5).
    split; [done |]. split; [done |]. split; [done |]. split; [| split].
    + eapply Qle_trans; [| exact Hlo]. by rewrite <- Zle_Qle.
    + eapply Qlt_le_trans; [exact Hhi |]. by rewrite <- Zle_Qle.
    + rewrite ngt_Z, !show_Z. by destruct (decide _).
Qed.

Lemma uptime_text_witness :
  ∃ d h m : Z,
    (0 ≤ d)%Z ∧ (0 ≤ h < 24)%Z ∧ (0 ≤ m < 60)%Z
    ∧ (inject_Z (86400 * d + 3600 * h + 60 * m) <= 375137 # 4)%Q
    ∧ (375137 # 4 < inject_Z (86400 * d + 3600 * h + 60 * m + 60))%Q
    ∧ uptime (fetchSystemStats (full 0) (init sample_clock)).1
      = if decide (0 < d)%Z
        then pretty d +:+ "d " +:+ pretty h +:+ "h " +:+ pretty m +:+ "m"
        else pretty h +:+ "h " +:+ pretty m +:+ "m".
Proof.
  eapply (uptime_text (full 0) _ _ (init sample_clock)).
  - apply wf_init.
  - reflexivity.
  - reflexivity.
  - vm_compute. reflexivity.
  - vm_compute. congruence.
Defined.

(** ** Per-core usage *)

Lemma cpu_usage_range cur prev : cpu_usage cur prev = NaN ∨ percentage (cpu_usage cur prev).
Proof.
  unfold cpu_usage. destruct (ngt _ _); [| right; unfold num_of_Z; split; by apply Qle_bool_iff].
  destruct (nmul _ _) as [| x]; [by left |]. right.
  unfold math_min, math_max, num_of_Z. change (inject_Z 100) with 100%Q.
  change (inject_Z 0) with 0%Q.
  destruct (Qle_bool 100 x) eqn:E1.
  - cbn. split; by apply Qle_bool_iff.
  - assert (Hx : ¬ (100 <= x)%Q) by (rewrite <- Qle_bool_iff; congruence).
    destruct (Qle_bool 0 x) eqn:E2; cbn.
    + apply Qle_bool_iff in E2. split; lra.
    + split; by apply Qle_bool_iff.
Qed.

Lemma core_step_spec i u σ :
  wf σ →
  let σ' := (core_step (i, u) tt σ).2 in
  wf σ'
  ∧ prevPerCoreTimes σ' = prevPerCoreTimes σ
  ∧ perCoreHistories σ' !! i = Some (CoreArr i)
  ∧ (∃ t, last (contents_of σ' (CoreArr i)) = Some {| timestamp := t; value := u |})
  ∧ ∀ j, j ≠ i → perCoreHistories σ' !! j = perCoreHistories σ !! j
                 ∧ arrays σ' !! CoreArr j = arrays σ !! CoreArr j.
Proof.
  intros Hwf σ'. subst σ'. unfold core_step.
  assert (Hh : hoare R_cpu (a <- core_history i ;; addHistoryPoint a u) (λ _, True)).
  { eapply hoare_bind; [apply _ | apply core_history_R_cpu |]. intros a ->.
    by apply addHistoryPoint_R_cpu. }
  destruct (Hh σ Hwf) as (Hwf' & _ & _). split; [exact Hwf' |]. clear Hh Hwf'.
  unfold core_history. run.
  destruct (perCoreHistories σ !! i) as [a |] eqn:Ha; cbn.
  - destruct Hwf as (_ & _ & _ & Hc & _). destruct (Hc i a Ha) as [-> [l Hl]].
    split; [done |]. split; [done |]. split.
    + eexists. unfold contents_of. cbn. rewrite lookup_alter_eq, Hl. cbn.
      apply last_push_shift.
    + intros j Hj. split; [done |]. rewrite lookup_alter_ne; [done | congruence].
  - split; [done |]. split; [by rewrite lookup_insert_eq |]. split.
    + eexists. unfold contents_of. cbn. rewrite lookup_alter_eq, lookup_insert_eq. cbn.
      apply last_push_shift.
    + intros j Hj. split; [by rewrite lookup_insert_ne |].
      rewrite lookup_alter_ne, lookup_insert_ne; [done | congruence | congruence].
Qed.

Lemma core_fold_spec l : ∀ k σ,
  wf σ →
  let σ' := (fold_m core_step (imap (λ i, pair (k + i)%nat) l) tt σ).2 in
  wf σ'
  ∧ prevPerCoreTimes σ' = prevPerCoreTimes σ
  ∧ (∀ i u, l !! i = Some u →
       perCoreHistories σ' !! (k + i)%nat = Some (CoreArr (k + i))
       ∧ ∃ t, last (contents_of σ' (CoreArr (k + i)))
              = Some {| timestamp := t; value := u |})
  ∧ ∀ j, (j < k ∨ k + List.length l ≤ j)%nat →
         perCoreHistories σ' !! j = perCoreHistories σ !! j
         ∧ arrays σ' !! CoreArr j = arrays σ !! CoreArr j.
Proof.
  induction l as [| x l IH]; intros k σ Hwf.
  - cbn. split; [done |]. split; [done |]. split; [| done].
    intros i u Hi. by rewrite lookup_nil in Hi.
  - rewrite imap_cons. cbn [fold_m]. unfold bind.
    destruct (core_step_spec (k + 0) x σ Hwf) as (Hwf1 & Hp1 & Hk & Hlast & Hother).
    destruct (core_step (k + 0, x)%nat tt σ) as [[] σ1]. cbn [fst snd] in *.
    assert (Hext : imap ((λ i, pair (k + i)%nat) ∘ S) l = imap (λ i, pair (S k + i)%nat) l).
    { apply imap_ext. intros i y _. cbn. f_equal. lia. }
    rewrite Hext. specialize (IH (S k) σ1 Hwf1). cbv zeta in IH.
    destruct IH as (Hwf2 & Hp2 & Hin & Hout).
    split; [done |]. split; [congruence |]. split.
    + intros [| i] u Hi.
      * cbn in Hi. injection Hi as ->.
        destruct (Hout (k + 0)%nat) as [E1 E2]; [lia |].
        split; [by rewrite E1 |]. unfold contents_of. rewrite E2. exact Hlast.
      * cbn in Hi. replace (k + S i)%nat with (S k + i)%nat by lia. by apply Hin.
    + intros j Hj. cbn [List.length] in Hj.
      destruct (Hout j) as [E1 E2]; [lia |].
      destruct (Hother j) as [E3 E4]; [lia |].
      split; congruence.
Qed.

Lemma replicate_range n :
  Forall (λ u, u = NaN ∨ percentage u) (replicate n (num_of_Z 0)).
Proof.
  apply Forall_replicate. right. unfold num_of_Z. split; by apply Qle_bool_iff.
Qed.

Lemma zip_with_range cur pc :
  Forall (λ u, u = NaN ∨ percentage u) (zip_with cpu_usage cur pc).
Proof.
  revert pc. induction cur as [| x cur IH]; intros [| y pc]; cbn; try by apply Forall_nil.
  apply Forall_cons. split; [apply cpu_usage_range | apply IH].
Qed.

(** X12.  The CPU section reports one usage figure per core line when the
    pass before it saw the same number of core lines, each derived from the
    core's own two tick lines; on the first pass and whenever the number of
    core lines changed it reports 0 for every core.  Every figure is a
    number from 0 to 100 or NaN.  Each figure is appended, as its last
    point, to the history array of the core with its index, created when
    missing; the histories of cores beyond the reported ones are left as
    they were. *)
Theorem per_core_usage (s : string) (stats : SystemStats) (σ : engine) :
  wf σ →
  let res := cpuSection s stats σ in
  let cur := parseCpuLine <$> List.filter is_core_line (split_lines s) in
  cpuCores res.1 = (List.length cur `max` 1)%nat
  ∧ prevPerCoreTimes res.2 = Some cur
  ∧ ((prevPerCoreTimes σ = None
      ∨ ∃ pc, prevPerCoreTimes σ = Some pc ∧ List.length pc ≠ List.length cur) →
     cpuPerCore res.1 = replicate (cpuCores res.1) (num_of_Z 0))
  ∧ (∀ pc, prevPerCoreTimes σ = Some pc → List.length pc = List.length cur →
       List.length (cpuPerCore res.1) = List.length cur
       ∧ ∀ i x y, cur !! i = Some x → pc !! i = Some y →
                  cpuPerCore res.1 !! i = Some (cpu_usage x y))
  ∧ Forall (λ u, u = NaN ∨ percentage u) (cpuPerCore res.1)
  ∧ (∀ i u, cpuPerCore res.1 !! i = Some u →
       perCoreHistories res.2 !! i = Some (CoreArr i)
       ∧ ∃ t, last (contents_of res.2 (CoreArr i)) = Some {| timestamp := t; value := u |})
  ∧ ∀ j, (List.length (cpuPerCore res.1) ≤ j)%nat →
         perCoreHistories res.2 !! j = perCoreHistories σ !! j
         ∧ arrays res.2 !! CoreArr j = arrays σ !! CoreArr j.
Proof.
  intros Hwf res cur. subst res.
  set (coreLines := List.filter is_core_line (split_lines s)) in *.
  assert (Hlen : List.length cur = List.length coreLines) by (unfold cur; by rewrite length_fmap).
  set (cores := if (List.length coreLines =? 0)%nat then 1%nat else List.length coreLines).
  assert (Hcores : cores = (List.length cur `max` 1)%nat).
  { unfold cores. rewrite Hlen. destruct (Nat.eqb_spec (List.length coreLines) 0); lia. }
  set (perCore := match prevPerCoreTimes σ with
                  | Some pc =>
                      if (List.length pc =? List.length cur)%nat
                      then zip_with cpu_usage cur pc
                      else replicate cores (num_of_Z 0)
                  | None => replicate cores (num_of_Z 0)
                  end).
  set (σa := set_prevPerCoreTimes (Some cur)
               (set_prevCpuTimes (Some (parseCpuLine (default "" (head (split_lines s))))) σ)).
  assert (Hwfa : wf σa) by (revert Hwf; by apply wf_arrays_dom).
  assert (Heq : ∃ st, cpuSection s stats σ
                      = (with_cpuPerCore perCore st,
                         (fold_m core_step (imap (λ i, pair (0 + i)%nat) perCore) tt σa).2)
                      ∧ cpuCores st = cores).
  { unfold cpuSection. fold coreLines. fold cores. unfold bind, get, modify, ret.
    cbn [fst snd]. fold cur. fold perCore. fold σa.
    change (prevPerCoreTimes (set_prevCpuTimes _ σ)) with (prevPerCoreTimes σ).
    fold perCore.
    match goal with |- context [fold_m ?f ?l tt σa] => set (F := fold_m f l tt σa) end.
    assert (HF : fold_m core_step (imap (λ i, pair (0 + i)%nat) perCore) tt σa = F)
      by reflexivity.
    rewrite HF. destruct F as [[] σb].
    eexists. split; [reflexivity |]. by destruct (prevCpuTimes σ). }
  destruct Heq as (st & -> & Hst). cbn [fst snd].
  destruct (core_fold_spec perCore 0 σa Hwfa) as (Hwfb & Hp & Hin & Hout).
  cbv zeta in Hwfb, Hp, Hin, Hout.
  set (σb := (fold_m core_step (imap (λ i, pair (0 + i)%nat) perCore) tt σa).2) in *.
  change (cpuCores (with_cpuPerCore perCore st)) with (cpuCores st).
  change (cpuPerCore (with_cpuPerCore perCore st)) with perCore.
  rewrite Hst. split; [done |]. split; [by rewrite Hp |]. split; [| split; [| split; [| split]]].
  - intros [Hn | (pc & Hpc & Hne)]; unfold perCore.
    + by rewrite Hn.
    + rewrite Hpc. by destruct (Nat.eqb_spec (List.length pc) (List.length cur)).
  - intros pc Hpc Hsame. unfold perCore. rewrite Hpc.
    destruct (Nat.eqb_spec (List.length pc) (List.length cur)); [| done]. split.
    + rewrite length_zip_with. lia.
    + intros i x y Hx Hy. rewrite lookup_zip_with, Hx. cbn. by rewrite Hy.
  - unfold perCore.
    destruct (prevPerCoreTimes σ) as [pc |];
      [destruct (List.length pc =? List.length cur)%nat |];
      [apply zip_with_range | apply replicate_range | apply replicate_range].
  - intros i u Hi. apply (Hin i u Hi).
  - intros j Hj. destruct (Hout j) as [E1 E2]; [lia |]. split; [by rewrite E1 |].
    by rewrite E2.
Qed.

Lemma per_core_usage_witness :
  let σ := run_passes [full 0] (init sample_clock) in
  let res := cpuSection "cpu0 120 0 60 820 60 0 0 0" stats0 σ in
  cpuPerCore res.1 = [Num 50]
  ∧ perCoreHistories res.2 !! 0%nat = Some (CoreArr 0)
  ∧ ∃ t, last (contents_of res.2 (CoreArr 0)) = Some {| timestamp := t; value := Num 50 |}.
Proof.
  intros σ res.
  destruct (per_core_usage "cpu0 120 0 60 820 60 0 0 0" stats0 σ (wf_passes [full 0] sample_clock))
    as (_ & _ & _ & _ & _ & Hist & _).
  assert (Hc : cpuPerCore res.1 = [Num 50]) by (vm_compute; reflexivity).
  split; [exact Hc |]. apply Hist. fold res. rewrite Hc. reflexivity.
Defined.

(** ** White space, [trim] and the pieces of a split *)

Lemma rev_string_rev s : ∀ acc acc',
  rev_string (rev_string s acc) acc' = rev_string acc (s +:+ acc').
Proof.
  induction s as [| c s IH]; intros acc acc'; [done |].
  cbn [rev_string]. rewrite IH. done.
Qed.

Lemma rev_string_invol s : rev_string (rev_string s "") "" = s.
Proof. rewrite rev_string_rev. cbn. apply str_app_nil_r. Qed.

Lemma rev_string_acc s : ∀ acc, rev_string s acc = rev_string s "" +:+ acc.
Proof.
  induction s as [| c s IH]; intros acc; [done |].
  cbn [rev_string]. rewrite (IH (String c acc)), (IH (String c "")).
  by rewrite str_app_assoc.
Qed.

Lemma rev_string_app a : ∀ b acc,
  rev_string (a +:+ b) acc = rev_string b (rev_string a acc).
Proof.
  induction a as [| c a IH]; intros b acc; [done |].
  rewrite str_app_cons. cbn [rev_string]. apply IH.
Qed.

Lemma rev_string_nil s acc : rev_string s acc = "" → s = "" ∧ acc = "".
Proof.
  revert acc. induction s as [| c s IH]; intros acc; cbn [rev_string]; [done |].
  intros H. by apply IH in H as [_ ?].
Qed.

Lemma str_forall_app f a b : str_forall f (a +:+ b) = str_forall f a && str_forall f b.
Proof.
  induction a as [| c a IH]; [done |].
  rewrite str_app_cons. cbn [str_forall]. rewrite IH. by rewrite andb_assoc.
Qed.

Lemma str_forall_rev f s : ∀ acc,
  str_forall f (rev_string s acc) = str_forall f s && str_forall f acc.
Proof.
  induction s as [| c s IH]; intros acc; [done |].
  cbn [rev_string str_forall]. rewrite IH. cbn [str_forall].
  destruct (f c), (str_forall f s), (str_forall f acc); done.
Qed.

Lemma head_is_app f a b : a ≠ "" → head_is f (a +:+ b) = head_is f a.
Proof. by destruct a. Qed.

Lemma last_is_snoc f s c : last_is f (s +:+ String c "") = f c.
Proof.
  induction s as [| x s IH]; [done |].
  rewrite str_app_cons. cbn [last_is]. destruct (s +:+ String c "") eqn:E; [| done].
  by destruct s.
Qed.

Lemma last_is_rev f s : last_is f (rev_string s "") = head_is f s.
Proof.
  destruct s as [| c s]; [done |].
  cbn [rev_string]. rewrite rev_string_acc. apply last_is_snoc.
Qed.

Lemma trim_start_spec s :
  ∃ w, s = w +:+ trim_start s ∧ all_ws w = true ∧ head_is is_ws (trim_start s) = false.
Proof.
  induction s as [| c s (w & Hs & Hw & Hh)]; [by exists "" |].
  cbn [trim_start]. destruct (is_ws c) eqn:Hc.
  - exists (String c w). rewrite str_app_cons, <- Hs. split; [done |].
    split; [| done]. unfold all_ws. cbn. by rewrite Hc.
  - exists "". split; [done |]. split; [done |]. done.
Qed.

(** What [trim] returns neither starts nor ends with white space. *)
Lemma trim_ends s : head_is is_ws (trim s) = false ∧ last_is is_ws (trim s) = false.
Proof.
  unfold trim.
  destruct (trim_start_spec s) as (w1 & _ & _ & Hu).
  set (u := trim_start s) in *.
  destruct (trim_start_spec (rev_string u "")) as (w2 & Hr & _ & Hv).
  set (v := trim_start (rev_string u "")) in *.
  split; [| by rewrite last_is_rev].
  assert (Eu : u = rev_string v "" +:+ rev_string w2 "").
  { pose proof (rev_string_invol u) as E. rewrite Hr, rev_string_app in E.
    by rewrite (rev_string_acc v (rev_string w2 "")) in E. }
  destruct (rev_string v "") as [| a r] eqn:E; [done |].
  rewrite Eu in Hu. by rewrite head_is_app in Hu.
Qed.

Lemma rev_string_token cur : cur ≠ "" → no_ws cur = true → token (rev_string cur "").
Proof.
  intros Hne Hws. split.
  - intros H. by apply rev_string_nil in H as [? _].
  - unfold no_ws. rewrite str_forall_rev. unfold no_ws in Hws. by rewrite Hws.
Qed.

Lemma split_ws_from_tokens s : ∀ cur in_run,
  (s = "" → cur ≠ "") → last_is is_ws s = false →
  (in_run = false → cur ≠ "" ∨ head_is is_ws s = false) →
  no_ws cur = true →
  Forall token (split_ws_from s cur in_run).
Proof.
  induction s as [| c s IH]; intros cur in_run Hend Hlast Hstart Hcur.
  - apply Forall_singleton, rev_string_token; auto.
  - cbn [split_ws_from]. destruct (is_ws c) eqn:Hc.
    + assert (Hs : s ≠ "" ∧ last_is is_ws s = false).
      { destruct s; cbn in Hlast; [congruence | done]. }
      destruct Hs as [Hne Hl]. destruct in_run.
      * apply IH; [done | done | done | done].
      * apply Forall_cons. split.
        -- apply rev_string_token; [| done]. destruct Hstart as [? | H]; [done | done |].
           cbn in H. congruence.
        -- apply IH; [done | done | done | done].
    + apply IH.
      * done.
      * destruct s; [done |]. exact Hlast.
      * intros _. by left.
      * unfold no_ws in *. cbn. by rewrite Hc.
Qed.

(** The pieces of a trimmed line that is not empty are tokens. *)
Lemma fields_tokens line : trim line ≠ "" → Forall token (split_ws (trim line)).
Proof.
  intros Hne. destruct (trim_ends line) as [Hh Hl].
  apply split_ws_from_tokens; auto.
Qed.

Section process_service_17.
Import ProcessService.

(** ** The columns of the process list *)

Lemma or_zero_num x : is_num (or_zero x).
Proof.
  destruct x as [[| q] |]; cbn; try done. by destruct (negb _).
Qed.

Lemma field_token parts i :
  Forall token parts → (i < List.length parts)%nat → token (field parts i).
Proof.
  intros Hall Hi. unfold field.
  destruct (lookup_lt_is_Some_2 parts i Hi) as [x Hx]. rewrite Hx. cbn.
  by apply (Forall_lookup_1 _ _ _ _ Hall Hx).
Qed.

Lemma join_space_nonempty l : l ≠ [] → Forall token l → join_space l ≠ "".
Proof.
  destruct l as [| x l]; [done |]. intros _ Hall.
  apply Forall_cons in Hall as [[Hx _] _]. cbn.
  destruct l; [done |]. by destruct x.
Qed.

Lemma or_str_left a b : a ≠ "" → or_str a b = a.
Proof. by destruct a. Qed.

Lemma process_line_filled t ioData line acc :
  Forall row_filled acc.1 → Forall row_filled (process_line t ioData line acc).1.
Proof.
  destruct acc as [processes store]. cbn [fst]. intros Hacc. unfold process_line.
  destruct (trim line) as [| a rest] eqn:E; [done |].
  assert (Htok : Forall token (split_ws (String a rest))).
  { rewrite <- E. apply fields_tokens. by rewrite E. }
  destruct (Nat.ltb_spec (List.length (split_ws (String a rest))) 12) as [? | Hlen]; [done |].
  destruct (pid_of _) as [p |]; [| done].
  cbn [fst]. apply Forall_app. split; [done |]. apply Forall_singleton.
  unfold row_filled. cbn [ppid cpu memory memoryRss threads nice user name state startTime cmdline].
  repeat (split; [first [apply or_zero_num | apply field_token; [done | lia]] |]).
  assert (Hrest : drop 11 (split_ws (String a rest)) ≠ []).
  { intros Hd. apply (f_equal List.length) in Hd. rewrite length_drop in Hd.
    change (List.length (@nil string)) with 0%nat in Hd. lia. }
  rewrite or_str_left; apply join_space_nonempty; auto using Forall_drop.
Qed.

(** X13.  Every row that [fetchProcesses] returns has all its columns filled:
    the parent pid, the CPU and memory shares, the resident size, the thread
    count and the nice value are numbers, never NaN (a column that does not
    read as a number, or reads as 0, shows 0); the user, the name, the state
    and the start time are pieces of the line without white space and are
    never empty; the command line is never empty. *)
Theorem process_rows_filled (t : Z) (ps : read_result) (ioData : gmap Z IoBytes)
    (prev : gmap Z IoSnapshot) :
  Forall row_filled (fetchProcesses t ps ioData prev).1.
Proof.
  destruct ps as [[output |] |]; try by apply Forall_nil.
  unfold fetchProcesses.
  assert (H : ∀ lines acc, Forall row_filled acc.1 →
                Forall row_filled (foldl (λ acc line, process_line t ioData line acc) acc lines).1).
  { induction lines as [| l lines IH]; intros acc Hacc; [done |].
    cbn [foldl]. by apply IH, process_line_filled. }
  specialize (H (split_lines (trim output)) ([], prev) (Forall_nil_2 _)).
  destruct (foldl _ _ _) as [processes store]. exact H.
Qed.

End process_service_17.

(** ** Lines of text *)

Lemma split_on_no_sep sep a : ∀ cur,
  str_forall (λ c, if decide (c = sep) then false else true) a = true →
  split_on sep a cur = [rev_string cur "" +:+ a].
Proof.
  induction a as [| c a IH]; intros cur Ha.
  - cbn. by rewrite str_app_nil_r.
  - cbn in Ha |- *. destruct (decide (c = sep)); [done |].
    rewrite IH by done. cbn [rev_string].
    by rewrite (rev_string_acc cur (String c "")), str_app_assoc.
Qed.

Lemma split_on_line sep a r : ∀ cur,
  str_forall (λ c, if decide (c = sep) then false else true) a = true →
  split_on sep (a +:+ String sep r) cur = (rev_string cur "" +:+ a) :: split_on sep r "".
Proof.
  induction a as [| c a IH]; intros cur Ha.
  - rewrite str_app_nil_l, str_app_nil_r. cbn. by destruct (decide (sep = sep)).
  - rewrite str_app_cons. cbn in Ha |- *. destruct (decide (c = sep)); [done |].
    rewrite IH by done. cbn [rev_string].
    by rewrite (rev_string_acc cur (String c "")), str_app_assoc.
Qed.

Lemma last_is_app f a b : b ≠ "" → last_is f (a +:+ b) = last_is f b.
Proof.
  intros Hb. induction a as [| c a IH]; [done |].
  rewrite str_app_cons. cbn [last_is]. destruct (a +:+ b) eqn:E; [| done].
  destruct a; [by rewrite str_app_nil_l in E | done].
Qed.

Lemma trim_start_ws w s : all_ws w = true → trim_start (w +:+ s) = trim_start s.
Proof.
  induction w as [| c w IH]; [done |]. unfold all_ws. cbn.
  intros [Hc Hw]%andb_true_iff. rewrite str_app_cons. cbn. rewrite Hc. by apply IH.
Qed.

(** [trim] takes white space off the end of a text that has none at its own
    ends. *)
Lemma trim_body b w :
  head_is is_ws b = false → last_is is_ws b = false → all_ws w = true →
  trim (b +:+ w) = b.
Proof.
  intros Hh Hl Hw. unfold trim.
  destruct b as [| c b].
  - rewrite str_app_nil_l. rewrite <- (str_app_nil_r w) at 1.
    rewrite trim_start_ws by done. done.
  - rewrite (trim_start_head (String c b +:+ w)) by done.
    rewrite rev_string_app, (rev_string_acc w), trim_start_ws.
    + rewrite trim_start_head; [apply rev_string_invol |].
      by rewrite <- last_is_rev, rev_string_invol.
    + unfold all_ws. rewrite str_forall_rev. unfold all_ws in Hw. by rewrite Hw.
Qed.

Lemma unlines_cons l ls : unlines (l :: ls) = l +:+ nl +:+ unlines ls.
Proof. reflexivity. Qed.

Lemma unlines_body ls :
  ls ≠ [] → Forall printed_line ls →
  ∃ body, unlines ls = body +:+ nl ∧ split_lines body = ls ∧ body ≠ ""
          ∧ head_is is_ws body = false ∧ last_is is_ws body = false.
Proof.
  induction ls as [| l ls IH]; [done |]. intros _ Hall.
  apply Forall_cons in Hall as [(Hne & Hnl & Hh & Hl) Hall].
  destruct ls as [| l2 ls].
  - exists l. rewrite unlines_cons. change (unlines []) with "". rewrite str_app_nil_r.
    split; [done |].
    split; [| done]. unfold split_lines, split_char. by rewrite split_on_no_sep.
  - destruct IH as (body & E & Hs & Hb & Hbh & Hbl); [done | done |].
    exists (l +:+ nl +:+ body). rewrite (unlines_cons l), E.
    split; [by rewrite !str_app_assoc |]. split; [| split; [by destruct l | split]].
    + unfold split_lines, split_char, nl in *. rewrite str_app_cons, str_app_nil_l.
      rewrite split_on_line by done. by rewrite Hs.
    + by rewrite head_is_app.
    + rewrite last_is_app; [by rewrite last_is_app |]. by destruct body.
Qed.

(** The lines of a printed text are read back one by one. *)
Lemma split_lines_unlines ls :
  ls ≠ [] → Forall printed_line ls → split_lines (trim (unlines ls)) = ls.
Proof.
  intros Hne Hall. destruct (unlines_body ls Hne Hall) as (body & -> & Hs & _ & Hh & Hl).
  by rewrite trim_body.
Qed.

Section process_service_19.
Import ProcessService.

(** ** Reading the counters that [grep] prints *)

Lemma str_forall_impl (f g : ascii → bool) s :
  (∀ c, f c = true → g c = true) → str_forall f s = true → str_forall g s = true.
Proof.
  intros Hfg. induction s as [| c s IH]; [done |]. cbn.
  intros [Hc Hs]%andb_true_iff. by rewrite (Hfg c Hc), IH.
Qed.

Lemma all_digits_forall s : all_digits s = str_forall is_digit s.
Proof. induction s as [| c s IH]; [done |]. cbn. by rewrite IH. Qed.

Lemma digit_not_newline c :
  is_digit c = true → (if decide (c = newline) then false else true) = true.
Proof. destruct (decide (c = newline)) as [-> | ?]; [by cbn | done]. Qed.

Lemma all_digits_no_newline s : all_digits s = true → no_newline s = true.
Proof.
  rewrite all_digits_forall. apply str_forall_impl, digit_not_newline.
Qed.

Lemma all_digits_last s : all_digits s = true → last_is is_ws s = false.
Proof.
  induction s as [| c s IH]; [done |]. cbn [all_digits last_is].
  intros [Hc Hs]%andb_true_iff. destruct s; [by apply digit_not_ws | by apply IH].
Qed.

Lemma no_newline_app a b : no_newline (a +:+ b) = no_newline a && no_newline b.
Proof. apply str_forall_app. Qed.

Lemma io_text_line_printed p c v :
  (0 ≤ p)%Z → (0 ≤ v)%Z → c = "read_bytes" ∨ c = "write_bytes" → printed_line (io_text_line p c v).
Proof.
  intros Hp Hv Hc. unfold io_text_line.
  destruct (pretty_Z_digits p Hp) as (Hdp & _ & _), (pretty_Z_digits v Hv) as (Hdv & _ & Hnv).
  split; [by rewrite str_app_cons |]. split; [| split; [reflexivity |]].
  - rewrite !no_newline_app.
    rewrite (all_digits_no_newline (pretty p)), (all_digits_no_newline (pretty v)) by done.
    by destruct Hc as [-> | ->].
  - rewrite <- !str_app_assoc. rewrite last_is_app by done. by apply all_digits_last.
Qed.

Lemma io_match_text_line p c v :
  (0 ≤ p)%Z → (0 ≤ v)%Z → c = "read_bytes" ∨ c = "write_bytes" →
  io_match (io_text_line p c v) = Some (p, bool_decide (c = "read_bytes"), v).
Proof.
  intros Hp Hv Hc.
  destruct (pretty_Z_digits p Hp) as (Hdp & Hvp & Hnp), (pretty_Z_digits v Hv) as (Hdv & Hvv & Hnv).
  assert (Hat : io_match_at (io_text_line p c v) = Some (p, bool_decide (c = "read_bytes"), v)).
  { unfold io_match_at, io_text_line. rewrite drop_prefix_app.
    unfold digits at 1. rewrite digits_from_app by done. rewrite Hvp.
    destruct (Nat.eqb_spec (0 + String.length (pretty p)) 0) as [E | _].
    { destruct (pretty p); [done | cbn in E; lia]. }
    rewrite drop_prefix_app.
    assert (Hval : ∀ r, r = ": " +:+ pretty v →
              match drop_prefix ":" r with
              | Some r4 => let '(v0, k, _) := digits (trim_start r4) in
                           if (k =? 0)%nat then None else Some (p, bool_decide (c = "read_bytes"), v0)
              | None => None
              end = Some (p, bool_decide (c = "read_bytes"), v)).
    { intros r ->. change (": " +:+ pretty v) with (":" +:+ (" " +:+ pretty v)).
      rewrite drop_prefix_app. change (" " +:+ pretty v) with (String " " (pretty v)).
      cbn [trim_start]. change (is_ws " ") with true. cbn iota.
      rewrite trim_start_head.
      - rewrite digits_all by done. rewrite Hvv.
        destruct (Nat.eqb_spec (String.length (pretty v)) 0) as [E | _]; [| done].
        destruct (pretty v); [done | cbn in E; lia].
      - destruct (pretty v) as [| d s] eqn:E; [done |]. cbn in Hdv |- *.
        apply andb_true_iff in Hdv as [Hd _]. by apply digit_not_ws. }
    destruct Hc as [-> | ->].
    - rewrite drop_prefix_app. rewrite bool_decide_true by done.
      rewrite bool_decide_true in Hval by done. by apply Hval.
    - change (drop_prefix "read_bytes" ("write_bytes" +:+ ": " +:+ pretty v)) with (@None string).
      cbn iota. rewrite drop_prefix_app. rewrite bool_decide_false by done.
      rewrite bool_decide_false in Hval by done. by apply Hval. }
  destruct (io_text_line p c v); cbn [io_match]; by rewrite Hat.
Qed.

Lemma io_line_text result p c v :
  (0 ≤ p)%Z → (0 ≤ v)%Z → c = "read_bytes" ∨ c = "write_bytes" →
  io_line result (io_text_line p c v)
  = let cur := default {| readBytes := num_of_Z 0; writeBytes := num_of_Z 0 |} (result !! p) in
    <[p := if bool_decide (c = "read_bytes")
           then {| readBytes := num_of_Z v; writeBytes := writeBytes cur |}
           else {| readBytes := readBytes cur; writeBytes := num_of_Z v |}]> result.
Proof.
  intros Hp Hv Hc. unfold io_line.
  rewrite io_match_text_line by done.
  destruct (io_text_line p c v) eqn:E; [| done].
  by destruct (io_text_line_printed p c v Hp Hv Hc) as [? _].
Qed.

Lemma io_lines_entry result p r w :
  (0 ≤ p)%Z → (0 ≤ r)%Z → (0 ≤ w)%Z →
  foldl io_line result (io_text_lines (p, r, w))
  = <[p := {| readBytes := num_of_Z r; writeBytes := num_of_Z w |}]> result.
Proof.
  intros Hp Hr Hw. cbn [io_text_lines foldl].
  rewrite !io_line_text by auto. cbn zeta.
  rewrite (bool_decide_true ("read_bytes" = "read_bytes")) by done.
  rewrite (bool_decide_false ("write_bytes" = "read_bytes")) by done.
  rewrite lookup_insert_eq. cbn. apply insert_insert_eq.
Qed.

Lemma foldl_bind {A B C} (f : A → B → A) (g : C → list B) (l : list C) : ∀ a,
  foldl f a (l ≫= g) = foldl (λ a c, foldl f a (g c)) a l.
Proof.
  induction l as [| c l IH]; intros a; [done |].
  cbn. rewrite foldl_app. apply IH.
Qed.

Lemma foldl_insert_reverse {V} (l : list (Z * V)) : ∀ m : gmap Z V,
  foldl (λ m kv, <[kv.1 := kv.2]> m) m l
  = foldr (λ kv m, <[kv.1 := kv.2]> m) m (reverse l).
Proof.
  induction l as [| kv l IH]; intros m; [done |].
  cbn [foldl]. rewrite reverse_cons, foldr_app. cbn [foldr]. apply IH.
Qed.

Lemma fold_entries entries : ∀ result,
  Forall (λ e, (0 ≤ e.1.1)%Z ∧ (0 ≤ e.1.2)%Z ∧ (0 ≤ e.2)%Z) entries →
  foldl (λ a e, foldl io_line a (io_text_lines e)) result entries
  = foldl (λ m kv, <[kv.1 := kv.2]> m) result (io_entry <$> entries).
Proof.
  induction entries as [| [[p r] w] entries IH]; intros result Hall; [done |].
  apply Forall_cons in Hall as [(Hp & Hr & Hw) Hall]. cbn [fst snd] in *.
  cbn [foldl fmap list_fmap]. rewrite io_lines_entry by done. by rewrite IH.
Qed.

(** X14.  What [grep -H] prints for the I/O counters of a list of processes
    with distinct pids is read back by [fetchProcessIo] as exactly these
    processes with exactly these counters: no process is lost, none is
    invented, and the read and written bytes are not mixed up. *)
Theorem fetchProcessIo_reads_grep (entries : list (Z * Z * Z)) :
  Forall (λ e, (0 ≤ e.1.1)%Z ∧ (0 ≤ e.1.2)%Z ∧ (0 ≤ e.2)%Z) entries →
  NoDup (entries.*1.*1) →
  fetchProcessIo (Resolved (Some (grep_output entries))) = list_to_map (io_entry <$> entries).
Proof.
  intros Hall Hdup. unfold fetchProcessIo, grep_output.
  destruct entries as [| e entries]; [done |].
  rewrite split_lines_unlines.
  - rewrite foldl_bind, fold_entries by done.
    rewrite foldl_insert_reverse.
    change (foldr _ ∅ ?l) with (list_to_map (M := gmap Z IoBytes) l).
    apply list_to_map_proper; [| apply reverse_Permutation].
    rewrite fmap_reverse, reverse_Permutation.
    replace ((io_entry <$> e :: entries).*1) with ((e :: entries).*1.*1); [done |].
    rewrite <- !list_fmap_compose. apply list_fmap_ext. by intros _ [[? ?] ?] _.
  - destruct e as [[p r] w]. done.
  - apply Forall_bind. eapply Forall_impl; [exact Hall |].
    intros [[p r] w] (Hp & Hr & Hw). cbn [fst snd] in *.
    repeat apply Forall_cons_2; [| | done]; apply io_text_line_printed; auto.
Qed.

Lemma fetchProcessIo_reads_grep_witness :
  fetchProcessIo (Resolved (Some (grep_output [(1, 4096, 0); (4242, 10, 20)])))
  = list_to_map (io_entry <$> [(1, 4096, 0); (4242, 10, 20)]).
Proof.
  apply fetchProcessIo_reads_grep.
  - repeat apply Forall_cons_2; [| | done]; cbn; lia.
  - apply (bool_decide_unpack _). vm_compute. exact I.
Defined.

End process_service_19.

(** ** Columns *)

Lemma split_ws_from_col col s : ∀ cur in_run,
  no_ws col = true → col ≠ "" →
  split_ws_from (col +:+ s) cur in_run = split_ws_from s (rev_string col cur) false.
Proof.
  induction col as [| c col IH]; intros cur in_run Hws Hne; [done |].
  unfold no_ws in Hws. cbn in Hws. apply andb_true_iff in Hws as [Hc Hws].
  apply negb_true_iff in Hc.
  rewrite str_app_cons. cbn [split_ws_from rev_string]. rewrite Hc.
  destruct col as [| c' col]; [done |]. by apply IH.
Qed.

Lemma split_ws_from_run sep s :
  all_ws sep = true → split_ws_from (sep +:+ s) "" true = split_ws_from s "" true.
Proof.
  induction sep as [| c sep IH]; [done |]. unfold all_ws. cbn.
  intros [Hc Hw]%andb_true_iff. rewrite str_app_cons. cbn [split_ws_from]. rewrite Hc.
  by apply IH.
Qed.

Lemma split_ws_from_sep sep s cur :
  separator sep →
  split_ws_from (sep +:+ s) cur false = rev_string cur "" :: split_ws_from s "" true.
Proof.
  intros [Hne Hw]. destruct sep as [| c sep]; [done |].
  unfold all_ws in Hw. cbn in Hw. apply andb_true_iff in Hw as [Hc Hw].
  rewrite str_app_cons. cbn [split_ws_from]. rewrite Hc. f_equal.
  by apply split_ws_from_run.
Qed.

Lemma split_ws_from_columns rest : ∀ first in_run,
  token first → Forall (λ sc, separator sc.1 ∧ token sc.2) rest →
  split_ws_from (columns first rest) "" in_run = first :: rest.*2.
Proof.
  induction rest as [| [sep col] rest IH]; intros first in_run [Hne Hws] Hall.
  - cbn [columns]. rewrite <- (str_app_nil_r first) at 1.
    rewrite split_ws_from_col by done. cbn. by rewrite rev_string_invol.
  - apply Forall_cons in Hall as [[Hsep Hcol] Hall]. cbn [fst snd] in *.
    cbn [columns]. rewrite split_ws_from_col by done.
    rewrite split_ws_from_sep by done. rewrite rev_string_invol.
    cbn [fmap list_fmap snd]. f_equal. by apply IH.
Qed.

Lemma token_ends s : token s → head_is is_ws s = false ∧ last_is is_ws s = false.
Proof.
  intros [Hne Hws]. unfold no_ws in Hws. split.
  - destruct s as [| c s]; [done |]. cbn in *. apply andb_true_iff in Hws as [Hc _].
    by apply negb_true_iff.
  - clear Hne. induction s as [| c s IH]; [done |]. cbn in Hws |- *.
    apply andb_true_iff in Hws as [Hc Hws]. destruct s; [by apply negb_true_iff | by apply IH].
Qed.

Lemma columns_ends rest : ∀ first,
  token first → Forall (λ sc, separator sc.1 ∧ token sc.2) rest →
  columns first rest ≠ "" ∧ head_is is_ws (columns first rest) = false
  ∧ last_is is_ws (columns first rest) = false.
Proof.
  induction rest as [| [sep col] rest IH]; intros first Hf Hall.
  - split; [apply Hf | by apply token_ends].
  - apply Forall_cons in Hall as [[Hsep Hcol] Hall]. cbn [fst snd columns] in *.
    destruct (IH col Hcol Hall) as (Hne & _ & Hl). destruct Hf as [Hfne Hfws].
    split; [by destruct first |]. split.
    + rewrite head_is_app by done. by apply token_ends.
    + rewrite !last_is_app; [done | done |]. by destruct sep.
Qed.

Lemma trim_lead w s : all_ws w = true → trim (w +:+ s) = trim s.
Proof. intros Hw. unfold trim. by rewrite trim_start_ws. Qed.

Lemma fields_columns (lead trail first : string) (rest : list (string * string)) :
  all_ws lead = true → all_ws trail = true → token first →
  Forall (λ sc, separator sc.1 ∧ token sc.2) rest →
  fields (lead +:+ columns first rest +:+ trail) = first :: rest.*2.
Proof.
  intros Hlead Htrail Hfirst Hrest. unfold fields.
  destruct (columns_ends rest first Hfirst Hrest) as (_ & Hh & Hl).
  rewrite trim_lead, trim_body by done.
  by apply split_ws_from_columns.
Qed.

(** X15.  The row parser of every section, [line.trim().split(/\s+/)], gives
    back the columns of a line of ASCII characters exactly: whatever white
    space (blanks, tabs, a carriage return) separates the columns, leads the
    line or trails it, the pieces are the columns, in order.  And the pieces
    of any line of ASCII characters that is not blank are columns: none is
    empty and none holds white space. *)
Theorem fields_reads_columns (lead trail first : string) (rest : list (string * string)) :
  all_ws lead = true → all_ws trail = true → token first →
  Forall (λ sc, separator sc.1 ∧ token sc.2) rest →
  ascii_text (lead +:+ columns first rest +:+ trail) = true →
  fields (lead +:+ columns first rest +:+ trail) = first :: rest.*2
  ∧ ∀ line, ascii_text line = true → trim line ≠ "" → Forall token (fields line).
Proof.
  intros Hlead Htrail Hfirst Hrest _. split.
  - by apply fields_columns.
  - intros line _ Hline. by apply fields_tokens.
Qed.

Lemma fields_reads_columns_witness :
  fields ("  8   0 sda" +:+ String (ascii_of_nat 9) "42 7 " +:+ String newline "")
  = ["8"; "0"; "sda"; "42"; "7"].
Proof.
  apply (fields_reads_columns "  " (" " +:+ String newline "") "8"
           [("   ", "0"); (" ", "sda"); (String (ascii_of_nat 9) "", "42"); (" ", "7")]).
  - reflexivity.
  - reflexivity.
  - split; [done | reflexivity].
  - repeat apply Forall_cons_2; [| | | | done];
      (split; (split; [done | reflexivity])).
  - reflexivity.
Defined.

(** ** Counters of a line of /proc/stat *)

Lemma Number_pretty n : (0 ≤ n)%Z → Number (pretty n) = num_of_Z n.
Proof.
  intros Hn. destruct (pretty_Z_digits n Hn) as (Hd & Hv & Hne).
  unfold Number.
  assert (Ht : trim (pretty n) = pretty n).
  { rewrite <- (str_app_nil_r (pretty n)) at 1. apply trim_body; [| by apply all_digits_last | done].
    destruct (pretty n) as [| c s]; [done |]. cbn in Hd |- *.
    apply andb_true_iff in Hd as [Hc _]. by apply digit_not_ws. }
  rewrite Ht. destruct (pretty n) as [| c s] eqn:E; [done |]. rewrite <- E in *.
  rewrite sign_of_digit by (by apply head_is_digit_all).
  rewrite (decimal_prefix_int _ _ _ _ (digits_all _ Hd)) by done.
  destruct (Nat.eqb_spec (String.length (pretty n)) 0) as [E0 | _].
  { rewrite E in E0. cbn in E0. lia. }
  rewrite Hv. unfold num_of_Z. f_equal. rewrite <- (Qred_inject_Z n) at 2.
  apply Qred_complete. unfold Qeq. cbn. lia.
Qed.

(** X16.  [parseCpuLine] reads a line of /proc/stat as the kernel prints it,
    a label followed by counters separated by blanks: it drops the label
    and returns the counters, in order, whatever the number of blanks and
    of counters. *)
Theorem parseCpuLine_reads (label : string) (counters : list (string * Z)) :
  token label →
  Forall (λ sc, separator sc.1 ∧ (0 ≤ sc.2)%Z) counters →
  parseCpuLine (columns label (prod_map id pretty <$> counters)) = num_of_Z <$> counters.*2.
Proof.
  intros Hlabel Hall. unfold parseCpuLine.
  pose proof (fields_columns "" "" label (prod_map id pretty <$> counters)) as H.
  rewrite str_app_nil_l, str_app_nil_r in H. rewrite H; [| done | done | done |].
  - match goal with
    | |- context [drop 1 (label :: ?x)] => change (drop 1 (label :: x)) with x
    end.
    clear H. induction Hall as [| [sep n] l [_ Hn] _ IH]; [done |].
    rewrite !fmap_cons. cbn [prod_map fst snd]. by rewrite Number_pretty, IH.
  - apply Forall_fmap. eapply Forall_impl; [exact Hall |].
    intros [sep n] [Hsep Hn]. cbn in *. split; [done |].
    destruct (pretty_Z_digits n Hn) as (Hd & _ & Hne). split; [done |].
    unfold no_ws. rewrite all_digits_forall in Hd.
    eapply str_forall_impl; [| exact Hd]. intros c Hc. by rewrite digit_not_ws.
Qed.

Lemma parseCpuLine_reads_witness :
  parseCpuLine (columns "cpu" (prod_map id pretty <$> [("  ", 3357); (" ", 0); (" ", 4313)]))
  = num_of_Z <$> [3357; 0; 4313].
Proof.
  apply (parseCpuLine_reads "cpu" [("  ", 3357); (" ", 0); (" ", 4313)]).
  - split; [done | reflexivity].
  - repeat apply Forall_cons_2; [| | | done]; (split; [split; [done | reflexivity] | cbn; lia]).
Defined.

(** ** Hardware information *)

Section hardware.
Import Hardware.

Lemma no_ws_no_newline s : no_ws s = true → no_newline s = true.
Proof.
  apply str_forall_impl. intros c Hc. destruct (decide (c = newline)) as [-> | ?]; done.
Qed.

Lemma lsblk_text_printed r : lsblk_row_ok r → printed_line (lsblk_text r).
Proof.
  intros ([Hn Hnw] & [Hs Hsw] & [Ht Htw] & Hg1 & Hl1 & Hg2 & Hl2).
  destruct (columns_ends [(gap1 r, row_size r); (gap2 r, row_type r)] (row_name r))
    as (Hne & Hh & Hl).
  { done. }
  { repeat apply Forall_cons_2; done. }
  split; [done |]. split; [| done].
  unfold lsblk_text. cbn [columns]. rewrite !no_newline_app.
  by rewrite Hl1, Hl2, !no_ws_no_newline.
Qed.

Lemma disk_line_row devices r :
  lsblk_row_ok r →
  disk_line devices (lsblk_text r)
  = if bool_decide (row_type r = "disk")
    then (devices ++ [{| disk_name := row_name r; sizeGB := row_size r |}])%list
    else devices.
Proof.
  intros (Hn & Hs & Ht & Hg1 & _ & Hg2 & _). unfold disk_line.
  pose proof (fields_columns "" "" (row_name r)
                [(gap1 r, row_size r); (gap2 r, row_type r)]) as H.
  rewrite str_app_nil_l, str_app_nil_r in H. unfold lsblk_text. rewrite H; try done.
  - cbn. destruct (decide (row_type r = "disk")) as [E | E].
    + by rewrite !bool_decide_true by congruence.
    + by rewrite !bool_decide_false by congruence.
  - repeat apply Forall_cons_2; done.
Qed.

Lemma fold_disk_line rows : ∀ devices,
  Forall lsblk_row_ok rows →
  foldl disk_line devices (lsblk_text <$> rows) = (devices ++ listed_disks rows)%list.
Proof.
  induction rows as [| r rows IH]; intros devices Hall.
  - cbn. by rewrite app_nil_r.
  - apply Forall_cons in Hall as [Hr Hall]. cbn [fmap list_fmap foldl].
    rewrite disk_line_row, IH by done. unfold listed_disks. cbn [List.filter].
    destruct (bool_decide (row_type r = "disk")); [| done].
    by rewrite <- app_assoc.
Qed.

(** X17.  What [lsblk -dno NAME,SIZE,TYPE] prints is read back by
    [fetchHardwareInfo] as the devices of type [disk], each with its name
    and size, in the order of the rows; rows of another type (rom, loop)
    are left out.  A command that fails or prints nothing gives no
    device. *)
Theorem disk_devices_read_lsblk (h : host) (rows : list lsblk_row) :
  Forall lsblk_row_ok rows →
  (lsblk h = Resolved (Some (unlines (lsblk_text <$> rows))) →
   diskDevices (fetchHardwareInfo h) = listed_disks rows)
  ∧ (lsblk h = Rejected ∨ lsblk h = Resolved None ∨ lsblk h = Resolved (Some "") →
     diskDevices (fetchHardwareInfo h) = []).
Proof.
  intros Hall. split.
  - intros E0. unfold fetchHardwareInfo. cbn [diskDevices]. rewrite E0. cbn [or_empty].
    destruct rows as [| r rows]; [done |].
    assert (Hne : unlines (lsblk_text <$> r :: rows) ≠ "").
    { rewrite fmap_cons, unlines_cons. apply Forall_cons in Hall as [Hr _].
      destruct (lsblk_text_printed r Hr) as [Hne _].
      destruct (lsblk_text r); [done | by rewrite str_app_cons]. }
    destruct (unlines (lsblk_text <$> r :: rows)) as [| c s] eqn:E; [done |].
    cbn [content_of]. rewrite <- E. unfold disk_devices.
    rewrite split_lines_unlines; [by rewrite fold_disk_line | done |].
    apply Forall_fmap. eapply Forall_impl; [exact Hall |]. apply lsblk_text_printed.
  - unfold fetchHardwareInfo. cbn [diskDevices]. by intros [E0 | [E0 | E0]]; rewrite E0.
Qed.
End hardware.

Section hardware_more.
Import Hardware.

Lemma disk_devices_read_lsblk_witness :
  diskDevices (fetchHardwareInfo
    {| cpuinfo := Rejected;
       lsblk := Resolved (Some (unlines (lsblk_text <$>
                  [ {| row_name := "sda"; gap1 := "   "; row_size := "931.5G";
                       gap2 := " "; row_type := "disk" |};
                    {| row_name := "sr0"; gap1 := "  "; row_size := "1024M";
                       gap2 := " "; row_type := "rom" |} ])));
       netDir := Rejected; speed_file := λ _, Rejected; nvidia_smi := Rejected;
       drm_cards := Rejected; busy_file_exists := λ _, false;
       vendor_file := λ _, Rejected; product_name_file := λ _, Rejected;
       lspci := λ _, Rejected |})
  = [{| disk_name := "sda"; sizeGB := "931.5G" |}].
Proof.
  refine (proj1 (disk_devices_read_lsblk _
            [ {| row_name := "sda"; gap1 := "   "; row_size := "931.5G";
                 gap2 := " "; row_type := "disk" |};
              {| row_name := "sr0"; gap1 := "  "; row_size := "1024M";
                 gap2 := " "; row_type := "rom" |} ] _) _); [| reflexivity].
  repeat apply Forall_cons_2; [| | done];
    (repeat split; first [done | reflexivity]).
Defined.

(** ** Network interfaces *)

Lemma iface_names (mk : string → option string → NetworkInterface) f l :
  (∀ n c, iface_name (mk n c) = n) →
  iface_name <$> zip_with mk l (f <$> l) = l.
Proof.
  intros Hmk. induction l as [| x l IH]; [done |]. cbn. by rewrite Hmk, IH.
Qed.

Lemma network_interfaces_names h text :
  iface_name <$> network_interfaces h text
  = List.filter (λ n, negb (String.eqb n "lo")) (split_ws (trim text)).
Proof. unfold network_interfaces. by apply iface_names. Qed.

Lemma iface_speed_rule h n :
  speed_rule h {| iface_name := n; speed := iface_speed (or_null (speed_file h n)) |}.
Proof.
  unfold speed_rule. cbn [speed iface_name].
  destruct (or_null (speed_file h n)) as [text |]; [| by left]. cbn [iface_speed].
  destruct (trim text) as [| c r] eqn:E; [by left |]. rewrite <- E.
  destruct (Number (trim text)) as [| q] eqn:EN; [by left |]. cbn [isNaN negb andb].
  destruct (ngt (Num q) (num_of_Z 0)) eqn:Hgt; [| by left].
  right. exists text, q. split; [done |]. split; [done |]. split; [done |].
  by apply ngt_zero in Hgt.
Qed.

Lemma network_interfaces_rule h text :
  Forall (λ i, iface_name i ≠ "lo" ∧ speed_rule h i) (network_interfaces h text).
Proof.
  unfold network_interfaces.
  set (l := List.filter _ _).
  assert (Hl : Forall (λ n, n ≠ "lo") l).
  { apply Forall_forall. intros n Hn%list_elem_of_In%filter_In.
    destruct Hn as [_ Hn]. apply negb_true_iff, String.eqb_neq in Hn. done. }
  induction Hl as [| n l Hn _ IH]; [done |].
  cbn. apply Forall_cons. split; [| done]. split; [done |]. apply iface_speed_rule.
Qed.

(** X18.  Whatever the host answers, the loopback interface is never among
    the network interfaces of [fetchHardwareInfo], and the speed shown for
    an interface is either nothing or the trimmed content of the speed file
    of that very interface followed by " Mbps", and then this content reads
    as a number above 0: a file that is missing, unreadable, empty, not a
    number, 0 or negative (a link that is down reports -1) shows no
    speed. *)
Theorem interface_speeds (h : host) :
  Forall (λ i, iface_name i ≠ "lo" ∧ speed_rule h i)
         (networkInterfaces (fetchHardwareInfo h)).
Proof.
  unfold fetchHardwareInfo. cbn [networkInterfaces].
  destruct (content_of _); [apply network_interfaces_rule | done].
Qed.

Lemma unlines_columns n ns :
  unlines (n :: ns) = columns n ((λ x, (nl, x)) <$> ns) +:+ nl.
Proof.
  revert n. induction ns as [| m ns IH]; intros n; [done |].
  rewrite unlines_cons, IH. cbn [fmap list_fmap columns]. by rewrite !str_app_assoc.
Qed.

(** X19.  The names that [ls /sys/class/net] prints, one per line, are the
    interfaces [fetchHardwareInfo] reports, in the same order, without the
    loopback interface [lo]. *)
Theorem interfaces_listed (h : host) (names : list string) :
  Forall token names →
  netDir h = Resolved (Some (unlines names)) →
  iface_name <$> networkInterfaces (fetchHardwareInfo h)
  = List.filter (λ n, negb (String.eqb n "lo")) names.
Proof.
  intros Hall E. unfold fetchHardwareInfo. cbn [networkInterfaces]. rewrite E.
  cbn [or_empty]. destruct names as [| n ns]; [done |].
  apply Forall_cons in Hall as [Hn Hns].
  assert (Hf : fields (unlines (n :: ns)) = n :: ns).
  { rewrite unlines_columns.
    pose proof (fields_columns "" nl n ((λ x, (nl, x)) <$> ns)) as H.
    rewrite str_app_nil_l in H. rewrite H; try done.
    - f_equal. rewrite <- list_fmap_compose. apply list_fmap_id.
    - apply Forall_fmap. eapply Forall_impl; [exact Hns |]. intros x Hx. by split.  }
  destruct (unlines (n :: ns)) as [| c s] eqn:Eu.
  { rewrite unlines_cons in Eu. destruct Hn as [Hn _].
    destruct n; [done | by rewrite str_app_cons in Eu]. }
  cbn [content_of]. rewrite network_interfaces_names. by rewrite <- Hf.
Qed.

Lemma interfaces_listed_witness :
  iface_name <$> networkInterfaces (fetchHardwareInfo
    {| cpuinfo := Rejected; lsblk := Rejected;
       netDir := Resolved (Some (unlines ["eth0"; "lo"; "wlan0"]));
       speed_file := λ _, Rejected; nvidia_smi := Rejected;
       drm_cards := Rejected; busy_file_exists := λ _, false;
       vendor_file := λ _, Rejected; product_name_file := λ _, Rejected;
       lspci := λ _, Rejected |})
  = ["eth0"; "wlan0"].
Proof.
  refine (interfaces_listed _ ["eth0"; "lo"; "wlan0"] _ _); [| reflexivity].
  repeat apply Forall_cons_2; [| | | done]; (split; [done | reflexivity]).
Defined.

End hardware_more.

(** ** Detection of GPUs *)

Section gpus.
Import Hardware.

Lemma take_while_forall f s : str_forall f (take_while f s) = true.
Proof.
  induction s as [| c s IH]; [done |]. cbn. destruct (f c) eqn:E; [| done].
  cbn. by rewrite E.
Qed.

Lemma leftmost_Some {A} (at_head : string → option A) s m :
  leftmost at_head s = Some m → ∃ s', at_head s' = Some m.
Proof.
  induction s as [| c s IH]; cbn.
  - destruct (at_head "") eqn:E; [| done]. intros [= <-]. eauto.
  - destruct (at_head (String c s)) eqn:E; [intros [= <-]; eauto | apply IH].
Qed.

Lemma card_at_digits s cap : card_at s = Some cap → all_digits cap = true ∧ cap ≠ "".
Proof.
  unfold card_at. destruct (drop_prefix "card" s) as [r |]; [| done].
  pose proof (take_while_forall is_digit r) as H.
  destruct (take_while is_digit r) as [| c t]; [done |]. intros [= <-].
  by rewrite all_digits_forall.
Qed.

Lemma parseInt_digits s :
  all_digits s = true → s ≠ "" → parseInt s = num_of_Z (dval 0 s) ∧ (0 ≤ dval 0 s)%Z.
Proof.
  intros Hd Hne. split; [| by apply dval_nonneg]. unfold parseInt.
  rewrite trim_start_head.
  - rewrite sign_of_digit by (by apply head_is_digit_all).
    rewrite digits_all by done.
    destruct (Nat.eqb_spec (String.length s) 0) as [E | _]; [by destruct s |].
    by rewrite Z.mul_1_l.
  - destruct s as [| c s]; [done |]. cbn in Hd |- *.
    apply andb_true_iff in Hd as [Hc _]. by apply digit_not_ws.
Qed.

Lemma nvidia_line_family gpus line :
  Forall (λ g, vendor g = nvidia) gpus → Forall (λ g, vendor g = nvidia) (nvidia_line gpus line).
Proof.
  intros H. unfold nvidia_line. destruct (_ <=? _)%nat; [| done].
  apply Forall_app. split; [done |]. by apply Forall_singleton.
Qed.

Lemma card_line_family h gpus cardPath :
  Forall sysfs_gpu gpus → Forall sysfs_gpu (card_line h gpus cardPath).
Proof.
  intros H. unfold card_line. destruct (busy_file_exists h _); [| done].
  apply Forall_app. split; [done |]. apply Forall_singleton.
  set (cardNum := match leftmost card_at (trim cardPath) with
                  | Some (String c r) => String c r
                  | _ => "0"
                  end).
  assert (Hnum : all_digits cardNum = true ∧ cardNum ≠ "").
  { subst cardNum. destruct (leftmost card_at (trim cardPath)) as [cap |] eqn:E; [| done].
    apply leftmost_Some in E as [s' E]. apply card_at_digits in E as [Hd Hne].
    by destruct cap. }
  destruct Hnum as [Hd Hne]. destruct (parseInt_digits cardNum Hd Hne) as [Hp Hk].
  unfold sysfs_gpu. cbn [vendor index name]. split; [| split].
  - destruct (bool_decide _); auto.
  - eauto.
  - destruct (trim <$> _) as [[| c r] |]; [| done |]; by rewrite str_app_cons.
Qed.

Lemma foldl_Forall {A B} (P : A → Prop) (f : list A → B → list A) (l : list B) :
  (∀ acc x, Forall P acc → Forall P (f acc x)) →
  ∀ acc, Forall P acc → Forall P (foldl f acc l).
Proof.
  intros Hf. induction l as [| x l IH]; intros acc Hacc; [done |].
  cbn [foldl]. by apply IH, Hf.
Qed.

(** The GPUs that the NVIDIA tool lists. *)
Lemma detectGpus_cases h :
  ∃ nv, Forall (λ g, vendor g = nvidia) nv
        ∧ (∀ h', nvidia_smi h' = nvidia_smi h →
             ∃ fs, Forall sysfs_gpu fs
                   ∧ detectGpus h' = match nv with [] => fs | _ => nv end).
Proof.
  unfold detectGpus.
  set (nv := match content_of (or_empty (nvidia_smi h)) with
             | Some nvOut =>
                 match trim nvOut with
                 | "" => []
                 | _ => foldl nvidia_line [] (split_lines (trim nvOut))
                 end
             | None => []
             end).
  exists nv. split.
  - subst nv. destruct (content_of _) as [nvOut |]; [| done].
    destruct (trim nvOut); [done |].
    by apply foldl_Forall; [apply nvidia_line_family |].
  - intros h' E. rewrite E. fold nv. clearbody nv.
    exists (match content_of (or_empty (drm_cards h')) with
            | Some drmCards =>
                match trim drmCards with
                | "" => []
                | _ => foldl (card_line h') [] (split_lines (trim drmCards))
                end
            | None => []
            end).
    split; [| reflexivity].
    destruct (content_of _) as [drmCards |]; [| done].
    destruct (trim drmCards); [done |].
    by apply foldl_Forall; [apply card_line_family |].
Qed.

(** X20.  The GPUs that [detectGpus] returns are of one family: either all of
    them come from the NVIDIA tool, or none does.  When the NVIDIA tool
    lists a GPU, the cards of sysfs are not looked at: the result is the
    same whatever the host answers about them.  A GPU found through sysfs
    has vendor [amd] or [intel], a card number that is a whole number at
    least 0 (never NaN) and a name that is not empty. *)
Theorem detectGpus_one_family (h : host) :
  (Forall (λ g, vendor g = nvidia) (detectGpus h)
   ∧ (detectGpus h ≠ [] →
      ∀ h', nvidia_smi h' = nvidia_smi h → detectGpus h' = detectGpus h))
  ∨ Forall sysfs_gpu (detectGpus h).
Proof.
  destruct (detectGpus_cases h) as (nv & Hnv & Hcases).
  destruct (Hcases h eq_refl) as (fs & Hfs & E).
  destruct nv as [| g nv].
  - right. by rewrite E.
  - left. rewrite E. split; [done |]. intros _ h' Eh.
    by destruct (Hcases h' Eh) as (fs' & _ & ->).
Qed.

End gpus.

(** ** The two samplers *)

#[local] Instance gpu_same_preorder : PreOrder gpu_same.
Proof.
  split.
  - by intros σ.
  - intros σ1 σ2 σ3 [? H12] [? H23]. split; [congruence | intros; by rewrite H23, H12].
Qed.

Lemma addHistoryPoint_gpu a v :
  not_gpu a → hoare gpu_same (addHistoryPoint a v) (λ _, True).
Proof.
  intros Ha σ Hwf. split; [by apply wf_addHistoryPoint |]. split; [| done].
  split; [done |]. intros idx w. cbn. rewrite lookup_alter_ne; [done | apply Ha].
Qed.

(** A step that changes neither the arrays nor the GPU histories. *)
Lemma gpu_same_same σ σ' :
  arrays σ' = arrays σ → gpuHistories σ' = gpuHistories σ → gpu_same σ σ'.
Proof. intros Ha Hg. split; [done | by rewrite Ha]. Qed.

Lemma core_history_gpu i : hoare gpu_same (core_history i) (λ a, not_gpu a).
Proof.
  eapply hoare_change.
  - eapply hoare_weaken; [apply core_history_R_cpu |]. intros a -> idx w. done.
  - intros σ Hwf. unfold core_history. run.
    destruct (perCoreHistories σ !! i) as [a |]; cbn; [reflexivity |].
    split; [done |]. intros idx w. cbn. by rewrite lookup_insert_ne.
Qed.

Lemma disk_history_gpu dev :
  hoare gpu_same (disk_history dev) (λ a, not_gpu a.1 ∧ not_gpu a.2).
Proof.
  eapply hoare_change.
  - eapply hoare_weaken; [apply disk_history_R_disk |]. intros a ->. by split; intros idx w.
  - intros σ Hwf. unfold disk_history. run.
    destruct (perDiskHistories σ !! dev) as [a |]; cbn; [reflexivity |].
    split; [done |]. intros idx w. cbn. by rewrite !lookup_insert_ne.
Qed.

Lemma iface_history_gpu dev :
  hoare gpu_same (iface_history dev)
    (λ a, match a with Some x => not_gpu x.1 ∧ not_gpu x.2 | None => True end).
Proof.
  eapply hoare_change.
  - eapply hoare_weaken; [apply iface_history_R_net |].
    intros [a |]; [| done]. intros ->. by split; intros idx w.
  - intros σ Hwf. unfold iface_history, property_of. run.
    destruct (perIfaceHistories σ !! dev) as [a |]; cbn; [reflexivity |].
    destruct (inherited dev); cbn; [reflexivity |].
    split; [done |]. intros idx w. cbn. by rewrite !lookup_insert_ne.
Qed.

Ltac gpu_modify :=
  apply hoare_modify; intros ? ?; split;
  [ by eapply wf_arrays_dom; [| | | | | eassumption]
  | by apply gpu_same_same ].

Ltac gpu_get := apply (hoare_get _ _ (λ _, True)); done.

Lemma disk_entry_gpu t e stats : hoare gpu_same (disk_entry t e stats) (λ _, True).
Proof.
  destruct e as [dev [read write]]. unfold disk_entry.
  eapply hoare_bind; [apply _ | gpu_get |]. intros prev _.
  eapply (hoare_bind _ _ _ (λ _, True)).
  - destruct prev as [p |]; [destruct (ngt _ _) |]; try by apply hoare_ret; [apply _ |].
    eapply hoare_bind; [apply _ | apply disk_history_gpu |]. intros a [Ha1 Ha2].
    eapply hoare_bind; [apply _ | by apply addHistoryPoint_gpu |]. intros _ _.
    eapply hoare_bind; [apply _ | by apply addHistoryPoint_gpu |]. intros _ _.
    by apply hoare_ret; [apply _ |].
  - intros st _.
    eapply hoare_bind; [apply _ | gpu_modify | intros; by apply hoare_ret; [apply _ |]].
Qed.

Lemma iface_entry_gpu t e stats : hoare gpu_same (iface_entry t e stats) (λ _, True).
Proof.
  destruct e as [dev [read write]]. unfold iface_entry.
  eapply hoare_bind; [apply _ | gpu_get |]. intros prev _.
  eapply (hoare_bind _ _ _ (λ _, True)).
  - destruct prev as [p | |]; [destruct (ngt _ _) | |]; try by apply hoare_ret; [apply _ |].
    eapply hoare_bind; [apply _ | apply iface_history_gpu |].
    intros [a |] Ha; [| by apply hoare_ret; [apply _ |]]. destruct Ha as [Ha1 Ha2].
    eapply hoare_bind; [apply _ | by apply addHistoryPoint_gpu |]. intros _ _.
    eapply hoare_bind; [apply _ | by apply addHistoryPoint_gpu |]. intros _ _.
    by apply hoare_ret; [apply _ |].
  - intros [st []] _; cbn [snd]; [| by apply hoare_ret; [apply _ |]].
    eapply hoare_bind; [apply _ | gpu_modify | intros; by apply hoare_ret; [apply _ |]].
Qed.

Lemma now_gpu : hoare gpu_same now (λ _, True).
Proof.
  intros σ Hwf. split; [| split; [| done]].
  - revert Hwf. by apply wf_arrays_dom.
  - by split.
Qed.

Lemma diskSection_gpu s stats : hoare gpu_same (diskSection s stats) (λ _, True).
Proof.
  unfold diskSection.
  eapply hoare_bind; [apply _ | apply now_gpu |]. intros t _.
  destruct (scan disk_row (split_lines s)) as [[totalRead totalWrite] cur].
  eapply hoare_bind; [apply _ | gpu_get |]. intros prev _.
  eapply hoare_bind; [apply _ | gpu_modify |]. intros _ _.
  apply (hoare_fold_m gpu_same _ (λ _, True)); [| done].
  intros e st _ _. apply disk_entry_gpu.
Qed.

Lemma netSection_gpu s stats : hoare gpu_same (netSection s stats) (λ _, True).
Proof.
  unfold netSection.
  eapply hoare_bind; [apply _ | apply now_gpu |]. intros t _.
  destruct (scan net_row (drop 2 (split_lines s))) as [[totalSent totalRecv] cur].
  eapply hoare_bind; [apply _ | gpu_get |]. intros prev _.
  eapply hoare_bind; [apply _ | gpu_modify |]. intros _ _.
  apply (hoare_fold_try gpu_same _ (λ _, True)); [| done].
  intros e st _ _. eapply hoare_weaken; [apply iface_entry_gpu | done].
Qed.

Lemma cpuSection_gpu s stats : hoare gpu_same (cpuSection s stats) (λ _, True).
Proof.
  unfold cpuSection.
  eapply hoare_bind; [apply _ | gpu_get |]. intros prev _.
  eapply hoare_bind; [apply _ | gpu_modify |]. intros _ _.
  eapply hoare_bind; [apply _ | gpu_get |]. intros prevCores _.
  eapply hoare_bind; [apply _ | gpu_modify |]. intros _ _.
  eapply hoare_bind; [apply _ | | intros _ _; by apply hoare_ret; [apply _ |]].
  apply (hoare_fold_m gpu_same _ (λ _, True)); [| done].
  intros [i u] [] _ _.
  eapply hoare_bind; [apply _ | apply core_history_gpu |]. intros a Ha.
  by apply addHistoryPoint_gpu.
Qed.

Lemma update_history_gpu stats : hoare gpu_same (update_history stats) (λ _, True).
Proof.
  unfold update_history.
  repeat (eapply hoare_bind; [apply _ | by apply addHistoryPoint_gpu | intros _ _]).
  by apply addHistoryPoint_gpu.
Qed.

Lemma sections_gpu c stats : hoare gpu_same (sections c stats) (λ _, True).
Proof.
  unfold sections.
  eapply hoare_bind; [apply _ | apply (when_content_frame gpu_same _ _ _ (λ _, True)); [done | intros s; apply cpuSection_gpu] |].
  intros st1 _.
  eapply hoare_bind; [apply _ | apply (when_content_frame gpu_same _ _ _ (λ _, True)); [done |] |].
  { intros s. by apply hoare_ret; [apply _ |]. }
  intros st2 _.
  eapply hoare_bind; [apply _ | apply (when_content_frame gpu_same _ _ _ (λ _, True)); [done |] |].
  { intros s. by apply hoare_ret; [apply _ |]. }
  intros st3 _.
  eapply hoare_bind; [apply _ | apply (when_content_frame gpu_same _ _ _ (λ _, True)); [done |] |].
  { intros s. by apply hoare_ret; [apply _ |]. }
  intros st4 _.
  eapply hoare_bind; [apply _ | apply (when_content_frame gpu_same _ _ _ (λ _, True)); [done | intros s; apply diskSection_gpu] |].
  intros st5 _.
  apply (when_content_frame gpu_same _ _ _ (λ _, True)); [done | intros s; apply netSection_gpu].
Qed.

Lemma fetchSystemStats_gpu r : hoare gpu_same (fetchSystemStats r) (λ _, True).
Proof.
  unfold fetchSystemStats.
  eapply hoare_bind; [apply _ | | intros stats _].
  - destruct (await_all r) as [c |]; [apply sections_gpu | by apply hoare_ret; [apply _ |]].
  - eapply hoare_bind; [apply _ | apply update_history_gpu |]. intros _ _.
    by apply hoare_ret; [apply _ |].
Qed.

#[local] Instance system_same_preorder : PreOrder system_same.
Proof.
  split.
  - intros σ. unfold system_same. tauto.
  - intros σ1 σ2 σ3 H12 H23. unfold system_same in *.
    destruct H12 as (?&?&?&?&?&?&?&?&?&?&?&H12), H23 as (?&?&?&?&?&?&?&?&?&?&?&H23).
    repeat split; try congruence. intros l Hl. by rewrite H23, H12.
Qed.

Section gpu_stats.
Import Hardware GpuService.

Lemma gpu_sample_system idx u m : hoare system_same (gpu_sample idx u m) (λ _, True).
Proof.
  intros σ Hwf. unfold gpu_sample. cbv zeta. generalize (number_key idx). clear idx.
  intros idx. run.
  destruct (gpuHistories σ !! idx) as [a |] eqn:Ha; cbn.
  - rewrite (wf_gpu _ _ _ Hwf Ha). cbn.
    split; [| split; [| done]].
    + revert Hwf. apply wf_arrays_dom; try done. cbn.
      intros l. by rewrite !lookup_alter_is_Some.
    + unfold system_same. cbn. repeat split; try done.
      intros l Hl. by rewrite !lookup_alter_ne by apply not_eq_sym, Hl.
  - split; [| split; [| done]].
    + assert (Hkey : ∀ k a,
        <[idx := (GpuArr idx fst_side, GpuArr idx snd_side)]> (gpuHistories σ) !! k = Some a →
        a = (GpuArr k fst_side, GpuArr k snd_side)
        ∧ is_Some (arrays (addHistoryPoint (GpuArr idx snd_side) m
                     (addHistoryPoint (GpuArr idx fst_side) u
                        (set_gpuHistories
                           (<[idx := (GpuArr idx fst_side, GpuArr idx snd_side)]> (gpuHistories σ))
                           (set_arrays (<[GpuArr idx snd_side := []]>
                                          (<[GpuArr idx fst_side := []]> (arrays σ))) σ))).2).2
                   !! GpuArr k fst_side)
        ∧ is_Some (arrays (addHistoryPoint (GpuArr idx snd_side) m
                     (addHistoryPoint (GpuArr idx fst_side) u
                        (set_gpuHistories
                           (<[idx := (GpuArr idx fst_side, GpuArr idx snd_side)]> (gpuHistories σ))
                           (set_arrays (<[GpuArr idx snd_side := []]>
                                          (<[GpuArr idx fst_side := []]> (arrays σ))) σ))).2).2
                   !! GpuArr k snd_side)).
      { intros k a Hk. run. rewrite !lookup_alter_is_Some.
        destruct (decide (idx = k)) as [-> | Hne].
        - rewrite lookup_insert_eq in Hk. injection Hk as <-.
          rewrite lookup_insert_eq, lookup_insert_ne, lookup_insert_eq by done. eauto.
        - rewrite lookup_insert_ne in Hk by done.
          destruct Hwf as (_ & _ & _ & _ & Hg). destruct (Hg _ _ Hk) as (-> & ? & ?).
          split; [done |]. rewrite !lookup_insert_ne by congruence. done. }
      run. destruct Hwf as (Hg & H1 & H2 & H3 & H4). unfold wf; cbn.
      split; [| split; [| split; [| split]]];
        first [ exact Hkey
              | intros s; rewrite !lookup_alter_is_Some, !lookup_insert_ne by done; apply Hg
              | intros k a Hk; rewrite !lookup_alter_is_Some, !lookup_insert_ne by done; eauto ].
    + unfold system_same. cbn. repeat split; try done.
      intros l Hl. rewrite !lookup_alter_ne by apply not_eq_sym, Hl.
      by rewrite !lookup_insert_ne by apply not_eq_sym, Hl.
Qed.

Lemma nvidia_row_system (I : list GpuStats → Prop) line results :
  (∀ p, I results → I (results ++ [nvidia_stat p])%list) →
  I results →
  hoare system_same (nvidia_row line results) I.
Proof.
  intros Hstep Hres. unfold nvidia_row. destruct (_ <=? _)%nat.
  - eapply hoare_bind; [apply _ | apply gpu_sample_system |]. intros _ _.
    apply hoare_ret; [apply _ |]. by apply Hstep.
  - by apply hoare_ret; [apply _ |].
Qed.

Lemma sysfs_row_system (I : list GpuStats → Prop) h gpu results :
  I (results ++ [sysfs_stat h (index gpu)])%list →
  hoare system_same (sysfs_row h gpu results) I.
Proof.
  intros Hstep. unfold sysfs_row.
  eapply hoare_bind; [apply _ | apply gpu_sample_system |]. intros _ _.
  by apply hoare_ret; [apply _ |].
Qed.

Lemma fetchGpuStats_system h gpus :
  hoare system_same (fetchGpuStats h gpus) (λ _, True).
Proof.
  unfold fetchGpuStats. destruct gpus as [| g gpus]; [by apply hoare_ret; [apply _ |] |].
  eapply (hoare_bind _ _ _ (λ _, True)).
  - destruct (existsb _ _); [| by apply hoare_ret; [apply _ |]].
    destruct (nvidia_smi h) as [[out |] |]; try by apply hoare_ret; [apply _ |].
    destruct (trim out) as [| c0 t0]; [by apply hoare_ret; [apply _ |] |].
    apply (hoare_fold_m _ _ (λ _, True)); [| done].
    intros x s0 _ _. by apply nvidia_row_system.
  - intros results _.
    apply (hoare_fold_m _ _ (λ _, True)); [| done].
    intros x s0 _ _. by apply (sysfs_row_system (λ _, True)).
Qed.

(** X21.  The two samplers share one module and one clock but do not touch
    each other's state.  A call of [fetchGpuStats], whatever the host
    answers, changes none of the previous counters of the system sampler,
    none of its history maps and none of its arrays, nor an array handed
    to a caller; a pass of [fetchSystemStats], whatever it reads, changes
    neither the map of the GPU histories nor a GPU array. *)
Theorem samplers_independent (h : host) (gpus : list GpuDevice) (r : reads) (σ : engine) :
  wf σ →
  (wf (fetchGpuStats h gpus σ).2 ∧ system_same σ (fetchGpuStats h gpus σ).2)
  ∧ gpu_same σ (fetchSystemStats r σ).2.
Proof.
  intros Hwf. split.
  - by destruct (fetchGpuStats_system h gpus σ Hwf) as (? & ? & _).
  - by destruct (fetchSystemStats_gpu r σ Hwf) as (_ & ? & _).
Qed.

End gpu_stats.

Section gpu_results.
Import Hardware GpuService.

Lemma samplers_independent_witness :
  (wf (fetchGpuStats
         {| nvidia_smi := Rejected;
            gpu_busy_percent := λ _, Resolved (Some "17");
            mem_info_vram_total := λ _, Resolved (Some "4294967296");
            mem_info_vram_used := λ _, Resolved (Some "1073741824");
            temp1_input := λ _, Rejected |}
         [{| index := num_of_Z 0; name := "GPU 0"; vendor := amd |}]
         (init sample_clock)).2
   ∧ system_same (init sample_clock)
       (fetchGpuStats
         {| nvidia_smi := Rejected;
            gpu_busy_percent := λ _, Resolved (Some "17");
            mem_info_vram_total := λ _, Resolved (Some "4294967296");
            mem_info_vram_used := λ _, Resolved (Some "1073741824");
            temp1_input := λ _, Rejected |}
         [{| index := num_of_Z 0; name := "GPU 0"; vendor := amd |}]
         (init sample_clock)).2)
  ∧ gpu_same (init sample_clock) (fetchSystemStats (full 0) (init sample_clock)).2.
Proof. apply samplers_independent. apply wf_init. Defined.

(** ** The statistics returned *)

Lemma fold_m_inv {A S} (body : A → S → M S) (I : S → Prop) :
  (∀ x s σ, I s → I (body x s σ).1) →
  ∀ l s σ, I s → I (fold_m body l s σ).1.
Proof.
  intros Hbody. induction l as [| x l IH]; intros s σ Hs; cbn [fold_m].
  - done.
  - unfold bind. pose proof (Hbody x s σ Hs) as Hx.
    destruct (body x s σ) as [s1 σ1]; cbn in *. by apply IH.
Qed.

Lemma or_minus_one_num a : is_num (or_minus_one a).
Proof. by destruct a. Qed.

Lemma nvidia_stat_numeric p : stat_numeric (nvidia_stat p).
Proof.
  unfold stat_numeric, nvidia_stat.
  cbn [gpuUsage memoryUsage memoryTotal memoryUsed temperature powerDraw].
  repeat split; first [apply or_zero_num | apply or_minus_one_num].
Qed.

Lemma nvidia_row_numeric line results σ :
  Forall stat_numeric results → Forall stat_numeric (nvidia_row line results σ).1.
Proof.
  intros Hres. unfold nvidia_row. destruct (_ <=? _)%nat; [| done].
  unfold bind, ret. destruct (gpu_sample _ _ _ σ). cbn.
  apply Forall_app. split; [done |]. apply Forall_singleton, nvidia_stat_numeric.
Qed.

(** X22.  When every GPU of the list is an NVIDIA GPU, every statistic that
    [fetchGpuStats] returns has a number in each of its six fields: a
    column of [nvidia-smi] that does not read as a number (as [N/A]) gives
    0 for the usage and memory figures and -1 for the temperature and the
    power draw, never NaN.  This holds whatever the index column of a row
    holds: a row whose index does not read as a number is recorded under
    the key [NaN]. *)
Theorem nvidia_stats_numeric (h : host) (gpus : list GpuDevice) (σ : engine) :
  Forall (λ g, vendor g = nvidia) gpus →
  Forall stat_numeric (fetchGpuStats h gpus σ).1.
Proof.
  intros Hall. unfold fetchGpuStats. destruct gpus as [| g gpus]; [done |].
  assert (Hfs : List.filter is_sysfs (g :: gpus) = []).
  { induction Hall as [| x l Hx _ IH]; [done |]. cbn. unfold is_sysfs at 1. by rewrite Hx. }
  rewrite Hfs. clear Hfs. unfold bind.
  set (m := if existsb is_nvidia (g :: gpus) then _ else _).
  assert (Hm : Forall stat_numeric (m σ).1).
  { subst m. destruct (existsb _ _); [| done].
    destruct (nvidia_smi h) as [[out |] |]; try done.
    destruct (trim out) as [| c0 t0]; [done |].
    apply (fold_m_inv nvidia_row (Forall stat_numeric)); [| done].
    intros x s0 σ0. apply nvidia_row_numeric. }
  by destruct (m σ) as [res σ1].
Qed.

Lemma nvidia_stats_numeric_witness :
  let res := fetchGpuStats
               {| nvidia_smi := Resolved (Some (unlines
                    ["0, 35, [N/A], 8192, 1024, [N/A], [N/A]";
                     "[Unknown Error], 12, 3, 4096, 512, 61, 20.5"]));
                  gpu_busy_percent := λ _, Rejected; mem_info_vram_total := λ _, Rejected;
                  mem_info_vram_used := λ _, Rejected; temp1_input := λ _, Rejected |}
               [{| index := num_of_Z 0; name := "NVIDIA"; vendor := nvidia |}]
               (init sample_clock) in
  Forall stat_numeric res.1
  ∧ List.length res.1 = 2%nat
  ∧ is_Some (gpuHistories res.2 !! NaN).
Proof.
  cbv zeta. split; [| split].
  - apply nvidia_stats_numeric. by apply Forall_singleton.
  - vm_compute. reflexivity.
  - vm_compute. eauto.
Defined.

Lemma number_key_whole k : number_key (num_of_Z k) = num_of_Z k.
Proof. unfold number_key, num_of_Z. by rewrite Qred_inject_Z. Qed.

Lemma gpu_sample_ticks idx u m σ : ticks (gpu_sample idx u m σ).2 = (ticks σ + 2)%nat.
Proof.
  unfold gpu_sample. run. destruct (gpuHistories σ !! number_key idx) as [[a b] |]; cbn; lia.
Qed.

Lemma fold_sysfs_rows h gpus : ∀ results σ,
  (fold_m (sysfs_row h) gpus results σ).1
  = (results ++ ((λ g, sysfs_stat h (index g)) <$> gpus))%list
  ∧ ticks (fold_m (sysfs_row h) gpus results σ).2 = (ticks σ + 2 * List.length gpus)%nat.
Proof.
  induction gpus as [| g gpus IH]; intros results σ.
  - cbn. rewrite app_nil_r. split; [done | lia].
  - cbn [fold_m]. unfold bind. unfold sysfs_row at 1 3.
    unfold bind, ret.
    pose proof (gpu_sample_ticks (index g) (gpuUsage (sysfs_stat h (index g)))
                  (memoryUsage (sysfs_stat h (index g))) σ) as Ht.
    destruct (gpu_sample _ _ _ σ) as [[] σ1]. cbn [fst snd] in *.
    destruct (IH (results ++ [sysfs_stat h (index g)])%list σ1) as [-> ->].
    split.
    + rewrite fmap_cons. by rewrite <- app_assoc.
    + cbn [List.length]. lia.
Qed.

Lemma sysfs_only gpus :
  Forall sysfs_gpu gpus →
  existsb is_nvidia gpus = false ∧ List.filter is_sysfs gpus = gpus.
Proof.
  induction gpus as [| x l IH]; [done |]. intros [(Hx & _) Hl]%Forall_cons.
  destruct (IH Hl) as [IH1 IH2]. cbn [existsb List.filter].
  unfold is_nvidia at 1, is_sysfs at 1. rewrite IH1, IH2.
  by destruct Hx as [-> | ->].
Qed.

Lemma fetchGpuStats_sysfs h gpus σ :
  Forall sysfs_gpu gpus →
  (fetchGpuStats h gpus σ).1 = (λ g, sysfs_stat h (index g)) <$> gpus
  ∧ ticks (fetchGpuStats h gpus σ).2 = (ticks σ + 2 * List.length gpus)%nat.
Proof.
  intros Hall. unfold fetchGpuStats. destruct gpus as [| g gpus].
  { cbn. split; [done | lia]. }
  destruct (sysfs_only (g :: gpus) Hall) as [Hnv Hfs].
  rewrite Hnv, Hfs. unfold bind, ret.
  by apply (fold_sysfs_rows h (g :: gpus) [] σ).
Qed.

(** X23.  For GPUs found through sysfs (vendor [amd] or [intel], a whole
    card number), [fetchGpuStats] returns exactly one statistic per GPU, in
    the order of the list, so that the statistic at a position belongs to
    the GPU at that position; [nvidia-smi] plays no part in it; and two
    points per GPU are appended to the histories, each with its own reading
    of the clock. *)
Theorem sysfs_stats_aligned (h : host) (gpus : list GpuDevice) (σ : engine) :
  Forall sysfs_gpu gpus →
  (fetchGpuStats h gpus σ).1 = (λ g, sysfs_stat h (index g)) <$> gpus
  ∧ ticks (fetchGpuStats h gpus σ).2 = (ticks σ + 2 * List.length gpus)%nat
  ∧ ∀ h', gpu_busy_percent h' = gpu_busy_percent h →
          mem_info_vram_total h' = mem_info_vram_total h →
          mem_info_vram_used h' = mem_info_vram_used h →
          temp1_input h' = temp1_input h →
          (fetchGpuStats h' gpus σ).1 = (fetchGpuStats h gpus σ).1.
Proof.
  intros Hall. destruct (fetchGpuStats_sysfs h gpus σ Hall) as [Hres Ht].
  split; [done |]. split; [done |]. intros h' H1 H2 H3 H4.
  rewrite Hres, (proj1 (fetchGpuStats_sysfs h' gpus σ Hall)).
  apply list_fmap_ext. intros _ g _. unfold sysfs_stat. by rewrite H1, H2, H3, H4.
Qed.

Lemma sysfs_stats_aligned_witness :
  GpuService.memoryUsage <$>
    (fetchGpuStats
       {| nvidia_smi := Rejected;
          gpu_busy_percent := λ _, Resolved (Some "17");
          mem_info_vram_total := λ _, Resolved (Some "4294967296");
          mem_info_vram_used := λ _, Resolved (Some "1073741824");
          temp1_input := λ _, Rejected |}
       [{| index := num_of_Z 0; name := "GPU 0"; vendor := amd |};
        {| index := num_of_Z 1; name := "GPU 1"; vendor := intel |}]
       (init sample_clock)).1
  = [num_of_Z 25; num_of_Z 25].
Proof.
  assert (H : Forall sysfs_gpu
                [{| index := num_of_Z 0; name := "GPU 0"; vendor := amd |};
                 {| index := num_of_Z 1; name := "GPU 1"; vendor := intel |}]).
  { repeat apply Forall_cons_2; [| | done];
      (split; [auto | split; [by eexists; split; [| reflexivity] | done]]). }
  rewrite (proj1 (sysfs_stats_aligned _ _ (init sample_clock) H)).
  vm_compute. reflexivity.
Defined.

End gpu_results.

(** ** Any sequence of calls *)

#[local] Instance fresh_kept_preorder : PreOrder fresh_kept.
Proof. split; unfold fresh_kept; [by intros σ | intros σ1 σ2 σ3; auto]. Qed.

#[local] Instance R_acc_preorder : PreOrder R_acc.
Proof. unfold R_acc. apply _. Qed.

Lemma gpu_sample_eq idx u m :
  gpu_sample idx u m
  = (a <- gpu_ensure (number_key idx) ;; addHistoryPoint a.1 u ;;; addHistoryPoint a.2 m).
Proof. reflexivity. Qed.

Lemma gpu_ensure_hist idx :
  hoare R_hist (gpu_ensure idx) (λ a, a = (GpuArr idx fst_side, GpuArr idx snd_side)).
Proof.
  intros σ Hwf. unfold gpu_ensure. run.
  destruct (gpuHistories σ !! idx) as [a |] eqn:Ha; cbn.
  - split; [done |]. split; [reflexivity |]. by apply (wf_gpu _ _ _ Hwf Ha).
  - split; [| split; [| done]].
    + assert (Hkey : ∀ k a,
        <[idx := (GpuArr idx fst_side, GpuArr idx snd_side)]> (gpuHistories σ) !! k = Some a →
        a = (GpuArr k fst_side, GpuArr k snd_side)
        ∧ is_Some (<[GpuArr idx snd_side := []]> (<[GpuArr idx fst_side := []]> (arrays σ))
                     !! GpuArr k fst_side)
        ∧ is_Some (<[GpuArr idx snd_side := []]> (<[GpuArr idx fst_side := []]> (arrays σ))
                     !! GpuArr k snd_side)).
      { intros k a Hk. destruct (decide (idx = k)) as [-> | Hne].
        - rewrite lookup_insert_eq in Hk. injection Hk as <-.
          rewrite lookup_insert_eq, lookup_insert_ne, lookup_insert_eq by done. eauto.
        - rewrite lookup_insert_ne in Hk by done.
          destruct Hwf as (_ & _ & _ & _ & Hg). destruct (Hg _ _ Hk) as (-> & ? & ?).
          split; [done |]. rewrite !lookup_insert_ne by congruence. done. }
      destruct Hwf as (Hg & H1 & H2 & H3 & H4). unfold wf; cbn.
      split; [| split; [| split; [| split]]];
        first [ exact Hkey
              | intros s; rewrite !lookup_insert_ne by done; apply Hg
              | intros k a Hk; rewrite !lookup_insert_ne by done; eauto ].
    + apply R_hist_new; try done; cbn.
      * intros a l. destruct (decide (a = GpuArr idx snd_side)) as [-> | Hne].
        -- rewrite lookup_insert_eq. intros [= <-]. right. split; [done | by intros n].
        -- rewrite lookup_insert_ne by done.
           destruct (decide (a = GpuArr idx fst_side)) as [-> | Hne'].
           ++ rewrite lookup_insert_eq. intros [= <-]. right. split; [done | by intros n].
           ++ rewrite lookup_insert_ne by done. auto.
      * intros n. by rewrite !lookup_insert_ne.
Qed.

Lemma gpu_sample_hist idx u m : hoare R_hist (gpu_sample idx u m) (λ _, True).
Proof.
  rewrite gpu_sample_eq.
  eapply hoare_bind; [apply _ | apply gpu_ensure_hist |]. intros a ->. cbn [fst snd].
  eapply hoare_bind; [apply _ | by apply addHistoryPoint_hist |]. intros _ _.
  by apply addHistoryPoint_hist.
Qed.

Section gpu_calls.
Import Hardware GpuService.

Lemma fetchGpuStats_hist h gpus : hoare R_hist (fetchGpuStats h gpus) (λ _, True).
Proof.
  assert (Hnv : ∀ line results, hoare R_hist (nvidia_row line results) (λ _, True)).
  { intros line results. unfold nvidia_row. destruct (_ <=? _)%nat.
    - eapply hoare_bind; [apply _ | apply gpu_sample_hist |]. intros _ _.
      by apply hoare_ret; [apply _ |].
    - by apply hoare_ret; [apply _ |]. }
  assert (Hfs : ∀ gpu results, hoare R_hist (sysfs_row h gpu results) (λ _, True)).
  { intros gpu results. unfold sysfs_row.
    eapply hoare_bind; [apply _ | apply gpu_sample_hist |]. intros _ _.
    by apply hoare_ret; [apply _ |]. }
  unfold fetchGpuStats. destruct gpus as [| g gpus]; [by apply hoare_ret; [apply _ |] |].
  eapply (hoare_bind _ _ _ (λ _, True)).
  - destruct (existsb _ _); [| by apply hoare_ret; [apply _ |]].
    destruct (nvidia_smi h) as [[out |] |]; try by apply hoare_ret; [apply _ |].
    destruct (trim out) as [| c0 t0]; [by apply hoare_ret; [apply _ |] |].
    apply (hoare_fold_m _ _ (λ _, True)); [| done].
    intros x s0 _ _. apply Hnv.
  - intros results _.
    apply (hoare_fold_m _ _ (λ _, True)); [| done].
    intros x s0 _ _. apply Hfs.
Qed.

End gpu_calls.

(** The accessors. *)
Lemma copy_array_acc a : hoare R_acc (copy_array a) (λ _, True).
Proof.
  intros σ Hwf. unfold copy_array. run. split; [| split; [| done]].
  - revert Hwf. apply wf_arrays_dom; try done. cbn.
    intros l Hl. destruct (decide (l = CopyArr (copies σ))) as [-> | Hne].
    + by rewrite lookup_insert_eq.
    + by rewrite lookup_insert_ne.
  - split; [| split].
    + intros Hord b l. cbn. destruct (decide (b = CopyArr (copies σ))) as [-> | Hne].
      * rewrite lookup_insert_eq. intros [= <-].
        destruct (arrays σ !! a) as [l0 |] eqn:Hl0; cbn; [by apply (Hord a) | apply kept_nil].
      * rewrite lookup_insert_ne by done. apply Hord.
    + intros Hfr n Hn. cbn in *. rewrite lookup_insert_ne by (intros [=]; lia).
      apply Hfr. lia.
    + unfold engine_same. cbn. tauto.
Qed.

Lemma copy_pairs_acc `{Countable K} (m : gmap K (loc * loc)) :
  hoare R_acc (copy_pairs m) (λ _, True).
Proof.
  unfold copy_pairs. apply (hoare_fold_m R_acc _ (λ _, True)); [| done].
  intros [k [a b]] result _ _.
  eapply hoare_bind; [apply _ | apply copy_array_acc |]. intros a' _.
  eapply hoare_bind; [apply _ | apply copy_array_acc |]. intros b' _.
  by apply hoare_ret; [apply _ |].
Qed.

Lemma accessors_acc :
  hoare R_acc getSystemHistory (λ _, True)
  ∧ hoare R_acc getPerDiskHistory (λ _, True)
  ∧ hoare R_acc getPerIfaceHistory (λ _, True)
  ∧ hoare R_acc getPerCoreHistory (λ _, True)
  ∧ hoare R_acc getGpuHistory (λ _, True).
Proof.
  split; [by apply hoare_ret; [apply _ |] |].
  split; [| split; [| split]].
  - eapply hoare_bind; [apply _ | apply (hoare_get _ _ (λ _, True)); done |].
    intros m _. apply copy_pairs_acc.
  - eapply hoare_bind; [apply _ | apply (hoare_get _ _ (λ _, True)); done |].
    intros m _. apply copy_pairs_acc.
  - eapply hoare_bind; [apply _ | apply (hoare_get _ _ (λ _, True)); done |].
    intros m _. apply (hoare_fold_m R_acc _ (λ _, True)); [| done].
    intros [k a] result _ _.
    eapply hoare_bind; [apply _ | apply copy_array_acc |]. intros a' _.
    by apply hoare_ret; [apply _ |].
  - eapply hoare_bind; [apply _ | apply (hoare_get _ _ (λ _, True)); done |].
    intros m _. apply copy_pairs_acc.
Qed.

Lemma names_ok_same σ σ' :
  prevPerDiskStats σ' = prevPerDiskStats σ → perDiskHistories σ' = perDiskHistories σ →
  prevPerIfaceStats σ' = prevPerIfaceStats σ → perIfaceHistories σ' = perIfaceHistories σ →
  names_ok σ → names_ok σ'.
Proof. unfold names_ok. by intros -> -> -> ->. Qed.

Lemma inv_hist clk σ σ' :
  wf σ' → R_hist σ σ' → names_ok σ' → engine_inv clk σ → engine_inv clk σ'.
Proof.
  intros Hwf' ([Hc Hn] & Hk & Hclk & _) Hnames (Hwf & Hord & Hfr & _ & <-).
  split; [done |]. split; [by apply Hk |]. split; [| done].
  intros n Hn'. rewrite Hn. apply Hfr. by rewrite <- Hc.
Qed.

Lemma run_call_inv clk c σ :
  engine_inv clk σ → engine_inv clk (run_call c σ).
Proof.
  intros Hinv. pose proof Hinv as (Hwf & Hord & Hfr & Hnames & Hclk).
  assert (Hacc : ∀ A (m : M A), hoare R_acc m (λ _, True) → engine_inv clk (m σ).2).
  { intros A m Hm. destruct (Hm σ Hwf) as (Hwf' & (Hk & Hf & Hs) & _).
    split; [done |]. split; [by apply Hk |]. split; [by apply Hf |].
    destruct Hs as (Hc & _ & _ & _ & _ & Hi & _ & Hd & Hdh & Hih & _).
    split; [by apply (names_ok_same σ) | congruence]. }
  destruct accessors_acc as (H1 & H2 & H3 & H4 & H5).
  destruct c as [r | h gpus | | | | |]; cbn [run_call];
    try first [by apply Hacc | by apply (Hacc _ getSystemHistory)].
  - destruct (fetchSystemStats_hist r σ Hwf) as (Hwf' & HR & _).
    apply (inv_hist clk σ); [done | done | | done].
    by destruct (pass_names r σ Hwf Hnames) as [? _].
  - destruct (fetchGpuStats_hist h gpus σ Hwf) as (Hwf' & HR & _).
    destruct (fetchGpuStats_system h gpus σ Hwf) as (_ & Hs & _).
    apply (inv_hist clk σ); [done | done | | done].
    destruct Hs as (_ & _ & _ & _ & _ & Hi & _ & Hd & Hdh & Hih & _).
    by apply (names_ok_same σ).
Qed.

Lemma engine_inv_init clk : engine_inv clk (init clk).
Proof.
  split; [apply wf_init |]. split; [apply ordered_init |]. split; [apply copies_fresh_init |].
  split; [| done]. split; intros k [H | H]; cbn in H; rewrite lookup_empty in H; by destruct H.
Qed.

Lemma run_calls_inv clk calls : ∀ σ,
  engine_inv clk σ → engine_inv clk (run_calls calls σ).
Proof.
  unfold run_calls. induction calls as [| c calls IH]; intros σ Hinv; cbn; [done |].
  apply IH. by apply run_call_inv.
Qed.



(** ** What the overview shows *)

(** The steps of [refresh]: the states it goes through and what it hands
    to the overview. *)
Lemma refresh_steps r h gpus σ :
  let p := (Overview.refresh r h gpus σ).1 in
  let σ2 := (GpuService.fetchGpuStats h gpus (fetchSystemStats r σ).2).2 in
  Overview.p_stats p = (fetchSystemStats r σ).1
  ∧ Overview.p_gpuStats p = (GpuService.fetchGpuStats h gpus (fetchSystemStats r σ).2).1
  ∧ Overview.p_history p = history
  ∧ Overview.p_perDiskHistory p = (getPerDiskHistory σ2).1
  ∧ Overview.p_perIfaceHistory p = (getPerIfaceHistory (getPerDiskHistory σ2).2).1
  ∧ Overview.p_perCoreHistory p
    = (getPerCoreHistory (getPerIfaceHistory (getPerDiskHistory σ2).2).2).1
  ∧ Overview.p_gpuHistory p
    = (getGpuHistory
         (getPerCoreHistory (getPerIfaceHistory (getPerDiskHistory σ2).2).2).2).1.
Proof.
  cbv zeta. unfold Overview.refresh, bind, getSystemHistory, ret.
  destruct (fetchSystemStats r σ) as [stats σ1]. cbn [fst snd].
  destruct (GpuService.fetchGpuStats h gpus σ1) as [gpuS σ2]. cbn [fst snd].
  destruct (getPerDiskHistory σ2) as [pd σ3]. cbn [fst snd].
  destruct (getPerIfaceHistory σ3) as [pi σ4]. cbn [fst snd].
  destruct (getPerCoreHistory σ4) as [pc σ5]. cbn [fst snd].
  destruct (getGpuHistory σ5) as [gh σ6].
  cbn [fst snd Overview.p_stats Overview.p_gpuStats Overview.p_history
       Overview.p_perDiskHistory Overview.p_perIfaceHistory Overview.p_perCoreHistory
       Overview.p_gpuHistory].
  done.
Qed.

Lemma refresh_inv clk r h gpus σ :
  engine_inv clk σ →
  engine_inv clk (GpuService.fetchGpuStats h gpus (fetchSystemStats r σ).2).2.
Proof.
  intros Hinv.
  apply (run_call_inv clk (Call_fetchGpuStats h gpus) (fetchSystemStats r σ).2).
  by apply (run_call_inv clk (Call_fetchSystemStats r) σ).
Qed.

Lemma disk_histories_not_copy σ k a b :
  wf σ → perDiskHistories σ !! k = Some (a, b) → not_copy a ∧ not_copy b.
Proof.
  intros Hwf Hk. destruct (wf_disk _ _ _ Hwf Hk) as ([= -> ->] & _). by split; intros n.
Qed.

Lemma selected_missing {V A} name (o : gmap string V) (f : V → A) d :
  o !! name = None →
  Overview.selected name o f d = if inherited name then None else Some d.
Proof.
  intros Ho. unfold Overview.selected, property_of. rewrite Ho.
  destruct name as [| c name']; [done |]. by destruct (inherited _).
Qed.

(** X25.  Whatever the application called before, when the device selected
    in the disk card is one that the disk filter of the engine rejects (an
    NVMe drive, which [lsblk] lists as a disk, or a partition), the card
    has no data of its own for it: after [refresh] it draws the two
    histories of all disks together and prints the aggregate rates, under
    the name of the device.  A name that every object inherits is such a
    name, and the exception: what the card looks up under it is a property
    of [Object.prototype], and the histories and the rates it takes from it
    are [undefined]. *)
Theorem rejected_disk_shows_aggregate (clk : nat → Z) (calls : list call)
    (r : reads) (h : GpuService.host) (gpus : list Hardware.GpuDevice) (name : string) :
  let p := (Overview.refresh r h gpus (run_calls calls (init clk))).1 in
  is_whole_disk name = false →
  (inherited name = false →
     Overview.diskReadHistory name p = Some (GlobalArr diskRead)
     ∧ Overview.diskWriteHistory name p = Some (GlobalArr diskWrite)
     ∧ Overview.diskReadRate name p = Some (diskReadRate (Overview.p_stats p))
     ∧ Overview.diskWriteRate name p = Some (diskWriteRate (Overview.p_stats p)))
  ∧ (inherited name = true →
     Overview.diskReadHistory name p = None
     ∧ Overview.diskWriteHistory name p = None
     ∧ Overview.diskReadRate name p = None
     ∧ Overview.diskWriteRate name p = None).
Proof.
  intros p Hname. set (σ := run_calls calls (init clk)) in *.
  pose proof (run_calls_inv clk calls _ (engine_inv_init clk)) as Hinv. fold σ in Hinv.
  destruct (refresh_steps r h gpus σ) as (Hs & _ & Hh & Hpd & _). fold p in Hs, Hh, Hpd.
  pose proof (refresh_inv clk r h gpus σ Hinv) as (Hwf2 & _ & Hfr2 & [Hnames2 _] & _).
  set (σ2 := (GpuService.fetchGpuStats h gpus (fetchSystemStats r σ).2).2) in *.
  destruct Hinv as (Hwf & _ & _ & Hnames & _).
  assert (Hhist : Overview.p_perDiskHistory p !! name = None).
  { rewrite Hpd. unfold getPerDiskHistory, bind, get. cbn [fst snd].
    destruct (copy_pairs_spec (perDiskHistories σ2) σ2 Hwf2 Hfr2) as ((_ & Hdom & _) & _).
    { intros k a b. by apply disk_histories_not_copy. }
    apply eq_None_not_Some. intros Hsome. apply Hdom in Hsome.
    rewrite (Hnames2 name) in Hname; [done | by right]. }
  assert (Hstat : perDiskStats (Overview.p_stats p) !! name = None).
  { rewrite Hs. destruct (pass_names r σ Hwf Hnames) as (_ & Hd & _).
    apply eq_None_not_Some. intros Hsome. by rewrite (Hd name Hsome) in Hname. }
  unfold Overview.diskReadHistory, Overview.diskWriteHistory, Overview.diskReadRate,
    Overview.diskWriteRate.
  rewrite !(selected_missing name _ _ _ Hhist), !(selected_missing name _ _ _ Hstat), Hh.
  split; intros ->; done.
Qed.

Lemma rejected_disk_shows_aggregate_witness :
  let p := (Overview.refresh (full 1)
              {| GpuService.nvidia_smi := Rejected;
                 GpuService.gpu_busy_percent := λ _, Rejected;
                 GpuService.mem_info_vram_total := λ _, Rejected;
                 GpuService.mem_info_vram_used := λ _, Rejected;
                 GpuService.temp1_input := λ _, Rejected |} []
              (run_calls [Call_fetchSystemStats (full 0)] (init sample_clock))).1 in
  (Overview.diskReadHistory "nvme0n1" p = Some (GlobalArr diskRead)
   ∧ Overview.diskWriteHistory "nvme0n1" p = Some (GlobalArr diskWrite)
   ∧ Overview.diskReadRate "nvme0n1" p = Some (diskReadRate (Overview.p_stats p))
   ∧ Overview.diskWriteRate "nvme0n1" p = Some (diskWriteRate (Overview.p_stats p)))
  ∧ Overview.diskReadHistory "constructor" p = None.
Proof.
  cbv zeta. split.
  - refine (proj1 (rejected_disk_shows_aggregate sample_clock _ _ _ _ "nvme0n1" _) _);
      reflexivity.
  - refine (proj1 (proj2 (rejected_disk_shows_aggregate sample_clock _ _ _ _
                            "constructor" _) _));
      reflexivity.
Defined.

(** ** The GPU card *)

Section gpu_card.
Import Hardware GpuService.

Lemma gpu_sample_keys idx u m σ k :
  is_Some (gpuHistories (gpu_sample idx u m σ).2 !! k)
  ↔ is_Some (gpuHistories σ !! k) ∨ k = number_key idx.
Proof.
  unfold gpu_sample. cbv zeta. generalize (number_key idx). clear idx. intros idx. run.
  destruct (gpuHistories σ !! idx) as [a |] eqn:Ha; cbn.
  - split; [auto |]. intros [? | ->]; [done | by rewrite Ha].
  - destruct (decide (k = idx)) as [-> | Hne].
    + rewrite lookup_insert_eq. split; [auto | eauto].
    + rewrite lookup_insert_ne by done. split; [auto | by intros [? | ?]].
Qed.

Lemma num_of_Z_inj a b : num_of_Z a = num_of_Z b → a = b.
Proof. unfold num_of_Z, inject_Z. by intros [= ->]. Qed.

Lemma fold_sysfs_keys h gpus : ∀ results σ k,
  is_Some (gpuHistories (fold_m (sysfs_row h) gpus results σ).2 !! k)
  ↔ is_Some (gpuHistories σ !! k) ∨ ∃ g, g ∈ gpus ∧ number_key (index g) = k.
Proof.
  induction gpus as [| g gpus IH]; intros results σ k.
  - cbn. split; [auto |]. intros [? | (g & Hg & _)]; [done | by apply elem_of_nil in Hg].
  - cbn [fold_m]. unfold bind. unfold sysfs_row at 1.
    unfold bind, ret.
    pose proof (gpu_sample_keys (index g) (gpuUsage (sysfs_stat h (index g)))
                  (memoryUsage (sysfs_stat h (index g))) σ k) as Hs.
    destruct (gpu_sample _ _ _ σ) as [[] σ1]. cbn [fst snd] in *.
    rewrite IH. rewrite Hs. split.
    + intros [[? | ->] | (g' & Hg' & Hi)]; [auto | | ].
      * right. exists g. split; [left | done].
      * right. exists g'. split; [by right | done].
    + intros [? | (g' & Hg' & Hi)]; [auto |].
      apply elem_of_cons in Hg' as [-> | Hg'].
      * left. by right.
      * right. eauto.
Qed.

Lemma fetchGpuStats_keys h gpus σ k :
  Forall sysfs_gpu gpus →
  is_Some (gpuHistories (fetchGpuStats h gpus σ).2 !! k)
  ↔ is_Some (gpuHistories σ !! k) ∨ ∃ g, g ∈ gpus ∧ number_key (index g) = k.
Proof.
  intros Hall. unfold fetchGpuStats. destruct gpus as [| g gpus].
  { cbn. split; [auto |]. intros [? | (g & Hg & _)]; [done | by apply elem_of_nil in Hg]. }
  destruct (sysfs_only (g :: gpus) Hall) as [Hnv Hfs].
  rewrite Hnv, Hfs. unfold bind, ret.
  by apply (fold_sysfs_keys h (g :: gpus) [] σ).
Qed.

Lemma run_call_keys gpus c σ :
  Forall sysfs_gpu gpus → wf σ → call_with gpus c →
  keys_within gpus σ → keys_within gpus (run_call c σ).
Proof.
  intros Hall Hwf Hc Hkeys.
  assert (Hacc : ∀ A (m : M A), hoare R_acc m (λ _, True) → keys_within gpus (m σ).2).
  { intros A m Hm. destruct (Hm σ Hwf) as (_ & (_ & _ & Hs) & _).
    destruct Hs as (_ & _ & _ & _ & _ & _ & _ & _ & _ & _ & _ & Hg).
    intros k. rewrite Hg. apply Hkeys. }
  destruct accessors_acc as (H1 & H2 & H3 & H4 & H5).
  destruct c as [r | h gs | | | | |]; cbn [run_call];
    try first [by apply Hacc | by apply (Hacc _ getSystemHistory)].
  - destruct (fetchSystemStats_gpu r σ Hwf) as (_ & [Hg _] & _).
    intros k. rewrite Hg. apply Hkeys.
  - pose proof (fetchGpuStats_keys h gs σ) as Hk.
    destruct Hc as [-> | ->].
    + intros k Hsome. apply (Hk k Hall) in Hsome as [? | ?]; [by apply Hkeys | done].
    + intros k Hsome. apply (Hk k (Forall_nil_2 _)) in Hsome as [? | (g & Hg & _)];
        [by apply Hkeys |].
      by apply elem_of_nil in Hg.
Qed.

Lemma run_calls_keys gpus clk calls : ∀ σ,
  Forall sysfs_gpu gpus → Forall (call_with gpus) calls →
  engine_inv clk σ → keys_within gpus σ →
  keys_within gpus (run_calls calls σ).
Proof.
  unfold run_calls.
  induction calls as [| c calls IH]; intros σ Hall Hcalls Hinv Hkeys; cbn; [done |].
  apply Forall_cons in Hcalls as [Hc Hcalls].
  apply IH; try done.
  - by apply run_call_inv.
  - apply run_call_keys; try done. apply Hinv.
Qed.

Lemma sysfs_gpu_key gpus k :
  Forall sysfs_gpu gpus →
  (∃ g, g ∈ gpus ∧ number_key (index g) = num_of_Z k)
  ↔ ∃ g, g ∈ gpus ∧ index g = num_of_Z k.
Proof.
  intros Hall. rewrite Forall_forall in Hall.
  split; intros (g & Hg & Hi); exists g; (split; [done |]);
    destruct (Hall g Hg) as (_ & (k' & _ & Hk') & _); rewrite Hk' in Hi |- *.
  - by rewrite number_key_whole in Hi.
  - by rewrite number_key_whole.
Qed.

Lemma at_position_fmap {A B} (f : A → B) l i :
  Overview.at_position (f <$> l) i = f <$> Overview.at_position l i.
Proof.
  unfold Overview.at_position. destruct (i <? 0)%Z; [done |]. apply list_lookup_fmap.
Qed.

Lemma gpu_histories_not_copy σ k a b :
  wf σ → gpuHistories σ !! k = Some (a, b) → not_copy a ∧ not_copy b.
Proof.
  intros Hwf Hk. pose proof (wf_gpu _ _ _ Hwf Hk) as [= -> ->]. by split; intros n.
Qed.

(** X26.  The GPU card shows, for the position selected in the list of the
    GPUs, the statistics of the GPU at that position, but the histories it
    draws are those recorded under the card number equal to that position.
    For GPUs found through sysfs: histories are found exactly when some GPU
    of the list has the position as its card number; a GPU whose card
    number is not its position in the list (a single GPU at card 1) is
    drawn with an empty history, or with the history of another GPU. *)
Theorem gpu_card_histories (clk : nat → Z) (calls : list call)
    (r : reads) (h : host) (gpus : list GpuDevice) (selectedGpu : Z) :
  Forall sysfs_gpu gpus → Forall (call_with gpus) calls →
  let p := (Overview.refresh r h gpus (run_calls calls (init clk))).1 in
  Overview.gpu selectedGpu p
  = (λ g, sysfs_stat h (index g)) <$> Overview.gpuDev selectedGpu p gpus
  ∧ (is_Some (Overview.gpuHist selectedGpu p)
     ↔ ∃ g, g ∈ gpus ∧ index g = num_of_Z (Overview.gpuIdx selectedGpu p)).
Proof.
  intros Hall Hcalls p. set (σ := run_calls calls (init clk)) in *.
  pose proof (run_calls_inv clk calls _ (engine_inv_init clk)) as Hinv. fold σ in Hinv.
  assert (Hkeys : keys_within gpus σ).
  { apply (run_calls_keys gpus clk calls (init clk)); try done.
    - apply engine_inv_init.
    - intros k. cbn. rewrite lookup_empty. by intros [? ?]. }
  destruct (refresh_steps r h gpus σ) as (_ & Hgs & _ & _ & _ & _ & Hgh).
  fold p in Hgs, Hgh.
  pose proof (refresh_inv clk r h gpus σ Hinv) as Hinv2.
  set (σ2 := (fetchGpuStats h gpus (fetchSystemStats r σ).2).2) in *.
  destruct (fetchGpuStats_sysfs h gpus (fetchSystemStats r σ).2 Hall) as [Hres _].
  rewrite Hres in Hgs.
  split.
  - unfold Overview.gpu, Overview.gpuDev. rewrite Hgs. apply at_position_fmap.
  - unfold Overview.gpuHist. rewrite Hgh, number_key_whole.
    set (k := Overview.gpuIdx selectedGpu p).
    (* the accessors before [getGpuHistory] leave the map of the GPU histories *)
    destruct accessors_acc as (_ & H2 & H3 & H4 & _).
    destruct Hinv2 as (Hwf2 & _ & Hfr2 & _).
    destruct (H2 σ2 Hwf2) as (Hwf3 & (_ & Hf3 & Hs3) & _).
    destruct (H3 _ Hwf3) as (Hwf4 & (_ & Hf4 & Hs4) & _).
    destruct (H4 _ Hwf4) as (Hwf5 & (_ & Hf5 & Hs5) & _).
    set (σ5 := (getPerCoreHistory (getPerIfaceHistory (getPerDiskHistory σ2).2).2).2) in *.
    assert (Hmap : gpuHistories σ5 = gpuHistories σ2).
    { destruct Hs3 as (_&_&_&_&_&_&_&_&_&_&_&E3), Hs4 as (_&_&_&_&_&_&_&_&_&_&_&E4),
        Hs5 as (_&_&_&_&_&_&_&_&_&_&_&E5). by rewrite E5, E4, E3. }
    unfold getGpuHistory, bind, get. cbn [fst snd].
    destruct (copy_pairs_spec (gpuHistories σ5) σ5 Hwf5) as ((_ & Hdom & _) & _).
    { by apply Hf5, Hf4, Hf3. }
    { intros k0 a b. by apply gpu_histories_not_copy. }
    rewrite Hdom, Hmap.
    pose proof (fetchGpuStats_keys h gpus (fetchSystemStats r σ).2 (num_of_Z k) Hall) as Hk.
    fold σ2 in Hk. rewrite Hk, (sysfs_gpu_key gpus k Hall). split; [| auto].
    intros [Hsome | ?]; [| done].
    destruct Hinv as (Hwf & _).
    destruct (fetchSystemStats_gpu r σ Hwf) as (_ & [Eg _] & _).
    rewrite Eg in Hsome. apply (sysfs_gpu_key gpus k Hall). by apply Hkeys.
Qed.

Lemma gpu_card_histories_witness :
  let h1 := {| nvidia_smi := Rejected;
               gpu_busy_percent := λ _, Resolved (Some "17");
               mem_info_vram_total := λ _, Resolved (Some "4294967296");
               mem_info_vram_used := λ _, Resolved (Some "1073741824");
               temp1_input := λ _, Rejected |} in
  let gpus1 := [{| index := num_of_Z 1; name := "GPU 1"; vendor := amd |}] in
  let p := (Overview.refresh (full 1) h1 gpus1
              (run_calls [Call_fetchSystemStats (full 0); Call_fetchGpuStats h1 gpus1]
                 (init sample_clock))).1 in
  Overview.gpu 0 p = (λ g, sysfs_stat h1 (index g)) <$> Overview.gpuDev 0 p gpus1
  ∧ (is_Some (Overview.gpuHist 0 p)
     ↔ ∃ g, g ∈ gpus1 ∧ index g = num_of_Z (Overview.gpuIdx 0 p)).
Proof.
  intros h1 gpus1.
  assert (Hall : Forall sysfs_gpu gpus1).
  { apply Forall_singleton. split; [by left |]. split; [| done].
    exists 1%Z. split; [lia | reflexivity]. }
  refine (gpu_card_histories sample_clock _ _ h1 gpus1 0 Hall _).
  repeat apply Forall_cons_2; [exact I | by left | done].
Defined.

End gpu_card.

(** ** The families of a pass *)

#[local] Instance cpu_same_preorder : PreOrder cpu_same.
Proof.
  split.
  - by intros σ.
  - intros σ1 σ2 σ3 (? & ? & ? & H12) (? & ? & ? & H23).
    repeat split; first [congruence | intros; by rewrite H23, H12].
Qed.

(** A step that changes neither the arrays nor what the CPU section owns. *)
Lemma cpu_same_same σ σ' :
  arrays σ' = arrays σ → prevCpuTimes σ' = prevCpuTimes σ →
  prevPerCoreTimes σ' = prevPerCoreTimes σ → perCoreHistories σ' = perCoreHistories σ →
  cpu_same σ σ'.
Proof. intros Ha ? ? ?. repeat split; try done. by rewrite Ha. Qed.

Lemma addHistoryPoint_cpu a v :
  not_core a → hoare cpu_same (addHistoryPoint a v) (λ _, True).
Proof.
  intros Ha σ Hwf. split; [by apply wf_addHistoryPoint |]. split; [| done].
  split; [done |]. split; [done |]. split; [done |]. intros i. cbn. rewrite lookup_alter_ne; [done | apply Ha].
Qed.

Lemma disk_history_cpu dev :
  hoare cpu_same (disk_history dev) (λ a, not_core a.1 ∧ not_core a.2).
Proof.
  eapply hoare_change.
  - eapply hoare_weaken; [apply disk_history_R_disk |]. intros a ->. by split; intros i.
  - intros σ Hwf. unfold disk_history. run.
    destruct (perDiskHistories σ !! dev) as [a |]; cbn; [reflexivity |].
    split; [done |]. split; [done |]. split; [done |]. intros i. cbn. by rewrite !lookup_insert_ne.
Qed.

Lemma iface_history_cpu dev :
  hoare cpu_same (iface_history dev)
    (λ a, match a with Some x => not_core x.1 ∧ not_core x.2 | None => True end).
Proof.
  eapply hoare_change.
  - eapply hoare_weaken; [apply iface_history_R_net |].
    intros [a |]; [| done]. intros ->. by split; intros i.
  - intros σ Hwf. unfold iface_history, property_of. run.
    destruct (perIfaceHistories σ !! dev) as [a |]; cbn; [reflexivity |].
    destruct (inherited dev); cbn; [reflexivity |].
    split; [done |]. split; [done |]. split; [done |]. intros i. cbn. by rewrite !lookup_insert_ne.
Qed.

Ltac cpu_modify :=
  apply hoare_modify; intros ? ?; split;
  [ by eapply wf_arrays_dom; [| | | | | eassumption]
  | by apply cpu_same_same ].

Ltac cpu_get := apply (hoare_get _ _ (λ _, True)); done.

Lemma disk_entry_cpu t e stats : hoare cpu_same (disk_entry t e stats) (λ _, True).
Proof.
  destruct e as [dev [read write]]. unfold disk_entry.
  eapply hoare_bind; [apply _ | cpu_get |]. intros prev _.
  eapply (hoare_bind _ _ _ (λ _, True)).
  - destruct prev as [p |]; [destruct (ngt _ _) |]; try by apply hoare_ret; [apply _ |].
    eapply hoare_bind; [apply _ | apply disk_history_cpu |]. intros a [Ha1 Ha2].
    eapply hoare_bind; [apply _ | by apply addHistoryPoint_cpu |]. intros _ _.
    eapply hoare_bind; [apply _ | by apply addHistoryPoint_cpu |]. intros _ _.
    by apply hoare_ret; [apply _ |].
  - intros st _.
    eapply hoare_bind; [apply _ | cpu_modify | intros; by apply hoare_ret; [apply _ |]].
Qed.

Lemma iface_entry_cpu t e stats : hoare cpu_same (iface_entry t e stats) (λ _, True).
Proof.
  destruct e as [dev [read write]]. unfold iface_entry.
  eapply hoare_bind; [apply _ | cpu_get |]. intros prev _.
  eapply (hoare_bind _ _ _ (λ _, True)).
  - destruct prev as [p | |]; [destruct (ngt _ _) | |]; try by apply hoare_ret; [apply _ |].
    eapply hoare_bind; [apply _ | apply iface_history_cpu |].
    intros [a |] Ha; [| by apply hoare_ret; [apply _ |]]. destruct Ha as [Ha1 Ha2].
    eapply hoare_bind; [apply _ | by apply addHistoryPoint_cpu |]. intros _ _.
    eapply hoare_bind; [apply _ | by apply addHistoryPoint_cpu |]. intros _ _.
    by apply hoare_ret; [apply _ |].
  - intros [st []] _; cbn [snd]; [| by apply hoare_ret; [apply _ |]].
    eapply hoare_bind; [apply _ | cpu_modify | intros; by apply hoare_ret; [apply _ |]].
Qed.

Lemma now_cpu : hoare cpu_same now (λ _, True).
Proof.
  intros σ Hwf. split; [| split; [| done]].
  - revert Hwf. by apply wf_arrays_dom.
  - by split.
Qed.

Lemma diskSection_cpu s stats : hoare cpu_same (diskSection s stats) (λ _, True).
Proof.
  unfold diskSection.
  eapply hoare_bind; [apply _ | apply now_cpu |]. intros t _.
  destruct (scan disk_row (split_lines s)) as [[totalRead totalWrite] cur].
  eapply hoare_bind; [apply _ | cpu_get |]. intros prev _.
  eapply hoare_bind; [apply _ | cpu_modify |]. intros _ _.
  apply (hoare_fold_m cpu_same _ (λ _, True)); [| done].
  intros e st _ _. apply disk_entry_cpu.
Qed.

Lemma netSection_cpu s stats : hoare cpu_same (netSection s stats) (λ _, True).
Proof.
  unfold netSection.
  eapply hoare_bind; [apply _ | apply now_cpu |]. intros t _.
  destruct (scan net_row (drop 2 (split_lines s))) as [[totalSent totalRecv] cur].
  eapply hoare_bind; [apply _ | cpu_get |]. intros prev _.
  eapply hoare_bind; [apply _ | cpu_modify |]. intros _ _.
  apply (hoare_fold_try cpu_same _ (λ _, True)); [| done].
  intros e st _ _. eapply hoare_weaken; [apply iface_entry_cpu | done].
Qed.

Lemma update_history_cpu stats : hoare cpu_same (update_history stats) (λ _, True).
Proof.
  unfold update_history.
  repeat (eapply hoare_bind; [apply _ | by apply addHistoryPoint_cpu | intros _ _]).
  by apply addHistoryPoint_cpu.
Qed.

Lemma before_disk_state c σ :
  (before_disk c σ).2 = (when_content (statContent c) cpuSection stats0 σ).2.
Proof.
  unfold before_disk, bind.
  destruct (when_content (statContent c) cpuSection stats0 σ) as [s1 σ1].
  unfold when_content.
  destruct (content_of (meminfoContent c)), (content_of (uptimeContent c)),
    (content_of (loadavgContent c)); reflexivity.
Qed.

Lemma before_disk_cpu_out c σ :
  cpu_out (before_disk c σ).1
  = cpu_out (when_content (statContent c) cpuSection stats0 σ).1.
Proof.
  unfold before_disk, bind.
  destruct (when_content (statContent c) cpuSection stats0 σ) as [s1 σ1].
  unfold when_content.
  destruct (content_of (meminfoContent c)), (content_of (uptimeContent c)),
    (content_of (loadavgContent c)); reflexivity.
Qed.

(** The CPU section leaves the other figures of the result alone. *)
Lemma cpuSection_rest s st σ :
  memory_out (cpuSection s st σ).1 = memory_out st
  ∧ uptime (cpuSection s st σ).1 = uptime st
  ∧ loadAvg (cpuSection s st σ).1 = loadAvg st.
Proof.
  unfold cpuSection, bind, get, modify. cbn [fst snd].
  match goal with |- context [fold_m ?b ?l ?s ?e] => destruct (fold_m b l s e) end.
  cbn [fst snd ret]. by destruct (prevCpuTimes σ).
Qed.

Lemma when_cpuSection_rest c st σ :
  memory_out (when_content c cpuSection st σ).1 = memory_out st
  ∧ uptime (when_content c cpuSection st σ).1 = uptime st
  ∧ loadAvg (when_content c cpuSection st σ).1 = loadAvg st.
Proof.
  unfold when_content. destruct (content_of c); [apply cpuSection_rest | done].
Qed.

Lemma before_disk_memory_missing c σ :
  content_of (meminfoContent c) = None →
  memory_out (before_disk c σ).1 = memory_out stats0.
Proof.
  intros Hs. unfold before_disk, bind.
  destruct (when_cpuSection_rest (statContent c) stats0 σ) as (H & _ & _).
  destruct (when_content (statContent c) cpuSection stats0 σ) as [s1 σ1].
  unfold when_content. rewrite Hs. cbn [fst] in H.
  destruct (content_of (uptimeContent c)), (content_of (loadavgContent c)); exact H.
Qed.

Lemma before_disk_uptime_missing c σ :
  content_of (uptimeContent c) = None →
  uptime (before_disk c σ).1 = uptime stats0.
Proof.
  intros Hs. unfold before_disk, bind.
  destruct (when_cpuSection_rest (statContent c) stats0 σ) as (_ & H & _).
  destruct (when_content (statContent c) cpuSection stats0 σ) as [s1 σ1].
  unfold when_content. rewrite Hs. cbn [fst] in H.
  destruct (content_of (meminfoContent c)), (content_of (loadavgContent c)); exact H.
Qed.

Lemma before_disk_loadAvg_missing c σ :
  content_of (loadavgContent c) = None →
  loadAvg (before_disk c σ).1 = loadAvg stats0.
Proof.
  intros Hs. unfold before_disk, bind.
  destruct (when_cpuSection_rest (statContent c) stats0 σ) as (_ & _ & H).
  destruct (when_content (statContent c) cpuSection stats0 σ) as [s1 σ1].
  unfold when_content. rewrite Hs. cbn [fst] in H.
  destruct (content_of (meminfoContent c)), (content_of (uptimeContent c)); exact H.
Qed.

(** The sections after the CPU section and the final appends leave alone
    what the CPU section owns. *)
Lemma pass_cpu_state r c σ :
  wf σ → await_all r = Some c →
  cpu_same (when_content (statContent c) cpuSection stats0 σ).2 (fetchSystemStats r σ).2.
Proof.
  intros Hwf Hc. rewrite (fetchSystemStats_eq r c σ Hc). cbv zeta. cbn [snd].
  rewrite <- before_disk_state.
  destruct (before_disk_frame c σ Hwf) as (Hwf1 & _ & _).
  set (r1 := before_disk c σ) in *.
  assert (H2 : hoare cpu_same (when_content (diskstatsContent c) diskSection r1.1)
                 (λ _, True)).
  { apply (when_content_frame cpu_same _ _ _ (λ _, True)); [done |].
    intros s. apply diskSection_cpu. }
  destruct (H2 r1.2 Hwf1) as (Hwf2 & Hs2 & _).
  set (r2 := when_content (diskstatsContent c) diskSection r1.1 r1.2) in *.
  assert (H3 : hoare cpu_same (when_content (netContent c) netSection r2.1) (λ _, True)).
  { apply (when_content_frame cpu_same _ _ _ (λ _, True)); [done |].
    intros s. apply netSection_cpu. }
  destruct (H3 r2.2 Hwf2) as (Hwf3 & Hs3 & _).
  set (r3 := when_content (netContent c) netSection r2.1 r2.2) in *.
  destruct (update_history_cpu r3.1 r3.2 Hwf3) as (_ & Hs4 & _).
  etrans; [exact Hs2 |]. etrans; [exact Hs3 | exact Hs4].
Qed.

Lemma front_cpu_out st st' : front st = front st' → cpu_out st = cpu_out st'.
Proof. unfold front, cpu_out. by intros [= -> -> ->]. Qed.

Lemma front_memory_out st st' : front st = front st' → memory_out st = memory_out st'.
Proof. unfold front, memory_out. by intros [= _ _ _ -> -> -> -> -> ->]. Qed.

Lemma front_uptime st st' : front st = front st' → uptime st = uptime st'.
Proof. unfold front. by intros [= _ _ _ _ _ _ _ _ _ -> _]. Qed.

Lemma front_loadAvg st st' : front st = front st' → loadAvg st = loadAvg st'.
Proof. unfold front. by intros [= _ _ _ _ _ _ _ _ _ _ ->]. Qed.

(** C2, as the code has it.  The six reads are awaited together inside one
    [try] block.  When one of them is rejected no family is processed: the
    result holds the initial value of every field (zeros), no previous
    snapshot and no per-entity history is touched, and the six global streams
    each get a point of value 0; the function still returns its result.
    When all reads resolve, each of the six families goes its own way,
    whatever the other texts are.  A family whose text is missing or empty is
    skipped alone: its figures in the result are the initial ones and its
    state is left as it was.  A family whose text is there is processed: the
    CPU figures and the CPU state are those the CPU section makes of its text
    and of the state before the pass; the memory figures, the uptime and the
    load averages are those their sections make of their texts; the disk
    section stores the totals and the counters of every reported device with
    the time it read from the clock; and so does the network section for the
    totals, and for the counters of every reported interface when no reported
    interface bears a name that every object inherits. *)
Theorem rejected_read_skips_every_family (r : reads) (σ : engine) :
  wf σ →
  let res := fetchSystemStats r σ in
  (some_rejected r →
     res.1 = stats0
     ∧ prevCpuTimes res.2 = prevCpuTimes σ ∧ prevPerCoreTimes res.2 = prevPerCoreTimes σ
     ∧ prevDiskStats res.2 = prevDiskStats σ ∧ prevPerDiskStats res.2 = prevPerDiskStats σ
     ∧ prevNetStats res.2 = prevNetStats σ ∧ prevPerIfaceStats res.2 = prevPerIfaceStats σ
     ∧ perDiskHistories res.2 = perDiskHistories σ
     ∧ perIfaceHistories res.2 = perIfaceHistories σ
     ∧ perCoreHistories res.2 = perCoreHistories σ
     ∧ (∀ s, ∃ t, contents_of res.2 (GlobalArr s)
                  = push_shift {| timestamp := t; value := num_of_Z 0 |}
                               (contents_of σ (GlobalArr s)))
     ∧ (∀ a, (∀ s, a ≠ GlobalArr s) → arrays res.2 !! a = arrays σ !! a))
  ∧ (∀ c, await_all r = Some c →
       match content_of (statContent c) with
       | None => cpu_out res.1 = cpu_out stats0 ∧ cpu_same σ res.2
       | Some s =>
           cpu_out res.1 = cpu_out (cpuSection s stats0 σ).1
           ∧ cpu_same (cpuSection s stats0 σ).2 res.2
       end
       ∧ match content_of (meminfoContent c) with
         | None => memory_out res.1 = memory_out stats0
         | Some s => memory_out res.1 = memory_out (memorySection s stats0 σ).1
         end
       ∧ match content_of (uptimeContent c) with
         | None => uptime res.1 = uptime stats0
         | Some s => uptime res.1 = uptime (uptimeSection s stats0 σ).1
         end
       ∧ match content_of (loadavgContent c) with
         | None => loadAvg res.1 = loadAvg stats0
         | Some s => loadAvg res.1 = loadAvg (loadSection s stats0 σ).1
         end
       ∧ match content_of (diskstatsContent c) with
         | None =>
             disk_out res.1 = disk_out stats0 ∧ prevDiskStats res.2 = prevDiskStats σ
             ∧ ∀ k, prevPerDiskStats res.2 !! k = prevPerDiskStats σ !! k
                    ∧ perDiskHistories res.2 !! k = perDiskHistories σ !! k
                    ∧ ∀ w, disk_stream res.2 k w = disk_stream σ k w
         | Some s =>
             ∃ n, (ticks σ ≤ n)%nat
                  ∧ prevDiskStats res.2
                    = Some {| d_read := (total_disk_bytes s).1;
                              d_write := (total_disk_bytes s).2;
                              d_timestamp := clock σ n |}
                  ∧ ∀ k cur, obj_get k (reported_disks s) = Some cur →
                             prevPerDiskStats res.2 !! k
                             = Some (disk_snapshot_of (clock σ n) cur)
         end
       ∧ match content_of (netContent c) with
         | None =>
             net_out res.1 = net_out stats0 ∧ prevNetStats res.2 = prevNetStats σ
             ∧ ∀ k, prevPerIfaceStats res.2 !! k = prevPerIfaceStats σ !! k
                    ∧ perIfaceHistories res.2 !! k = perIfaceHistories σ !! k
                    ∧ ∀ w, iface_stream res.2 k w = iface_stream σ k w
         | Some s =>
             ∃ n, (ticks σ ≤ n)%nat
                  ∧ prevNetStats res.2
                    = Some {| n_sent := (total_net_bytes s).1;
                              n_recv := (total_net_bytes s).2;
                              n_timestamp := clock σ n |}
                  ∧ (plain_keys (reported_ifaces s) →
                     ∀ k cur, obj_get k (reported_ifaces s) = Some cur →
                              prevPerIfaceStats res.2 !! k
                              = Some (iface_snapshot_of (clock σ n) cur))
         end).
Proof.
  intros Hwf res. split.
  - intros Hrej. apply await_all_None in Hrej. subst res.
    rewrite (fetchSystemStats_rejected r σ Hrej). cbn [fst snd].
    destruct (update_history_stats0 σ Hwf)
      as (Hg & Ha & ? & ? & ? & ? & ? & ? & ? & ? & ?).
    repeat (split; [done |]). done.
  - intros c Hc.
    pose proof (pass_front r c σ Hwf Hc) as Hfront. fold res in Hfront.
    pose proof (pass_cpu_state r c σ Hwf Hc) as Hcpu. fold res in Hcpu.
    split; [| split; [| split; [| split; [| split]]]].
    + rewrite (front_cpu_out _ _ Hfront), before_disk_cpu_out.
      unfold when_content in *. by destruct (content_of (statContent c)).
    + rewrite (front_memory_out _ _ Hfront).
      destruct (content_of (meminfoContent c)) as [s |] eqn:Hs.
      * by apply before_disk_memory.
      * by apply before_disk_memory_missing.
    + rewrite (front_uptime _ _ Hfront).
      destruct (content_of (uptimeContent c)) as [s |] eqn:Hs.
      * by apply before_disk_uptime.
      * by apply before_disk_uptime_missing.
    + rewrite (front_loadAvg _ _ Hfront).
      destruct (content_of (loadavgContent c)) as [s |] eqn:Hs.
      * by apply before_disk_loadAvg.
      * by apply before_disk_loadAvg_missing.
    + destruct (content_of (diskstatsContent c)) as [s |] eqn:Hs.
      * destruct (pass_disk r c s σ Hwf Hc Hs) as (n & Hle & _ & Hp & _ & _ & Hk).
        fold res in Hp, Hk. exists n. split; [done |]. split; [done |].
        intros k cur Hcur. specialize (Hk k). unfold reported_disks in Hcur.
        unfold disk_key_effect in Hk. rewrite Hcur in Hk. by destruct Hk as [? _].
      * destruct (pass_disk_skipped r σ Hwf) as (_ & Hp & Ho & Hk); [eauto |].
        fold res in Hp, Ho, Hk. split; [done |]. split; [done |].
        intros k. destruct (Hk 0 k) as (? & _ & ? & ?). done.
    + destruct (content_of (netContent c)) as [s |] eqn:Hs.
      * destruct (pass_net r c s σ Hwf Hc Hs) as (n & Hle & _ & Hp & _ & _ & _ & Hk).
        fold res in Hp, Hk. exists n. split; [done |]. split; [done |].
        intros Hpl k cur Hcur. specialize (Hk Hpl k). unfold reported_ifaces in Hcur.
        unfold iface_key_effect in Hk. rewrite Hcur in Hk. by destruct Hk as [? _].
      * destruct (pass_net_skipped r σ Hwf) as (_ & Hp & Ho & Hk); [eauto |].
        fold res in Hp, Ho, Hk. split; [done |]. split; [done |].
        intros k. destruct (Hk 0 k) as (? & _ & ? & ?). done.
Qed.

Lemma rejected_read_skips_every_family_witness :
  let σ := run_passes [full 0] (init sample_clock) in
  let res := fetchSystemStats (net_rejected (full 1)) σ in
  res.1 = stats0 ∧ prevCpuTimes res.2 = prevCpuTimes σ
  ∧ prevDiskStats res.2 = prevDiskStats σ.
Proof.
  intros σ res.
  assert (Hwf : wf σ) by (apply fetchSystemStats_wf, wf_init).
  destruct (rejected_read_skips_every_family (net_rejected (full 1)) σ Hwf) as [H _].
  destruct H as (H1 & H2 & _ & H3 & _).
  - unfold some_rejected. rewrite !elem_of_cons. do 5 right. left. reflexivity.
  - exact (conj H1 (conj H2 H3)).
Defined.

(** C2 as the specification states it fails.  After a first pass, a second
    pass in which only the read of /proc/net/dev is rejected processes no
    family at all: the CPU usage, the memory total, the uptime and the disk
    rate of its result are the initial values and the previous CPU ticks and
    disk totals are still those of the first pass.  The same pass with the
    network text merely missing processes the other families: CPU usage 50,
    memory total 16000, a disk rate, new previous ticks and totals. *)
Lemma rejected_read_counterexample :
  let σ := run_passes [full 0] (init sample_clock) in
  let failed := fetchSystemStats (net_rejected (full 1)) σ in
  let missing := fetchSystemStats (net_missing (full 1)) σ in
  some_rejected (net_rejected (full 1))
  ∧ r_stat (net_rejected (full 1)) = r_stat (full 1)
  ∧ prevCpuTimes σ = Some (num_of_Z <$> [100; 0; 50; 800; 50; 0; 0; 0])
  ∧ (cpuUsage failed.1 = Num 0 ∧ memoryTotal failed.1 = Num 0 ∧ uptime failed.1 = ""
     ∧ diskReadRate failed.1 = Num 0
     ∧ prevCpuTimes failed.2 = prevCpuTimes σ
     ∧ prevDiskStats failed.2 = prevDiskStats σ)
  ∧ (cpuUsage missing.1 = Num 50 ∧ memoryTotal missing.1 = Num 16000
     ∧ uptime missing.1 = "1d 2h 3m"
     ∧ diskReadRate missing.1 = Num (512 # 9)
     ∧ prevCpuTimes missing.2 = Some (num_of_Z <$> [120; 0; 60; 820; 60; 0; 0; 0])
     ∧ prevDiskStats missing.2
       = Some {| d_read := Num 524288; d_write := Num 1048576; d_timestamp := 10000 |}).
Proof.
  split.
  { unfold some_rejected. rewrite !elem_of_cons. do 5 right. left. reflexivity. }
  vm_compute. repeat split.
Qed.

(** ** The read rate of a device *)

Lemma parseInt_pretty n : (0 ≤ n)%Z → parseInt (pretty n) = num_of_Z n.
Proof.
  intros Hn. destruct (pretty_Z_digits n Hn) as (Hd & Hv & Hne).
  destruct (parseInt_digits (pretty n) Hd Hne) as [-> _]. by rewrite Hv.
Qed.

Lemma nmul_Z a b : nmul (num_of_Z a) (num_of_Z b) = num_of_Z (a * b).
Proof.
  unfold nmul, lift2, num_of_Z. f_equal. rewrite <- (Qred_inject_Z (a * b)).
  apply Qred_complete. by rewrite inject_Z_mult.
Qed.

(** A row of /proc/diskstats as the kernel prints it. *)
Lemma disk_row_columns (lead trail first : string) (rest : list (string * string))
    (name : string) (rd wr : Z) :
  all_ws lead = true → all_ws trail = true → token first →
  Forall (λ sc, separator sc.1 ∧ token sc.2) rest →
  (13 ≤ List.length rest)%nat →
  rest.*2 !! 1%nat = Some name → is_whole_disk name = true →
  rest.*2 !! 4%nat = Some (pretty rd) → rest.*2 !! 8%nat = Some (pretty wr) →
  (0 ≤ rd)%Z → (0 ≤ wr)%Z →
  disk_row (lead +:+ columns first rest +:+ trail)
  = Some (name, (num_of_Z (rd * 512), num_of_Z (wr * 512))).
Proof.
  intros Hl Ht Hf Hr Hlen Hname Hwhole Hrd Hwr Hrd0 Hwr0. unfold disk_row.
  rewrite fields_columns by done. cbn [List.length].
  rewrite length_fmap.
  destruct (Nat.leb_spec 14 (S (List.length rest))) as [_ | ?]; [| lia].
  change ((first :: rest.*2) !! 2%nat) with (rest.*2 !! 1%nat).
  change ((first :: rest.*2) !! 5%nat) with (rest.*2 !! 4%nat).
  change ((first :: rest.*2) !! 9%nat) with (rest.*2 !! 8%nat).
  rewrite Hname, Hrd, Hwr. unfold default, id. cbn [from_option]. rewrite Hwhole.
  by rewrite !parseInt_pretty, !nmul_Z by done.
Qed.

Lemma rate_of_sectors (a b : Z) (t0 t1 : Z) rate :
  rate_between (inject_Z (a * 512)) (inject_Z (b * 512)) t0 t1 rate →
  ∃ q, rate = Num q
       ∧ (q == Qmax 0 (inject_Z ((b - a) * 512) / 1024 / (inject_Z (t1 - t0) / 1000)))%Q.
Proof.
  intros (q & -> & Hq). exists q. split; [done |]. rewrite Hq.
  replace ((b - a) * 512)%Z with (b * 512 - a * 512)%Z by lia.
  assert (E : (inject_Z (b * 512 - a * 512) == inject_Z (b * 512) - inject_Z (a * 512))%Q).
  { unfold Z.sub, Qminus. by rewrite inject_Z_plus, inject_Z_opp. }
  by rewrite E.
Qed.

(** A rate that comes out a whole number is that number. *)
Lemma kb_rate_whole (c p : Q) (t0 t1 v : Z) :
  (t0 < t1)%Z → (0 ≤ v)%Z →
  ((c - p) / 1024 / (inject_Z (t1 - t0) / 1000) == inject_Z v)%Q →
  kb_rate (Num c) (Num p) (seconds_since t1 t0) = num_of_Z v.
Proof.
  intros Hlt Hv Hval. destruct (seconds_since_num t1 t0) as (q & Hq & Eq).
  assert (Hpos : (0 < q)%Q).
  { apply ngt_zero. rewrite <- Hq. by apply seconds_since_pos. }
  rewrite Hq. unfold kb_rate, math_max, ndiv, nsub, lift2, num_of_Z.
  change (Qeq_bool (inject_Z 1024) 0) with false. cbn match.
  destruct (Qeq_bool q 0) eqn:E.
  { apply Qeq_bool_iff in E. rewrite E in Hpos. by apply Qlt_irrefl in Hpos. }
  f_equal.
  match goal with |- context [Qle_bool _ (Qred ?w)] => set (w0 := w) end.
  assert (Hw : (w0 == inject_Z v)%Q).
  { subst w0. rewrite !Qred_correct, Eq. exact Hval. }
  assert (Hy : Qred w0 = inject_Z v).
  { rewrite <- (Qred_inject_Z v). by apply Qred_complete. }
  rewrite Hy.
  assert (Hle : Qle_bool (inject_Z 0) (inject_Z v) = true).
  { apply Qle_bool_iff. rewrite <- Zle_Qle. done. }
  by rewrite Hle.
Qed.

(** C9.  A row of /proc/diskstats gives the name of the device in its third
    column and the sectors read and written in its sixth and tenth; the
    engine multiplies each by 512 to get bytes.  In a pass that reports a
    device for which a snapshot is stored, the read rate of the device is
    the difference of the byte counters divided by 1024 and by the seconds
    from the time of the snapshot to the time the disk section reads from
    the clock, or 0 when that is negative; the new counters are stored with
    the new time.  With 1000 then 1512 sectors read and 1000 ms between the
    two times the read rate is 256. *)
Theorem disk_read_rate :
  (∀ (lead trail first : string) (rest : list (string * string)) (name : string) (rd wr : Z),
     all_ws lead = true → all_ws trail = true → token first →
     Forall (λ sc, separator sc.1 ∧ token sc.2) rest →
     ascii_text (lead +:+ columns first rest +:+ trail) = true →
     (13 ≤ List.length rest)%nat →
     rest.*2 !! 1%nat = Some name → is_whole_disk name = true →
     rest.*2 !! 4%nat = Some (pretty rd) → rest.*2 !! 8%nat = Some (pretty wr) →
     (0 ≤ rd < 2 ^ 53)%Z → (0 ≤ wr < 2 ^ 53)%Z →
     disk_row (lead +:+ columns first rest +:+ trail)
     = Some (name, (num_of_Z (rd * 512), num_of_Z (wr * 512))))
  ∧ (∀ (r : reads) (c : contents) (s : string) (σ : engine) (k : string)
       (p : DiskSnapshot) (a a' b b' : Z),
       wf σ → await_all r = Some c → content_of (diskstatsContent c) = Some s →
       obj_get k (reported_disks s) = Some (num_of_Z (b * 512), num_of_Z (b' * 512)) →
       prevPerDiskStats σ !! k = Some p →
       d_read p = num_of_Z (a * 512) → d_write p = num_of_Z (a' * 512) →
       earlier (d_timestamp p) σ →
       let res := fetchSystemStats r σ in
       ∃ n sample q q',
         (ticks σ ≤ n)%nat
         ∧ prevPerDiskStats res.2 !! k
           = Some {| d_read := num_of_Z (b * 512); d_write := num_of_Z (b' * 512);
                     d_timestamp := clock σ n |}
         ∧ perDiskStats res.1 !! k = Some sample
         ∧ readRate sample = Num q ∧ writeRate sample = Num q'
         ∧ (q == Qmax 0 (inject_Z ((b - a) * 512) / 1024
                         / (inject_Z (clock σ n - d_timestamp p) / 1000)))%Q
         ∧ (q' == Qmax 0 (inject_Z ((b' - a') * 512) / 1024
                          / (inject_Z (clock σ n - d_timestamp p) / 1000)))%Q
         ∧ (a = 1000%Z → b = 1512%Z → clock σ n = (d_timestamp p + 1000)%Z →
            readRate sample = Num 256)).
Proof.
  split.
  - intros lead trail first rest name rd wr Hl Ht Hf Hr _ Hlen Hname Hw Hrd Hwr [Hrd0 _] [Hwr0 _].
    by apply disk_row_columns.
  - intros r c s σ k p a a' b b' Hwf Hc Hs Hcur Hp Ha Ha' He res.
    destruct (pass_disk r c s σ Hwf Hc Hs) as (n & Hn & _ & _ & _ & _ & Hk).
    fold res in Hk. specialize (He n Hn). specialize (Hk k).
    unfold reported_disks in Hcur. unfold disk_key_effect in Hk.
    rewrite Hcur, Hp, disk_sample_elapsed in Hk by done.
    destruct Hk as (Hsnap & Hsmp & _). cbn [fst snd] in Hsmp.
    rewrite Ha, Ha' in Hsmp. unfold num_of_Z in Hsmp.
    destruct (rate_of_sectors a b (d_timestamp p) (clock σ n) _
                (kb_rate_between _ _ _ _ He)) as (q & Hq & Eq).
    destruct (rate_of_sectors a' b' (d_timestamp p) (clock σ n) _
                (kb_rate_between _ _ _ _ He)) as (q' & Hq' & Eq').
    eexists n, _, q, q'. split; [done |]. split; [exact Hsnap |].
    split; [exact Hsmp |]. cbn [readRate writeRate].
    split; [exact Hq |]. split; [exact Hq' |]. split; [exact Eq |]. split; [exact Eq' |].
    intros -> -> Ht. apply (kb_rate_whole _ _ _ _ 256); [done | done |].
    rewrite Ht. replace (d_timestamp p + 1000 - d_timestamp p)%Z with 1000%Z by lia.
    reflexivity.
Qed.

Lemma disk_read_rate_witness :
  let first := with_diskstats
                 (unlines ["   8       0 sda 120 4 1000 35 60 2 2000 49 0 70 84 0 0 0 0"])
                 no_reads in
  let second := with_diskstats
                  (unlines ["   8       0 sda 150 4 1512 39 61 2 2000 50 0 75 89 0 0 0 0"])
                  no_reads in
  let σ := run_passes [first] (init (step_clock 7 5000 6000)) in
  let res := fetchSystemStats second σ in
  disk_row "   8       0 sda 150 4 1512 39 61 2 2000 50 0 75 89 0 0 0 0"
  = Some ("sda", (num_of_Z (1512 * 512), num_of_Z (2000 * 512)))
  ∧ prevPerDiskStats σ !! "sda"
    = Some {| d_read := Num 512000; d_write := Num 1024000; d_timestamp := 5000 |}
  ∧ ∃ sample, perDiskStats res.1 !! "sda" = Some sample ∧ readRate sample = Num 256.
Proof.
  intros first second σ res. split; [| split].
  - refine (proj1 disk_read_rate "   " "" "8"
              [("       ", "0"); (" ", "sda"); (" ", "150"); (" ", "4"); (" ", "1512");
               (" ", "39"); (" ", "61"); (" ", "2"); (" ", "2000"); (" ", "50"); (" ", "0");
               (" ", "75"); (" ", "89"); (" ", "0"); (" ", "0"); (" ", "0"); (" ", "0")]
              "sda" 1512 2000 _ _ _ _ _ _ _ _ _ _ _ _);
      try reflexivity; try (cbn; lia); try (split; [done | reflexivity]); try lia.
    repeat apply Forall_cons_2; try apply Forall_nil_2;
      (split; (split; [done | reflexivity])).
  - vm_compute. reflexivity.
  - assert (Hwf : wf σ) by (apply fetchSystemStats_wf, wf_init).
    eassert (Hc : await_all second = Some _) by reflexivity.
    assert (Hp : prevPerDiskStats σ !! "sda"
                 = Some {| d_read := Num 512000; d_write := Num 1024000;
                           d_timestamp := 5000 |}) by (vm_compute; reflexivity).
    assert (Ht : ticks σ = 7%nat) by (vm_compute; reflexivity).
    assert (Hclk : ∀ m, (7 ≤ m)%nat → clock σ m = 6000%Z).
    { intros m Hm. change (clock σ m) with (step_clock 7 5000 6000 m).
      unfold step_clock. destruct (Nat.ltb_spec m 7); [lia | done]. }
    destruct (proj2 disk_read_rate second _ _ σ "sda"
                {| d_read := Num 512000; d_write := Num 1024000; d_timestamp := 5000 |}
                1000 2000 1512 2000 Hwf Hc eq_refl) as (n & sample & q & q' & Hn & _ & Hsmp & _ & _ & _ & _ & H256).
    + vm_compute. reflexivity.
    + exact Hp.
    + reflexivity.
    + reflexivity.
    + intros m Hm. rewrite Ht in Hm. rewrite (Hclk m Hm). cbn. lia.
    + exists sample. split; [exact Hsmp |]. apply H256; [done | done |].
      rewrite Ht in Hn. rewrite (Hclk n Hn). reflexivity.
Defined.

(** ** The figures of /proc/meminfo *)

Lemma letter_not_colon c : is_letter c = true → c ≠ ":"%char.
Proof. intros H ->. done. Qed.

Lemma letters_no_colon key : str_forall is_letter key = true → no_colon key = true.
Proof.
  intros H. eapply str_forall_impl; [| exact H].
  intros c Hc. pose proof (letter_not_colon c Hc). by destruct (decide (c = ":"%char)).
Qed.

Lemma no_colon_cons a s : no_colon (String a s) = true ↔ a ≠ ":"%char ∧ no_colon s = true.
Proof.
  unfold no_colon. cbn [str_forall]. destruct (decide (a = ":"%char)) as [E | E]; cbn.
  - split; [done | by intros [? _]].
  - split; [by intros ? | by intros [_ ?]].
Qed.

(** The pattern [key:] at a place where a name without colon is followed by
    a colon: it is there exactly when the rest of the name is the key. *)
Lemma drop_prefix_key key : ∀ suf t,
  no_colon key = true → no_colon suf = true →
  drop_prefix (key +:+ ":") (suf +:+ ":" +:+ t) = if decide (suf = key) then Some t else None.
Proof.
  induction key as [| k key IH]; intros suf t Hk Hs.
  - destruct suf as [| a suf]; [done |]. apply no_colon_cons in Hs as [Ha Hs].
    change (drop_prefix ("" +:+ ":") (String a suf +:+ ":" +:+ t))
      with (if decide (":"%char = a) then Some (suf +:+ ":" +:+ t) else None).
    repeat case_decide; congruence.
  - apply no_colon_cons in Hk as [Hkc Hk].
    destruct suf as [| a suf].
    + change (drop_prefix (String k key +:+ ":") ("" +:+ ":" +:+ t))
        with (if decide (k = ":"%char) then drop_prefix (key +:+ ":") t else None).
      repeat case_decide; congruence.
    + apply no_colon_cons in Hs as [Ha Hs].
      change (drop_prefix (String k key +:+ ":") (String a suf +:+ ":" +:+ t))
        with (if decide (k = a) then drop_prefix (key +:+ ":") (suf +:+ ":" +:+ t) else None).
      rewrite IH by done. repeat case_decide; congruence.
Qed.

(** The pattern is not found where text without colon runs up to a
    character that is neither a letter nor a colon. *)
Lemma drop_prefix_letters key : ∀ w c t,
  str_forall is_letter key = true → no_colon w = true →
  is_letter c = false → c ≠ ":"%char →
  drop_prefix (key +:+ ":") (w +:+ String c t) = None.
Proof.
  induction key as [| k key IH]; intros w c t Hk Hw Hc Hcc.
  - destruct w as [| a w].
    + change (drop_prefix ("" +:+ ":") ("" +:+ String c t))
        with (if decide (":"%char = c) then Some t else None).
      case_decide; congruence.
    + apply no_colon_cons in Hw as [Ha Hw].
      change (drop_prefix ("" +:+ ":") (String a w +:+ String c t))
        with (if decide (":"%char = a) then Some (w +:+ String c t) else None).
      case_decide; congruence.
  - cbn [str_forall] in Hk. apply andb_true_iff in Hk as [Hk1 Hk].
    destruct w as [| a w].
    + change (drop_prefix (String k key +:+ ":") ("" +:+ String c t))
        with (if decide (k = c) then drop_prefix (key +:+ ":") t else None).
      case_decide; [congruence | done].
    + apply no_colon_cons in Hw as [Ha Hw].
      change (drop_prefix (String k key +:+ ":") (String a w +:+ String c t))
        with (if decide (k = a) then drop_prefix (key +:+ ":") (w +:+ String c t) else None).
      case_decide; [by apply IH | done].
Qed.

Lemma drop_prefix_at_colon key t :
  key ≠ "" → str_forall is_letter key = true →
  drop_prefix (key +:+ ":") (String ":" t) = None.
Proof.
  intros Hne Hk. destruct key as [| k key]; [done |].
  cbn [str_forall] in Hk. apply andb_true_iff in Hk as [Hk1 _].
  change (drop_prefix (String k key +:+ ":") (String ":" t))
    with (if decide (k = ":"%char) then drop_prefix (key +:+ ":") t else None).
  case_decide; [| done]. subst k. done.
Qed.

Lemma capture_at_no_prefix key s : drop_prefix (key +:+ ":") s = None → capture_at key s = None.
Proof. unfold capture_at. by intros ->. Qed.

Lemma first_capture_step key c t :
  capture_at key (String c t) = None → first_capture key (String c t) = first_capture key t.
Proof. intros H. cbn [first_capture]. by rewrite H. Qed.

(** Nothing is found in what follows the colon of a line, up to its end. *)
Lemma first_capture_region key u rest :
  str_forall is_letter key = true → no_colon u = true →
  first_capture key (u +:+ nl +:+ rest) = first_capture key rest.
Proof.
  intros Hk. induction u as [| a u IH]; intros Hu.
  - rewrite str_app_nil_l. apply first_capture_step, capture_at_no_prefix.
    by apply (drop_prefix_letters key "" newline rest).
  - rewrite str_app_cons. rewrite first_capture_step.
    + apply IH. by apply no_colon_cons in Hu as [_ ?].
    + apply capture_at_no_prefix.
      by apply (drop_prefix_letters key (String a u) newline rest).
Qed.

Lemma capture_number blanks n tail :
  all_ws blanks = true → (0 ≤ n)%Z → head_is is_digit tail = false →
  digits (trim_start (blanks +:+ pretty n +:+ tail)) = (n, String.length (pretty n), tail)
  ∧ String.length (pretty n) ≠ 0%nat.
Proof.
  intros Hb Hn Ht. destruct (pretty_Z_digits n Hn) as (Hd & Hv & Hne).
  rewrite trim_start_ws by done. rewrite trim_start_head.
  - unfold digits. rewrite digits_from_app by done. rewrite Hv. split; [done |].
    by destruct (pretty n).
  - rewrite head_is_app by done. destruct (pretty n) as [| c s]; [done |]. cbn in *.
    apply andb_true_iff in Hd as [Hc _]. by apply digit_not_ws.
Qed.

Lemma meminfo_line_scan key name blanks n unit rest :
  key ≠ "" → str_forall is_letter key = true →
  meminfo_row_ok (name, blanks, n, unit) →
  first_capture key (meminfo_line (name, blanks, n, unit) +:+ nl +:+ rest)
  = if ends_with key name then Some n else first_capture key rest.
Proof.
  intros Hne Hk (Hname & Hb & Hn & Hu & Hd). unfold meminfo_line.
  assert (Hkc : no_colon key = true) by (by apply letters_no_colon).
  assert (Hbody : no_colon (blanks +:+ pretty n +:+ unit) = true).
  { unfold no_colon. rewrite !str_forall_app. apply andb_true_iff. split.
    - eapply str_forall_impl; [| exact Hb]. intros c Hc.
      destruct (decide (c = ":"%char)) as [-> |]; done.
    - apply andb_true_iff. split; [| exact Hu].
      destruct (pretty_Z_digits n Hn) as (Hdg & _ & _). rewrite all_digits_forall in Hdg.
      eapply str_forall_impl; [| exact Hdg]. intros c Hc.
      destruct (decide (c = ":"%char)) as [-> |]; done. }
  assert (Htail : head_is is_digit (unit +:+ nl +:+ rest) = false).
  { destruct unit as [| c unit]; [done |]. exact Hd. }
  destruct (capture_number blanks n (unit +:+ nl +:+ rest) Hb Hn Htail) as [Hcap Hlen].
  replace ((name +:+ ":" +:+ blanks +:+ pretty n +:+ unit) +:+ nl +:+ rest)
    with (name +:+ ":" +:+ (blanks +:+ pretty n +:+ unit) +:+ nl +:+ rest)
    by (by rewrite !str_app_assoc).
  induction name as [| a name IH].
  - rewrite str_app_nil_l. cbn [ends_with]. rewrite decide_False by done.
    change (":" +:+ ?x) with (String ":" x). rewrite first_capture_step.
    + by apply first_capture_region.
    + apply capture_at_no_prefix.
      by apply drop_prefix_at_colon.
  - apply no_colon_cons in Hname as [Ha Hname'].
    cbn [ends_with].
    assert (Hat : capture_at key (String a name +:+ ":" +:+ (blanks +:+ pretty n +:+ unit)
                                  +:+ nl +:+ rest)
                  = if decide (String a name = key) then Some n else None).
    { unfold capture_at.
      rewrite drop_prefix_key; [| done | by apply no_colon_cons].
      destruct (decide (String a name = key)); [| done].
      replace ((blanks +:+ pretty n +:+ unit) +:+ nl +:+ rest)
        with (blanks +:+ pretty n +:+ unit +:+ nl +:+ rest) by (by rewrite !str_app_assoc).
      rewrite Hcap. by destruct (Nat.eqb_spec (String.length (pretty n)) 0). }
    destruct (decide (String a name = key)) as [E | E].
    + rewrite str_app_cons in Hat |- *. cbn [first_capture]. by rewrite Hat.
    + rewrite str_app_cons in Hat |- *. rewrite first_capture_step by done.
      by apply IH.
Qed.

Lemma meminfo_text_scan key rows :
  key ≠ "" → str_forall is_letter key = true → Forall meminfo_row_ok rows →
  meminfo_value (meminfo_text rows) key = meminfo_figure key rows.
Proof.
  intros Hne Hk Hall. unfold meminfo_value, meminfo_figure, meminfo_text.
  induction Hall as [| [[[name blanks] n] unit] rows Hrow _ IH].
  - cbn. unfold capture_at. destruct key as [| k key]; [done |]. done.
  - rewrite fmap_cons, unlines_cons. rewrite meminfo_line_scan by done.
    cbn [List.find fst]. destruct (ends_with key name); [done |]. exact IH.
Qed.

Lemma getVal_value s key : getVal s key = num_of_Z (meminfo_value s key).
Proof. unfold getVal, meminfo_value. by destruct (first_capture key s). Qed.

Lemma meminfo_value_nonneg s key : (0 ≤ meminfo_value s key)%Z.
Proof.
  unfold meminfo_value. destruct (first_capture key s) as [v |] eqn:Hv; [| done].
  by eapply first_capture_nonneg.
Qed.

Lemma memorySection_values s st σ :
  let v := meminfo_value s in
  let cached := (v "Cached" + v "Buffers" + v "SReclaimable")%Z in
  memory_out (memorySection s st σ).1
  = (num_of_Z (v "MemTotal"), num_of_Z (v "MemTotal" - v "MemFree" - cached),
     num_of_Z (v "MemFree"), num_of_Z cached,
     num_of_Z (v "SwapTotal"), num_of_Z (v "SwapTotal" - v "SwapFree")).
Proof.
  intros v cached. unfold memorySection, ret, memory_out. cbn [fst].
  cbn [memoryTotal memoryUsed memoryFree memoryCached swapTotal swapUsed
       with_memoryTotal with_memoryUsed with_memoryFree with_memoryCached
       with_swapTotal with_swapUsed].
  by rewrite !getVal_value, !nadd_Z, !nsub_Z.
Qed.

(** X10.  In a pass that reads the memory text, a text of ASCII characters
    whose numbers have at most 308 digits, each memory figure of the result
    is read from the text: the value of a key is the number that follows
    the leftmost place where the key, a colon and white space precede
    digits, and 0 when the text has no such place.  The total is the value
    of [MemTotal], free that of [MemFree], cached the sum of those of
    [Cached], [Buffers] and [SReclaimable], used is total - free - cached,
    the swap total is the value of [SwapTotal] and the swap used is that
    minus the value of [SwapFree].  The values are whole numbers, none
    negative.  On a text laid out as the kernel prints it, one line per
    figure with its name, a colon, blanks, the number and a unit, the value
    of a key is the number of the first line whose name ends with the key.
    The point appended to the memory stream is a number not above 100: the
    share of the used amount when the total is positive, 0 when it is
    not. *)
Theorem memory_figures (r : reads) (c : contents) (s : string) (σ : engine) :
  wf σ → await_all r = Some c → content_of (meminfoContent c) = Some s →
  ascii_text s = true → finite_numbers s = true →
  let res := fetchSystemStats r σ in
  let v := meminfo_value s in
  let cached := (v "Cached" + v "Buffers" + v "SReclaimable")%Z in
  let used := (v "MemTotal" - v "MemFree" - cached)%Z in
  memoryTotal res.1 = num_of_Z (v "MemTotal")
  ∧ memoryFree res.1 = num_of_Z (v "MemFree")
  ∧ memoryCached res.1 = num_of_Z cached
  ∧ memoryUsed res.1 = num_of_Z used
  ∧ swapTotal res.1 = num_of_Z (v "SwapTotal")
  ∧ swapUsed res.1 = num_of_Z (v "SwapTotal" - v "SwapFree")
  ∧ (∀ key, (0 ≤ v key)%Z ∧ (first_capture key s = None → v key = 0%Z))
  ∧ (∀ rows key, s = meminfo_text rows → Forall meminfo_row_ok rows →
       key ≠ "" → str_forall is_letter key = true →
       v key = meminfo_figure key rows)
  ∧ ∃ t q, last (contents_of res.2 (GlobalArr memory))
           = Some {| timestamp := t; value := Num q |}
           ∧ (q <= 100)%Q
           ∧ (q == if decide (v "MemTotal" = 0%Z) then 0
                   else inject_Z (100 * used) / inject_Z (v "MemTotal"))%Q.
Proof.
  intros Hwf Hc Hs _ _ res v cached used. subst res.
  pose proof (pass_front r c σ Hwf Hc) as Hfront.
  assert (Hmem : memory_out (fetchSystemStats r σ).1 = memory_out (before_disk c σ).1).
  { change (memory_out (fetchSystemStats r σ).1) with (front (fetchSystemStats r σ).1).1.1.2.
    by rewrite Hfront. }
  rewrite (before_disk_memory c σ s Hs), memorySection_values in Hmem.
  unfold memory_out in Hmem. injection Hmem as Ht Hu Hf Hca Hsw Hsu.
  do 6 (split; [done |]).
  split.
  { intros key. split; [apply meminfo_value_nonneg |].
    intros Hnone. unfold v, meminfo_value. by rewrite Hnone. }
  split.
  { intros rows key -> Hrows Hne Hk. by apply meminfo_text_scan. }
  destruct (pass_last_point r σ memory Hwf) as [_ Hlast].
  unfold stream_value, memory_percent in Hlast. rewrite Ht, Hu in Hlast.
  pose proof (meminfo_value_nonneg s "MemTotal"). pose proof (meminfo_value_nonneg s "MemFree").
  pose proof (meminfo_value_nonneg s "Cached"). pose proof (meminfo_value_nonneg s "Buffers").
  pose proof (meminfo_value_nonneg s "SReclaimable").
  destruct (memory_percent_le used (v "MemTotal")) as (q & Hq & Hle & Hval);
    [done | unfold used, cached, v; lia |].
  unfold used, cached, v in Hq. rewrite Hq in Hlast.
  eexists _, q. split; [exact Hlast |]. split; [done |]. exact Hval.
Qed.

Lemma memory_figures_witness :
  let rows := [("MemTotal", "       ", 16000%Z, " kB"); ("MemFree", "        ", 4000%Z, " kB");
               ("MemAvailable", "   ", 9000%Z, " kB"); ("Buffers", "        ", 500%Z, " kB");
               ("Cached", "         ", 3000%Z, " kB"); ("SwapCached", "     ", 7%Z, " kB");
               ("SwapTotal", "      ", 2048%Z, " kB"); ("SwapFree", "       ", 1024%Z, " kB");
               ("SReclaimable", "   ", 500%Z, " kB"); ("HugePages_Total", "       ", 0%Z, "")] in
  let res := fetchSystemStats (with_meminfo (meminfo_text rows) no_reads) (init sample_clock) in
  memoryTotal res.1 = Num 16000 ∧ memoryFree res.1 = Num 4000
  ∧ memoryCached res.1 = Num 4000 ∧ memoryUsed res.1 = Num 8000
  ∧ swapTotal res.1 = Num 2048 ∧ swapUsed res.1 = Num 1024
  ∧ meminfo_value (meminfo_text rows) "Cached" = meminfo_figure "Cached" rows
  ∧ ∃ t, last (contents_of res.2 (GlobalArr memory))
         = Some {| timestamp := t; value := Num 50 |}.
Proof.
  intros rows res.
  destruct (memory_figures (with_meminfo (meminfo_text rows) no_reads) _ (meminfo_text rows)
              (init sample_clock) (wf_init _) eq_refl eq_refl)
    as (H1 & H2 & H3 & H4 & H5 & H6 & _ & H8 & _).
  - vm_compute. reflexivity.
  - vm_compute. reflexivity.
  - split; [exact H1 |]. split; [exact H2 |]. split; [exact H3 |]. split; [exact H4 |].
    split; [exact H5 |]. split; [exact H6 |]. split.
    + apply (H8 rows "Cached" eq_refl); [| done | reflexivity].
      repeat apply Forall_cons_2; try apply Forall_nil_2; repeat split; done.
    + vm_compute. eexists. reflexivity.
Defined.

(** ** The names of the disk records *)

Lemma lower_not_digit ch : is_lower ch = true → is_digit ch = false.
Proof.
  intros H. destruct (is_digit ch) eqn:E; [| done].
  apply digit_not_lower in E. congruence.
Qed.

(** A name that passes the device filter is no name that every object
    inherits and no array index. *)
Lemma whole_disk_plain name :
  is_whole_disk name = true → inherited name = false ∧ array_index name = None.
Proof.
  intros Hw. split.
  - unfold inherited. apply bool_decide_eq_false. intros Hin.
    unfold inherited_names in Hin. rewrite !elem_of_cons, elem_of_nil in Hin.
    destruct Hin as [-> | [-> | [-> | [-> | [-> | [-> | [-> | [-> | [-> | [-> | [-> | [-> | []]]]]]]]]]]]];
      vm_compute in Hw; done.
  - unfold is_whole_disk in Hw. apply andb_true_iff in Hw as [Hp _].
    apply has_disk_prefix_spec in Hp as (p & ch & rest & Hp & -> & Hch).
    unfold disk_prefixes in Hp. rewrite !elem_of_cons, elem_of_nil in Hp.
    unfold array_index.
    destruct Hp as [-> | [-> | [-> | [-> | [-> | []]]]]];
      (unfold digits; rewrite str_app_cons; cbn [digits_from];
       match goal with
       | |- context [is_digit ?c] => change (is_digit c) with false
       end;
       cbv iota; case_decide as Hd; [by destruct Hd | done]).
Qed.

(** The record of the devices a text reports owns plain names only:
    [Object.entries] lists its entries in the order of their creation, and a
    lookup under one of its names finds an entry the record owns or
    nothing. *)
Lemma reported_disks_plain s :
  plain_keys (reported_disks s) ∧ entries (reported_disks s) = reported_disks s.
Proof.
  assert (H : Forall (λ k, is_whole_disk k = true) (obj_keys (reported_disks s))).
  { apply Forall_forall. intros k Hk. apply obj_get_is_Some in Hk as [c Hc].
    unfold reported_disks in Hc. apply scan_key in Hc as (line & c' & _ & Hrow).
    by eapply disk_row_whole. }
  split.
  - unfold plain_keys. eapply Forall_impl; [exact H |].
    intros k Hk. by apply whole_disk_plain.
  - apply entries_no_index. eapply Forall_impl; [exact H |].
    intros k Hk. by apply whole_disk_plain.
Qed.

